(** * OpenPGP.js: public-key dispatcher, PKESK and Secret-Key packets

    A shallow embedding of the public-key cryptographic dispatcher
    ([src/crypto/crypto.js], [src/crypto/signature.js]), of the composite
    post-quantum KEM ([src/crypto/public_key/post_quantum/kem/kem.js]), of
    the Public-Key Encrypted Session Key packet
    ([src/packet/public_key_encrypted_session_key.js]) and of the Secret-Key
    packet ([src/packet/secret_key.js]), followed by the properties proved
    about them.

    Conventions.  A [Uint8Array] is a list of integers in [0, 256).  A
    function that may throw returns a [result]; [async] functions are
    modelled by their settled value.  The primitive cryptography and the
    modules that are not part of the sources at hand are collected in the
    record [Primitives]: every definition and every theorem is parametric
    in it. *)

From Stdlib Require Import ZArith List String Ascii Bool Lia.
Import ListNotations.
Local Open Scope Z_scope.

(* ================================================================== *)
(** * Part I.  Definitions                                             *)
(* ================================================================== *)

(** ** Byte buffers, exceptions, JavaScript values *)

Definition bytes := list Z.

Definition is_byte (b : Z) : Prop := 0 <= b < 256.
Definition wf_bytes (bs : bytes) : Prop := Forall is_byte bs.

Definition len (bs : bytes) : Z := Z.of_nat (List.length bs).

Inductive exn : Type :=
| Error (msg : string)
| UnsupportedError (msg : string)
| TypeError (msg : string).

Inductive result (A : Type) : Type :=
| Ok (a : A)
| Throw (e : exn).
Arguments Ok {A} a.
Arguments Throw {A} e.

Definition bind {A B : Type} (r : result A) (k : A -> result B) : result B :=
  match r with
  | Ok a => k a
  | Throw e => Throw e
  end.

Notation "x <- r ;; k" := (bind r (fun x => k))
  (at level 61, r at next level, right associativity).
Notation "' pat <- r ;; k" := (bind r (fun x => let 'pat := x in k))
  (at level 61, pat pattern, r at next level, right associativity).

Definition throws {A : Type} (r : result A) : Prop :=
  exists e, r = Throw e.

(** [array.map(f)] with a callback that may throw: the elements are
    visited in order and the first exception ends the call. *)
Fixpoint mapM {A B : Type} (f : A -> result B) (l : list A) : result (list B) :=
  match l with
  | [] => Ok []
  | x :: rest =>
      y <- f x ;;
      ys <- mapM f rest ;;
      Ok (y :: ys)
  end.

(** [err.message] *)
Definition message (e : exn) : string :=
  match e with
  | Error msg => msg
  | UnsupportedError msg => msg
  | TypeError msg => msg
  end.

(** The values an algorithm field can hold: [null], [undefined] or a
    number. *)
Inductive jsval : Type :=
| JNull
| JUndefined
| JNum (n : Z).

Definition truthy (v : jsval) : bool :=
  match v with
  | JNum n => negb (n =? 0)
  | _ => false
  end.

(** [a === b] *)
Definition strict_eq (a b : jsval) : bool :=
  match a, b with
  | JNull, JNull => true
  | JUndefined, JUndefined => true
  | JNum x, JNum y => x =? y
  | _, _ => false
  end.

(** Operand conversion of the bitwise operators: [null] and [undefined]
    become 0. *)
Definition to_int32 (v : jsval) : Z :=
  match v with
  | JNum n => n
  | _ => 0
  end.

Definition Z_of_bool (b : bool) : Z := if b then 1 else 0.

Module Uint8Array.

(** [a[i]] *)
Definition get (a : bytes) (i : Z) : jsval :=
  if (0 <=? i) && (i <? len a) then JNum (nth (Z.to_nat i) a 0) else JUndefined.

(** [new Uint8Array([v1, ..., vn])]: every element is reduced modulo 256. *)
Definition from (l : list Z) : bytes := map (fun v => v mod 256) l.

(** A relative index: negative indices count from the end, and the
    result is clamped to the buffer. *)
Definition clamp (n idx : Z) : Z :=
  if idx <? 0 then Z.max (n + idx) 0 else Z.min idx n.

(** [a.subarray(b, e)] *)
Definition subarray (a : bytes) (b e : Z) : bytes :=
  let b' := clamp (len a) b in
  let e' := clamp (len a) e in
  firstn (Z.to_nat (e' - b')) (skipn (Z.to_nat b') a).

(** [a.subarray(b)] *)
Definition subarray_from (a : bytes) (b : Z) : bytes := subarray a b (len a).

End Uint8Array.

(** ** SHA3-256 (FIPS 202)

    The digest itself comes from a library; it is written out here so
    that digests of concrete inputs can be evaluated. *)

Module SHA3.

Definition mask64 : Z := 0xFFFFFFFFFFFFFFFF.

Definition rotl64 (x n : Z) : Z :=
  Z.land (Z.lor (Z.shiftl x n) (Z.shiftr x (64 - n))) mask64.

Definition lane (st : list Z) (x y : nat) : Z := nth (x + 5 * y)%nat st 0.

Definition column (st : list Z) (x : nat) : Z :=
  Z.lxor (lane st x 0) (Z.lxor (lane st x 1) (Z.lxor (lane st x 2)
    (Z.lxor (lane st x 3) (lane st x 4)))).

Definition theta (st : list Z) : list Z :=
  let C := map (column st) (seq 0 5) in
  let D := map (fun x => Z.lxor (nth ((x + 4) mod 5)%nat C 0)
                                (rotl64 (nth ((x + 1) mod 5)%nat C 0) 1))
               (seq 0 5) in
  map (fun i => Z.lxor (nth i st 0) (nth (i mod 5)%nat D 0)) (seq 0 25).

Definition rotation_offsets : list Z :=
  [ 0;  1; 62; 28; 27;
   36; 44;  6; 55; 20;
    3; 10; 43; 25; 39;
   41; 45; 15; 21;  8;
   18;  2; 61; 56; 14].

Definition rho_pi (st : list Z) : list Z :=
  map (fun i => let X := (i mod 5)%nat in
                let Y := (i / 5)%nat in
                let x := ((X + 3 * Y) mod 5)%nat in
                rotl64 (lane st x X) (nth (x + 5 * X)%nat rotation_offsets 0))
      (seq 0 25).

Definition chi (st : list Z) : list Z :=
  map (fun i => let x := (i mod 5)%nat in
                let y := (i / 5)%nat in
                Z.lxor (lane st x y)
                       (Z.land (Z.lxor (lane st ((x + 1) mod 5) y) mask64)
                               (lane st ((x + 2) mod 5) y)))
      (seq 0 25).

Definition round_constants : list Z :=
  [0x0000000000000001; 0x0000000000008082; 0x800000000000808A;
   0x8000000080008000; 0x000000000000808B; 0x0000000080000001;
   0x8000000080008081; 0x8000000000008009; 0x000000000000008A;
   0x0000000000000088; 0x0000000080008009; 0x000000008000000A;
   0x000000008000808B; 0x800000000000008B; 0x8000000000008089;
   0x8000000000008003; 0x8000000000008002; 0x8000000000000080;
   0x000000000000800A; 0x800000008000000A; 0x8000000080008081;
   0x8000000000008080; 0x0000000080000001; 0x8000000080008008].

Definition iota (rc : Z) (st : list Z) : list Z :=
  match st with
  | a :: rest => Z.lxor a rc :: rest
  | [] => []
  end.

Definition round (st : list Z) (rc : Z) : list Z :=
  iota rc (chi (rho_pi (theta st))).

Definition keccak_f (st : list Z) : list Z :=
  fold_left round round_constants st.

(** Rate of SHA3-256 in bytes: (1600 - 2 * 256) / 8. *)
Definition rate : nat := 136.

Fixpoint lane_of_bytes (bs : bytes) : Z :=
  match bs with
  | [] => 0
  | b :: rest => Z.lor b (Z.shiftl (lane_of_bytes rest) 8)
  end.

Fixpoint lanes_of_bytes (n : nat) (bs : bytes) : list Z :=
  match n with
  | O => []
  | S n' => lane_of_bytes (firstn 8 bs) :: lanes_of_bytes n' (skipn 8 bs)
  end.

Fixpoint xor_lanes (st blk : list Z) : list Z :=
  match st, blk with
  | s :: st', b :: blk' => Z.lxor s b :: xor_lanes st' blk'
  | _, _ => st
  end.

(** Domain suffix 01 and pad10*1. *)
Definition pad (msg : bytes) : bytes :=
  let q := (rate - (List.length msg mod rate))%nat in
  match q with
  | 1%nat => msg ++ [0x86]
  | _ => msg ++ [0x06] ++ repeat 0 (q - 2) ++ [0x80]
  end.

Fixpoint absorb (fuel : nat) (st : list Z) (msg : bytes) : list Z :=
  match fuel, msg with
  | S fuel', _ :: _ =>
      absorb fuel'
             (keccak_f (xor_lanes st (lanes_of_bytes 17 (firstn rate msg))))
             (skipn rate msg)
  | _, _ => st
  end.

Fixpoint bytes_of_lane (n : nat) (l : Z) : bytes :=
  match n with
  | O => []
  | S n' => Z.land l 0xFF :: bytes_of_lane n' (Z.shiftr l 8)
  end.

Definition sha3_256 (msg : bytes) : bytes :=
  let padded := pad msg in
  let st := absorb (List.length padded) (repeat 0 25) padded in
  flat_map (bytes_of_lane 8) (firstn 4 st).

End SHA3.

(** ** Registered algorithm codes ([src/enums.js]) *)

Module enums.

Definition table := list (string * Z).

Fixpoint byValue (t : table) (n : Z) : option string :=
  match t with
  | [] => None
  | (name, v) :: rest => if v =? n then Some name else byValue rest n
  end.

Fixpoint byName (t : table) (name : string) : option Z :=
  match t with
  | [] => None
  | (k, v) :: rest => if String.eqb k name then Some v else byName rest name
  end.

(** Modelled from the spec: [enums.js] is not among the sources.
    [enums.read(type, e)] returns the name registered for the code [e];
    on a value that is not registered it throws, which is what its
    caller [isUnknownPacketTag] in [packet/grammar.ts] relies on (the
    call sits in a [try] whose [catch] reports the tag as unknown). *)
Definition read (t : table) (e : jsval) : result string :=
  match e with
  | JNum n =>
      match byValue t n with
      | Some name => Ok name
      | None => Throw (Error "Invalid enum value.")
      end
  | _ => Throw (Error "Invalid enum value.")
  end.

(** Modelled from the spec: [enums.js] is not among the sources.
    [enums.write(type, e)] validates a code against the table and
    returns it; a value that is not registered makes it throw like
    [read]. *)
Definition write (t : table) (e : jsval) : result Z :=
  name <- read t e ;;
  match byName t name with
  | Some v => Ok v
  | None => Throw (Error "Invalid enum value.")
  end.

(** Modelled from the spec: the public-key algorithm codes of the data
    model (section 3) and, for the algorithms it does not list, of
    RFC 9580 section 9.1. *)
Module publicKey.
Definition rsaEncryptSign : Z := 1.
Definition rsaEncrypt : Z := 2.
Definition rsaSign : Z := 3.
Definition elgamal : Z := 16.
Definition dsa : Z := 17.
Definition ecdh : Z := 18.
Definition ecdsa : Z := 19.
Definition eddsaLegacy : Z := 22.
Definition x25519 : Z := 25.
Definition x448 : Z := 26.
Definition ed25519 : Z := 27.
Definition ed448 : Z := 28.
Definition hmac : Z := 101.
Definition aead : Z := 102.
Definition pqc_mlkem_x25519 : Z := 105.
Definition pqc_mldsa_ed25519 : Z := 107.
Definition pqc_slhdsa_shake128s : Z := 108.
Definition codes : table :=
  [("rsaEncryptSign", rsaEncryptSign); ("rsaEncrypt", rsaEncrypt);
   ("rsaSign", rsaSign); ("elgamal", elgamal); ("dsa", dsa); ("ecdh", ecdh);
   ("ecdsa", ecdsa); ("eddsaLegacy", eddsaLegacy); ("x25519", x25519);
   ("x448", x448); ("ed25519", ed25519); ("ed448", ed448); ("hmac", hmac);
   ("aead", aead); ("pqc_mlkem_x25519", pqc_mlkem_x25519);
   ("pqc_mldsa_ed25519", pqc_mldsa_ed25519);
   ("pqc_slhdsa_shake128s", pqc_slhdsa_shake128s)]%string.
End publicKey.

(** Modelled from the spec: the symmetric cipher codes (RFC 9580
    section 9.3) that the library registers. *)
Module symmetric.
Definition idea : Z := 1.
Definition tripledes : Z := 2.
Definition cast5 : Z := 3.
Definition blowfish : Z := 4.
Definition aes128 : Z := 7.
Definition aes192 : Z := 8.
Definition aes256 : Z := 9.
Definition twofish : Z := 10.
Definition codes : table :=
  [("idea", idea); ("tripledes", tripledes);
   ("cast5", cast5); ("blowfish", blowfish); ("aes128", aes128);
   ("aes192", aes192); ("aes256", aes256); ("twofish", twofish)]%string.
End symmetric.

(** Modelled from the spec: the hash algorithm codes (RFC 9580
    section 9.5). *)
Module hash.
Definition md5 : Z := 1.
Definition sha1 : Z := 2.
Definition ripemd : Z := 3.
Definition sha256 : Z := 8.
Definition sha384 : Z := 9.
Definition sha512 : Z := 10.
Definition sha224 : Z := 11.
Definition sha3_256 : Z := 12.
Definition sha3_512 : Z := 14.
End hash.

(** Modelled from the spec: the AEAD mode codes (RFC 9580
    section 9.6). *)
Module aead.
Definition eax : Z := 1.
Definition ocb : Z := 2.
Definition gcm : Z := 3.
End aead.

(** Modelled from the spec: the S2K specifier type codes (RFC 9580
    section 3.7.1; 101 is the GNU extension). *)
Module s2k.
Definition simple : Z := 0.
Definition salted : Z := 1.
Definition iterated : Z := 3.
Definition argon2 : Z := 4.
Definition gnu : Z := 101.
End s2k.

Module curve.
Definition ed25519Legacy : string := "ed25519Legacy".
Definition curve25519Legacy : string := "curve25519Legacy".
End curve.

End enums.

(** [switch (v) { case c1: case c2: ... }]: the cases are compared with
    [===]. *)
Definition case_of (v : jsval) (cases : list Z) : bool :=
  existsb (fun c => strict_eq v (JNum c)) cases.

(** ** Helpers of [src/util.js] *)

Module util.

(** Modelled from the spec: [util.js] is not among the sources.
    [concatUint8Array] joins the buffers in order. *)
Definition concatUint8Array (arrays : list bytes) : bytes := List.concat arrays.

(** Modelled from the spec: [util.js] is not among the sources.  The
    UTF-8 encoding of a string, whose characters are already its
    octets here. *)
Definition encodeUTF8 (s : string) : bytes :=
  map (fun c => Z.of_nat (nat_of_ascii c)) (list_ascii_of_string s).

(** Modelled from the spec: [util.js] is not among the sources.
    [writeChecksum(b)] is the 2-byte big-endian sum of the bytes
    modulo 65536 (section 4.1). *)
Definition writeChecksum (text : bytes) : bytes :=
  let s := (fold_left Z.add text 0) mod 65536 in
  [s / 256; s mod 256].

(** Modelled from the spec: [util.js] is not among the sources.
    [readExact(buf, off, end)] is the subarray and errors if
    [end > len(buf)] (section 4.1). *)
Definition readExactSubarray (buf : bytes) (start e : Z) : result bytes :=
  if len buf <? e then Throw (Error "Input array too short")
  else Ok (Uint8Array.subarray buf start e).

(** Modelled from the spec: [util.js] is not among the sources.
    [readMPI(buf)] reads a 2-byte big-endian bit length [L], then
    [ceil(L/8)] bytes, and errors if the buffer is truncated
    (section 4.1). *)
Definition readMPI (buf : bytes) : result bytes :=
  let bits := Z.lor (Z.shiftl (to_int32 (Uint8Array.get buf 0)) 8)
                    (to_int32 (Uint8Array.get buf 1)) in
  let bytelen := Z.shiftr (bits + 7) 3 in
  readExactSubarray buf 2 (2 + bytelen).

(** Modelled from the spec: [util.js] is not among the sources.
    [leftPad(b, n)] prepends zeros to length [n] and errors if
    [len(b) > n] (section 4.1). *)
Definition leftPad (b : bytes) (n : Z) : result bytes :=
  if n <? len b then Throw (Error "Input array too long")
  else Ok (repeat 0 (Z.to_nat (n - len b)) ++ b).

Fixpoint stripLeadingZeros (b : bytes) : bytes :=
  match b with
  | 0 :: rest => stripLeadingZeros rest
  | _ => b
  end.

(** Number of significant bits of a byte. *)
Definition nbits (x : Z) : Z := if x <=? 0 then 0 else Z.log2 x + 1.

Definition uint8ArrayBitLength (b : bytes) : Z :=
  match stripLeadingZeros b with
  | [] => 0
  | first :: rest => len rest * 8 + nbits first
  end.

(** Modelled from the spec: [util.js] is not among the sources.
    [uint8ArrayToMPI(b)] emits the 2-byte bit length, counted from the
    highest significant bit of the first nonzero byte, followed by the
    bytes from that byte on (section 4.1; an MPI carries no leading
    zero octets).  The spec does not say what happens on the integer
    zero; here it is written as a zero bit length and no octets. *)
Definition uint8ArrayToMPI (b : bytes) : bytes :=
  let bitSize := uint8ArrayBitLength b in
  [Z.shiftr (Z.land bitSize 0xFF00) 8; Z.land bitSize 0xFF] ++ stripLeadingZeros b.

(** Modelled from the spec: [util.js] is not among the sources.
    [selectUint8(cond, a, b)] is the branchless bitwise select of
    section 9: [a] if [cond] is 1, [b] if [cond] is 0, computed with
    masks and no conditional. *)
Definition selectUint8 (cond : Z) (a b : jsval) : Z :=
  Z.lor (Z.land (to_int32 a) (256 - cond)) (Z.land (to_int32 b) (255 + cond)).

(** Modelled from the spec: [util.js] is not among the sources.
    [selectUint8Array(cond, a, b)] is the branchless bitwise select of
    section 9 on buffers: every position of the longer buffer is
    selected with masks, and the length of the chosen buffer is
    accumulated arithmetically. *)
Definition selectUint8Array (cond : Z) (a b : bytes) : bytes :=
  let n := Z.max (len a) (len b) in
  let idx := map Z.of_nat (seq 0 (Z.to_nat n)) in
  let result :=
    Uint8Array.from
      (map (fun i => selectUint8 cond (Uint8Array.get a i) (Uint8Array.get b i)) idx) in
  let e :=
    fold_left
      (fun e i => e + Z.lor (Z.land cond (Z_of_bool (i <? len a)))
                            (Z.land (1 - cond) (Z_of_bool (i <? len b))))
      idx 0 in
  Uint8Array.subarray result 0 e.

(** Modelled from the spec: [util.js] is not among the sources.
    [isAES(c)] holds of the three AES variants. *)
Definition isAES (cipherAlgo : jsval) : bool :=
  strict_eq cipherAlgo (JNum enums.symmetric.aes128)
  || strict_eq cipherAlgo (JNum enums.symmetric.aes192)
  || strict_eq cipherAlgo (JNum enums.symmetric.aes256).

Fixpoint equalsUint8Array (a b : bytes) : bool :=
  match a, b with
  | [], [] => true
  | x :: a', y :: b' => (x =? y) && equalsUint8Array a' b'
  | _, _ => false
  end.

End util.

(** ** Digest sizes ([src/crypto/hash]) *)

Module Hash.

(** Modelled from the spec: [crypto/hash] is not among the sources.
    [getHashByteLength(h)] is the digest length in bytes of the
    registered hash algorithm [h] (SHA-1 20, SHA-224 28, SHA-256 and
    SHA3-256 32, SHA-384 48, SHA-512 and SHA3-512 64); it fails on any
    other value. *)
Definition getHashByteLength (algo : jsval) : result Z :=
  if case_of algo [enums.hash.md5] then Ok 16
  else if case_of algo [enums.hash.sha1; enums.hash.ripemd] then Ok 20
  else if case_of algo [enums.hash.sha256] then Ok 32
  else if case_of algo [enums.hash.sha384] then Ok 48
  else if case_of algo [enums.hash.sha512] then Ok 64
  else if case_of algo [enums.hash.sha224] then Ok 28
  else if case_of algo [enums.hash.sha3_256] then Ok 32
  else if case_of algo [enums.hash.sha3_512] then Ok 64
  else Throw (Error "Invalid hash algorithm.").

End Hash.

(** ** Parameter records

    A parameter record is a JavaScript object whose own keys are kept in
    insertion order ([Object.keys]); a field holds a [Uint8Array], an
    instance of one of the wire types of [src/type/], or [undefined] when
    the record was built from a variable that was never bound. *)

Inductive param : Type :=
| PBytes (b : bytes)
| POID (oid : bytes)
| PKDFParams (hash cipher : Z)
| PEnum (data : jsval)
| PECDHSymkey (data : bytes)
| PECDHXSymmetricKey (algorithm : jsval) (wrappedKey : bytes)
| PShortByteString (data : bytes)
| PUndefined.

Definition params := list (string * param).

Fixpoint lookup (name : string) (ps : params) : option param :=
  match ps with
  | [] => None
  | (k, v) :: rest => if String.eqb k name then Some v else lookup name rest
  end.

(** Reading a [Uint8Array] field out of a record, as in
    [const { n, e } = publicParams].  In the source a field that is absent
    or holds [undefined] is [undefined] and makes the primitive that
    receives it fail; here it is reported as a [TypeError] by the read,
    which the functions below place immediately before the call of the
    primitive. *)
Definition getBytes (ps : params) (name : string) : result bytes :=
  match lookup name ps with
  | Some (PBytes b) => Ok b
  | _ => Throw (TypeError name)
  end.

Definition getParam (ps : params) (name : string) : result param :=
  match lookup name ps with
  | Some v => Ok v
  | None => Throw (TypeError name)
  end.

(** Destructuring a record that may be [null]. *)
Definition nonNull (ps : option params) : result params :=
  match ps with
  | Some r => Ok r
  | None => Throw (TypeError "Cannot destructure null")
  end.

(** [param.getValue()] of an enum wrapper. *)
Definition getValue (v : param) : result jsval :=
  match v with
  | PEnum data => Ok data
  | _ => Throw (TypeError "getValue is not a function")
  end.

(** The global configuration ([src/config]), passed explicitly. *)
Record Config : Type := {
  aeadProtect : bool;
  preferredAEADAlgorithm : Z;
  parseAEADEncryptedV4KeysAsLegacy : bool;
  checkEdDSAFaultySignatures : bool
}.

(** Key size and block size of a cipher ([getCipherParams]). *)
Record CipherParams : Type := { keySize : Z; blockSize : Z }.

(** An S2K specifier object ([src/type/s2k]): its [type] name, the hash
    algorithm, the coded count and the salt. *)
Record S2K : Type := {
  s2k_type : string;
  s2k_algorithm : Z;
  s2k_c : Z;
  s2k_salt : bytes
}.

(** What the key generators of the primitive libraries return. *)
Record RSAKeyMaterial : Type := {
  rsa_n : bytes; rsa_e : bytes; rsa_d : bytes;
  rsa_p : bytes; rsa_q : bytes; rsa_u : bytes
}.

Record ECKeyMaterial : Type := {
  ec_oid : bytes; ec_Q : bytes; ec_secret : bytes; ec_hash : Z; ec_cipher : Z
}.

(** The public part of a key packet, as [readPublicKey] leaves it in the
    packet. *)
Record PublicKeyFields : Type := {
  pk_version : jsval;
  pk_algorithm : jsval;
  pk_publicParams : params
}.

(** ** External collaborators

    The primitive cryptography (consumed from libraries) and the modules
    of the repository that are not part of the sources at hand.  A
    primitive that draws randomness is represented by the outcome of one
    run; [getRandomBytes] takes a label that names the call site, so that
    separate draws are independent. *)

Record Primitives : Type := {
(* crypto/hash *)
computeDigest : Z -> bytes -> result bytes;
(* crypto/hkdf *)
computeHKDF : Z -> bytes -> bytes -> bytes -> Z -> result bytes;
(* crypto/aes_kw *)
aesKW_wrap : Z -> bytes -> bytes -> result bytes;
aesKW_unwrap : Z -> bytes -> bytes -> result bytes;
(* crypto/random *)
getRandomBytes : string -> Z -> bytes;
(* crypto/cipher *)
getCipherParams : jsval -> result CipherParams;
(* crypto/cipherMode *)
getAEADMode_ivLength : jsval -> result Z;
aead_encrypt : jsval -> jsval -> bytes -> bytes -> bytes -> bytes -> result bytes;
aead_decrypt : jsval -> jsval -> bytes -> bytes -> bytes -> bytes -> result bytes;
cfb_encrypt : jsval -> bytes -> bytes -> bytes -> result bytes;
cfb_decrypt : jsval -> bytes -> bytes -> bytes -> result bytes;
(* crypto/public_key/rsa, elgamal *)
rsa_encrypt : bytes -> bytes -> bytes -> result bytes;
rsa_decrypt : bytes -> bytes -> bytes -> bytes -> bytes -> bytes -> bytes ->
              option bytes -> result bytes;
elgamal_encrypt : bytes -> bytes -> bytes -> bytes -> result params;
elgamal_decrypt : bytes -> bytes -> bytes -> bytes -> option bytes -> result bytes;
(* crypto/public_key/elliptic: ecdh, ecdh_x, curves *)
ecdh_encrypt : param -> param -> bytes -> bytes -> bytes -> result (bytes * bytes);
ecdh_decrypt : param -> param -> bytes -> bytes -> bytes -> bytes -> bytes -> result bytes;
ecdhX_encrypt : jsval -> bytes -> bytes -> result (bytes * bytes);
ecdhX_decrypt : jsval -> bytes -> bytes -> bytes -> bytes -> result bytes;
ecdhX_getPayloadSize : jsval -> result Z;
eddsa_getPayloadSize : jsval -> result Z;
curve_payloadSize : param -> result Z;
oid_getName : param -> result string;
(* crypto/public_key/post_quantum/kem/ecc_kem *)
eccKem_encaps : jsval -> bytes -> result (bytes * bytes);
eccKem_decaps : jsval -> bytes -> bytes -> bytes -> result bytes;
(* @noble/post-quantum/ml-kem: [keygen()] gives the public and the
   secret key *)
ml_kem768_keygen : bytes * bytes;
ml_kem768_encapsulate : bytes -> result (bytes * bytes);
ml_kem768_decapsulate : bytes -> bytes -> result bytes;
(* seed expansion of the post-quantum keys *)
mlkemExpandSecretSeed : jsval -> bytes -> result bytes;
mldsaExpandSecretSeed : jsval -> bytes -> result bytes;
(* wire types of src/type: write() of an object, and the readers, which
   return the object read and the number of bytes consumed *)
obj_write : param -> bytes;
OID_read : bytes -> result (bytes * Z);
KDFParams_read : bytes -> result (Z * Z * Z);
SymAlgoEnum_read : bytes -> result (jsval * Z);
AEADEnum_read : bytes -> result (jsval * Z);
ECDHSymkey_read : bytes -> result bytes;
ECDHXSymmetricKey_read : bytes -> result (jsval * bytes);
ShortByteString_read : bytes -> result (bytes * Z);
(* type/s2k *)
newS2KFromType : jsval -> result S2K;
newS2KFromConfig : Config -> S2K;
s2k_read : S2K -> bytes -> result (S2K * Z);
s2k_write : S2K -> bytes;
s2k_generateSalt : S2K -> S2K;
s2k_produceKey : S2K -> string -> Z -> result bytes;
(* packet/packet, packet/public_key *)
writeTag : Z -> bytes;
readPublicKey : bytes -> Config -> result (PublicKeyFields * Z);
writePublicKey : PublicKeyFields -> bytes;
(* key generators *)
rsa_generate : jsval -> Z -> result RSAKeyMaterial;
elliptic_generate : string -> result ECKeyMaterial;
nacl_sign_keyPair_fromSeed : bytes -> bytes;
ecdhX_generate : jsval -> result (bytes * bytes);
hmac_generate : jsval -> result bytes;
eccdsa_generate : jsval -> result (bytes * bytes);
mldsa_generate : jsval -> result (bytes * bytes * bytes);
(* signing primitives: rsa, dsa, elliptic.ecdsa, elliptic.eddsaLegacy, hmac *)
rsa_sign : jsval -> bytes -> bytes -> bytes -> bytes -> bytes -> bytes -> bytes ->
           bytes -> result bytes;
rsa_verify : jsval -> bytes -> bytes -> bytes -> bytes -> bytes -> result bool;
dsa_sign : jsval -> bytes -> bytes -> bytes -> bytes -> bytes -> result params;
dsa_verify : jsval -> bytes -> bytes -> bytes -> bytes -> bytes -> bytes -> bytes ->
             result bool;
ecdsa_sign : param -> jsval -> bytes -> bytes -> bytes -> bytes -> result params;
ecdsa_verify : param -> jsval -> bytes -> bytes -> bytes -> bytes -> bytes ->
               result bool;
eddsaLegacy_sign : param -> jsval -> bytes -> bytes -> bytes -> bytes -> result params;
eddsaLegacy_verify : param -> jsval -> bytes -> bytes -> bytes -> bytes -> bytes ->
                     result bool;
hmac_sign : jsval -> bytes -> bytes -> result bytes;
hmac_verify : jsval -> bytes -> bytes -> bytes -> result bool;
(* @openpgp/tweetnacl *)
nacl_sign_detached : bytes -> bytes -> bytes;
nacl_sign_detached_verify : bytes -> bytes -> bytes -> bool;
(* crypto/public_key/post_quantum/signature: ecc_dsa, ml_dsa *)
eccdsa_sign : jsval -> jsval -> bytes -> bytes -> bytes -> result bytes;
eccdsa_verify : jsval -> jsval -> bytes -> bytes -> bytes -> result bool;
mldsa_sign : jsval -> bytes -> bytes -> result bytes;
mldsa_verify : jsval -> bytes -> bytes -> bytes -> result bool
}.

(** ** ML-KEM-768 adapter
    ([src/crypto/public_key/post_quantum/kem/ml_kem.js]) *)

Module MlKem.
Section WithPrimitives.
Variable P : Primitives.

Record KeyMaterial : Type := { mlkemPublicKey : bytes; mlkemSecretKey : bytes }.

Definition generate (algo : jsval) : result KeyMaterial :=
  if case_of algo [enums.publicKey.pqc_mlkem_x25519] then
    let '(encapsulationKey, decapsulationKey) := ml_kem768_keygen P in
    Ok {| mlkemPublicKey := encapsulationKey; mlkemSecretKey := decapsulationKey |}
  else Throw (Error "Unsupported KEM algorithm").

Record Encapsulation : Type := { mlkemCipherText : bytes; mlkemKeyShare : bytes }.

Definition encaps (algo : jsval) (mlkemRecipientPublicKey : bytes)
  : result Encapsulation :=
  if case_of algo [enums.publicKey.pqc_mlkem_x25519] then
    '(cipherText, sharedSecret) <- ml_kem768_encapsulate P mlkemRecipientPublicKey ;;
    Ok {| mlkemCipherText := cipherText; mlkemKeyShare := sharedSecret |}
  else Throw (Error "Unsupported KEM algorithm").

Definition decaps (algo : jsval) (mlkemCipherText mlkemSecretKey : bytes)
  : result bytes :=
  if case_of algo [enums.publicKey.pqc_mlkem_x25519] then
    ml_kem768_decapsulate P mlkemCipherText mlkemSecretKey
  else Throw (Error "Unsupported KEM algorithm").

End WithPrimitives.
End MlKem.

(** ** The X25519 half of the composite KEM
    ([src/crypto/public_key/post_quantum/kem/ecc_kem.js], which is the
    second part of the source file [kem/ml_kem.js]) *)

Module EccKem.

(** [elliptic/ecdh_x]: [generateEphemeralEncryptionMaterial] returns the
    ephemeral public key and the shared secret of one run. *)
Record EcdhX : Type := {
  generateEphemeralEncryptionMaterial : jsval -> bytes -> result (bytes * bytes);
  recomputeSharedSecret : jsval -> bytes -> bytes -> bytes -> result bytes
}.

Record Encapsulation : Type := { eccCipherText : bytes; eccKeyShare : bytes }.

Section WithPrimitives.
Variable P : Primitives.
Variable ecdhX : EcdhX.

Definition generate (algo : jsval) : result (bytes * bytes) :=
  if case_of algo [enums.publicKey.pqc_mlkem_x25519] then
    '(A, k) <- ecdhX_generate P (JNum enums.publicKey.x25519) ;;
(* eccPublicKey, eccSecretKey *)
Ok (A, k)
else Throw (Error "Unsupported KEM algorithm").

Definition encaps (eccAlgo : jsval) (eccRecipientPublicKey : bytes)
  : result Encapsulation :=
  if case_of eccAlgo [enums.publicKey.pqc_mlkem_x25519] then
    '(eccCipherText, eccSharedSecret) <-
      generateEphemeralEncryptionMaterial ecdhX (JNum enums.publicKey.x25519)
        eccRecipientPublicKey ;;
    let eccKeyShare :=
      SHA3.sha3_256
        (util.concatUint8Array [eccSharedSecret; eccCipherText; eccRecipientPublicKey]) in
    Ok {| eccCipherText := eccCipherText; eccKeyShare := eccKeyShare |}
  else Throw (Error "Unsupported KEM algorithm").

Definition decaps (eccAlgo : jsval) (eccCipherText eccSecretKey eccPublicKey : bytes)
  : result bytes :=
  if case_of eccAlgo [enums.publicKey.pqc_mlkem_x25519] then
    eccSharedSecret <-
      recomputeSharedSecret ecdhX (JNum enums.publicKey.x25519)
        eccCipherText eccPublicKey eccSecretKey ;;
    Ok (SHA3.sha3_256
          (util.concatUint8Array [eccSharedSecret; eccCipherText; eccPublicKey]))
  else Throw (Error "Unsupported KEM algorithm").

End WithPrimitives.
End EccKem.

(** ** Composite KEM, ML-KEM-768 + X25519
    ([src/crypto/public_key/post_quantum/kem/kem.js]) *)

Module Kem.
Section WithPrimitives.
Variable P : Primitives.

Record Ciphertext : Type := {
  eccCipherText : bytes;
  mlkemCipherText : bytes;
  wrappedKey : bytes
}.

Record KeyMaterial : Type := {
  eccPublicKey : bytes;
  eccSecretKey : bytes;
  mlkemPublicKey : bytes;
  mlkemSeed : param;
  mlkemSecretKey : bytes
}.

(** What [mlKem.generate] returns is read for three fields,
    [mlkemPublicKey], [mlkemSeed] and [mlkemSecretKey]; it has the
    first and the last, so that [mlkemSeed] is bound to [undefined]. *)
Definition generate (algo : jsval) : result KeyMaterial :=
  '(eccPublicKey, eccSecretKey) <- EccKem.generate P algo ;;
  k <- MlKem.generate P algo ;;
  Ok {| eccPublicKey := eccPublicKey; eccSecretKey := eccSecretKey;
        mlkemPublicKey := MlKem.mlkemPublicKey k; mlkemSeed := PUndefined;
        mlkemSecretKey := MlKem.mlkemSecretKey k |}.

(** KEM key combiner *)
Definition multiKeyCombine (algo : jsval)
    (mlkemKeyShare ecdhKeyShare ecdhCipherText ecdhPublicKey : bytes)
  : result bytes :=
  let domSep := util.encodeUTF8 "OpenPGPCompositeKDFv1" in
  let encData := util.concatUint8Array [
    mlkemKeyShare;
    ecdhKeyShare;
    ecdhCipherText;
    ecdhPublicKey;
    Uint8Array.from [to_int32 algo];
    domSep;
    Uint8Array.from [len domSep]
  ] in
  computeDigest P enums.hash.sha3_256 encData.

Definition encrypt (algo : jsval) (eccPublicKey mlkemPublicKey sessioneKeyData : bytes)
  : result Ciphertext :=
  '(eccKeyShare, eccCipherText) <- eccKem_encaps P algo eccPublicKey ;;
  enc <- MlKem.encaps P algo mlkemPublicKey ;;
  kek <- multiKeyCombine algo (MlKem.mlkemKeyShare enc) eccKeyShare eccCipherText
                         eccPublicKey ;;
  wrappedKey <- aesKW_wrap P enums.symmetric.aes256 kek sessioneKeyData ;;
  Ok {| eccCipherText := eccCipherText;
        mlkemCipherText := MlKem.mlkemCipherText enc;
        wrappedKey := wrappedKey |}.

Definition decrypt (algo : jsval)
    (eccCipherText mlkemCipherText eccSecretKey eccPublicKey
     mlkemSecretKey mlkemPublicKey encryptedSessionKeyData : bytes)
  : result bytes :=
  eccKeyShare <- eccKem_decaps P algo eccCipherText eccSecretKey eccPublicKey ;;
  mlkemKeyShare <- MlKem.decaps P algo mlkemCipherText mlkemSecretKey ;;
  kek <- multiKeyCombine algo mlkemKeyShare eccKeyShare eccCipherText eccPublicKey ;;
  aesKW_unwrap P enums.symmetric.aes256 kek encryptedSessionKeyData.

End WithPrimitives.
End Kem.

(** ** The earlier composite KEM ([src/unnamed/part_000])

    A second file of the repository defines the same three functions with
    another combiner.  Its [generate] returns no [mlkemSeed] and its
    [validateParams] takes the expanded secret key, so it is not the
    module that [crypto.js] drives, which reads [mlkemSeed] from
    [generate] and passes it to [validateParams]. *)

Module KemDraft.
Section WithPrimitives.
Variable P : Primitives.

Definition multiKeyCombine (algo : jsval)
    (ecdhKeyShare ecdhCipherText ecdhPublicKey
     mlkemKeyShare mlkemCipherText mlkemPublicKey : bytes)
  : result bytes :=
  let encData := util.concatUint8Array [
(* counter *)
Uint8Array.from [0; 0; 0; 1];
(* eccData *)
ecdhKeyShare;
ecdhCipherText;
ecdhPublicKey;
(* mlkemData *)
mlkemKeyShare;
mlkemCipherText;
mlkemPublicKey;
(* fixedInfo *)
Uint8Array.from [to_int32 algo];
util.encodeUTF8 "OpenPGPCompositeKDFv1"
] in
computeDigest P enums.hash.sha3_256 encData.

End WithPrimitives.
End KemDraft.

(** ** Ed25519 / Ed448 ([src/crypto/public_key/elliptic/eddsa.js]) *)

Module Eddsa.
Section WithPrimitives.
Variable P : Primitives.
Variable config : Config.

(** Generate (non-legacy) EdDSA key: the public point [A] and the seed. *)
Definition generate (algo : jsval) : result (bytes * bytes) :=
  if case_of algo [enums.publicKey.ed25519] then
    let seed := getRandomBytes P "eddsa.generate.seed" 32 in
    let A := nacl_sign_keyPair_fromSeed P seed in
    Ok (A, seed)
  else Throw (Error "Unsupported EdDSA algorithm").

Definition getPreferredHashAlgo (algo : jsval) : result Z :=
  if case_of algo [enums.publicKey.ed25519] then Ok enums.hash.sha256
  else Throw (Error "Unknown EdDSA algo").

(** [getHashByteLength(hashAlgo) <
     getHashByteLength(getPreferredHashAlgo(algo))], evaluated from left
    to right. *)
Definition hashTooWeak (algo hashAlgo : jsval) : result bool :=
  n <- Hash.getHashByteLength hashAlgo ;;
  preferred <- getPreferredHashAlgo algo ;;
  m <- Hash.getHashByteLength (JNum preferred) ;;
  Ok (n <? m).

(** Sign a message using the provided key *)
Definition sign (algo hashAlgo : jsval) (message publicKey privateKey hashed : bytes)
  : result params :=
  weak <- hashTooWeak algo hashAlgo ;;
  if weak then Throw (Error "Hash algorithm too weak for EdDSA.")
  else if case_of algo [enums.publicKey.ed25519] then
    let secretKey := util.concatUint8Array [privateKey; publicKey] in
    let signature := nacl_sign_detached P hashed secretKey in
    if checkEdDSAFaultySignatures config
       && negb (nacl_sign_detached_verify P hashed signature publicKey) then
      Throw (Error "Transient signing failure")
    else Ok [("RS", PBytes signature)]%string
  else Throw (Error "Unsupported EdDSA algorithm").

(** Verifies if a signature is valid for a message *)
Definition verify (algo hashAlgo : jsval) (RS m publicKey hashed : bytes)
  : result bool :=
  weak <- hashTooWeak algo hashAlgo ;;
  if weak then Throw (Error "Hash algorithm too weak for EdDSA.")
  else if case_of algo [enums.publicKey.ed25519] then
    Ok (nacl_sign_detached_verify P hashed RS publicKey)
  else Throw (Error "Unsupported EdDSA algorithm").

End WithPrimitives.
End Eddsa.

(** ** Composite signature, ML-DSA-65 + Ed25519 ([src/unnamed/part_001]) *)

Module PqcSignature.
Section WithPrimitives.
Variable P : Primitives.

Record KeyMaterial : Type := {
  eccSecretKey : bytes;
  eccPublicKey : bytes;
  mldsaSeed : bytes;
  mldsaSecretKey : bytes;
  mldsaPublicKey : bytes
}.

Definition generate (algo : jsval) : result KeyMaterial :=
  if case_of algo [enums.publicKey.pqc_mldsa_ed25519] then
    '(eccSecretKey, eccPublicKey) <- eccdsa_generate P algo ;;
    '(mldsaSeed, mldsaSecretKey, mldsaPublicKey) <- mldsa_generate P algo ;;
    Ok {| eccSecretKey := eccSecretKey; eccPublicKey := eccPublicKey;
          mldsaSeed := mldsaSeed; mldsaSecretKey := mldsaSecretKey;
          mldsaPublicKey := mldsaPublicKey |}
  else Throw (Error "Unsupported signature algorithm").

Definition isCompatibleHashAlgo (signatureAlgo hashAlgo : jsval) : result bool :=
(* The signature hash algo MUST have digest larger than 256 bits *)
if case_of signatureAlgo [enums.publicKey.pqc_mldsa_ed25519] then
  n <- Hash.getHashByteLength hashAlgo ;;
  Ok (32 <=? n)
else Throw (Error "Unsupported signature algorithm").

Definition sign (signatureAlgo hashAlgo : jsval)
    (eccSecretKey eccPublicKey mldsaSecretKey dataDigest : bytes) : result params :=
  compatible <- isCompatibleHashAlgo signatureAlgo hashAlgo ;;
  if negb compatible then
    Throw (Error "Unexpected hash algorithm for PQC signature: digest size too short")
  else if case_of signatureAlgo [enums.publicKey.pqc_mldsa_ed25519] then
    eccSignature <- eccdsa_sign P signatureAlgo hashAlgo eccSecretKey eccPublicKey
                      dataDigest ;;
    mldsaSignature <- mldsa_sign P signatureAlgo mldsaSecretKey dataDigest ;;
    Ok [("eccSignature", PBytes eccSignature);
        ("mldsaSignature", PBytes mldsaSignature)]%string
  else Throw (Error "Unsupported signature algorithm").

Definition verify (signatureAlgo hashAlgo : jsval)
    (eccPublicKey mldsaPublicKey dataDigest eccSignature mldsaSignature : bytes)
  : result bool :=
  compatible <- isCompatibleHashAlgo signatureAlgo hashAlgo ;;
  if negb compatible then
    Throw (Error "Unexpected hash algorithm for PQC signature: digest size too short")
  else if case_of signatureAlgo [enums.publicKey.pqc_mldsa_ed25519] then
(* both verifications are started before either is awaited *)
match eccdsa_verify P signatureAlgo hashAlgo eccPublicKey dataDigest eccSignature,
      mldsa_verify P signatureAlgo mldsaPublicKey dataDigest mldsaSignature with
| Ok eccVerified, Ok mldsaVerified => Ok (eccVerified && mldsaVerified)
| Throw e, _ => Throw e
| Ok true, Throw e => Throw e
| Ok false, Throw _ => Ok false
end
else Throw (Error "Unsupported signature algorithm").

End WithPrimitives.
End PqcSignature.

(** ** The algorithm dispatcher ([src/crypto/crypto.js]) *)

Module Crypto.
Section WithPrimitives.
Variable P : Primitives.
Variable config : Config.

Import enums.

(** Get encoded secret size for a given elliptic algo *)
Definition getCurvePayloadSize (algo : jsval) (oid : option param) : result Z :=
  if case_of algo [publicKey.ecdsa; publicKey.ecdh; publicKey.eddsaLegacy] then
    match oid with
    | Some o => curve_payloadSize P o
    | None => Throw (TypeError "oid")
    end
  else if case_of algo [publicKey.ed25519; publicKey.ed448] then
    eddsa_getPayloadSize P algo
  else if case_of algo [publicKey.x25519; publicKey.x448] then
    ecdhX_getPayloadSize P algo
  else Throw (Error "Unknown elliptic algo").


(** Encrypts data using specified algorithm and public key parameters. *)
Definition publicKeyEncrypt (keyAlgo symmetricAlgo : jsval)
    (publicParams : params) (privateParams : option params)
    (data fingerprint : bytes) : result params :=
  if case_of keyAlgo [publicKey.rsaEncrypt; publicKey.rsaEncryptSign] then
    n <- getBytes publicParams "n" ;;
    e <- getBytes publicParams "e" ;;
    c <- rsa_encrypt P data n e ;;
    Ok [("c", PBytes c)]%string
  else if case_of keyAlgo [publicKey.elgamal] then
    p <- getBytes publicParams "p" ;;
    g <- getBytes publicParams "g" ;;
    y <- getBytes publicParams "y" ;;
    elgamal_encrypt P data p g y
  else if case_of keyAlgo [publicKey.ecdh] then
    oid <- getParam publicParams "oid" ;;
    Q <- getBytes publicParams "Q" ;;
    kdfParams <- getParam publicParams "kdfParams" ;;
    '(V, C) <- ecdh_encrypt P oid kdfParams data Q fingerprint ;;
    Ok [("V", PBytes V); ("C", PECDHSymkey C)]%string
  else if case_of keyAlgo [publicKey.x25519; publicKey.x448] then
    if truthy symmetricAlgo && negb (util.isAES symmetricAlgo) then
(* see https://gitlab.com/openpgp-wg/rfc4880bis/-/merge_requests/276 *)
Throw (Error "X25519 and X448 keys can only encrypt AES session keys")
else
A <- getBytes publicParams "A" ;;
'(ephemeralPublicKey, wrappedKey) <- ecdhX_encrypt P keyAlgo data A ;;
Ok [("ephemeralPublicKey", PBytes ephemeralPublicKey);
    ("C", PECDHXSymmetricKey symmetricAlgo wrappedKey)]%string
else if case_of keyAlgo [publicKey.aead] then
match privateParams with
| None =>
  Throw (Error "Cannot encrypt with symmetric key missing private parameters")
| Some privateParams =>
  algo <- getParam publicParams "cipher" ;;
  algoValue <- getValue algo ;;
  keyMaterial <- getBytes privateParams "keyMaterial" ;;
  let aeadMode := JNum (preferredAEADAlgorithm config) in
  ivLength <- getAEADMode_ivLength P aeadMode ;;
  let iv := getRandomBytes P "publicKeyEncrypt.iv" ivLength in
  c <- aead_encrypt P aeadMode algoValue keyMaterial data iv [] ;;
  Ok [("aeadMode", PEnum aeadMode); ("iv", PBytes iv);
      ("c", PShortByteString c)]%string
end
else if case_of keyAlgo [publicKey.pqc_mlkem_x25519] then
eccPublicKey <- getBytes publicParams "eccPublicKey" ;;
mlkemPublicKey <- getBytes publicParams "mlkemPublicKey" ;;
ct <- Kem.encrypt P keyAlgo eccPublicKey mlkemPublicKey data ;;
Ok [("eccCipherText", PBytes (Kem.eccCipherText ct));
  ("mlkemCipherText", PBytes (Kem.mlkemCipherText ct));
  ("C", PECDHXSymmetricKey symmetricAlgo (Kem.wrappedKey ct))]%string
else Ok [].

(** [C.algorithm], [C.wrappedKey] and [C.data] of a wrapped-key field. *)
Definition C_algorithm (C : param) : jsval :=
  match C with
  | PECDHXSymmetricKey algorithm _ => algorithm
  | _ => JUndefined
  end.

Definition C_wrappedKey (C : param) : result bytes :=
  match C with
  | PECDHXSymmetricKey _ wrappedKey => Ok wrappedKey
  | _ => Throw (TypeError "wrappedKey")
  end.

Definition C_data (C : param) : result bytes :=
  match C with
  | PECDHSymkey data => Ok data
  | PShortByteString data => Ok data
  | _ => Throw (TypeError "data")
  end.

(** Decrypts data using specified algorithm and private key parameters. *)
Definition publicKeyDecrypt (keyAlgo : jsval)
    (publicKeyParams : params) (privateKeyParams : option params)
    (sessionKeyParams : params) (fingerprint : bytes)
    (randomPayload : option bytes) : result bytes :=
  if case_of keyAlgo [publicKey.rsaEncryptSign; publicKey.rsaEncrypt] then
    priv <- nonNull privateKeyParams ;;
    c <- getBytes sessionKeyParams "c" ;;
    n <- getBytes publicKeyParams "n" ;;
    e <- getBytes publicKeyParams "e" ;;
    d <- getBytes priv "d" ;;
    p <- getBytes priv "p" ;;
    q <- getBytes priv "q" ;;
    u <- getBytes priv "u" ;;
    rsa_decrypt P c n e d p q u randomPayload
  else if case_of keyAlgo [publicKey.elgamal] then
    priv <- nonNull privateKeyParams ;;
    c1 <- getBytes sessionKeyParams "c1" ;;
    c2 <- getBytes sessionKeyParams "c2" ;;
    p <- getBytes publicKeyParams "p" ;;
    x <- getBytes priv "x" ;;
    elgamal_decrypt P c1 c2 p x randomPayload
  else if case_of keyAlgo [publicKey.ecdh] then
    priv <- nonNull privateKeyParams ;;
    C <- getParam sessionKeyParams "C" ;;
    Cdata <- C_data C ;;
    oid <- getParam publicKeyParams "oid" ;;
    Q <- getBytes publicKeyParams "Q" ;;
    kdfParams <- getParam publicKeyParams "kdfParams" ;;
    d <- getBytes priv "d" ;;
    V <- getBytes sessionKeyParams "V" ;;
    ecdh_decrypt P oid kdfParams V Cdata Q d fingerprint
  else if case_of keyAlgo [publicKey.x25519; publicKey.x448] then
    priv <- nonNull privateKeyParams ;;
    C <- getParam sessionKeyParams "C" ;;
    if negb (strict_eq (C_algorithm C) JNull) && negb (util.isAES (C_algorithm C)) then
      Throw (Error "AES session key expected")
    else
      A <- getBytes publicKeyParams "A" ;;
      k <- getBytes priv "k" ;;
      ephemeralPublicKey <- getBytes sessionKeyParams "ephemeralPublicKey" ;;
      wrappedKey <- C_wrappedKey C ;;
      ecdhX_decrypt P keyAlgo ephemeralPublicKey wrappedKey A k
  else if case_of keyAlgo [publicKey.aead] then
    algo <- getParam publicKeyParams "cipher" ;;
    algoValue <- getValue algo ;;
    priv <- nonNull privateKeyParams ;;
    aeadMode <- getParam sessionKeyParams "aeadMode" ;;
    mode <- getValue aeadMode ;;
    c <- getParam sessionKeyParams "c" ;;
    cdata <- C_data c ;;
    keyMaterial <- getBytes priv "keyMaterial" ;;
    iv <- getBytes sessionKeyParams "iv" ;;
    aead_decrypt P mode algoValue keyMaterial cdata iv []
  else if case_of keyAlgo [publicKey.pqc_mlkem_x25519] then
    priv <- nonNull privateKeyParams ;;
    C <- getParam sessionKeyParams "C" ;;
    wrappedKey <- C_wrappedKey C ;;
    eccSecretKey <- getBytes priv "eccSecretKey" ;;
    mlkemSecretKey <- getBytes priv "mlkemSecretKey" ;;
    eccPublicKey <- getBytes publicKeyParams "eccPublicKey" ;;
    mlkemPublicKey <- getBytes publicKeyParams "mlkemPublicKey" ;;
    eccCipherText <- getBytes sessionKeyParams "eccCipherText" ;;
    mlkemCipherText <- getBytes sessionKeyParams "mlkemCipherText" ;;
    Kem.decrypt P keyAlgo eccCipherText mlkemCipherText eccSecretKey eccPublicKey
                mlkemSecretKey mlkemPublicKey wrappedKey
  else Throw (Error "Unknown public key encryption algorithm.").

(** [const v = util.readMPI(bytes.subarray(read)); read += v.length + 2;] *)
Definition readMPIAt (buf : bytes) (read : Z) : result (bytes * Z) :=
  v <- util.readMPI (Uint8Array.subarray_from buf read) ;;
  Ok (v, read + len v + 2).

(** [const v = util.readExactSubarray(bytes, read, read + size);
    read += v.length;] *)
Definition readExactAt (buf : bytes) (read size : Z) : result (bytes * Z) :=
  v <- util.readExactSubarray buf read (read + size) ;;
  Ok (v, read + len v).


(** Parse private key material in binary form to get the key parameters *)
Definition parsePrivateKeyParams (algo : jsval) (buf : bytes) (publicParams : params)
  : result (Z * params) :=
  if case_of algo [publicKey.rsaEncrypt; publicKey.rsaEncryptSign; publicKey.rsaSign] then
    '(d, read) <- readMPIAt buf 0 ;;
    '(p, read) <- readMPIAt buf read ;;
    '(q, read) <- readMPIAt buf read ;;
    '(u, read) <- readMPIAt buf read ;;
    Ok (read, [("d", PBytes d); ("p", PBytes p); ("q", PBytes q); ("u", PBytes u)]%string)
  else if case_of algo [publicKey.dsa; publicKey.elgamal] then
    '(x, read) <- readMPIAt buf 0 ;;
    Ok (read, [("x", PBytes x)]%string)
  else if case_of algo [publicKey.ecdsa; publicKey.ecdh] then
    payloadSize <- getCurvePayloadSize algo (lookup "oid" publicParams) ;;
    '(d, read) <- readMPIAt buf 0 ;;
    d <- util.leftPad d payloadSize ;;
    Ok (read, [("d", PBytes d)]%string)
  else if case_of algo [publicKey.eddsaLegacy] then
    payloadSize <- getCurvePayloadSize algo (lookup "oid" publicParams) ;;
    oid <- getParam publicParams "oid" ;;
    name <- oid_getName P oid ;;
    if negb (String.eqb name curve.ed25519Legacy) then
      Throw (Error "Unexpected OID for eddsaLegacy")
    else
      '(seed, read) <- readMPIAt buf 0 ;;
      seed <- util.leftPad seed payloadSize ;;
      Ok (read, [("seed", PBytes seed)]%string)
  else if case_of algo [publicKey.ed25519; publicKey.ed448] then
    payloadSize <- getCurvePayloadSize algo None ;;
    '(seed, read) <- readExactAt buf 0 payloadSize ;;
    Ok (read, [("seed", PBytes seed)]%string)
  else if case_of algo [publicKey.x25519; publicKey.x448] then
    payloadSize <- getCurvePayloadSize algo None ;;
    '(k, read) <- readExactAt buf 0 payloadSize ;;
    Ok (read, [("k", PBytes k)]%string)
  else if case_of algo [publicKey.hmac] then
    algo <- getParam publicParams "cipher" ;;
    algoValue <- getValue algo ;;
    keySize <- Hash.getHashByteLength algoValue ;;
    let hashSeed := Uint8Array.subarray buf 0 32 in
    let keyMaterial := Uint8Array.subarray buf 32 (32 + keySize) in
    Ok (32 + keySize, [("hashSeed", PBytes hashSeed);
                       ("keyMaterial", PBytes keyMaterial)]%string)
  else if case_of algo [publicKey.aead] then
    algo <- getParam publicParams "cipher" ;;
    let hashSeed := Uint8Array.subarray buf 0 32 in
    algoValue <- getValue algo ;;
    cipher <- getCipherParams P algoValue ;;
    let keyMaterial := Uint8Array.subarray buf 32 (32 + keySize cipher) in
    Ok (32 + keySize cipher, [("hashSeed", PBytes hashSeed);
                              ("keyMaterial", PBytes keyMaterial)]%string)
  else if case_of algo [publicKey.pqc_mlkem_x25519] then
    size <- getCurvePayloadSize (JNum publicKey.x25519) None ;;
    '(eccSecretKey, read) <- readExactAt buf 0 size ;;
    '(mlkemSeed, read) <- readExactAt buf read 64 ;;
    mlkemSecretKey <- mlkemExpandSecretSeed P algo mlkemSeed ;;
    Ok (read, [("eccSecretKey", PBytes eccSecretKey);
               ("mlkemSecretKey", PBytes mlkemSecretKey);
               ("mlkemSeed", PBytes mlkemSeed)]%string)
  else if case_of algo [publicKey.pqc_mldsa_ed25519] then
    size <- getCurvePayloadSize (JNum publicKey.ed25519) None ;;
    '(eccSecretKey, read) <- readExactAt buf 0 size ;;
    '(mldsaSeed, read) <- readExactAt buf read 32 ;;
    mldsaSecretKey <- mldsaExpandSecretSeed P algo mldsaSeed ;;
    Ok (read, [("eccSecretKey", PBytes eccSecretKey);
               ("mldsaSecretKey", PBytes mldsaSecretKey);
               ("mldsaSeed", PBytes mldsaSeed)]%string)
  else Throw (UnsupportedError "Unknown public key encryption algorithm.").

(** Returns the types comprising the encrypted session key of an algorithm *)
Definition parseEncSessionKeyParams (algo : jsval) (buf : bytes) : result params :=
  if case_of algo [publicKey.rsaEncrypt; publicKey.rsaEncryptSign] then
    c <- util.readMPI (Uint8Array.subarray_from buf 0) ;;
    Ok [("c", PBytes c)]%string
  else if case_of algo [publicKey.elgamal] then
    '(c1, read) <- readMPIAt buf 0 ;;
    c2 <- util.readMPI (Uint8Array.subarray_from buf read) ;;
    Ok [("c1", PBytes c1); ("c2", PBytes c2)]%string
  else if case_of algo [publicKey.ecdh] then
    '(V, read) <- readMPIAt buf 0 ;;
    C <- ECDHSymkey_read P (Uint8Array.subarray_from buf read) ;;
    Ok [("V", PBytes V); ("C", PECDHSymkey C)]%string
  else if case_of algo [publicKey.x25519; publicKey.x448] then
    pointSize <- getCurvePayloadSize algo None ;;
    '(ephemeralPublicKey, read) <- readExactAt buf 0 pointSize ;;
    '(algorithm, wrappedKey) <-
      ECDHXSymmetricKey_read P (Uint8Array.subarray_from buf read) ;;
    Ok [("ephemeralPublicKey", PBytes ephemeralPublicKey);
        ("C", PECDHXSymmetricKey algorithm wrappedKey)]%string
  else if case_of algo [publicKey.aead] then
    '(aeadMode, read) <- AEADEnum_read P (Uint8Array.subarray_from buf 0) ;;
    ivLength <- getAEADMode_ivLength P aeadMode ;;
    let iv := Uint8Array.subarray buf read (read + ivLength) in
    '(c, _) <- ShortByteString_read P (Uint8Array.subarray_from buf (read + ivLength)) ;;
    Ok [("aeadMode", PEnum aeadMode); ("iv", PBytes iv);
        ("c", PShortByteString c)]%string
  else if case_of algo [publicKey.pqc_mlkem_x25519] then
    size <- getCurvePayloadSize (JNum publicKey.x25519) None ;;
    '(eccCipherText, read) <- readExactAt buf 0 size ;;
    '(mlkemCipherText, read) <- readExactAt buf read 1088 ;;
    '(algorithm, wrappedKey) <-
      ECDHXSymmetricKey_read P (Uint8Array.subarray_from buf read) ;;
(* eccCipherText || mlkemCipherText || len(C) || C *)
Ok [("eccCipherText", PBytes eccCipherText);
    ("mlkemCipherText", PBytes mlkemCipherText);
    ("C", PECDHXSymmetricKey algorithm wrappedKey)]%string
else Throw (UnsupportedError "Unknown public key encryption algorithm.").

(** Some algorithms do not rely on MPIs to store the binary params *)
Definition algosWithNativeRepresentation : list Z :=
  [publicKey.ed25519; publicKey.x25519; publicKey.ed448; publicKey.x448;
   publicKey.aead; publicKey.hmac;
   publicKey.pqc_mlkem_x25519; publicKey.pqc_mldsa_ed25519].

Definition excludedFields (algo : jsval) (name : string) : bool :=
(* only [mlkemSeed] is serialized *)
(case_of algo [publicKey.pqc_mlkem_x25519] && String.eqb name "mlkemSecretKey")
(* only [mldsaSeed] is serialized *)
|| (case_of algo [publicKey.pqc_mldsa_ed25519] && String.eqb name "mldsaSecretKey").

(** Convert params to MPI and serializes them in the proper order.  A
    field that is not a [Uint8Array] is asked to [write()] itself, which
    is a [TypeError] on a field that holds [undefined]. *)
Definition serializeParams (algo : jsval) (ps : params) : result bytes :=
  orderedParams <-
    mapM (fun '(name, param) =>
            if excludedFields algo name then Ok []
            else match param with
                 | PBytes b =>
                     if case_of algo algosWithNativeRepresentation then Ok b
                     else Ok (util.uint8ArrayToMPI b)
                 | PUndefined =>
                     Throw (TypeError
                       "Cannot read properties of undefined (reading 'write')")
                 | _ => Ok (obj_write P param)
                 end) ps ;;
  Ok (util.concatUint8Array orderedParams).

(** Generating a session key for the specified symmetric algorithm *)
Definition generateSessionKey (algo : jsval) : result bytes :=
  cipher <- getCipherParams P algo ;;
  Ok (getRandomBytes P "generateSessionKey" (keySize cipher)).

Definition createSymmetricParams (key : bytes) (algo : param)
  : result (params * params) :=
  let seed := getRandomBytes P "createSymmetricParams.seed" 32 in
  bindingHash <- computeDigest P hash.sha256 seed ;;
  Ok ([("hashSeed", PBytes seed); ("keyMaterial", PBytes key)]%string,
      [("cipher", algo); ("digest", PBytes bindingHash)]%string).

(** Generate algorithm-specific key parameters: the private and the
    public parameters, in this order. *)
Definition generateParams (algo : jsval) (bits : Z) (oid : string) (symmetric : jsval)
  : result (params * params) :=
  if case_of algo [publicKey.rsaEncrypt; publicKey.rsaEncryptSign; publicKey.rsaSign] then
    k <- rsa_generate P (JNum bits) 65537 ;;
    Ok ([("d", PBytes (rsa_d k)); ("p", PBytes (rsa_p k)); ("q", PBytes (rsa_q k));
         ("u", PBytes (rsa_u k))]%string,
        [("n", PBytes (rsa_n k)); ("e", PBytes (rsa_e k))]%string)
  else if case_of algo [publicKey.ecdsa] then
    k <- elliptic_generate P oid ;;
    Ok ([("d", PBytes (ec_secret k))]%string,
        [("oid", POID (ec_oid k)); ("Q", PBytes (ec_Q k))]%string)
  else if case_of algo [publicKey.eddsaLegacy] then
    k <- elliptic_generate P oid ;;
    Ok ([("seed", PBytes (ec_secret k))]%string,
        [("oid", POID (ec_oid k)); ("Q", PBytes (ec_Q k))]%string)
  else if case_of algo [publicKey.ecdh] then
    k <- elliptic_generate P oid ;;
    Ok ([("d", PBytes (ec_secret k))]%string,
        [("oid", POID (ec_oid k)); ("Q", PBytes (ec_Q k));
         ("kdfParams", PKDFParams (ec_hash k) (ec_cipher k))]%string)
  else if case_of algo [publicKey.ed25519; publicKey.ed448] then
    '(A, seed) <- Eddsa.generate P algo ;;
    Ok ([("seed", PBytes seed)]%string, [("A", PBytes A)]%string)
  else if case_of algo [publicKey.x25519; publicKey.x448] then
    '(A, k) <- ecdhX_generate P algo ;;
    Ok ([("k", PBytes k)]%string, [("A", PBytes A)]%string)
  else if case_of algo [publicKey.hmac] then
    keyMaterial <- hmac_generate P symmetric ;;
    createSymmetricParams keyMaterial (PEnum symmetric)
  else if case_of algo [publicKey.aead] then
    keyMaterial <- generateSessionKey symmetric ;;
    createSymmetricParams keyMaterial (PEnum symmetric)
  else if case_of algo [publicKey.pqc_mlkem_x25519] then
    k <- Kem.generate P algo ;;
    Ok ([("eccSecretKey", PBytes (Kem.eccSecretKey k));
         ("mlkemSeed", Kem.mlkemSeed k);
         ("mlkemSecretKey", PBytes (Kem.mlkemSecretKey k))]%string,
        [("eccPublicKey", PBytes (Kem.eccPublicKey k));
         ("mlkemPublicKey", PBytes (Kem.mlkemPublicKey k))]%string)
  else if case_of algo [publicKey.pqc_mldsa_ed25519] then
    k <- PqcSignature.generate P algo ;;
    Ok ([("eccSecretKey", PBytes (PqcSignature.eccSecretKey k));
         ("mldsaSeed", PBytes (PqcSignature.mldsaSeed k));
         ("mldsaSecretKey", PBytes (PqcSignature.mldsaSecretKey k))]%string,
        [("eccPublicKey", PBytes (PqcSignature.eccPublicKey k));
         ("mldsaPublicKey", PBytes (PqcSignature.mldsaPublicKey k))]%string)
  else if case_of algo [publicKey.dsa; publicKey.elgamal] then
    Throw (Error "Unsupported algorithm for key generation.")
  else Throw (Error "Unknown public key algorithm.").

End WithPrimitives.
End Crypto.

(** ** Methods that mutate [this] and may throw

    A method is a function from the object before the call to the object
    after it and the outcome; a [throw] keeps the mutations made so
    far. *)

Module StateExn.

Definition stx (S A : Type) : Type := S -> S * result A.

Definition sret {S A : Type} (a : A) : stx S A := fun s => (s, Ok a).

Definition sthrow {S A : Type} (e : exn) : stx S A := fun s => (s, Throw e).

Definition sbind {S A B : Type} (m : stx S A) (k : A -> stx S B) : stx S B :=
  fun s => match m s with
           | (s', Ok a) => k a s'
           | (s', Throw e) => (s', Throw e)
           end.

Definition sget {S : Type} : stx S S := fun s => (s, Ok s).

Definition smodify {S : Type} (f : S -> S) : stx S unit := fun s => (f s, Ok tt).

Definition slift {S A : Type} (r : result A) : stx S A := fun s => (s, r).

(** [try { m } catch (e) { h e }] *)
Definition stry {S A : Type} (m : stx S A) (h : exn -> stx S A) : stx S A :=
  fun s => match m s with
           | (s', Throw e) => h e s'
           | r => r
           end.

End StateExn.

Notation "x <~ m ;; k" := (StateExn.sbind m (fun x => k))
  (at level 61, m at next level, right associativity).
Notation "' pat <~ m ;; k" := (StateExn.sbind m (fun x => let 'pat := x in k))
  (at level 61, pat pattern, m at next level, right associativity).

(** [v >= n] for a number [n]: [null] converts to 0, [undefined] to NaN. *)
Definition js_ge (v : jsval) (n : Z) : bool :=
  match v with
  | JNum x => n <=? x
  | JNull => n <=? 0
  | JUndefined => false
  end.

(** ** Key identifiers ([src/type/keyid]) *)

Module KeyID.

(** Modelled from the spec: [type/keyid] is not among the sources.  A
    Key ID is 8 bytes (section 3); [read] takes them from the front of
    the buffer and returns how many it got. *)
Definition read (b : bytes) : bytes * Z :=
  let id := Uint8Array.subarray b 0 8 in (id, len id).

(** Modelled from the spec: the wildcard Key ID of an anonymous
    recipient is all zeros (glossary). *)
Definition wildcard : bytes := repeat 0 8.

End KeyID.

(** ** Public-Key Encrypted Session Key packet
    ([src/packet/public_key_encrypted_session_key.js]) *)

Module PKESK.

Import StateExn.

Definition algosWithV3CleartextSessionKeyAlgorithm : list Z :=
  [enums.publicKey.x25519; enums.publicKey.x448; enums.publicKey.pqc_mlkem_x25519].

Record packet : Type := {
  version : jsval;
(* For version 3, but also used internally by v6 *)
publicKeyID : bytes;
(* For version 6: *)
publicKeyVersion : jsval;
publicKeyFingerprint : option bytes;
(* For all versions: *)
publicKeyAlgorithm : jsval;
sessionKey : option bytes;
sessionKeyAlgorithm : jsval;
encrypted : params
}.

Definition constructor : packet := {|
  version := JNull;
  publicKeyID := [];
  publicKeyVersion := JNull;
  publicKeyFingerprint := None;
  publicKeyAlgorithm := JNull;
  sessionKey := None;
  sessionKeyAlgorithm := JNull;
  encrypted := []
|}.

Definition set_version (v : jsval) (p : packet) : packet :=
  {| version := v; publicKeyID := publicKeyID p;
     publicKeyVersion := publicKeyVersion p;
     publicKeyFingerprint := publicKeyFingerprint p;
     publicKeyAlgorithm := publicKeyAlgorithm p; sessionKey := sessionKey p;
     sessionKeyAlgorithm := sessionKeyAlgorithm p; encrypted := encrypted p |}.

Definition set_publicKeyID (v : bytes) (p : packet) : packet :=
  {| version := version p; publicKeyID := v;
     publicKeyVersion := publicKeyVersion p;
     publicKeyFingerprint := publicKeyFingerprint p;
     publicKeyAlgorithm := publicKeyAlgorithm p; sessionKey := sessionKey p;
     sessionKeyAlgorithm := sessionKeyAlgorithm p; encrypted := encrypted p |}.

Definition set_publicKeyVersion (v : jsval) (p : packet) : packet :=
  {| version := version p; publicKeyID := publicKeyID p;
     publicKeyVersion := v;
     publicKeyFingerprint := publicKeyFingerprint p;
     publicKeyAlgorithm := publicKeyAlgorithm p; sessionKey := sessionKey p;
     sessionKeyAlgorithm := sessionKeyAlgorithm p; encrypted := encrypted p |}.

Definition set_publicKeyFingerprint (v : option bytes) (p : packet) : packet :=
  {| version := version p; publicKeyID := publicKeyID p;
     publicKeyVersion := publicKeyVersion p;
     publicKeyFingerprint := v;
     publicKeyAlgorithm := publicKeyAlgorithm p; sessionKey := sessionKey p;
     sessionKeyAlgorithm := sessionKeyAlgorithm p; encrypted := encrypted p |}.

Definition set_publicKeyAlgorithm (v : jsval) (p : packet) : packet :=
  {| version := version p; publicKeyID := publicKeyID p;
     publicKeyVersion := publicKeyVersion p;
     publicKeyFingerprint := publicKeyFingerprint p;
     publicKeyAlgorithm := v; sessionKey := sessionKey p;
     sessionKeyAlgorithm := sessionKeyAlgorithm p; encrypted := encrypted p |}.

Definition set_sessionKey (v : option bytes) (p : packet) : packet :=
  {| version := version p; publicKeyID := publicKeyID p;
     publicKeyVersion := publicKeyVersion p;
     publicKeyFingerprint := publicKeyFingerprint p;
     publicKeyAlgorithm := publicKeyAlgorithm p; sessionKey := v;
     sessionKeyAlgorithm := sessionKeyAlgorithm p; encrypted := encrypted p |}.

Definition set_sessionKeyAlgorithm (v : jsval) (p : packet) : packet :=
  {| version := version p; publicKeyID := publicKeyID p;
     publicKeyVersion := publicKeyVersion p;
     publicKeyFingerprint := publicKeyFingerprint p;
     publicKeyAlgorithm := publicKeyAlgorithm p; sessionKey := sessionKey p;
     sessionKeyAlgorithm := v; encrypted := encrypted p |}.

Definition set_encrypted (v : params) (p : packet) : packet :=
  {| version := version p; publicKeyID := publicKeyID p;
     publicKeyVersion := publicKeyVersion p;
     publicKeyFingerprint := publicKeyFingerprint p;
     publicKeyAlgorithm := publicKeyAlgorithm p; sessionKey := sessionKey p;
     sessionKeyAlgorithm := sessionKeyAlgorithm p; encrypted := v |}.

(** A session key with its cipher: what [decodeSessionKey] returns and
    what a [randomSessionKey] is. *)
Record SessionKey : Type := {
  sk_sessionKeyAlgorithm : jsval;
  sk_sessionKey : bytes
}.

(** The fields of the decryption key that [decrypt] reads. *)
Record Key : Type := {
  key_algorithm : jsval;
  key_version : jsval;
  key_publicParams : params;
  key_privateParams : option params;
  key_fingerprintBytes : bytes
}.

Definition encodeSessionKey (version keyAlgo cipherAlgo : jsval)
    (sessionKeyData : bytes) : result bytes :=
  if case_of keyAlgo [enums.publicKey.rsaEncrypt; enums.publicKey.rsaEncryptSign;
                      enums.publicKey.elgamal; enums.publicKey.ecdh;
                      enums.publicKey.aead] then
(* add checksum *)
Ok (util.concatUint8Array [
  Uint8Array.from (if strict_eq version (JNum 6) then [] else [to_int32 cipherAlgo]);
  sessionKeyData;
  util.writeChecksum
    (Uint8Array.subarray_from sessionKeyData (len sessionKeyData mod 8))
])
else if case_of keyAlgo algosWithV3CleartextSessionKeyAlgorithm then
Ok sessionKeyData
else Throw (Error "Unsupported public key algorithm").

(** [isValidChecksum] of [decodeSessionKey]: 0 or 1. *)
Definition isValidChecksum (decryptedData : bytes) : Z :=
  let result := Uint8Array.subarray decryptedData 0 (len decryptedData - 2) in
  let checksum := Uint8Array.subarray_from decryptedData (len decryptedData - 2) in
  let computedChecksum :=
    util.writeChecksum (Uint8Array.subarray_from result (len result mod 8)) in
  Z.land
    (Z_of_bool (strict_eq (Uint8Array.get computedChecksum 0) (Uint8Array.get checksum 0)))
    (Z_of_bool (strict_eq (Uint8Array.get computedChecksum 1) (Uint8Array.get checksum 1))).

(** [decryptedSessionKey] of [decodeSessionKey]. *)
Definition decryptedSessionKey (version : jsval) (decryptedData : bytes) : SessionKey :=
  let result := Uint8Array.subarray decryptedData 0 (len decryptedData - 2) in
  if strict_eq version (JNum 6) then
    {| sk_sessionKeyAlgorithm := JNull; sk_sessionKey := result |}
  else
    {| sk_sessionKeyAlgorithm := Uint8Array.get result 0;
       sk_sessionKey := Uint8Array.subarray_from result 1 |}.

Definition decodeSessionKey (version keyAlgo : jsval) (decryptedData : bytes)
    (randomSessionKey : option SessionKey) : result SessionKey :=
  if case_of keyAlgo [enums.publicKey.rsaEncrypt; enums.publicKey.rsaEncryptSign;
                      enums.publicKey.elgamal; enums.publicKey.ecdh;
                      enums.publicKey.aead] then
(* verify checksum in constant time *)
let isValidChecksum := isValidChecksum decryptedData in
let decryptedSessionKey := decryptedSessionKey version decryptedData in
match randomSessionKey with
| Some randomSessionKey =>
(* We must not leak info about the validity of the decrypted checksum
   or cipher algo.  The decrypted session key must be of the same algo
   and size as the random session key, otherwise we discard it and use
   the random data. *)
let isValidPayload :=
  Z.land
    (Z.land isValidChecksum
       (Z_of_bool (strict_eq (sk_sessionKeyAlgorithm decryptedSessionKey)
                             (sk_sessionKeyAlgorithm randomSessionKey))))
    (Z_of_bool (len (sk_sessionKey decryptedSessionKey)
                =? len (sk_sessionKey randomSessionKey))) in
Ok {| sk_sessionKey :=
        util.selectUint8Array isValidPayload
          (sk_sessionKey decryptedSessionKey)
          (sk_sessionKey randomSessionKey);
      sk_sessionKeyAlgorithm :=
        if strict_eq version (JNum 6) then JNull
        else JNum (util.selectUint8 isValidPayload
                     (sk_sessionKeyAlgorithm decryptedSessionKey)
                     (sk_sessionKeyAlgorithm randomSessionKey)) |}
| None =>
(* [isValidChecksum && (version === 6 || enums.read(...))]: the name
   that [enums.read] returns is tested for truthiness *)
isValidPayload <-
  (if isValidChecksum =? 0 then Ok false
   else if strict_eq version (JNum 6) then Ok true
   else
     name <- enums.read enums.symmetric.codes
               (sk_sessionKeyAlgorithm decryptedSessionKey) ;;
     Ok (negb (String.eqb name EmptyString))) ;;
if isValidPayload then Ok decryptedSessionKey
else Throw (Error "Decryption error")
end
else if case_of keyAlgo algosWithV3CleartextSessionKeyAlgorithm then
Ok {| sk_sessionKeyAlgorithm := JNull; sk_sessionKey := decryptedData |}
else Throw (Error "Unsupported public key algorithm").

Section WithPrimitives.
Variable P : Primitives.
Variable config : Config.

(** Parsing function for a publickey encrypted session key packet
    (tag 1).  [readRecipient] is its first part, up to the recipient
    identifier, and returns the offset reached; the message of its error
    carries the version number in the source. *)
Definition readRecipient (buf : bytes) : stx packet Z :=
  let version := Uint8Array.get buf 0 in
  _ <~ smodify (set_version version) ;;
  if negb (strict_eq version (JNum 3)) && negb (strict_eq version (JNum 6)) then
    sthrow (UnsupportedError "Version of the PKESK packet is unsupported.")
  else
      (if strict_eq version (JNum 6) then
(* A one-octet size of the following two fields; it may be zero. *)
let versionAndFingerprintLength := Uint8Array.get buf 1 in
if truthy versionAndFingerprintLength then
  let publicKeyVersion := Uint8Array.get buf 2 in
  _ <~ smodify (set_publicKeyVersion publicKeyVersion) ;;
  let fingerprintLength := to_int32 versionAndFingerprintLength - 1 in
  let fingerprint := Uint8Array.subarray buf 3 (3 + fingerprintLength) in
  _ <~ smodify (set_publicKeyFingerprint (Some fingerprint)) ;;
  _ <~ smodify (set_publicKeyID
         (if js_ge publicKeyVersion 5 then
(* For v5/6 the Key ID is the high-order 64 bits of the
   fingerprint. *)
fst (KeyID.read fingerprint)
else
(* For v4 the Key ID is the low-order 64 bits. *)
fst (KeyID.read (Uint8Array.subarray_from fingerprint (-8))))) ;;
sret (3 + fingerprintLength)
else
(* anonymous recipient *)
_ <~ smodify (set_publicKeyID KeyID.wildcard) ;;
sret 2
else
let '(id, n) := KeyID.read (Uint8Array.subarray buf 1 9) in
_ <~ smodify (set_publicKeyID id) ;;
sret (1 + n)).

Definition read (buf : bytes) : stx packet unit :=
    let version := Uint8Array.get buf 0 in
    offset <~ readRecipient buf ;;
    let publicKeyAlgorithm := Uint8Array.get buf offset in
    _ <~ smodify (set_publicKeyAlgorithm publicKeyAlgorithm) ;;
    enc <~ slift (Crypto.parseEncSessionKeyParams P publicKeyAlgorithm
                    (Uint8Array.subarray_from buf (offset + 1))) ;;
    _ <~ smodify (set_encrypted enc) ;;
    if case_of publicKeyAlgorithm algosWithV3CleartextSessionKeyAlgorithm then
      C <~ slift (getParam enc "C") ;;
      if strict_eq version (JNum 3) then
        algo <~ slift (enums.write enums.symmetric.codes (Crypto.C_algorithm C)) ;;
        smodify (set_sessionKeyAlgorithm (JNum algo))
      else if negb (strict_eq (Crypto.C_algorithm C) JNull) then
        sthrow (Error "Unexpected cleartext symmetric algorithm")
      else sret tt
    else sret tt.

(** Encrypt session key packet *)
Definition encrypt (key : Key) : stx packet unit :=
  this <~ sget ;;
  algo <~ slift (enums.write enums.publicKey.codes (publicKeyAlgorithm this)) ;;
(* No symmetric encryption algorithm identifier is passed to the
   public-key algorithm for a v6 PKESK packet, as it is included in the
   v2 SEIPD packet. *)
let sessionKeyAlgorithm :=
  if strict_eq (version this) (JNum 3) then sessionKeyAlgorithm this else JNull in
let fingerprint :=
  if strict_eq (key_version key) (JNum 5)
  then Uint8Array.subarray (key_fingerprintBytes key) 0 20
  else key_fingerprintBytes key in
sessionKeyData <~ slift (match sessionKey this with
                         | Some k => Ok k
                         | None => Throw (TypeError "sessionKeyData")
                         end) ;;
encoded <~ slift (encodeSessionKey (version this) (JNum algo) sessionKeyAlgorithm
                    sessionKeyData) ;;
let privateParams :=
  if algo =? enums.publicKey.aead then key_privateParams key else None in
enc <~ slift (Crypto.publicKeyEncrypt P config (JNum algo) sessionKeyAlgorithm
                (key_publicParams key) privateParams encoded fingerprint) ;;
smodify (set_encrypted enc).

(** Decrypts the session key *)
Definition decrypt (key : Key) (randomSessionKey : option SessionKey)
  : stx packet unit :=
  this <~ sget ;;
(* check that session key algo matches the secret key algo *)
if negb (strict_eq (publicKeyAlgorithm this) (key_algorithm key)) then
  sthrow (Error "Decryption error")
else
  randomPayload <~ slift
    (match randomSessionKey with
     | Some r =>
         payload <- encodeSessionKey (version this) (publicKeyAlgorithm this)
                      (sk_sessionKeyAlgorithm r) (sk_sessionKey r) ;;
         Ok (Some payload)
     | None => Ok None
     end) ;;
  let fingerprint :=
    if strict_eq (key_version key) (JNum 5)
    then Uint8Array.subarray (key_fingerprintBytes key) 0 20
    else key_fingerprintBytes key in
  decryptedData <~ slift
    (Crypto.publicKeyDecrypt P (publicKeyAlgorithm this) (key_publicParams key)
       (key_privateParams key) (encrypted this) fingerprint randomPayload) ;;
  decoded <~ slift
    (decodeSessionKey (version this) (publicKeyAlgorithm this) decryptedData
       randomSessionKey) ;;
  _ <~ (if strict_eq (version this) (JNum 3) then
(* v3 Montgomery curves have cleartext cipher algo *)
let hasEncryptedAlgo :=
  negb (case_of (publicKeyAlgorithm this)
          algosWithV3CleartextSessionKeyAlgorithm) in
let algo := if hasEncryptedAlgo then sk_sessionKeyAlgorithm decoded
            else sessionKeyAlgorithm this in
_ <~ smodify (set_sessionKeyAlgorithm algo) ;;
cipher <~ slift (getCipherParams P algo) ;;
if negb (len (sk_sessionKey decoded) =? keySize cipher) then
  sthrow (Error "Unexpected session key size")
else sret tt
else sret tt) ;;
smodify (set_sessionKey (Some (sk_sessionKey decoded))).

End WithPrimitives.
End PKESK.

(** ** Signing and verification dispatcher ([src/crypto/signature.js]) *)

Module Signature.
Section WithPrimitives.
Variable P : Primitives.
Variable config : Config.

Import enums.

(** [getHashByteLength(hashAlgo) < getHashByteLength(enums.hash.sha256)] *)
Definition weakerThanSha256 (hashAlgo : jsval) : result bool :=
  n <- Hash.getHashByteLength hashAlgo ;;
  m <- Hash.getHashByteLength (JNum hash.sha256) ;;
  Ok (n <? m).

(** Verifies the signature provided for data using specified algorithms
    and public key parameters. *)
Definition verify (algo hashAlgo : jsval) (signature publicParams : params)
    (privateParams : option params) (data hashed : bytes) : result bool :=
  if case_of algo [publicKey.rsaEncryptSign; publicKey.rsaEncrypt; publicKey.rsaSign] then
    n <- getBytes publicParams "n" ;;
    e <- getBytes publicParams "e" ;;
    sig_s <- getBytes signature "s" ;;
    s <- util.leftPad sig_s (len n) ;;
    rsa_verify P hashAlgo data s n e hashed
  else if case_of algo [publicKey.dsa] then
    g <- getBytes publicParams "g" ;;
    p <- getBytes publicParams "p" ;;
    q <- getBytes publicParams "q" ;;
    y <- getBytes publicParams "y" ;;
    r <- getBytes signature "r" ;;
    s <- getBytes signature "s" ;;
    dsa_verify P hashAlgo r s hashed g p q y
  else if case_of algo [publicKey.ecdsa] then
    oid <- getParam publicParams "oid" ;;
    curveSize <- curve_payloadSize P oid ;;
    sig_r <- getBytes signature "r" ;;
    r <- util.leftPad sig_r curveSize ;;
    sig_s <- getBytes signature "s" ;;
    s <- util.leftPad sig_s curveSize ;;
    Q <- getBytes publicParams "Q" ;;
    ecdsa_verify P oid hashAlgo r s data Q hashed
  else if case_of algo [publicKey.eddsaLegacy] then
    weak <- weakerThanSha256 hashAlgo ;;
    if weak then Throw (Error "Hash algorithm too weak for EdDSALegacy.")
    else
      oid <- getParam publicParams "oid" ;;
      curveSize <- curve_payloadSize P oid ;;
      sig_r <- getBytes signature "r" ;;
      r <- util.leftPad sig_r curveSize ;;
      sig_s <- getBytes signature "s" ;;
      s <- util.leftPad sig_s curveSize ;;
      Q <- getBytes publicParams "Q" ;;
      eddsaLegacy_verify P oid hashAlgo r s data Q hashed
  else if case_of algo [publicKey.ed25519; publicKey.ed448] then
    weak <- Eddsa.hashTooWeak algo hashAlgo ;;
    if weak then Throw (Error "Hash algorithm too weak for EdDSA.")
    else
      A <- getBytes publicParams "A" ;;
      RS <- getBytes signature "RS" ;;
      Eddsa.verify P algo hashAlgo RS data A hashed
  else if case_of algo [publicKey.hmac] then
    match privateParams with
    | None =>
        Throw (Error
          "Cannot verify HMAC signature with symmetric key missing private parameters")
    | Some privateParams =>
        algo <- getParam publicParams "cipher" ;;
        algoValue <- getValue algo ;;
        mac <- getParam signature "mac" ;;
        macData <- Crypto.C_data mac ;;
        keyMaterial <- getBytes privateParams "keyMaterial" ;;
        hmac_verify P algoValue keyMaterial macData hashed
    end
  else if case_of algo [publicKey.pqc_mldsa_ed25519] then
    compatible <- PqcSignature.isCompatibleHashAlgo algo hashAlgo ;;
    if negb compatible then
      Throw (Error "Unexpected hash algorithm for PQC signature: digest size too short")
    else
      eccPublicKey <- getBytes publicParams "eccPublicKey" ;;
      mldsaPublicKey <- getBytes publicParams "mldsaPublicKey" ;;
      eccSignature <- getBytes signature "eccSignature" ;;
      mldsaSignature <- getBytes signature "mldsaSignature" ;;
      PqcSignature.verify P algo hashAlgo eccPublicKey mldsaPublicKey hashed
                          eccSignature mldsaSignature
  else Throw (Error "Unknown signature algorithm.").

(** Creates a signature on data using specified algorithms and private
    key parameters. *)
Definition sign (algo hashAlgo : jsval) (publicKeyParams privateKeyParams : option params)
    (data hashed : bytes) : result params :=
  match publicKeyParams, privateKeyParams with
  | Some publicKeyParams, Some privateKeyParams =>
      if case_of algo [publicKey.rsaEncryptSign; publicKey.rsaEncrypt;
                       publicKey.rsaSign] then
        n <- getBytes publicKeyParams "n" ;;
        e <- getBytes publicKeyParams "e" ;;
        d <- getBytes privateKeyParams "d" ;;
        p <- getBytes privateKeyParams "p" ;;
        q <- getBytes privateKeyParams "q" ;;
        u <- getBytes privateKeyParams "u" ;;
        s <- rsa_sign P hashAlgo data n e d p q u hashed ;;
        Ok [("s", PBytes s)]%string
      else if case_of algo [publicKey.dsa] then
        g <- getBytes publicKeyParams "g" ;;
        p <- getBytes publicKeyParams "p" ;;
        q <- getBytes publicKeyParams "q" ;;
        x <- getBytes privateKeyParams "x" ;;
        dsa_sign P hashAlgo hashed g p q x
      else if case_of algo [publicKey.elgamal] then
        Throw (Error "Signing with Elgamal is not defined in the OpenPGP standard.")
      else if case_of algo [publicKey.ecdsa] then
        oid <- getParam publicKeyParams "oid" ;;
        Q <- getBytes publicKeyParams "Q" ;;
        d <- getBytes privateKeyParams "d" ;;
        ecdsa_sign P oid hashAlgo data Q d hashed
      else if case_of algo [publicKey.eddsaLegacy] then
        weak <- weakerThanSha256 hashAlgo ;;
        if weak then Throw (Error "Hash algorithm too weak for EdDSALegacy.")
        else
          oid <- getParam publicKeyParams "oid" ;;
          Q <- getBytes publicKeyParams "Q" ;;
          seed <- getBytes privateKeyParams "seed" ;;
          eddsaLegacy_sign P oid hashAlgo data Q seed hashed
      else if case_of algo [publicKey.ed25519; publicKey.ed448] then
        weak <- Eddsa.hashTooWeak algo hashAlgo ;;
        if weak then Throw (Error "Hash algorithm too weak for EdDSA.")
        else
          A <- getBytes publicKeyParams "A" ;;
          seed <- getBytes privateKeyParams "seed" ;;
          Eddsa.sign P config algo hashAlgo data A seed hashed
      else if case_of algo [publicKey.hmac] then
        algo <- getParam publicKeyParams "cipher" ;;
        algoValue <- getValue algo ;;
        keyMaterial <- getBytes privateKeyParams "keyMaterial" ;;
        mac <- hmac_sign P algoValue keyMaterial hashed ;;
        Ok [("mac", PShortByteString mac)]%string
      else if case_of algo [publicKey.pqc_mldsa_ed25519] then
        compatible <- PqcSignature.isCompatibleHashAlgo algo hashAlgo ;;
        if negb compatible then
          Throw (Error
            "Unexpected hash algorithm for PQC signature: digest size too short")
        else
          eccPublicKey <- getBytes publicKeyParams "eccPublicKey" ;;
          eccSecretKey <- getBytes privateKeyParams "eccSecretKey" ;;
          mldsaSecretKey <- getBytes privateKeyParams "mldsaSecretKey" ;;
          PqcSignature.sign P algo hashAlgo eccSecretKey eccPublicKey mldsaSecretKey
                            hashed
      else Throw (Error "Unknown signature algorithm.")
  | _, _ => Throw (Error "Missing key parameters")
  end.

End WithPrimitives.
End Signature.

(** ** Secret-Key packet ([src/packet/secret_key.js]) *)

Module SecretKeyPacket.

Import StateExn.

(** [enums.packet.secretKey] *)
Definition tag : Z := 5.

(** The packet.  [pub] holds what the [PublicKeyPacket] part keeps
    (version, algorithm, public parameters); [isEncrypted],
    [isLegacyAEAD] and [usedModernAEAD] are [null] ([None]), [true] or
    [false]; [iv] and [unparseableKeyMaterial] are [undefined] ([None])
    until they are assigned. *)
Record packet : Type := {
  pub : PublicKeyFields;
  keyMaterial : option bytes;
  isEncrypted : option bool;
  s2kUsage : jsval;
  s2k : option S2K;
  symmetric : jsval;
  aead : jsval;
  isLegacyAEAD : option bool;
  privateParams : option params;
  usedModernAEAD : option bool;
  iv : option bytes;
  unparseableKeyMaterial : option bytes
}.

Definition version (p : packet) : jsval := pk_version (pub p).
Definition algorithm (p : packet) : jsval := pk_algorithm (pub p).
Definition publicParams (p : packet) : params := pk_publicParams (pub p).

Definition constructor (publicPart : PublicKeyFields) : packet := {|
  pub := publicPart;
  keyMaterial := None;
  isEncrypted := None;
  s2kUsage := JNum 0;
  s2k := None;
  symmetric := JNull;
  aead := JNull;
  isLegacyAEAD := None;
  privateParams := None;
  usedModernAEAD := None;
  iv := None;
  unparseableKeyMaterial := None
|}.

Definition set_pub (v : PublicKeyFields) (p : packet) : packet :=
  {| pub := v; keyMaterial := keyMaterial p; isEncrypted := isEncrypted p;
     s2kUsage := s2kUsage p; s2k := s2k p; symmetric := symmetric p; aead :=
     aead p; isLegacyAEAD := isLegacyAEAD p; privateParams := privateParams
     p; usedModernAEAD := usedModernAEAD p; iv := iv p;
     unparseableKeyMaterial := unparseableKeyMaterial p |}.

Definition set_keyMaterial (v : option bytes) (p : packet) : packet :=
  {| pub := pub p; keyMaterial := v; isEncrypted := isEncrypted p; s2kUsage
     := s2kUsage p; s2k := s2k p; symmetric := symmetric p; aead := aead p;
     isLegacyAEAD := isLegacyAEAD p; privateParams := privateParams p;
     usedModernAEAD := usedModernAEAD p; iv := iv p; unparseableKeyMaterial
     := unparseableKeyMaterial p |}.

Definition set_isEncrypted (v : option bool) (p : packet) : packet :=
  {| pub := pub p; keyMaterial := keyMaterial p; isEncrypted := v; s2kUsage
     := s2kUsage p; s2k := s2k p; symmetric := symmetric p; aead := aead p;
     isLegacyAEAD := isLegacyAEAD p; privateParams := privateParams p;
     usedModernAEAD := usedModernAEAD p; iv := iv p; unparseableKeyMaterial
     := unparseableKeyMaterial p |}.

Definition set_s2kUsage (v : jsval) (p : packet) : packet :=
  {| pub := pub p; keyMaterial := keyMaterial p; isEncrypted := isEncrypted
     p; s2kUsage := v; s2k := s2k p; symmetric := symmetric p; aead := aead
     p; isLegacyAEAD := isLegacyAEAD p; privateParams := privateParams p;
     usedModernAEAD := usedModernAEAD p; iv := iv p; unparseableKeyMaterial
     := unparseableKeyMaterial p |}.

Definition set_s2k (v : option S2K) (p : packet) : packet :=
  {| pub := pub p; keyMaterial := keyMaterial p; isEncrypted := isEncrypted
     p; s2kUsage := s2kUsage p; s2k := v; symmetric := symmetric p; aead :=
     aead p; isLegacyAEAD := isLegacyAEAD p; privateParams := privateParams
     p; usedModernAEAD := usedModernAEAD p; iv := iv p;
     unparseableKeyMaterial := unparseableKeyMaterial p |}.

Definition set_symmetric (v : jsval) (p : packet) : packet :=
  {| pub := pub p; keyMaterial := keyMaterial p; isEncrypted := isEncrypted
     p; s2kUsage := s2kUsage p; s2k := s2k p; symmetric := v; aead := aead
     p; isLegacyAEAD := isLegacyAEAD p; privateParams := privateParams p;
     usedModernAEAD := usedModernAEAD p; iv := iv p; unparseableKeyMaterial
     := unparseableKeyMaterial p |}.

Definition set_aead (v : jsval) (p : packet) : packet :=
  {| pub := pub p; keyMaterial := keyMaterial p; isEncrypted := isEncrypted
     p; s2kUsage := s2kUsage p; s2k := s2k p; symmetric := symmetric p; aead
     := v; isLegacyAEAD := isLegacyAEAD p; privateParams := privateParams p;
     usedModernAEAD := usedModernAEAD p; iv := iv p; unparseableKeyMaterial
     := unparseableKeyMaterial p |}.

Definition set_isLegacyAEAD (v : option bool) (p : packet) : packet :=
  {| pub := pub p; keyMaterial := keyMaterial p; isEncrypted := isEncrypted
     p; s2kUsage := s2kUsage p; s2k := s2k p; symmetric := symmetric p; aead
     := aead p; isLegacyAEAD := v; privateParams := privateParams p;
     usedModernAEAD := usedModernAEAD p; iv := iv p; unparseableKeyMaterial
     := unparseableKeyMaterial p |}.

Definition set_privateParams (v : option params) (p : packet) : packet :=
  {| pub := pub p; keyMaterial := keyMaterial p; isEncrypted := isEncrypted
     p; s2kUsage := s2kUsage p; s2k := s2k p; symmetric := symmetric p; aead
     := aead p; isLegacyAEAD := isLegacyAEAD p; privateParams := v;
     usedModernAEAD := usedModernAEAD p; iv := iv p; unparseableKeyMaterial
     := unparseableKeyMaterial p |}.

Definition set_usedModernAEAD (v : option bool) (p : packet) : packet :=
  {| pub := pub p; keyMaterial := keyMaterial p; isEncrypted := isEncrypted
     p; s2kUsage := s2kUsage p; s2k := s2k p; symmetric := symmetric p; aead
     := aead p; isLegacyAEAD := isLegacyAEAD p; privateParams :=
     privateParams p; usedModernAEAD := v; iv := iv p;
     unparseableKeyMaterial := unparseableKeyMaterial p |}.

Definition set_iv (v : option bytes) (p : packet) : packet :=
  {| pub := pub p; keyMaterial := keyMaterial p; isEncrypted := isEncrypted
     p; s2kUsage := s2kUsage p; s2k := s2k p; symmetric := symmetric p; aead
     := aead p; isLegacyAEAD := isLegacyAEAD p; privateParams :=
     privateParams p; usedModernAEAD := usedModernAEAD p; iv := v;
     unparseableKeyMaterial := unparseableKeyMaterial p |}.

Definition set_unparseableKeyMaterial (v : option bytes) (p : packet) : packet :=
  {| pub := pub p; keyMaterial := keyMaterial p; isEncrypted := isEncrypted
     p; s2kUsage := s2kUsage p; s2k := s2k p; symmetric := symmetric p; aead
     := aead p; isLegacyAEAD := isLegacyAEAD p; privateParams :=
     privateParams p; usedModernAEAD := usedModernAEAD p; iv := iv p;
     unparseableKeyMaterial := v |}.

(** Check whether secret-key data is available in decrypted form. *)
Definition isDecrypted (p : packet) : bool :=
  match isEncrypted p with
  | Some false => true
  | _ => false
  end.

(** Check whether this is a gnu-dummy key *)
Definition isDummy (p : packet) : bool :=
  match s2k p with
  | Some s => String.eqb (s2k_type s) "gnu-dummy"
  | None => false
  end.

(** Check whether the key includes secret key material. *)
Definition isMissingSecretKeyMaterial (p : packet) : bool :=
  match unparseableKeyMaterial p with
  | Some _ => true
  | None => isDummy p
  end.

(** [!!v] of a field that is [null], [true] or [false]. *)
Definition istrue (v : option bool) : bool :=
  match v with
  | Some true => true
  | _ => false
  end.

Definition fromOption {A : Type} (name : string) (v : option A) : result A :=
  match v with
  | Some a => Ok a
  | None => Throw (TypeError name)
  end.

Section WithPrimitives.
Variable P : Primitives.

(** Derive encryption key *)
Definition produceEncryptionKey (keyVersion : jsval) (s2k : S2K) (passphrase : string)
    (cipherAlgo aeadMode : jsval) (serializedPacketTag : option bytes)
    (isLegacyAEAD : option bool) : result bytes :=
  if String.eqb (s2k_type s2k) "argon2" && negb (truthy aeadMode) then
    Throw (Error "Using Argon2 S2K without AEAD is not allowed")
  else if String.eqb (s2k_type s2k) "simple" && strict_eq keyVersion (JNum 6) then
    Throw (Error "Using Simple S2K with version 6 keys is not allowed")
  else
    cipher <- getCipherParams P cipherAlgo ;;
    derivedKey <- s2k_produceKey P s2k passphrase (keySize cipher) ;;
    if negb (truthy aeadMode) || strict_eq keyVersion (JNum 5) || istrue isLegacyAEAD then
      Ok derivedKey
    else
      tagBytes <- fromOption "serializedPacketTag" serializedPacketTag ;;
      let info := util.concatUint8Array [
        tagBytes;
        Uint8Array.from [to_int32 keyVersion; to_int32 cipherAlgo; to_int32 aeadMode]
      ] in
      computeHKDF P enums.hash.sha256 derivedKey [] info (keySize cipher).

(** Clear private key parameters.  Every buffer of the record is filled
    with zeros and removed before the record itself is dropped. *)
Definition clearPrivateParams : stx packet unit :=
  this <~ sget ;;
  if isMissingSecretKeyMaterial this then sret tt
  else
    _ <~ slift (fromOption "Object.keys" (privateParams this)) ;;
    _ <~ smodify (set_privateParams None) ;;
    smodify (set_isEncrypted (Some true)).


Definition generate (bits : Z) (curve : string) (symmetric : jsval) : stx packet unit :=
  this <~ sget ;;
(* Implementations MUST NOT accept or generate v6 key material using the
   deprecated OIDs. *)
if strict_eq (version this) (JNum 6)
   && ((strict_eq (algorithm this) (JNum enums.publicKey.ecdh)
        && String.eqb curve enums.curve.curve25519Legacy)
       || strict_eq (algorithm this) (JNum enums.publicKey.eddsaLegacy)) then
  sthrow (Error "Cannot generate v6 keys of type 'ecc' with this curve. Generate a key of type 'curve25519' instead")
else if negb (strict_eq (version this) (JNum 6))
        && strict_eq (algorithm this) (JNum enums.publicKey.pqc_mldsa_ed25519) then
  sthrow (Error "Cannot generate signing keys of type 'pqc' with this version. Generate a v6 key instead")
else
  '(privateParams, publicParams) <~
    slift (Crypto.generateParams P (algorithm this) bits curve symmetric) ;;
  _ <~ smodify (set_privateParams (Some privateParams)) ;;
  _ <~ smodify (set_pub {| pk_version := version this;
                           pk_algorithm := algorithm this;
                           pk_publicParams := publicParams |}) ;;
  smodify (set_isEncrypted (Some false)).

(** *** [read]

    The parser keeps a cursor [i] into the buffer; the cursor is part of
    the state, because the [catch] block and the code after it continue
    from where the [try] block stopped. *)

Definition onThis {A : Type} (m : stx packet A) : stx (packet * Z) A :=
  fun '(p, i) => let '(p', r) := m p in ((p', i), r).

(** [bytes[i++]] *)
Definition nextByte (buf : bytes) : stx (packet * Z) jsval :=
  fun '(p, i) => ((p, i + 1), Ok (Uint8Array.get buf i)).

(** [i += n] *)
Definition advance (n : Z) : stx (packet * Z) unit :=
  fun '(p, i) => ((p, i + n), Ok tt).

Definition position : stx (packet * Z) Z := fun '(p, i) => ((p, i), Ok i).

Definition getThis : stx (packet * Z) packet := fun '(p, i) => ((p, i), Ok p).

(** The initialization vector, [if (this.s2kUsage) { ... }] of the [try]
    block. *)
Definition readIV (buf : bytes) (config : Config) : stx (packet * Z) unit :=
  this <~ getThis ;;
  if truthy (s2kUsage this) then
    let legacy :=
      strict_eq (s2kUsage this) (JNum 253)
      && (strict_eq (version this) (JNum 5)
          || (strict_eq (version this) (JNum 4)
              && parseAEADEncryptedV4KeysAsLegacy config)) in
    _ <~ onThis (smodify (set_isLegacyAEAD (Some legacy))) ;;
    i <~ position ;;
    ivBytes <~
      (if negb (strict_eq (s2kUsage this) (JNum 253)) || legacy then
         cipher <~ slift (getCipherParams P (symmetric this)) ;;
         let ivBytes := Uint8Array.subarray buf i (i + blockSize cipher) in
         _ <~ onThis (smodify (set_iv (Some ivBytes))) ;;
         _ <~ onThis (smodify (set_usedModernAEAD (Some false))) ;;
         sret ivBytes
       else
         ivLength <~ slift (getAEADMode_ivLength P (aead this)) ;;
         let ivBytes := Uint8Array.subarray buf i (i + ivLength) in
         _ <~ onThis (smodify (set_iv (Some ivBytes))) ;;
(* the non-legacy AEAD encryption mechanism also authenticates
   public key params; no need for manual validation. *)
_ <~ onThis (smodify (set_usedModernAEAD (Some true))) ;;
sret ivBytes) ;;
advance (len ivBytes)
else sret tt.

(** The [try] block; its value tells whether [read] returned from inside
    it (a gnu-dummy key). *)
Definition readS2K (buf : bytes) (config : Config) : stx (packet * Z) bool :=
  this <~ getThis ;;
  if case_of (s2kUsage this) [255; 254; 253] then
    symmetric <~ nextByte buf ;;
    _ <~ onThis (smodify (set_symmetric symmetric)) ;;
    _ <~ (if strict_eq (s2kUsage this) (JNum 253) then
            aead <~ nextByte buf ;;
            onThis (smodify (set_aead aead))
          else sret tt) ;;
    _ <~ (if strict_eq (version this) (JNum 6) then advance 1 else sret tt) ;;
    s2kType <~ nextByte buf ;;
    s <~ slift (newS2KFromType P s2kType) ;;
    _ <~ onThis (smodify (set_s2k (Some s))) ;;
    i <~ position ;;
    '(s', n) <~ slift (s2k_read P s (Uint8Array.subarray buf i (len buf))) ;;
    _ <~ onThis (smodify (set_s2k (Some s'))) ;;
    _ <~ advance n ;;
    if String.eqb (s2k_type s') "gnu-dummy" then sret true
    else
      _ <~ readIV buf config ;;
      sret false
  else
    _ <~ (if truthy (s2kUsage this) then
            onThis (smodify (set_symmetric (s2kUsage this)))
          else sret tt) ;;
    _ <~ readIV buf config ;;
    sret false.

(** The secret key material that follows the S2K fields. *)
Definition readKeyMaterial (buf : bytes) : stx (packet * Z) unit :=
  this <~ getThis ;;
  _ <~ (if strict_eq (version this) (JNum 5) then advance 4 else sret tt) ;;
  i <~ position ;;
  let keyMaterial := Uint8Array.subarray_from buf i in
  _ <~ onThis (smodify (set_keyMaterial (Some keyMaterial))) ;;
  _ <~ onThis (smodify (set_isEncrypted (Some (truthy (s2kUsage this))))) ;;
  if negb (truthy (s2kUsage this)) then
    cleartext <~
      (if strict_eq (version this) (JNum 6) then sret keyMaterial
       else
         let cleartext := Uint8Array.subarray keyMaterial 0 (-2) in
         if negb (util.equalsUint8Array (util.writeChecksum cleartext)
                    (Uint8Array.subarray_from keyMaterial (-2))) then
           sthrow (Error "Key checksum mismatch")
         else sret cleartext) ;;
    match Crypto.parsePrivateKeyParams P (algorithm this) cleartext (publicParams this) with
    | Ok (read, privateParams) =>
        if read <? len cleartext then sthrow (Error "Error reading MPIs")
        else onThis (smodify (set_privateParams (Some privateParams)))
    | Throw (UnsupportedError msg) => sthrow (UnsupportedError msg)
    | Throw _ =>
(* avoid throwing potentially sensitive errors *)
sthrow (Error "Error reading MPIs")
end
else sret tt.

(** Internal parser for private keys *)
Definition read (buf : bytes) (config : Config) : stx packet unit :=
  fun this0 =>
    let body : stx (packet * Z) unit :=
(* - A Public-Key or Public-Subkey packet, as described above. *)
'(fields, i) <~ slift (readPublicKey P buf config) ;;
_ <~ onThis (smodify (set_pub fields)) ;;
_ <~ advance i ;;
let startOfSecretKeyData := i in
(* - One octet indicating string-to-key usage conventions. *)
s2kUsage <~ nextByte buf ;;
_ <~ onThis (smodify (set_s2kUsage s2kUsage)) ;;
(* - Only for a version 5 packet, a one-octet scalar octet count of
     the next 4 optional fields. *)
_ <~ (if strict_eq (pk_version fields) (JNum 5) then advance 1 else sret tt) ;;
(* - Only for a version 6 packet where the secret key material is
     encrypted, a one-octet count of the optional fields. *)
_ <~ (if strict_eq (pk_version fields) (JNum 6) && truthy s2kUsage
      then advance 1 else sret tt) ;;
returned <~
  stry (readS2K buf config)
       (fun e =>
(* if the s2k is unsupported, we still want to support
   encrypting and verifying with the given key *)
if negb (truthy s2kUsage) then sthrow e (* always throw for decrypted keys *)
else
  _ <~ onThis (smodify (set_unparseableKeyMaterial
         (Some (Uint8Array.subarray_from buf startOfSecretKeyData)))) ;;
  _ <~ onThis (smodify (set_isEncrypted (Some true))) ;;
  sret false) ;;
if returned then sret tt else readKeyMaterial buf
in
let '((this', _), r) := body (this0, 0) in (this', r).

(** [passphrase] is falsy when it is the empty string. *)
Definition falsyString (s : string) : bool := String.eqb s EmptyString.

(** Encrypt the payload. *)
Definition encrypt (passphrase : string) (config : Config) : stx packet unit :=
  this <~ sget ;;
  if isDummy this then sret tt
  else if negb (isDecrypted this) then
    sthrow (Error "Key packet is already encrypted")
  else if falsyString passphrase then
    sthrow (Error "A non-empty passphrase is required for key encryption.")
  else
    let s := s2k_generateSalt P (newS2KFromConfig P config) in
    _ <~ smodify (set_s2k (Some s)) ;;
    priv <~ slift (fromOption "Object.keys" (privateParams this)) ;;
    cleartext <~ slift (Crypto.serializeParams P (algorithm this) priv) ;;
    let symmetric := JNum enums.symmetric.aes256 in
    _ <~ smodify (set_symmetric symmetric) ;;
    cipher <~ slift (getCipherParams P symmetric) ;;
    if aeadProtect config then
      _ <~ smodify (set_s2kUsage (JNum 253)) ;;
      let aead := JNum (preferredAEADAlgorithm config) in
      _ <~ smodify (set_aead aead) ;;
      ivLength <~ slift (getAEADMode_ivLength P aead) ;;
(* v4 is always re-encrypted with standard format instead. *)
let legacy := strict_eq (version this) (JNum 5) in
_ <~ smodify (set_isLegacyAEAD (Some legacy)) ;;
(* legacy AEAD does not guarantee integrity of public key material *)
_ <~ smodify (set_usedModernAEAD (Some (negb legacy))) ;;
let serializedPacketTag := writeTag P tag in
key <~ slift (produceEncryptionKey (version this) s passphrase symmetric aead
                (Some serializedPacketTag) (Some legacy)) ;;
let ivBytes := if legacy then getRandomBytes P "encrypt.iv" (blockSize cipher)
               else getRandomBytes P "encrypt.iv" ivLength in
_ <~ smodify (set_iv (Some ivBytes)) ;;
let associateData :=
  if legacy then []
  else util.concatUint8Array [serializedPacketTag; writePublicKey P (pub this)] in
keyMaterial <~ slift (aead_encrypt P aead symmetric key cleartext
                        (Uint8Array.subarray ivBytes 0 ivLength) associateData) ;;
smodify (set_keyMaterial (Some keyMaterial))
else
_ <~ smodify (set_s2kUsage (JNum 254)) ;;
_ <~ smodify (set_usedModernAEAD (Some false)) ;;
key <~ slift (produceEncryptionKey (version this) s passphrase symmetric
                JUndefined None None) ;;
let ivBytes := getRandomBytes P "encrypt.iv" (blockSize cipher) in
_ <~ smodify (set_iv (Some ivBytes)) ;;
digest <~ slift (computeDigest P enums.hash.sha1 cleartext) ;;
keyMaterial <~ slift (cfb_encrypt P symmetric key
                        (util.concatUint8Array [cleartext; digest]) ivBytes) ;;
smodify (set_keyMaterial (Some keyMaterial)).

(** Decrypts the private key params which are needed to use the key.
    The value is [Some false] for [return false] and [None] for a plain
    return. *)
Definition decrypt (passphrase : string) : stx packet (option bool) :=
  this <~ sget ;;
  if isDummy this then sret (Some false)
  else if match unparseableKeyMaterial this with Some _ => true | None => false end then
    sthrow (Error "Key packet cannot be decrypted: unsupported S2K or cipher algo")
  else if isDecrypted this then
    sthrow (Error "Key packet is already decrypted.")
  else
    let serializedPacketTag := writeTag P tag in (* relevant for AEAD only *)
    key <~ slift
      (if case_of (s2kUsage this) [254; 253] then
         s <- fromOption "s2k" (s2k this) ;;
         produceEncryptionKey (version this) s passphrase (symmetric this) (aead this)
           (Some serializedPacketTag) (isLegacyAEAD this)
       else if strict_eq (s2kUsage this) (JNum 255) then
         Throw (Error
           "Encrypted private key is authenticated using an insecure two-byte hash")
       else
         Throw (Error
           "Private key is encrypted using an insecure S2K function: unsalted MD5")) ;;
    cleartext <~ slift
      (if strict_eq (s2kUsage this) (JNum 253) then
         ivLength <- getAEADMode_ivLength P (aead this) ;;
         let associateData :=
           if istrue (isLegacyAEAD this) then []
           else util.concatUint8Array [serializedPacketTag; writePublicKey P (pub this)] in
         keyMaterial <- fromOption "keyMaterial" (keyMaterial this) ;;
         ivBytes <- fromOption "iv" (iv this) ;;
         match aead_decrypt P (aead this) (symmetric this) key keyMaterial
                 (Uint8Array.subarray ivBytes 0 ivLength) associateData with
         | Ok cleartext => Ok cleartext
         | Throw err =>
             if String.eqb (message err) "Authentication tag mismatch" then
               Throw (Error (String.append "Incorrect key passphrase: " (message err)))
             else Throw err
         end
       else
         keyMaterial <- fromOption "keyMaterial" (keyMaterial this) ;;
         ivBytes <- fromOption "iv" (iv this) ;;
         cleartextWithHash <- cfb_decrypt P (symmetric this) key keyMaterial ivBytes ;;
         let cleartext := Uint8Array.subarray cleartextWithHash 0 (-20) in
         hash <- computeDigest P enums.hash.sha1 cleartext ;;
         if negb (util.equalsUint8Array hash
                    (Uint8Array.subarray_from cleartextWithHash (-20))) then
           Throw (Error "Incorrect key passphrase")
         else Ok cleartext) ;;
    match Crypto.parsePrivateKeyParams P (algorithm this) cleartext (publicParams this) with
    | Ok (_, privateParams) =>
        _ <~ smodify (set_privateParams (Some privateParams)) ;;
        _ <~ smodify (set_isEncrypted (Some false)) ;;
        _ <~ smodify (set_keyMaterial None) ;;
        _ <~ smodify (set_s2kUsage (JNum 0)) ;;
        _ <~ smodify (set_aead JNull) ;;
        _ <~ smodify (set_symmetric JNull) ;;
        _ <~ smodify (set_isLegacyAEAD None) ;;
        sret None
    | Throw _ => sthrow (Error "Error reading MPIs")
    end.

End WithPrimitives.
End SecretKeyPacket.

(** ** The combiner as the specification words it

    Section 4.2.1 of the specification: the digest of
    [counter(0,0,0,1) || eccShare || eccCt || eccPub || mlkemShare ||
     mlkemCt || mlkemPub || [algo] || "OpenPGPCompositeKDFv1"]. *)

Module Spec.

Definition multiKeyCombineInput (algo : Z)
    (eccShare eccCt eccPub mlkemShare mlkemCt mlkemPub : bytes) : bytes :=
  [0; 0; 0; 1] ++ eccShare ++ eccCt ++ eccPub ++ mlkemShare ++ mlkemCt ++ mlkemPub
    ++ [algo] ++ util.encodeUTF8 "OpenPGPCompositeKDFv1".

Definition multiKeyCombine (algo : Z)
    (eccShare eccCt eccPub mlkemShare mlkemCt mlkemPub : bytes) : bytes :=
  SHA3.sha3_256
    (multiKeyCombineInput algo eccShare eccCt eccPub mlkemShare mlkemCt mlkemPub).

(** The 2-byte checksum of a decoded session-key blob is valid
    (section 4.4): the blob ends in the checksum of the octets before
    it, summed from offset [length mod 8] on. *)
Definition validChecksum (decryptedData : bytes) : Prop :=
  exists (payload : bytes) (c0 c1 : Z),
    decryptedData = payload ++ [c0; c1]
    /\ util.writeChecksum (Uint8Array.subarray_from payload (len payload mod 8))
       = [c0; c1].


End Spec.

(** ** Decidable forms used by the properties *)

(** The algorithms whose decrypted session key carries a checksum:
    RSA, ElGamal, ECDH and AEAD. *)
Definition checksummedAlgorithms : list Z :=
  [enums.publicKey.rsaEncrypt; enums.publicKey.rsaEncryptSign;
   enums.publicKey.elgamal; enums.publicKey.ecdh; enums.publicKey.aead].

(** [wf_bytes], computed. *)
Definition wf_bytesb (b : bytes) : bool :=
  forallb (fun x => (0 <=? x) && (x <? 256)) b.

(** ** Reasoning about the state and exception monad *)

Module StateLogic.
Import StateExn.

(** [m] keeps [Q], however it ends. *)
Definition stable {S A : Type} (Q : S -> Prop) (m : stx S A) : Prop :=
  forall s, Q s -> Q (fst (m s)).

(** When [m] starts in a state of [Pre] and returns [a], the state it
    ends in satisfies [Post] at [a]. *)
Definition returns {S A : Type} (Pre : S -> Prop) (m : stx S A)
    (Post : S -> A -> Prop) : Prop :=
  forall s, Pre s -> forall s' a, m s = (s', Ok a) -> Post s' a.

End StateLogic.

(** ** The states of a Secret-Key packet *)

Module SecretKeyState.
Import SecretKeyPacket.







End SecretKeyState.

(** ** What key generation relies on

    The contracts of the generators and of the wire types that the
    round trip of the key parameters goes through. *)

Module Contracts.

(** A big-endian integer without leading zero octets. *)
Definition canonical (b : bytes) : bool :=
  match b with
  | [] => true
  | x :: _ => negb (x =? 0)
  end.

(** [b] can be written as an MPI and read back unchanged: its octets
    are bytes, it has no leading zeros, and its bit length fits the two
    octets of the MPI header. *)
Definition isMPI (b : bytes) : Prop :=
  wf_bytes b /\ canonical b = true /\ len b < 8192.

(** [v] is a registered symmetric cipher code. *)
Definition registeredCipher (v : jsval) : Prop :=
  exists c, v = JNum c /\ enums.write enums.symmetric.codes v = Ok c.

(** Two parameter records hold the same value in every field that
    [keep] selects. *)
Definition agreeOn (keep : string -> bool) (a b : params) : Prop :=
  forall name, keep name = true -> lookup name a = lookup name b.

(** The private parameters [priv] of a key with public parameters
    [pub] survive being written and read: they are serialized, the
    parser consumes all that was written, and what it returns agrees
    with [priv] on every field that is serialized. *)
Definition privateRoundTrip (P : Primitives) (algo : jsval) (priv pub : params) : Prop :=
  exists serialized priv',
    Crypto.serializeParams P algo priv = Ok serialized
    /\ Crypto.parsePrivateKeyParams P algo serialized pub = Ok (len serialized, priv')
    /\ agreeOn (fun name => negb (Crypto.excludedFields algo name)) priv' priv.






Record GeneratorsSpec (P : Primitives) : Prop := {
(** RSA: the six integers are canonical. *)
rsa_key : forall bits e k, rsa_generate P bits e = Ok k ->
  isMPI (rsa_n k) /\ isMPI (rsa_e k) /\ isMPI (rsa_d k)
  /\ isMPI (rsa_p k) /\ isMPI (rsa_q k) /\ isMPI (rsa_u k);
(** Curves: the key is on the curve that was asked for, the secret
    has the payload size of the curve, the point is canonical (it
    starts with its format octet) and, on ed25519Legacy, 33 octets
    long; the OID and the KDF parameters are read back as written. *)
ec_key : forall curve k, elliptic_generate P curve = Ok k ->
  wf_bytes (ec_secret k) /\ len (ec_secret k) < 8192
  /\ isMPI (ec_Q k)
  /\ oid_getName P (POID (ec_oid k)) = Ok curve
  /\ curve_payloadSize P (POID (ec_oid k)) = Ok (len (ec_secret k))
  /\ (forall rest, OID_read P (obj_write P (POID (ec_oid k)) ++ rest)
                   = Ok (ec_oid k, len (obj_write P (POID (ec_oid k)))))
  /\ (forall rest,
         KDFParams_read P (obj_write P (PKDFParams (ec_hash k) (ec_cipher k)) ++ rest)
         = Ok (ec_hash k, ec_cipher k,
               len (obj_write P (PKDFParams (ec_hash k) (ec_cipher k)))))
  /\ (curve = enums.curve.ed25519Legacy -> len (ec_Q k) = 33);
(** Random draws have the length that was asked for. *)
random_length : forall label n, 0 <= n -> len (getRandomBytes P label n) = n;
(** Ed25519: seeds and points have 32 octets. *)
ed25519_size : eddsa_getPayloadSize P (JNum enums.publicKey.ed25519) = Ok 32;
ed25519_point : forall seed, len (nacl_sign_keyPair_fromSeed P seed) = 32;
(** X25519 and X448: both halves have the payload size. *)
ecdhX_key : forall algo A k, ecdhX_generate P algo = Ok (A, k) ->
  ecdhX_getPayloadSize P algo = Ok (len A) /\ len k = len A;
cipher_keySize : forall algo c, getCipherParams P algo = Ok c -> 0 <= keySize c;
(** SHA-256 digests have 32 octets. *)
sha256_length : forall data d, computeDigest P enums.hash.sha256 data = Ok d -> len d = 32;
(** A registered cipher code is read back as written. *)
cipher_codec : forall c rest,
  enums.write enums.symmetric.codes (JNum c) = Ok c ->
  SymAlgoEnum_read P (obj_write P (PEnum (JNum c)) ++ rest)
  = Ok (JNum c, len (obj_write P (PEnum (JNum c))));
(** The composites: the ML-KEM-768 public key has 1184 octets; the
    Ed25519 half of a signing key has the payload size of its curve,
    the ML-DSA public key 1952 octets and its seed 32, and that seed
    can be expanded. *)
mlKem_publicKey : len (fst (ml_kem768_keygen P)) = 1184;
eccdsa_key : forall algo sk pk, eccdsa_generate P algo = Ok (sk, pk) ->
  eddsa_getPayloadSize P (JNum enums.publicKey.ed25519) = Ok (len sk)
  /\ len pk = len sk;
mldsa_key : forall algo seed sk pk, mldsa_generate P algo = Ok (seed, sk, pk) ->
  len pk = 1952 /\ len seed = 32
  /\ exists expanded, mldsaExpandSecretSeed P algo seed = Ok expanded
}.

End Contracts.

(** ** A reference instance of the primitives

    Used to evaluate the definitions on concrete inputs.  SHA3-256 is the
    real function; the other primitives are small stand-ins that return
    values of the right sizes, and the wire types are written as a length
    or tag octet followed by their content. *)

Module Reference.

Definition config : Config := {|
  aeadProtect := true;
  preferredAEADAlgorithm := enums.aead.ocb;
  parseAEADEncryptedV4KeysAsLegacy := false;
  checkEdDSAFaultySignatures := true
|}.

Definition digest (algo : Z) (data : bytes) : result bytes :=
  if algo =? enums.hash.sha3_256 then Ok (SHA3.sha3_256 data)
  else if algo =? enums.hash.sha256 then Ok (SHA3.sha3_256 (0 :: data))
  else if algo =? enums.hash.sha1 then Ok (firstn 20 (SHA3.sha3_256 (1 :: data)))
  else Throw (Error "Invalid hash algorithm.").

Definition cipherParams (algo : jsval) : result CipherParams :=
  if case_of algo [enums.symmetric.aes128] then Ok {| keySize := 16; blockSize := 16 |}
  else if case_of algo [enums.symmetric.aes192] then Ok {| keySize := 24; blockSize := 16 |}
  else if case_of algo [enums.symmetric.aes256] then Ok {| keySize := 32; blockSize := 16 |}
  else Throw (Error "Unsupported cipher algorithm").

Definition ivLength (mode : jsval) : result Z :=
  if case_of mode [enums.aead.eax] then Ok 16
  else if case_of mode [enums.aead.ocb] then Ok 15
  else if case_of mode [enums.aead.gcm] then Ok 12
  else Throw (Error "Unsupported AEAD mode").

Definition seal (key data iv aad : bytes) : bytes :=
  data ++ firstn 16 (SHA3.sha3_256 (key ++ iv ++ aad ++ data)).

Definition open (key sealed iv aad : bytes) : result bytes :=
  let n := (List.length sealed - 16)%nat in
  let data := firstn n sealed in
  if util.equalsUint8Array (seal key data iv aad) sealed then Ok data
  else Throw (Error "Authentication tag mismatch").

Definition unwrap (kek wrapped : bytes) : result bytes :=
  if util.equalsUint8Array (firstn (List.length kek) wrapped) kek
  then Ok (skipn (List.length kek) wrapped)
  else Throw (Error "Key Data Integrity failed").

Definition ed25519LegacyOID : bytes := [0x2B; 0x06; 0x01; 0x04; 0x01; 0xDA; 0x47; 0x0F; 0x01].
Definition nistP256OID : bytes := [0x2A; 0x86; 0x48; 0xCE; 0x3D; 0x03; 0x01; 0x07].

Definition curveName (oid : param) : result string :=
  match oid with
  | POID o =>
      if util.equalsUint8Array o ed25519LegacyOID then Ok "ed25519Legacy"%string
      else if util.equalsUint8Array o nistP256OID then Ok "nistP256"%string
      else Throw (Error "Unknown curve object identifier.")
  | _ => Throw (TypeError "oid")
  end.

Definition curveSize (oid : param) : result Z :=
  _ <- curveName oid ;; Ok 32.

Definition xPayloadSize (algo : jsval) : result Z :=
  if case_of algo [enums.publicKey.x25519] then Ok 32
  else if case_of algo [enums.publicKey.x448] then Ok 56
  else Throw (Error "Unsupported ECDH algorithm").

Definition edPayloadSize (algo : jsval) : result Z :=
  if case_of algo [enums.publicKey.ed25519] then Ok 32
  else if case_of algo [enums.publicKey.ed448] then Ok 57
  else Throw (Error "Unsupported EdDSA algorithm").

(** [write()] of the wire types. *)
Definition write (v : param) : bytes :=
  match v with
  | PBytes b => b
  | POID o => len o :: o
  | PKDFParams h c => [3; 1; h; c]
  | PEnum data => [to_int32 data mod 256]
  | PECDHSymkey d => len d :: d
  | PECDHXSymmetricKey (JNum a) wk => [len wk + 1; a] ++ wk
  | PECDHXSymmetricKey _ wk => len wk :: wk
  | PShortByteString d => len d :: d
  | PUndefined => []
  end.

(** A length octet followed by that many bytes. *)
Definition readPrefixed (buf : bytes) : result (bytes * Z) :=
  match buf with
  | n :: rest =>
      let body := firstn (Z.to_nat n) rest in
      if len body =? n then Ok (body, 1 + n) else Throw (Error "Invalid length")
  | [] => Throw (Error "Invalid length")
  end.

Definition readKDFParams (buf : bytes) : result (Z * Z * Z) :=
  match buf with
  | 3 :: 1 :: h :: c :: _ => Ok (h, c, 4)
  | _ => Throw (UnsupportedError "Cannot read KDFParams")
  end.

Definition readEnum (t : enums.table) (buf : bytes) : result (jsval * Z) :=
  v <- enums.write t (Uint8Array.get buf 0) ;; Ok (JNum v, 1).

Definition aeadCodes : enums.table :=
  [("eax", enums.aead.eax); ("ocb", enums.aead.ocb); ("gcm", enums.aead.gcm)]%string.

(** The wrapped key of X25519, X448 and ML-KEM: a one-octet size, the
    one-octet algorithm identifier if it was passed, the encrypted
    session key.  The wrapped key has even length, so an odd size tells
    that the identifier is present. *)
Definition readXSymmetricKey (buf : bytes) : result (jsval * bytes) :=
  match buf with
  | n :: rest =>
      if n mod 2 =? 1 then
        match rest with
        | a :: rest' =>
            wk <- util.readExactSubarray rest' 0 (n - 1) ;; Ok (JNum a, wk)
        | [] => Throw (Error "Input array too short")
        end
      else
        wk <- util.readExactSubarray rest 0 n ;; Ok (JNull, wk)
  | [] => Throw (Error "Input array too short")
  end.

Definition s2kOfType (t : jsval) : result S2K :=
  let mk name := Ok {| s2k_type := name; s2k_algorithm := enums.hash.sha256;
                       s2k_c := 224; s2k_salt := [] |} in
  if case_of t [enums.s2k.simple] then mk "simple"%string
  else if case_of t [enums.s2k.salted] then mk "salted"%string
  else if case_of t [enums.s2k.iterated] then mk "iterated"%string
  else if case_of t [enums.s2k.argon2] then mk "argon2"%string
  else if case_of t [enums.s2k.gnu] then mk "gnu"%string
  else Throw (UnsupportedError "Unsupported S2K type").

(** The S2K specifier on the wire: for the GNU extension the three
    octets "GNU" and a mode octet (1 is gnu-dummy), otherwise a hash
    octet. *)
Definition readS2K (s : S2K) (buf : bytes) : result (S2K * Z) :=
  if String.eqb (s2k_type s) "gnu" then
    match buf with
    | _ :: 71 :: 78 :: 85 :: 1 :: _ =>
        Ok ({| s2k_type := "gnu-dummy"; s2k_algorithm := s2k_algorithm s;
               s2k_c := s2k_c s; s2k_salt := [] |}, 5)
    | _ => Throw (UnsupportedError "Unknown s2k gnu protection mode.")
    end
  else
    match buf with
    | h :: _ => Ok ({| s2k_type := s2k_type s; s2k_algorithm := h;
                       s2k_c := s2k_c s; s2k_salt := [] |}, 1)
    | [] => Throw (Error "Input array too short")
    end.

(** A key packet on the wire: version, algorithm, then the public
    parameters (none here). *)
Definition readPublic (buf : bytes) (_ : Config) : result (PublicKeyFields * Z) :=
  match buf with
  | v :: a :: _ =>
      Ok ({| pk_version := JNum v; pk_algorithm := JNum a; pk_publicParams := [] |}, 2)
  | _ => Throw (Error "Error reading key packet")
  end.

Definition P : Primitives := {|
  computeDigest := digest;
  computeHKDF := fun h key salt info L =>
    Ok (firstn (Z.to_nat L) (SHA3.sha3_256 (salt ++ key ++ info)));
  aesKW_wrap := fun _ kek data => Ok (kek ++ data);
  aesKW_unwrap := fun _ kek wrapped => unwrap kek wrapped;
  getRandomBytes := fun label n =>
    repeat (Z.of_nat (String.length label)) (Z.to_nat n);
  getCipherParams := cipherParams;
  getAEADMode_ivLength := ivLength;
  aead_encrypt := fun _ _ key data iv aad => Ok (seal key data iv aad);
  aead_decrypt := fun _ _ key sealed iv aad => open key sealed iv aad;
  cfb_encrypt := fun _ _ data _ => Ok data;
  cfb_decrypt := fun _ _ data _ => Ok data;
  rsa_encrypt := fun data _ _ => Ok data;
  rsa_decrypt := fun c _ _ _ _ _ _ _ => Ok c;
  elgamal_encrypt := fun data _ _ _ => Ok [("c1", PBytes [1]); ("c2", PBytes data)]%string;
  elgamal_decrypt := fun _ c2 _ _ _ => Ok c2;
  ecdh_encrypt := fun _ _ data _ _ => Ok ([4; 1], data);
  ecdh_decrypt := fun _ _ _ C _ _ _ => Ok C;
  ecdhX_encrypt := fun _ data _ => Ok (repeat 9 32, data);
  ecdhX_decrypt := fun _ _ wrapped _ _ => Ok wrapped;
  ecdhX_getPayloadSize := xPayloadSize;
  eddsa_getPayloadSize := edPayloadSize;
  curve_payloadSize := curveSize;
  oid_getName := curveName;
  eccKem_encaps := fun _ _ => Ok (repeat 1 32, repeat 2 32);
  eccKem_decaps := fun _ _ _ _ => Ok (repeat 1 32);
  ml_kem768_keygen := (repeat 15 1184, repeat 16 64 ++ repeat 16 64);
  ml_kem768_encapsulate := fun _ => Ok (repeat 3 1088, repeat 4 32);
  ml_kem768_decapsulate := fun _ _ => Ok (repeat 4 32);
  mlkemExpandSecretSeed := fun _ seed => Ok (seed ++ seed);
  mldsaExpandSecretSeed := fun _ seed => Ok (seed ++ seed);
  obj_write := write;
  OID_read := readPrefixed;
  KDFParams_read := readKDFParams;
  SymAlgoEnum_read := readEnum enums.symmetric.codes;
  AEADEnum_read := readEnum aeadCodes;
  ECDHSymkey_read := fun buf => '(d, _) <- readPrefixed buf ;; Ok d;
  ECDHXSymmetricKey_read := readXSymmetricKey;
  ShortByteString_read := readPrefixed;
  newS2KFromType := s2kOfType;
  newS2KFromConfig := fun _ =>
    {| s2k_type := "iterated"; s2k_algorithm := enums.hash.sha256;
       s2k_c := 224; s2k_salt := [] |};
  s2k_read := readS2K;
  s2k_write := fun s => [s2k_algorithm s];
  s2k_generateSalt := fun s =>
    {| s2k_type := s2k_type s; s2k_algorithm := s2k_algorithm s;
       s2k_c := s2k_c s; s2k_salt := repeat 8 8 |};
  s2k_produceKey := fun s _ n => Ok (repeat 5 (Z.to_nat n));
  writeTag := fun t => [Z.lor 0xC0 t];
  readPublicKey := readPublic;
  writePublicKey := fun _ => [];
  rsa_generate := fun _ e =>
    Ok {| rsa_n := [0xC5; 0x3B]; rsa_e := [1; 0; 1]; rsa_d := [0x5A; 0x11];
          rsa_p := [0xD3]; rsa_q := [0xEF]; rsa_u := [0x2C] |};
  elliptic_generate := fun curve =>
    if String.eqb curve "ed25519Legacy" then
      Ok {| ec_oid := ed25519LegacyOID; ec_Q := 0x40 :: repeat 7 32;
            ec_secret := 0 :: repeat 6 31; ec_hash := enums.hash.sha256;
            ec_cipher := enums.symmetric.aes128 |}
    else if String.eqb curve "nistP256" then
      Ok {| ec_oid := nistP256OID; ec_Q := 0x04 :: repeat 7 64;
            ec_secret := 0 :: repeat 6 31; ec_hash := enums.hash.sha256;
            ec_cipher := enums.symmetric.aes128 |}
    else Throw (UnsupportedError "Unknown curve");
  nacl_sign_keyPair_fromSeed := fun seed => firstn 32 (SHA3.sha3_256 seed);
  ecdhX_generate := fun algo =>
    n <- xPayloadSize algo ;; Ok (repeat 10 (Z.to_nat n), repeat 11 (Z.to_nat n));
(* a key of the block size of the hash: 64 octets for the digests of
   up to 32 octets, 128 above *)
hmac_generate := fun h =>
  n <- Hash.getHashByteLength h ;;
  Ok (repeat 12 (if n <=? 32 then 64%nat else 128%nat));
eccdsa_generate := fun _ => Ok (repeat 17 32, repeat 18 32);
mldsa_generate := fun _ =>
  Ok (repeat 19 32, repeat 19 32 ++ repeat 19 32, repeat 20 1952);
rsa_sign := fun _ _ _ _ _ _ _ _ hashed => Ok hashed;
rsa_verify := fun _ _ s _ _ hashed => Ok (util.equalsUint8Array s hashed);
dsa_sign := fun _ hashed _ _ _ _ => Ok [("r", PBytes [1]); ("s", PBytes hashed)]%string;
dsa_verify := fun _ _ s hashed _ _ _ _ => Ok (util.equalsUint8Array s hashed);
ecdsa_sign := fun _ _ _ _ _ hashed => Ok [("r", PBytes [1]); ("s", PBytes hashed)]%string;
ecdsa_verify := fun _ _ _ s _ _ hashed => Ok (util.equalsUint8Array s hashed);
eddsaLegacy_sign := fun _ _ _ _ _ hashed =>
  Ok [("r", PBytes [1]); ("s", PBytes hashed)]%string;
eddsaLegacy_verify := fun _ _ _ s _ _ hashed => Ok (util.equalsUint8Array s hashed);
hmac_sign := fun _ key hashed => Ok (SHA3.sha3_256 (key ++ hashed));
hmac_verify := fun _ key mac hashed =>
  Ok (util.equalsUint8Array mac (SHA3.sha3_256 (key ++ hashed)));
nacl_sign_detached := fun hashed secretKey => SHA3.sha3_256 (skipn 32 secretKey ++ hashed);
nacl_sign_detached_verify := fun hashed signature publicKey =>
  util.equalsUint8Array signature (SHA3.sha3_256 (publicKey ++ hashed));
eccdsa_sign := fun _ _ _ pub digest => Ok (SHA3.sha3_256 (pub ++ digest));
eccdsa_verify := fun _ _ pub digest signature =>
  Ok (util.equalsUint8Array signature (SHA3.sha3_256 (pub ++ digest)));
mldsa_sign := fun _ _ digest => Ok digest;
mldsa_verify := fun _ _ digest signature => Ok (util.equalsUint8Array signature digest)
|}.

End Reference.

(** ** Packet tags ([enums.packet]) *)

Module PacketTag.

(** Modelled from the spec: [enums.js] is not among the sources.  The
    packet tag codes that the library registers (RFC 9580 section 5;
    tag 20 is the AEAD Encrypted Data packet of the earlier draft). *)
Definition publicKeyEncryptedSessionKey : Z := 1.
Definition signature : Z := 2.
Definition symEncryptedSessionKey : Z := 3.
Definition onePassSignature : Z := 4.
Definition secretKey : Z := 5.
Definition publicKey : Z := 6.
Definition secretSubkey : Z := 7.
Definition compressedData : Z := 8.
Definition symmetricallyEncryptedData : Z := 9.
Definition marker : Z := 10.
Definition literalData : Z := 11.
Definition trust : Z := 12.
Definition userID : Z := 13.
Definition publicSubkey : Z := 14.
Definition userAttribute : Z := 17.
Definition symEncryptedIntegrityProtectedData : Z := 18.
Definition modificationDetectionCode : Z := 19.
Definition aeadEncryptedData : Z := 20.
Definition padding : Z := 21.

Definition codes : enums.table :=
  [("publicKeyEncryptedSessionKey", publicKeyEncryptedSessionKey);
   ("signature", signature);
   ("symEncryptedSessionKey", symEncryptedSessionKey);
   ("onePassSignature", onePassSignature);
   ("secretKey", secretKey); ("publicKey", publicKey);
   ("secretSubkey", secretSubkey); ("compressedData", compressedData);
   ("symmetricallyEncryptedData", symmetricallyEncryptedData);
   ("marker", marker); ("literalData", literalData); ("trust", trust);
   ("userID", userID); ("publicSubkey", publicSubkey);
   ("userAttribute", userAttribute);
   ("symEncryptedIntegrityProtectedData", symEncryptedIntegrityProtectedData);
   ("modificationDetectionCode", modificationDetectionCode);
   ("aeadEncryptedData", aeadEncryptedData); ("padding", padding)]%string.

End PacketTag.

(** ** The message grammar ([src/packet/grammar.ts]) *)

Module Grammar.

(** [arr.findIndex(f)]: the index of the first element that satisfies
    [f], or -1. *)
Fixpoint findIndex (f : Z -> bool) (arr : list Z) : Z :=
  match arr with
  | [] => -1
  | x :: rest =>
      if f x then 0
      else let i := findIndex f rest in if i <? 0 then -1 else i + 1
  end.

(** Modelled from the spec: [util.js] is not among the sources.
    [util.findLastIndex(arr, f)] is the index of the last element that
    satisfies [f], or -1. *)
Fixpoint findLastIndex (arr : list Z) (f : Z -> bool) : Z :=
  match arr with
  | [] => -1
  | x :: rest =>
      let i := findLastIndex rest f in
      if 0 <=? i then i + 1 else if f x then 0 else -1
  end.

(** [arr.slice(b, e)]; an [undefined] end is the length of the array.
    Relative indices are resolved as for [subarray]. *)
Definition slice (arr : list Z) (b : Z) (e : option Z) : list Z :=
  match e with
  | Some e => Uint8Array.subarray arr b e
  | None => Uint8Array.subarray_from arr b
  end.

(** [new Set([c1, ..., cn]).has(tag)] *)
Definition has (set : list Z) (tag : Z) : bool := existsb (Z.eqb tag) set.

Definition isValidLiteralMessage (tagList : list Z) (_acceptPartial : bool) : bool :=
  (len tagList =? 1) && strict_eq (Uint8Array.get tagList 0) (JNum PacketTag.literalData).

Definition isValidCompressedMessage (tagList : list Z) (_acceptPartial : bool) : bool :=
  (len tagList =? 1) && strict_eq (Uint8Array.get tagList 0) (JNum PacketTag.compressedData).

Definition isValidESKSequence (tagList : list Z) (_acceptPartial : bool) : bool :=
  forallb
    (has [PacketTag.publicKeyEncryptedSessionKey; PacketTag.symEncryptedSessionKey])
    tagList.

Definition isValidEncryptedMessage (tagList : list Z) (acceptPartial : bool) : bool :=
  let encryptedDataPacketIndex :=
    findIndex
      (has [PacketTag.aeadEncryptedData; PacketTag.symmetricallyEncryptedData;
            PacketTag.symEncryptedIntegrityProtectedData])
      tagList in
  if encryptedDataPacketIndex <? 0 then isValidESKSequence tagList acceptPartial
  else
    (encryptedDataPacketIndex =? len tagList - 1)
    && isValidESKSequence (slice tagList 0 (Some encryptedDataPacketIndex)) acceptPartial.

(** [isValidSignedMessage] calls [isValidOpenPGPMessage], which calls it
    back: the recursive function is its first argument here.  [None] is
    a recursion that has not returned. *)
Definition isValidSignedMessage
  (isValidOpenPGPMessage : list Z -> bool -> option bool)
  (tagList : list Z) (acceptPartial : bool) : option bool :=
  if findIndex (fun tag => tag =? PacketTag.signature) tagList =? 0 then
    isValidOpenPGPMessage (slice tagList 1 None) acceptPartial
  else if findIndex (fun tag => tag =? PacketTag.onePassSignature) tagList =? 0 then
    let correspondingSigPacketIndex :=
      findLastIndex tagList (fun tag => tag =? PacketTag.signature) in
    if negb (correspondingSigPacketIndex =? len tagList - 1) && negb acceptPartial
    then Some false
    else
      isValidOpenPGPMessage
        (slice tagList 1
           (if correspondingSigPacketIndex <? 0 then None
            else Some correspondingSigPacketIndex))
        acceptPartial
  else Some false.

Definition isUnknownPacketTag (tag : Z) : bool :=
  match enums.read PacketTag.codes (JNum tag) with
  | Ok _ => false
  | Throw _ => true
  end.

(** The test of the filter of [isValidOpenPGPMessage]: the tag is
    neither Marker, nor Padding, nor unknown. *)
Definition significant (tag : Z) : bool :=
  negb (tag =? PacketTag.marker)
  && negb (tag =? PacketTag.padding)
  && negb (isUnknownPacketTag tag).

(** The list [normalizedList] of [isValidOpenPGPMessage]. *)
Definition normalize (notNormalizedList : list Z) : list Z :=
  filter significant notNormalizedList.

(** [isValidOpenPGPMessage] with a bound on the depth of the recursion. *)
Fixpoint isValidOpenPGPMessage_upto (depth : nat)
  (notNormalizedList : list Z) (acceptPartial : bool) : option bool :=
  match depth with
  | O => None
  | S depth' =>
      let normalizedList := normalize notNormalizedList in
      if isValidLiteralMessage normalizedList acceptPartial then Some true
      else if isValidCompressedMessage normalizedList acceptPartial then Some true
      else if isValidEncryptedMessage normalizedList acceptPartial then Some true
      else
        isValidSignedMessage (isValidOpenPGPMessage_upto depth')
          normalizedList acceptPartial
  end.

(** Every recursive call is on a strictly shorter list, so a depth of
    one more than the length of the list is never exhausted
    ([isValidOpenPGPMessage_returns] in Part II). *)
Definition isValidOpenPGPMessage (notNormalizedList : list Z) (acceptPartial : bool)
  : option bool :=
  isValidOpenPGPMessage_upto (S (List.length notNormalizedList))
    notNormalizedList acceptPartial.

(** [new GrammarError(`Data does not respect OpenPGP grammar [${list}]`)]:
    the message is the fixed text around the rendering of the list, and
    the error is kept here as the list it renders. *)
Inductive grammarError : Type :=
| GrammarError (tags : list Z).

(** What a validator does besides returning: a call of
    [config.pluggableGrammarErrorReporter] that returned, one that threw,
    and a call of [util.printDebugError]. *)
Inductive event : Type :=
| Reported (error : grammarError)
| ReportFailed (error : grammarError) (thrown : exn)
| DebugPrinted (error : grammarError).

(** The two fields of [Config] that the validators read.
    [pluggableGrammarErrorReporter] is optional and is a callback of the
    caller: it is handed the message of the error, which the list
    determines, and it returns or throws.  A callback that behaves
    differently from one call to the next is a different function in the
    configuration of each call. *)
Record Config : Type := {
  enforceGrammar : bool;
  pluggableGrammarErrorReporter : option (grammarError -> result unit)
}.

(** [config.pluggableGrammarErrorReporter?.(error.message)]: the event,
    and the exception if the callback throws. *)
Definition report (config : Config) (error : grammarError) : list event * result unit :=
  match pluggableGrammarErrorReporter config with
  | None => ([], Ok tt)
  | Some reporter =>
      match reporter error with
      | Ok _ => ([Reported error], Ok tt)
      | Throw e => ([ReportFailed error e], Throw e)
      end
  end.

(** What a call throws: the [GrammarError] of the validator, or what the
    reporter threw. *)
Inductive thrown : Type :=
| ThrownGrammarError (error : grammarError)
| ThrownByReporter (e : exn).

(** *** [getSyncMessageGrammarValidator]

    The closure variable [logged] is the state; a call returns the new
    state, the events and what it throws, if anything. *)
Module Sync.

Definition init : bool := false.

Definition validator (logged : bool)
  (tags : list Z) (acceptPartial : bool) (config : Config)
  : option (bool * list event * option thrown) :=
  match isValidOpenPGPMessage tags acceptPartial with
  | None => None
  | Some true => Some (logged, [], None)
  | Some false =>
      let error := GrammarError tags in
      if enforceGrammar config then
        match report config error with
        | (events, Throw e) => Some (logged, events, Some (ThrownByReporter e))
        | (events, Ok _) => Some (logged, events, Some (ThrownGrammarError error))
        end
      else if negb logged then
        match report config error with
        | (events, Throw e) => Some (logged, events, Some (ThrownByReporter e))
        | (events, Ok _) => Some (true, events ++ [DebugPrinted error], None)
        end
      else Some (logged, [], None)
  end.

End Sync.

(** *** [getAsyncMessageGrammarValidator] *)
Module Async.

(** The promise of [getPromiseWithResolvers]. *)
Inductive promise : Type :=
| Pending
| Resolved
| Rejected (reason : grammarError).

(** [resolve(true)] and [reject(error)] settle a pending promise and do
    nothing on a settled one. *)
Definition resolve (p : promise) : promise :=
  match p with
  | Pending => Resolved
  | _ => p
  end.

Definition reject (p : promise) (error : grammarError) : promise :=
  match p with
  | Pending => Rejected error
  | _ => p
  end.

Record state : Type := {
  grammarCheckPromise : promise;
  authenticated : bool;
  logged : bool
}.

Definition init : state :=
  {| grammarCheckPromise := Pending; authenticated := false; logged := false |}.

(** What the promise that a method returns settles to: [undefined],
    [true], the rejection of the grammar check, or, when the reporter
    threw inside the method, a rejection with what it threw. *)
Inductive outcome : Type :=
| Undefined
| True
| Rejection (reason : grammarError)
| ReporterThrew (e : exn).

(** [if (await util.isPromisePending(p) === false) return p;] *)
Definition settled (p : promise) : outcome :=
  match p with
  | Pending => Undefined
  | Resolved => True
  | Rejected reason => Rejection reason
  end.

Definition markAuthenticated (s : state) : state * outcome :=
  let s := {| grammarCheckPromise := grammarCheckPromise s;
              authenticated := true;
              logged := logged s |} in
  (s, settled (grammarCheckPromise s)).

(** [if (!logged) { reporter?.(message); printDebugError(error); logged = true; }]:
    when the reporter throws, neither the print nor the assignment is
    reached. *)
Definition logOnce (s : state) (config : Config) (error : grammarError)
  : state * list event * result unit :=
  if negb (logged s) then
    match report config error with
    | (events, Throw e) => (s, events, Throw e)
    | (events, Ok _) =>
        ({| grammarCheckPromise := grammarCheckPromise s;
            authenticated := authenticated s;
            logged := true |},
         events ++ [DebugPrinted error], Ok tt)
    end
  else (s, [], Ok tt).

(** The last statement of the method. *)
Definition verdict (s : state) : outcome :=
  if authenticated s then settled (grammarCheckPromise s) else Undefined.

Definition messageGrammarValidatorWithLatentReporting (s : state)
  (tags : list Z) (isPartial : bool) (config : Config)
  : option (state * list event * outcome) :=
  match isValidOpenPGPMessage tags isPartial with
  | None => None
  | Some true =>
      let s :=
        if negb isPartial then
          {| grammarCheckPromise := resolve (grammarCheckPromise s);
             authenticated := authenticated s;
             logged := logged s |}
        else s in
      Some (s, [], verdict s)
  | Some false =>
      let error := GrammarError tags in
      match logOnce s config error with
      | (s, events, Throw e) => Some (s, events, ReporterThrew e)
      | (s, events, Ok _) =>
          let s :=
            if enforceGrammar config then
(* reject as early as possible *)
{| grammarCheckPromise := reject (grammarCheckPromise s) error;
   authenticated := authenticated s;
   logged := logged s |}
else if negb isPartial then
{| grammarCheckPromise := resolve (grammarCheckPromise s);
   authenticated := authenticated s;
   logged := logged s |}
else s in
Some (s, events, verdict s)
end
end.

(** A use of the validator: one of its two methods. *)
Inductive call : Type :=
| MarkAuthenticated
| Validate (tags : list Z) (isPartial : bool) (config : Config).

(** The calls made one after the other: the final state, all the events
    and the outcome of every call, in order. *)
Fixpoint run (s : state) (calls : list call)
  : option (state * list event * list outcome) :=
  match calls with
  | [] => Some (s, [], [])
  | MarkAuthenticated :: rest =>
      let '(s1, o) := markAuthenticated s in
      match run s1 rest with
      | None => None
      | Some (s2, events, outcomes) => Some (s2, events, o :: outcomes)
      end
  | Validate tags isPartial config :: rest =>
      match messageGrammarValidatorWithLatentReporting s tags isPartial config with
      | None => None
      | Some (s1, events1, o) =>
          match run s1 rest with
          | None => None
          | Some (s2, events, outcomes) => Some (s2, events1 ++ events, o :: outcomes)
          end
      end
  end.

End Async.

(** The calls of the synchronous validator made one after the other, a
    caller that catches what a call throws going on with the next: the
    final state, all the events, and what each call threw, if anything. *)
Fixpoint runSync (logged : bool) (calls : list (list Z * bool * Config))
  : option (bool * list event * list (option thrown)) :=
  match calls with
  | [] => Some (logged, [], [])
  | (tags, acceptPartial, config) :: rest =>
      match Sync.validator logged tags acceptPartial config with
      | None => None
      | Some (logged1, events1, o) =>
          match runSync logged1 rest with
          | None => None
          | Some (logged2, events, outcomes) =>
              Some (logged2, events1 ++ events, o :: outcomes)
          end
      end
  end.

(** The packet sequences of the grammar, as the checks above accept them
    on a completely parsed message. *)
Definition isESK (tag : Z) : Prop :=
  tag = PacketTag.publicKeyEncryptedSessionKey \/ tag = PacketTag.symEncryptedSessionKey.

Definition isEncryptedData (tag : Z) : Prop :=
  tag = PacketTag.aeadEncryptedData \/ tag = PacketTag.symmetricallyEncryptedData
  \/ tag = PacketTag.symEncryptedIntegrityProtectedData.

Inductive Message : list Z -> Prop :=
| Literal : Message [PacketTag.literalData]
| Compressed : Message [PacketTag.compressedData]
| ESKSequence esks : Forall isESK esks -> Message esks
| Encrypted esks data :
    Forall isESK esks -> isEncryptedData data -> Message (esks ++ [data])
| Signed m : Message m -> Message (PacketTag.signature :: m)
| OnePassSigned m :
    Message m ->
    Message (PacketTag.onePassSignature :: m ++ [PacketTag.signature]).

(** The number of calls of the reporter that returned, among the
    events. *)
Definition reports (events : list event) : nat :=
  List.length
    (filter (fun e => match e with Reported _ => true | _ => false end) events).

(** Nothing follows the debug print of the error: once [logged] is set,
    the validator neither reports nor prints. *)
Definition quietOnceLogged (events : list event) : Prop :=
  forall before error after,
    events = before ++ DebugPrinted error :: after -> after = [].

(** A call that did not give up its own result ended with what the
    reporter of its configuration threw on the error of its list. *)
Definition reporterThrew (config : Config) (tags : list Z) (e : exn) : Prop :=
  exists reporter,
    pluggableGrammarErrorReporter config = Some reporter
    /\ reporter (GrammarError tags) = Throw e.

(** No debug print among the events. *)
Definition noPrint (events : list event) : Prop :=
  Forall (fun e => match e with DebugPrinted _ => False | _ => Logic.True end) events.

(** How the events of one or several calls relate to [logged] before and
    after them: nothing happens once [logged] is set; before that, either
    there is no print, no report has returned and [logged] stays unset,
    or the events end with the print, at most one report has returned,
    and [logged] is set. *)
Definition logging (before after : bool) (events : list event) : Prop :=
  (before = true -> events = [] /\ after = true)
  /\ (before = false ->
      (noPrint events /\ reports events = 0%nat /\ after = false)
      \/ (exists reported error,
             events = reported ++ [DebugPrinted error]
             /\ noPrint reported /\ (reports reported <= 1)%nat /\ after = true)).

End Grammar.

(** ** SLH-DSA ([src/crypto/public_key/post_quantum/slh_dsa/index.js]) *)

Module SlhDsa.

(** What an argument holds at run time.  The functions of this file are
    called with numbers, with byte arrays and, where the caller passes
    fewer arguments than there are parameters, with [undefined]. *)
Inductive value : Type :=
| VNum (n : Z)
| VBytes (b : bytes)
| VUndefined.

(** [a !== n] for a number [n] *)
Definition differs (a : value) (n : Z) : bool :=
  match a with
  | VNum m => negb (m =? n)
  | _ => true
  end.

(** The last parameter of [verify], which is destructured on entry:
    [{ slhdsaSignature }]. *)
Inductive signatureObject : Type :=
| NoObject
| Object (slhdsaSignature : value).

(** [slh_dsa_shake_128s] of [@noble/post-quantum/slh-dsa]; [keygen] is
    the outcome of one run, secret key first. *)
Record Noble : Type := {
  keygen : bytes * bytes;
  noble_sign : value -> value -> result bytes;
  noble_verify : value -> value -> value -> result bool
}.

Section WithPrimitives.
Variable P : Primitives.
Variable slh_dsa_shake_128s : Noble.

Definition getRequiredHashAlgo (signatureAlgo : jsval) : result Z :=
  if case_of signatureAlgo [enums.publicKey.pqc_slhdsa_shake128s]
  then Ok enums.hash.sha3_256
  else Throw (Error "Unsupported signature algorithm").

Definition generate (algo : jsval) : result (bytes * bytes) :=
  if case_of algo [enums.publicKey.pqc_slhdsa_shake128s] then
    let '(slhdsaSecretKey, slhdsaPublicKey) := keygen slh_dsa_shake_128s in
    Ok (slhdsaSecretKey, slhdsaPublicKey)
  else Throw (Error "Unsupported signature algorithm").

Definition sign (signatureAlgo : jsval) (hashAlgo slhdsaSecretKey dataDigest : value)
  : result bytes :=
  required <- getRequiredHashAlgo signatureAlgo ;;
  if differs hashAlgo required then
(* The signature hash algo MUST be set to the specified algorithm *)
Throw (Error "Unexpected hash algorithm for PQC signature")
else if case_of signatureAlgo [enums.publicKey.pqc_slhdsa_shake128s] then
noble_sign slh_dsa_shake_128s slhdsaSecretKey dataDigest
else Throw (Error "Unsupported signature algorithm").

Definition verify (signatureAlgo : jsval) (hashAlgo slhdsaPublicKey dataDigest : value)
    (signature : signatureObject) : result bool :=
  match signature with
  | NoObject => Throw (TypeError "Cannot destructure property 'slhdsaSignature'")
  | Object slhdsaSignature =>
      required <- getRequiredHashAlgo signatureAlgo ;;
      if differs hashAlgo required then
        Throw (Error "Unexpected hash algorithm for PQC signature")
      else if case_of signatureAlgo [enums.publicKey.pqc_slhdsa_shake128s] then
        noble_verify slh_dsa_shake_128s slhdsaPublicKey dataDigest slhdsaSignature
      else Throw (Error "Unsupported signature algorithm")
  end.

(** [validateParams] calls [sign] with three arguments and [verify] with
    four: the secret key stands where [sign] expects the hash algorithm,
    and so on. *)
Definition validateParams (algo : jsval) (slhdsaPublicKey slhdsaSecretKey : bytes)
  : result bool :=
  if case_of algo [enums.publicKey.pqc_slhdsa_shake128s] then
    let randomBytes := getRandomBytes P "slhdsa.validateParams" 16 in
    slhdsaSignature <- sign algo (VBytes slhdsaSecretKey) (VBytes randomBytes) VUndefined ;;
    verify algo (VBytes slhdsaPublicKey) (VBytes randomBytes) (VBytes slhdsaSignature)
      NoObject
  else Throw (Error "Unsupported signature algorithm").

End WithPrimitives.
End SlhDsa.

(** ** Validation of key parameters

    [validateParams] of [src/crypto/crypto.js] and the validators that
    are part of the sources, and [validate] of
    [src/packet/secret_key.js]. *)

Module KeyValidation.

(** [validateParams] of the modules that are not part of the sources. *)
Record Validators : Type := {
  rsa_validateParams : bytes -> bytes -> bytes -> bytes -> bytes -> bytes -> result bool;
  dsa_validateParams : bytes -> bytes -> bytes -> bytes -> bytes -> result bool;
  elgamal_validateParams : bytes -> bytes -> bytes -> bytes -> result bool;
(* elliptic.ecdsa, elliptic.ecdh: selected by name *)
elliptic_validateParams : string -> param -> bytes -> bytes -> result bool;
eddsaLegacy_validateParams : param -> bytes -> bytes -> result bool;
ecdhX_validateParams : jsval -> bytes -> bytes -> result bool;
eccKem_validateParams : jsval -> bytes -> bytes -> result bool;
mlKem_validateParams : jsval -> bytes -> bytes -> result bool;
eccdsa_validateParams : jsval -> bytes -> bytes -> result bool;
mldsa_validateParams : jsval -> bytes -> bytes -> result bool
}.

(** [await a && await b] of two promises that were both started: a
    rejection of [b] is only seen if [a] is fulfilled with [true]. *)
Definition bothValid (a b : result bool) : result bool :=
  match a, b with
  | Throw e, _ => Throw e
  | Ok false, _ => Ok false
  | Ok true, r => r
  end.

Section WithPrimitives.
Variable P : Primitives.
Variable V : Validators.

(** [validateParams] of [src/crypto/public_key/elliptic/eddsa.js]:
    derive the public point from the seed and expect the same point. *)
Definition eddsa_validateParams (algo : jsval) (A seed : bytes) : result bool :=
  if case_of algo [enums.publicKey.ed25519] then
    let publicKey := nacl_sign_keyPair_fromSeed P seed in
    Ok (util.equalsUint8Array A publicKey)
  else (* ed448 is unsupported *) Ok false.

(** [validateParams] of [src/crypto/public_key/post_quantum/kem/kem.js] *)
Definition kem_validateParams (algo : jsval)
    (eccPublicKey eccSecretKey mlkemPublicKey mlkemSeed : bytes) : result bool :=
  let eccValidationPromise := eccKem_validateParams V algo eccPublicKey eccSecretKey in
  let mlkemValidationPromise := mlKem_validateParams V algo mlkemPublicKey mlkemSeed in
  bothValid eccValidationPromise mlkemValidationPromise.

(** [validateParams] of the composite signature ([src/unnamed/part_001]) *)
Definition signature_validateParams (algo : jsval)
    (eccPublicKey eccSecretKey mldsaPublicKey mldsaSeed : bytes) : result bool :=
  let eccValidationPromise := eccdsa_validateParams V algo eccPublicKey eccSecretKey in
  let mldsaValidationPromise := mldsa_validateParams V algo mldsaPublicKey mldsaSeed in
  bothValid eccValidationPromise mldsaValidationPromise.

(** [keySize === keyMaterial.length &&
     util.equalsUint8Array(digest, await computeDigest(enums.hash.sha256, hashSeed))] *)
Definition symmetricKeyMatches (keySize : Z) (publicParams privateParams : params)
  : result bool :=
  keyMaterial <- getBytes privateParams "keyMaterial" ;;
  if keySize =? len keyMaterial then
    hashSeed <- getBytes privateParams "hashSeed" ;;
    computed <- computeDigest P enums.hash.sha256 hashSeed ;;
    digest <- getBytes publicParams "digest" ;;
    Ok (util.equalsUint8Array digest computed)
  else Ok false.

(** Validate algorithm-specific key parameters
    ([validateParams] of [src/crypto/crypto.js]). *)
Definition validateParams (algo : jsval) (publicParams privateParams : option params)
  : result bool :=
  match publicParams, privateParams with
  | Some publicParams, Some privateParams =>
      if case_of algo [enums.publicKey.rsaEncrypt; enums.publicKey.rsaEncryptSign;
                       enums.publicKey.rsaSign] then
        n <- getBytes publicParams "n" ;;
        e <- getBytes publicParams "e" ;;
        d <- getBytes privateParams "d" ;;
        p <- getBytes privateParams "p" ;;
        q <- getBytes privateParams "q" ;;
        u <- getBytes privateParams "u" ;;
        rsa_validateParams V n e d p q u
      else if case_of algo [enums.publicKey.dsa] then
        p <- getBytes publicParams "p" ;;
        q <- getBytes publicParams "q" ;;
        g <- getBytes publicParams "g" ;;
        y <- getBytes publicParams "y" ;;
        x <- getBytes privateParams "x" ;;
        dsa_validateParams V p q g y x
      else if case_of algo [enums.publicKey.elgamal] then
        p <- getBytes publicParams "p" ;;
        g <- getBytes publicParams "g" ;;
        y <- getBytes publicParams "y" ;;
        x <- getBytes privateParams "x" ;;
        elgamal_validateParams V p g y x
      else if case_of algo [enums.publicKey.ecdsa; enums.publicKey.ecdh] then
        algoModule <- enums.read enums.publicKey.codes algo ;;
        oid <- getParam publicParams "oid" ;;
        Q <- getBytes publicParams "Q" ;;
        d <- getBytes privateParams "d" ;;
        elliptic_validateParams V algoModule oid Q d
      else if case_of algo [enums.publicKey.eddsaLegacy] then
        Q <- getBytes publicParams "Q" ;;
        oid <- getParam publicParams "oid" ;;
        seed <- getBytes privateParams "seed" ;;
        eddsaLegacy_validateParams V oid Q seed
      else if case_of algo [enums.publicKey.ed25519; enums.publicKey.ed448] then
        A <- getBytes publicParams "A" ;;
        seed <- getBytes privateParams "seed" ;;
        eddsa_validateParams algo A seed
      else if case_of algo [enums.publicKey.x25519; enums.publicKey.x448] then
        A <- getBytes publicParams "A" ;;
        k <- getBytes privateParams "k" ;;
        ecdhX_validateParams V algo A k
      else if case_of algo [enums.publicKey.hmac] then
        cipher <- getParam publicParams "cipher" ;;
        value <- getValue cipher ;;
        keySize <- Hash.getHashByteLength value ;;
        symmetricKeyMatches keySize publicParams privateParams
      else if case_of algo [enums.publicKey.aead] then
        cipher <- getParam publicParams "cipher" ;;
        value <- getValue cipher ;;
        cipherParams <- getCipherParams P value ;;
        symmetricKeyMatches (keySize cipherParams) publicParams privateParams
      else if case_of algo [enums.publicKey.pqc_mlkem_x25519] then
        eccSecretKey <- getBytes privateParams "eccSecretKey" ;;
        mlkemSeed <- getBytes privateParams "mlkemSeed" ;;
        eccPublicKey <- getBytes publicParams "eccPublicKey" ;;
        mlkemPublicKey <- getBytes publicParams "mlkemPublicKey" ;;
        kem_validateParams algo eccPublicKey eccSecretKey mlkemPublicKey mlkemSeed
      else if case_of algo [enums.publicKey.pqc_mldsa_ed25519] then
        eccSecretKey <- getBytes privateParams "eccSecretKey" ;;
        mldsaSeed <- getBytes privateParams "mldsaSeed" ;;
        eccPublicKey <- getBytes publicParams "eccPublicKey" ;;
        mldsaPublicKey <- getBytes publicParams "mldsaPublicKey" ;;
        signature_validateParams algo eccPublicKey eccSecretKey mldsaPublicKey mldsaSeed
      else Throw (Error "Unknown public key algorithm.")
  | _, _ => Throw (Error "Missing key parameters")
  end.

(** Checks that the key parameters are consistent ([validate] of
    [src/packet/secret_key.js]); it leaves the packet as it is. *)
Definition validate (this : SecretKeyPacket.packet) : result unit :=
  if SecretKeyPacket.isDummy this then Ok tt
  else if negb (SecretKeyPacket.isDecrypted this) then
    Throw (Error "Key is not decrypted")
  else if SecretKeyPacket.istrue (SecretKeyPacket.usedModernAEAD this) then
(* key integrity confirmed by successful AEAD decryption *)
Ok tt
else
let validParams :=
(* this can throw if some parameters are undefined *)
match validateParams (SecretKeyPacket.algorithm this)
        (Some (SecretKeyPacket.publicParams this))
        (SecretKeyPacket.privateParams this) with
| Ok valid => valid
| Throw _ => false
end in
if negb validParams then Throw (Error "Key is invalid") else Ok tt.

End WithPrimitives.
End KeyValidation.

(** ** What decryption relies on

    The contract of the primitives of one key: on the fields of this
    key, the decryption primitive of its algorithm returns the data that
    the encryption primitive was given. *)

Module Decryption.

Import enums.

Definition inverts (P : Primitives) (config : Config) (keyAlgo symmetricAlgo : jsval)
    (publicParams privateParams : params) (data fingerprint : bytes) : Prop :=
  if case_of keyAlgo [publicKey.rsaEncrypt; publicKey.rsaEncryptSign] then
    exists d p q u,
      getBytes privateParams "d" = Ok d /\ getBytes privateParams "p" = Ok p
      /\ getBytes privateParams "q" = Ok q /\ getBytes privateParams "u" = Ok u
      /\ forall n e c,
           getBytes publicParams "n" = Ok n -> getBytes publicParams "e" = Ok e ->
           rsa_encrypt P data n e = Ok c ->
           rsa_decrypt P c n e d p q u None = Ok data
  else if case_of keyAlgo [publicKey.elgamal] then
    exists x,
      getBytes privateParams "x" = Ok x
      /\ forall p g y enc,
           getBytes publicParams "p" = Ok p -> getBytes publicParams "g" = Ok g ->
           getBytes publicParams "y" = Ok y ->
           elgamal_encrypt P data p g y = Ok enc ->
           exists c1 c2,
             getBytes enc "c1" = Ok c1 /\ getBytes enc "c2" = Ok c2
             /\ elgamal_decrypt P c1 c2 p x None = Ok data
  else if case_of keyAlgo [publicKey.ecdh] then
    exists d,
      getBytes privateParams "d" = Ok d
      /\ forall oid Q kdfParams V C,
           getParam publicParams "oid" = Ok oid -> getBytes publicParams "Q" = Ok Q ->
           getParam publicParams "kdfParams" = Ok kdfParams ->
           ecdh_encrypt P oid kdfParams data Q fingerprint = Ok (V, C) ->
           ecdh_decrypt P oid kdfParams V C Q d fingerprint = Ok data
  else if case_of keyAlgo [publicKey.x25519; publicKey.x448] then
    (symmetricAlgo = JNull \/ util.isAES symmetricAlgo = true)
    /\ exists k,
         getBytes privateParams "k" = Ok k
         /\ forall A ephemeralPublicKey wrappedKey,
              getBytes publicParams "A" = Ok A ->
              ecdhX_encrypt P keyAlgo data A = Ok (ephemeralPublicKey, wrappedKey) ->
              ecdhX_decrypt P keyAlgo ephemeralPublicKey wrappedKey A k = Ok data
  else if case_of keyAlgo [publicKey.aead] then
    forall cipher algoValue keyMaterial ivLength c,
      getParam publicParams "cipher" = Ok cipher -> getValue cipher = Ok algoValue ->
      getBytes privateParams "keyMaterial" = Ok keyMaterial ->
      getAEADMode_ivLength P (JNum (preferredAEADAlgorithm config)) = Ok ivLength ->
      aead_encrypt P (JNum (preferredAEADAlgorithm config)) algoValue keyMaterial data
        (getRandomBytes P "publicKeyEncrypt.iv" ivLength) [] = Ok c ->
      aead_decrypt P (JNum (preferredAEADAlgorithm config)) algoValue keyMaterial c
        (getRandomBytes P "publicKeyEncrypt.iv" ivLength) [] = Ok data
  else if case_of keyAlgo [publicKey.pqc_mlkem_x25519] then
    exists eccSecretKey mlkemSecretKey,
      getBytes privateParams "eccSecretKey" = Ok eccSecretKey
      /\ getBytes privateParams "mlkemSecretKey" = Ok mlkemSecretKey
      /\ forall eccPublicKey mlkemPublicKey,
           getBytes publicParams "eccPublicKey" = Ok eccPublicKey ->
           getBytes publicParams "mlkemPublicKey" = Ok mlkemPublicKey ->
           (forall share ct,
              eccKem_encaps P keyAlgo eccPublicKey = Ok (share, ct) ->
              eccKem_decaps P keyAlgo ct eccSecretKey eccPublicKey = Ok share)
           /\ (forall ct share,
                 ml_kem768_encapsulate P mlkemPublicKey = Ok (ct, share) ->
                 ml_kem768_decapsulate P ct mlkemSecretKey = Ok share)
           /\ (forall kek wrapped,
                 aesKW_wrap P symmetric.aes256 kek data = Ok wrapped ->
                 aesKW_unwrap P symmetric.aes256 kek wrapped = Ok data)
  else False.

End Decryption.

(** ** What the protection of a secret key relies on

    The contracts of the ciphers that [encrypt] and [decrypt] of the
    Secret-Key packet go through: decryption under the same key, nonce
    and associated data returns what was encrypted, and a SHA-1 digest
    has 20 octets. *)

Module Protection.

Record CiphersSpec (P : Primitives) : Prop := {
  aead_inverse : forall mode cipher key data iv associated sealed,
    aead_encrypt P mode cipher key data iv associated = Ok sealed ->
    aead_decrypt P mode cipher key sealed iv associated = Ok data;
  cfb_inverse : forall cipher key data iv encrypted,
    cfb_encrypt P cipher key data iv = Ok encrypted ->
    cfb_decrypt P cipher key encrypted iv = Ok data;
  sha1_length : forall data digest,
    computeDigest P enums.hash.sha1 data = Ok digest -> len digest = 20
}.

End Protection.

(** ** Writing a Secret-Key packet ([write] of [src/packet/secret_key.js]) *)

Module SecretKeyWriter.

Import StateExn SecretKeyPacket.

(** Modelled from the spec: [util.js] is not among the sources.
    [util.writeNumber(n, octets)] is the big-endian encoding of [n] in
    [octets] octets. *)
Definition writeNumber (n octets : Z) : bytes :=
  map (fun i => Z.land (Z.shiftr n (8 * (octets - Z.of_nat i - 1))) 0xFF)
      (seq 0 (Z.to_nat octets)).

Section WithPrimitives.
Variable P : Primitives.

(** The optional fields, [optionalFieldsArr]: the numbers pushed for the
    string-to-key specifier, then the initialization vector.  Reading a
    property of [this.s2k] when it is [null], or spreading [this.iv] when
    it is [undefined], is a [TypeError]. *)
Definition optionalFields (this : packet) : result (list Z) :=
  s2kFields <-
    (if case_of (s2kUsage this) [255; 254; 253] then
       specifier <- fromOption "s2k" (s2k this) ;;
       let s2k := s2k_write P specifier in
       Ok ([to_int32 (symmetric this)]
           ++ (if strict_eq (s2kUsage this) (JNum 253) then [to_int32 (aead this)] else [])
           ++ (if strict_eq (version this) (JNum 6) then [len s2k] else [])
           ++ s2k)
     else Ok []) ;;
  if truthy (s2kUsage this) then
    specifier <- fromOption "s2k" (s2k this) ;;
    if negb (String.eqb (s2k_type specifier) "gnu-dummy") then
      iv <- fromOption "iv" (iv this) ;;
      Ok (s2kFields ++ iv)
    else Ok s2kFields
  else Ok s2kFields.

(** Creates an OpenPGP key packet for the given key.  For a key that is
    not encrypted it assigns [this.keyMaterial]. *)
Definition write : stx packet bytes :=
  this <~ sget ;;
  let serializedPublicKey := writePublicKey P (pub this) in
  match unparseableKeyMaterial this with
  | Some unparseable =>
      sret (util.concatUint8Array [serializedPublicKey; unparseable])
  | None =>
      optionalFieldsArr <~ slift (optionalFields this) ;;
      let arr :=
        [serializedPublicKey; Uint8Array.from [to_int32 (s2kUsage this)]]
        ++ (if strict_eq (version this) (JNum 5)
               || (strict_eq (version this) (JNum 6) && truthy (s2kUsage this))
            then [Uint8Array.from [len optionalFieldsArr]] else [])
        ++ [Uint8Array.from optionalFieldsArr] in
      if negb (isDummy this) then
        _ <~ (if negb (truthy (s2kUsage this)) then
                privateParams <~ slift (fromOption "privateParams" (privateParams this)) ;;
                serialized <~ slift (Crypto.serializeParams P (algorithm this)
                                       privateParams) ;;
                smodify (set_keyMaterial (Some serialized))
              else sret tt) ;;
        this' <~ sget ;;
        keyMaterial <~ slift (fromOption "keyMaterial" (keyMaterial this')) ;;
        sret (util.concatUint8Array
                (arr
                 ++ (if strict_eq (version this) (JNum 5)
                     then [writeNumber (len keyMaterial) 4] else [])
                 ++ [keyMaterial]
                 ++ (if negb (truthy (s2kUsage this))
                        && negb (strict_eq (version this) (JNum 6))
                     then [util.writeChecksum keyMaterial] else [])))
      else sret (util.concatUint8Array arr)
  end.

(** The bytes that [write] emits for a key that is not encrypted and
    whose private parameters serialize to [serialized]: the public key,
    a zero usage octet, for version 5 a zero count and the length of the
    key material, the key material, and its checksum unless the version
    is 6. *)
Definition cleartextPacket (this : packet) (serialized : bytes) : bytes :=
  (writePublicKey P (pub this) ++ [0]
   ++ (if strict_eq (version this) (JNum 5) then [0] else []))
  ++ (if strict_eq (version this) (JNum 5) then writeNumber (len serialized) 4 else [])
  ++ serialized
  ++ (if strict_eq (version this) (JNum 6) then [] else util.writeChecksum serialized).

End WithPrimitives.
End SecretKeyWriter.

(** ** The header of a Secret-Key packet while it is read *)

Module SecretKeyHeader.

Import SecretKeyPacket.

(** What [read] keeps once it has stored the public part and the usage
    octet [u]: the public part, the usage octet, key material that is
    either not marked unparseable or is the rest of the buffer [rest],
    and, when [u] announces no string-to-key specifier, the specifier
    [specifier] that the packet had. *)
Definition parsed_header (fields : PublicKeyFields) (u : jsval) (rest : bytes)
    (specifier : option S2K) (withSpecifier : bool) (p : packet) : Prop :=
  pub p = fields /\ s2kUsage p = u
  /\ (unparseableKeyMaterial p = None \/ unparseableKeyMaterial p = Some rest)
  /\ (withSpecifier = false -> s2k p = specifier).

End SecretKeyHeader.

(** ** A reference instance with a key packet codec

    [Reference.P] with a public-key part that is written as it is read:
    the version octet and the algorithm octet. *)

Module ReferenceCodec.

Definition writePublic (fields : PublicKeyFields) : bytes :=
  Uint8Array.from [to_int32 (pk_version fields); to_int32 (pk_algorithm fields)].

Definition P : Primitives := {|
  computeDigest := computeDigest Reference.P;
  computeHKDF := computeHKDF Reference.P;
  aesKW_wrap := aesKW_wrap Reference.P;
  aesKW_unwrap := aesKW_unwrap Reference.P;
  getRandomBytes := getRandomBytes Reference.P;
  getCipherParams := getCipherParams Reference.P;
  getAEADMode_ivLength := getAEADMode_ivLength Reference.P;
  aead_encrypt := aead_encrypt Reference.P;
  aead_decrypt := aead_decrypt Reference.P;
  cfb_encrypt := cfb_encrypt Reference.P;
  cfb_decrypt := cfb_decrypt Reference.P;
  rsa_encrypt := rsa_encrypt Reference.P;
  rsa_decrypt := rsa_decrypt Reference.P;
  elgamal_encrypt := elgamal_encrypt Reference.P;
  elgamal_decrypt := elgamal_decrypt Reference.P;
  ecdh_encrypt := ecdh_encrypt Reference.P;
  ecdh_decrypt := ecdh_decrypt Reference.P;
  ecdhX_encrypt := ecdhX_encrypt Reference.P;
  ecdhX_decrypt := ecdhX_decrypt Reference.P;
  ecdhX_getPayloadSize := ecdhX_getPayloadSize Reference.P;
  eddsa_getPayloadSize := eddsa_getPayloadSize Reference.P;
  curve_payloadSize := curve_payloadSize Reference.P;
  oid_getName := oid_getName Reference.P;
  eccKem_encaps := eccKem_encaps Reference.P;
  eccKem_decaps := eccKem_decaps Reference.P;
  ml_kem768_keygen := ml_kem768_keygen Reference.P;
  ml_kem768_encapsulate := ml_kem768_encapsulate Reference.P;
  ml_kem768_decapsulate := ml_kem768_decapsulate Reference.P;
  mlkemExpandSecretSeed := mlkemExpandSecretSeed Reference.P;
  mldsaExpandSecretSeed := mldsaExpandSecretSeed Reference.P;
  obj_write := obj_write Reference.P;
  OID_read := OID_read Reference.P;
  KDFParams_read := KDFParams_read Reference.P;
  SymAlgoEnum_read := SymAlgoEnum_read Reference.P;
  AEADEnum_read := AEADEnum_read Reference.P;
  ECDHSymkey_read := ECDHSymkey_read Reference.P;
  ECDHXSymmetricKey_read := ECDHXSymmetricKey_read Reference.P;
  ShortByteString_read := ShortByteString_read Reference.P;
  newS2KFromType := newS2KFromType Reference.P;
  newS2KFromConfig := newS2KFromConfig Reference.P;
  s2k_read := s2k_read Reference.P;
  s2k_write := s2k_write Reference.P;
  s2k_generateSalt := s2k_generateSalt Reference.P;
  s2k_produceKey := s2k_produceKey Reference.P;
  writeTag := writeTag Reference.P;
  readPublicKey := readPublicKey Reference.P;
  writePublicKey := writePublic;
  rsa_generate := rsa_generate Reference.P;
  elliptic_generate := elliptic_generate Reference.P;
  nacl_sign_keyPair_fromSeed := nacl_sign_keyPair_fromSeed Reference.P;
  ecdhX_generate := ecdhX_generate Reference.P;
  hmac_generate := hmac_generate Reference.P;
  eccdsa_generate := eccdsa_generate Reference.P;
  mldsa_generate := mldsa_generate Reference.P;
  rsa_sign := rsa_sign Reference.P;
  rsa_verify := rsa_verify Reference.P;
  dsa_sign := dsa_sign Reference.P;
  dsa_verify := dsa_verify Reference.P;
  ecdsa_sign := ecdsa_sign Reference.P;
  ecdsa_verify := ecdsa_verify Reference.P;
  eddsaLegacy_sign := eddsaLegacy_sign Reference.P;
  eddsaLegacy_verify := eddsaLegacy_verify Reference.P;
  hmac_sign := hmac_sign Reference.P;
  hmac_verify := hmac_verify Reference.P;
  nacl_sign_detached := nacl_sign_detached Reference.P;
  nacl_sign_detached_verify := nacl_sign_detached_verify Reference.P;
  eccdsa_sign := eccdsa_sign Reference.P;
  eccdsa_verify := eccdsa_verify Reference.P;
  mldsa_sign := mldsa_sign Reference.P;
  mldsa_verify := mldsa_verify Reference.P
|}.

End ReferenceCodec.

(** ** Symmetrically Encrypted Data packet
    ([src/packet/symmetrically_encrypted_data.js])

    The packet list and [cipherMode.cfb.getPrefixRandom] come from
    modules outside these sources and are variables of the section;
    [allowedPackets] is a constant of the module and belongs to
    [PacketList_fromBinary].  The [encrypted] field holds the bytes that
    [streamReadToEnd] gives. *)

Module SymmetricallyEncryptedData.

Import StateExn.

(** The field of the configuration that the packet reads. *)
Record Config : Type := { allowUnauthenticatedMessages : bool }.

Section WithPrimitives.
Variable P : Primitives.
Variable PacketList : Type.
Variable PacketList_write : PacketList -> bytes.
Variable PacketList_fromBinary : bytes -> Config -> result PacketList.
Variable cfb_getPrefixRandom : jsval -> result bytes.

Record packet : Type := {
(* Encrypted secret-key data *)
encrypted : option bytes;
(* Decrypted packets contained within. *)
packets : option PacketList
}.

Definition constructor : packet := {| encrypted := None; packets := None |}.

Definition set_encrypted (v : option bytes) (p : packet) : packet :=
  {| encrypted := v; packets := packets p |}.

Definition set_packets (v : option PacketList) (p : packet) : packet :=
  {| encrypted := encrypted p; packets := v |}.

Definition read (buf : bytes) : stx packet unit :=
  smodify (set_encrypted (Some buf)).

Definition write : stx packet (option bytes) :=
  this <~ sget ;;
  sret (encrypted this).

(** Decrypt the symmetrically-encrypted packet data *)
Definition decrypt (sessionKeyAlgorithm : jsval) (key : bytes) (config : Config)
  : stx packet unit :=
(* If MDC errors are not being ignored, all missing MDC packets in
   symmetrically encrypted data should throw an error *)
if negb (allowUnauthenticatedMessages config) then
  sthrow (Error "Message is not authenticated.")
else
  cipher <~ slift (getCipherParams P sessionKeyAlgorithm) ;;
  this <~ sget ;;
  encrypted <~ slift (SecretKeyPacket.fromOption "encrypted" (encrypted this)) ;;
  decrypted <~ slift
    (cfb_decrypt P sessionKeyAlgorithm key
       (Uint8Array.subarray_from encrypted (blockSize cipher + 2))
       (Uint8Array.subarray encrypted 2 (blockSize cipher + 2))) ;;
(* no grammar validator runs here *)
packets <~ slift (PacketList_fromBinary decrypted config) ;;
smodify (set_packets (Some packets)).

(** Encrypt the symmetrically-encrypted packet data.  [util.concat] of
    byte arrays is [concatUint8Array]. *)
Definition encrypt (sessionKeyAlgorithm : jsval) (key : bytes) : stx packet unit :=
  this <~ sget ;;
  packets <~ slift (SecretKeyPacket.fromOption "packets" (packets this)) ;;
  let data := PacketList_write packets in
  cipher <~ slift (getCipherParams P sessionKeyAlgorithm) ;;
  prefix <~ slift (cfb_getPrefixRandom sessionKeyAlgorithm) ;;
  FRE <~ slift (cfb_encrypt P sessionKeyAlgorithm key prefix
                  (repeat 0 (Z.to_nat (blockSize cipher)))) ;;
  ciphertext <~ slift (cfb_encrypt P sessionKeyAlgorithm key data
                         (Uint8Array.subarray_from FRE 2)) ;;
  smodify (set_encrypted (Some (util.concatUint8Array [FRE; ciphertext]))).

End WithPrimitives.

Arguments encrypted {PacketList} _.
Arguments packets {PacketList} _.
Arguments constructor {PacketList}.
Arguments set_encrypted {PacketList} _ _.
Arguments set_packets {PacketList} _ _.
Arguments read {PacketList} _.
Arguments write {PacketList}.

(** What the round trip needs of CFB and of its random prefix: decryption
    inverts encryption, encryption keeps the length, and the prefix is two
    bytes longer than a block. *)
Record CfbSpec (P : Primitives) (cfb_getPrefixRandom : jsval -> result bytes)
  : Prop := {
  cfb_inverse : forall cipher key data iv encrypted,
    cfb_encrypt P cipher key data iv = Ok encrypted ->
    cfb_decrypt P cipher key encrypted iv = Ok data;
  cfb_length : forall cipher key data iv encrypted,
    cfb_encrypt P cipher key data iv = Ok encrypted -> len encrypted = len data;
  prefix_length : forall algo cipher prefix,
    getCipherParams P algo = Ok cipher ->
    cfb_getPrefixRandom algo = Ok prefix ->
    0 <= blockSize cipher /\ len prefix = blockSize cipher + 2
}.

(** Generates a random byte prefix for the specified algorithm, as the
    earlier crypto module has it (second part of
    [src/crypto/signature.js]): random bytes of the length of a block,
    and the last two of them again.  [cipher[algo]] is read with
    [getCipherParams]. *)
Definition getPrefixRandom (P : Primitives) (algo : jsval) : result bytes :=
  cipher <- getCipherParams P algo ;;
  let prefixrandom := getRandomBytes P "getPrefixRandom" (blockSize cipher) in
  let repeat := Uint8Array.from [
    to_int32 (Uint8Array.get prefixrandom (len prefixrandom - 2));
    to_int32 (Uint8Array.get prefixrandom (len prefixrandom - 1))
  ] in
  Ok (util.concatUint8Array [prefixrandom; repeat]).

End SymmetricallyEncryptedData.

(** ** Writing a Public-Key Encrypted Session Key packet
    ([src/packet/public_key_encrypted_session_key.js], [write]) *)

Module PKESKWriter.

Import PKESK.

(** Modelled from the spec: [type/keyid] is not among the sources.  A Key
    ID is written as the 8 bytes it holds (section 3). *)
Definition KeyID_write (id : bytes) : bytes := id.

Section WithPrimitives.
Variable P : Primitives.

(** Create a binary representation of a tag 1 packet *)
Definition write (this : packet) : result bytes :=
  let arr := [Uint8Array.from [to_int32 (version this)]] in
  let arr :=
    if strict_eq (version this) (JNum 6) then
      match publicKeyFingerprint this with
      | Some fingerprint =>
          arr ++ [Uint8Array.from [len fingerprint + 1;
                                   to_int32 (publicKeyVersion this)];
                  fingerprint]
      | None => arr ++ [Uint8Array.from [0]]
      end
    else arr ++ [KeyID_write (publicKeyID this)] in
  serialized <- Crypto.serializeParams P (publicKeyAlgorithm this) (encrypted this) ;;
  Ok (util.concatUint8Array
        (arr ++ [Uint8Array.from [to_int32 (publicKeyAlgorithm this)]; serialized])).

End WithPrimitives.
End PKESKWriter.

(* ================================================================== *)
(** * Part II.  Properties                                             *)
(* ================================================================== *)

(** ** General facts *)

Lemma bind_Ok {A B : Type} (r : result A) (k : A -> result B) (a : A) :
  r = Ok a -> bind r k = k a.
Proof. intros ->. reflexivity. Qed.

Lemma case_of_In (v : jsval) (cases : list Z) :
  case_of v cases = true <-> exists c, In c cases /\ v = JNum c.
Proof.
  unfold case_of. rewrite existsb_exists. split.
  - intros [c [Hin Heq]]. exists c. split; [assumption|].
    destruct v as [| |n]; simpl in Heq; try discriminate.
    apply Z.eqb_eq in Heq. now subst.
  - intros [c [Hin ->]]. exists c. split; [assumption|]. simpl. apply Z.eqb_refl.
Qed.

Lemma strict_eq_true (a b : jsval) : strict_eq a b = true <-> a = b.
Proof.
  destruct a as [| |x], b as [| |y]; simpl; split; intros H;
    try reflexivity; try discriminate.
  - apply Z.eqb_eq in H. now subst.
  - inversion H. apply Z.eqb_refl.
Qed.

Lemma strict_eq_refl (a : jsval) : strict_eq a a = true.
Proof. now apply strict_eq_true. Qed.

Lemma strict_eq_false (a b : jsval) : strict_eq a b = false <-> a <> b.
Proof.
  rewrite <- strict_eq_true. destruct (strict_eq a b); split; congruence.
Qed.

(** ** Bytes and buffers *)




Lemma len_nonneg (a : bytes) : 0 <= len a.
Proof. unfold len. lia. Qed.

Lemma len_app (a b : bytes) : len (a ++ b) = len a + len b.
Proof. unfold len. rewrite length_app. lia. Qed.

Lemma len_cons (x : Z) (a : bytes) : len (x :: a) = 1 + len a.
Proof. unfold len. simpl List.length. lia. Qed.


Lemma len_repeat (x : Z) (n : nat) : len (repeat x n) = Z.of_nat n.
Proof. unfold len. now rewrite repeat_length. Qed.





Lemma get_in_range (a : bytes) (i : Z) :
  0 <= i < len a -> Uint8Array.get a i = JNum (nth (Z.to_nat i) a 0).
Proof.
  intros Hi. unfold Uint8Array.get.
  destruct (0 <=? i) eqn:H0; [|lia]. destruct (i <? len a) eqn:H1; [|lia]. reflexivity.
Qed.

Lemma get_out_of_range (a : bytes) (i : Z) :
  ~ (0 <= i < len a) -> Uint8Array.get a i = JUndefined.
Proof.
  intros Hi. unfold Uint8Array.get.
  destruct (0 <=? i) eqn:H0; [|reflexivity].
  destruct (i <? len a) eqn:H1; [lia|reflexivity].
Qed.


Lemma get_cons_0 (x : Z) (a : bytes) : Uint8Array.get (x :: a) 0 = JNum x.
Proof. rewrite get_in_range; [reflexivity|]. rewrite len_cons. pose proof (len_nonneg a). lia. Qed.

Lemma subarray_prefix (a : bytes) (k : Z) :
  0 <= k <= len a -> Uint8Array.subarray a 0 k = firstn (Z.to_nat k) a.
Proof.
  intros Hk. unfold Uint8Array.subarray, Uint8Array.clamp.
  destruct (0 <? 0) eqn:H0; [lia|]. destruct (k <? 0) eqn:H1; [lia|].
  rewrite (Z.min_l 0) by lia. rewrite (Z.min_l k) by lia.
  rewrite Z.sub_0_r. reflexivity.
Qed.

Lemma subarray_from_nonneg (a : bytes) (k : Z) :
  0 <= k <= len a -> Uint8Array.subarray_from a k = skipn (Z.to_nat k) a.
Proof.
  intros Hk. unfold Uint8Array.subarray_from, Uint8Array.subarray, Uint8Array.clamp.
  pose proof (len_nonneg a) as Hn.
  destruct (k <? 0) eqn:H1; [lia|]. destruct (len a <? 0) eqn:H2; [lia|].
  rewrite (Z.min_l k) by lia. rewrite Z.min_id.
  apply firstn_all2. rewrite length_skipn. unfold len in *. lia.
Qed.

Lemma subarray_from_0 (a : bytes) : Uint8Array.subarray_from a 0 = a.
Proof. rewrite subarray_from_nonneg; [reflexivity|]. pose proof (len_nonneg a). lia. Qed.

Lemma subarray_range (a : bytes) (b e : Z) :
  0 <= b <= e -> e <= len a ->
  Uint8Array.subarray a b e = firstn (Z.to_nat (e - b)) (skipn (Z.to_nat b) a).
Proof.
  intros Hb He. unfold Uint8Array.subarray, Uint8Array.clamp.
  destruct (b <? 0) eqn:H1; [lia|]. destruct (e <? 0) eqn:H2; [lia|].
  rewrite (Z.min_l b) by lia. rewrite (Z.min_l e) by lia. reflexivity.
Qed.


Lemma from_wf (a : bytes) : wf_bytes a -> Uint8Array.from a = a.
Proof.
  intros H. unfold Uint8Array.from. induction H as [|x a Hx Ha IH]; simpl; [reflexivity|].
  rewrite IH. rewrite Z.mod_small by exact Hx. reflexivity.
Qed.

(** ** The constant-time selects *)








(** ** The key combiner of the composite KEM *)

Section KemCombiner.
Variable P : Primitives.
Variable config : Config.

Let algo : jsval := JNum enums.publicKey.pqc_mlkem_x25519.

(** The domain separator is 21 octets long. *)
Lemma domSep_length : len (util.encodeUTF8 "OpenPGPCompositeKDFv1") = 21.
Proof. reflexivity. Qed.

Lemma multiKeyCombine_eq (a : jsval) (mlkemShare eccShare eccCt eccPub : bytes) :
  Kem.multiKeyCombine P a mlkemShare eccShare eccCt eccPub =
  computeDigest P enums.hash.sha3_256
    (mlkemShare ++ eccShare ++ eccCt ++ eccPub ++ [to_int32 a mod 256]
       ++ util.encodeUTF8 "OpenPGPCompositeKDFv1" ++ [21]).
Proof.
  unfold Kem.multiKeyCombine, util.concatUint8Array. simpl List.concat.
  repeat f_equal.
Qed.

End KemCombiner.

(** C1 (as amended).  For ML-KEM-768 + X25519 the dispatched encrypt and
    decrypt paths ([publicKeyEncrypt] and [publicKeyDecrypt] of crypto.js,
    through [encrypt] and [decrypt] of kem.js) wrap and unwrap the session
    key under the KEK
    [SHA3-256(mlkemShare || eccShare || eccCipherText || eccPublicKey ||
              [algo] || "OpenPGPCompositeKDFv1" || [21])],
    one digest call over the concatenation in this order; the ML-KEM
    ciphertext, the ML-KEM public key and a counter are not part of the
    input. *)
Theorem kem_dispatched_combiner :
  forall (P : Primitives) (config : Config)
         (eccShare eccCt eccPub mlkemShare mlkemCt mlkemPub : bytes),
    let algo := JNum enums.publicKey.pqc_mlkem_x25519 in
    let kekInput :=
      mlkemShare ++ eccShare ++ eccCt ++ eccPub ++ [enums.publicKey.pqc_mlkem_x25519]
        ++ util.encodeUTF8 "OpenPGPCompositeKDFv1" ++ [21] in
    let publicParams :=
      [("eccPublicKey", PBytes eccPub); ("mlkemPublicKey", PBytes mlkemPub)]%string in
(* encryption: the shares are those of the two encapsulations *)
(forall (symmetricAlgo : jsval) (privateParams : option params) (data fingerprint : bytes),
    eccKem_encaps P algo eccPub = Ok (eccShare, eccCt) ->
    ml_kem768_encapsulate P mlkemPub = Ok (mlkemCt, mlkemShare) ->
    Crypto.publicKeyEncrypt P config algo symmetricAlgo publicParams privateParams
      data fingerprint =
    (kek <- computeDigest P enums.hash.sha3_256 kekInput ;;
     wrapped <- aesKW_wrap P enums.symmetric.aes256 kek data ;;
     Ok [("eccCipherText", PBytes eccCt); ("mlkemCipherText", PBytes mlkemCt);
         ("C", PECDHXSymmetricKey symmetricAlgo wrapped)]%string))
/\
(* decryption: the shares are those of the two decapsulations *)
(forall (eccSecretKey mlkemSecretKey wrapped fingerprint : bytes)
        (symmetricAlgo : jsval) (randomPayload : option bytes),
    eccKem_decaps P algo eccCt eccSecretKey eccPub = Ok eccShare ->
    ml_kem768_decapsulate P mlkemCt mlkemSecretKey = Ok mlkemShare ->
    Crypto.publicKeyDecrypt P algo publicParams
      (Some [("eccSecretKey", PBytes eccSecretKey);
             ("mlkemSecretKey", PBytes mlkemSecretKey)]%string)
      [("eccCipherText", PBytes eccCt); ("mlkemCipherText", PBytes mlkemCt);
       ("C", PECDHXSymmetricKey symmetricAlgo wrapped)]%string
      fingerprint randomPayload =
    (kek <- computeDigest P enums.hash.sha3_256 kekInput ;;
     aesKW_unwrap P enums.symmetric.aes256 kek wrapped)).
Proof.
intros P config eccShare eccCt eccPub mlkemShare mlkemCt mlkemPub algo kekInput publicParams.
split.
- intros symmetricAlgo privateParams data fingerprint Hecc Hml.
unfold Crypto.publicKeyEncrypt. simpl.
unfold Kem.encrypt. fold algo. rewrite Hecc. simpl.
unfold MlKem.encaps. simpl. rewrite Hml. simpl.
rewrite multiKeyCombine_eq. simpl to_int32.
change (enums.publicKey.pqc_mlkem_x25519 mod 256) with enums.publicKey.pqc_mlkem_x25519.
fold kekInput.
destruct (computeDigest P enums.hash.sha3_256 kekInput) as [kek|e]; simpl; [|reflexivity].
destruct (aesKW_wrap P enums.symmetric.aes256 kek data); reflexivity.
- intros eccSecretKey mlkemSecretKey wrapped fingerprint symmetricAlgo randomPayload Hecc Hml.
unfold Crypto.publicKeyDecrypt. simpl.
unfold Kem.decrypt. fold algo. rewrite Hecc. simpl.
unfold MlKem.decaps. simpl. rewrite Hml. simpl.
rewrite multiKeyCombine_eq. simpl to_int32.
change (enums.publicKey.pqc_mlkem_x25519 mod 256) with enums.publicKey.pqc_mlkem_x25519.
reflexivity.
Qed.

(** The theorem at the reference primitives: a session key of 16 octets is
    wrapped under the digest of the 151-octet combiner input. *)
Lemma kem_dispatched_combiner_witness :
  eccKem_encaps Reference.P (JNum enums.publicKey.pqc_mlkem_x25519) (repeat 13 32)
    = Ok (repeat 1 32, repeat 2 32)
  /\ ml_kem768_encapsulate Reference.P (repeat 15 1184) = Ok (repeat 3 1088, repeat 4 32)
  /\ Crypto.publicKeyEncrypt Reference.P Reference.config
       (JNum enums.publicKey.pqc_mlkem_x25519) JNull
       [("eccPublicKey", PBytes (repeat 13 32));
        ("mlkemPublicKey", PBytes (repeat 15 1184))]%string
       None (repeat 0xAA 16) [] =
     (kek <- computeDigest Reference.P enums.hash.sha3_256
               (repeat 4 32 ++ repeat 1 32 ++ repeat 2 32 ++ repeat 13 32
                  ++ [enums.publicKey.pqc_mlkem_x25519]
                  ++ util.encodeUTF8 "OpenPGPCompositeKDFv1" ++ [21]) ;;
      wrapped <- aesKW_wrap Reference.P enums.symmetric.aes256 kek (repeat 0xAA 16) ;;
      Ok [("eccCipherText", PBytes (repeat 2 32)); ("mlkemCipherText", PBytes (repeat 3 1088));
          ("C", PECDHXSymmetricKey JNull wrapped)]%string).
Proof.
  split; [reflexivity|]. split; [reflexivity|].
  apply (proj1 (kem_dispatched_combiner Reference.P Reference.config
                  (repeat 1 32) (repeat 2 32) (repeat 13 32)
                  (repeat 4 32) (repeat 3 1088) (repeat 15 1184))); reflexivity.
Defined.

(** C1 (as stated) fails.  With 32-octet shares, ciphertext and public
    key, a 1088-octet ML-KEM ciphertext and a 1184-octet ML-KEM public key,
    the combiner of kem.js hashes 151 octets that begin with the ML-KEM
    share, while the formula of the specification hashes 2426 octets that
    begin with the counter; the two SHA3-256 digests differ. *)
Lemma kem_combiner_is_not_the_counter_formula :
  let algo := enums.publicKey.pqc_mlkem_x25519 in
  let eccShare := repeat 1 32 in
  let eccCt := repeat 2 32 in
  let eccPub := repeat 13 32 in
  let mlkemShare := repeat 4 32 in
  let mlkemCt := repeat 3 1088 in
  let mlkemPub := repeat 15 1184 in
  Kem.multiKeyCombine Reference.P (JNum algo) mlkemShare eccShare eccCt eccPub
    = Ok [30; 178; 108; 219; 25; 121; 60; 208; 133; 42; 27; 116; 196; 22; 173; 75;
          206; 144; 193; 58; 205; 91; 194; 229; 64; 233; 160; 232; 237; 39; 51; 192]
  /\ Spec.multiKeyCombine algo eccShare eccCt eccPub mlkemShare mlkemCt mlkemPub
     = [68; 80; 54; 15; 207; 182; 70; 21; 243; 74; 81; 15; 120; 56; 243; 159; 83;
        21; 177; 253; 92; 234; 98; 29; 26; 212; 106; 33; 119; 140; 62; 66]
  /\ Kem.multiKeyCombine Reference.P (JNum algo) mlkemShare eccShare eccCt eccPub
     <> Ok (Spec.multiKeyCombine algo eccShare eccCt eccPub mlkemShare mlkemCt mlkemPub).
Proof.
  vm_compute. repeat split. discriminate.
Qed.

(** The formula of the specification is the combiner of the earlier file
    ([src/unnamed/part_000]). *)
Lemma draft_combiner_is_the_counter_formula (P : Primitives) (algo : Z)
    (eccShare eccCt eccPub mlkemShare mlkemCt mlkemPub : bytes) :
  0 <= algo < 256 ->
  KemDraft.multiKeyCombine P (JNum algo) eccShare eccCt eccPub mlkemShare mlkemCt mlkemPub
  = computeDigest P enums.hash.sha3_256
      (Spec.multiKeyCombineInput algo eccShare eccCt eccPub mlkemShare mlkemCt mlkemPub).
Proof.
  intros Halgo.
  unfold KemDraft.multiKeyCombine, Spec.multiKeyCombineInput, util.concatUint8Array.
  unfold Uint8Array.from. simpl map. simpl List.concat. simpl to_int32.
  rewrite (Z.mod_small algo 256) by assumption.
  repeat f_equal.
Qed.

(** ** Decoding the session key of a PKESK packet *)

Lemma ends_in_two (d : bytes) :
  2 <= len d -> exists payload c0 c1, d = payload ++ [c0; c1].
Proof.
  intros Hd. unfold len in Hd.
  pose proof (firstn_skipn (List.length d - 2) d) as Hsplit.
  assert (Hlen : List.length (skipn (List.length d - 2) d) = 2%nat)
    by (rewrite length_skipn; lia).
  destruct (skipn (List.length d - 2) d) as [|c0 [|c1 [|c2 rest]]]; simpl in Hlen;
    try discriminate.
  exists (firstn (List.length d - 2) d), c0, c1. now symmetry.
Qed.

Lemma payload_of_blob (payload : bytes) (c0 c1 : Z) :
  Uint8Array.subarray (payload ++ [c0; c1]) 0 (len (payload ++ [c0; c1]) - 2) = payload.
Proof.
  rewrite len_app. change (len [c0; c1]) with 2.
  replace (len payload + 2 - 2) with (len payload) by lia.
  rewrite subarray_prefix.
  - unfold len. rewrite Nat2Z.id. rewrite firstn_app, Nat.sub_diag, firstn_all. simpl.
    apply app_nil_r.
  - rewrite len_app. change (len [c0; c1]) with 2. pose proof (len_nonneg payload). lia.
Qed.

Lemma checksum_of_blob (payload : bytes) (c0 c1 : Z) :
  Uint8Array.subarray_from (payload ++ [c0; c1]) (len (payload ++ [c0; c1]) - 2) = [c0; c1].
Proof.
  rewrite subarray_from_nonneg.
  - rewrite len_app. change (len [c0; c1]) with 2.
    replace (len payload + 2 - 2) with (len payload) by lia.
    unfold len. rewrite Nat2Z.id. rewrite skipn_app, Nat.sub_diag, skipn_all. reflexivity.
  - rewrite len_app. change (len [c0; c1]) with 2. pose proof (len_nonneg payload). lia.
Qed.

Lemma isValidChecksum_blob (payload : bytes) (c0 c1 : Z) :
  PKESK.isValidChecksum (payload ++ [c0; c1]) =
  Z_of_bool
    (match util.writeChecksum
             (Uint8Array.subarray_from payload (len payload mod 8)) with
     | [s0; s1] => (s0 =? c0) && (s1 =? c1)
     | _ => false
     end).
Proof.
  unfold PKESK.isValidChecksum. rewrite payload_of_blob, checksum_of_blob.
  unfold util.writeChecksum.
  set (s := fold_left Z.add _ 0 mod 65536).
  change (Uint8Array.get [s / 256; s mod 256] 0) with (JNum (s / 256)).
  change (Uint8Array.get [s / 256; s mod 256] 1) with (JNum (s mod 256)).
  change (Uint8Array.get [c0; c1] 0) with (JNum c0).
  change (Uint8Array.get [c0; c1] 1) with (JNum c1).
  simpl strict_eq.
  destruct (s / 256 =? c0), (s mod 256 =? c1); reflexivity.
Qed.

Lemma isValidChecksum_short (d : bytes) : len d < 2 -> PKESK.isValidChecksum d = 0.
Proof.
  intros Hd. destruct d as [|x [|y d]].
  - reflexivity.
  - unfold PKESK.isValidChecksum.
    change (Uint8Array.subarray_from [x] (len [x] - 2)) with [x].
    change (Uint8Array.get [x] 1) with JUndefined.
    change (Uint8Array.subarray [x] 0 (len [x] - 2)) with (@nil Z).
    simpl. destruct x; reflexivity.
  - rewrite !len_cons in Hd. pose proof (len_nonneg d). lia.
Qed.

(** [isValidChecksum] is 1 exactly when the checksum is valid, and 0
    otherwise. *)
Lemma isValidChecksum_spec (d : bytes) :
  (PKESK.isValidChecksum d = 1 <-> Spec.validChecksum d)
  /\ (PKESK.isValidChecksum d = 0 \/ PKESK.isValidChecksum d = 1).
Proof.
  destruct (Z_lt_ge_dec (len d) 2) as [Hshort | Hlong].
  - rewrite isValidChecksum_short by assumption. split; [|now left].
    split; [discriminate|]. intros (payload & c0 & c1 & -> & _).
    rewrite len_app in Hshort. change (len [c0; c1]) with 2 in Hshort.
    pose proof (len_nonneg payload). lia.
  - destruct (ends_in_two d) as (payload & c0 & c1 & ->); [lia|].
    rewrite isValidChecksum_blob. unfold Spec.validChecksum.
    set (sum := util.writeChecksum _).
    assert (Hsum : exists s0 s1, sum = [s0; s1])
      by (unfold sum, util.writeChecksum; eauto).
    destruct Hsum as (s0 & s1 & Hsum). rewrite Hsum. split.
    + split.
      * intros H. exists payload, c0, c1. split; [reflexivity|]. fold sum. rewrite Hsum.
        destruct (s0 =? c0) eqn:H0; [|discriminate].
        destruct (s1 =? c1) eqn:H1; [|discriminate].
        apply Z.eqb_eq in H0, H1. now subst.
      * intros (payload' & c0' & c1' & Heq & Hck).
        assert (Hp : payload = payload' /\ [c0; c1] = [c0'; c1']).
        { change (payload ++ [c0; c1]) with (payload ++ [c0] ++ [c1]) in Heq.
          change (payload' ++ [c0'; c1']) with (payload' ++ [c0'] ++ [c1']) in Heq.
          rewrite !app_assoc in Heq.
          apply app_inj_tail in Heq as [Heq ->].
          apply app_inj_tail in Heq as [-> ->]. now split. }
        destruct Hp as [<- Hc]. inversion Hc; subst c0' c1'.
        fold sum in Hck. rewrite Hsum in Hck. inversion Hck; subst.
        rewrite !Z.eqb_refl. reflexivity.
    + destruct ((s0 =? c0) && (s1 =? c1)); [now right | now left].
Qed.

(** What the decoded blob holds: for version 6 the session key alone, for
    version 3 the cipher algorithm octet and then the session key. *)
Lemma decryptedSessionKey_blob (version : jsval) (payload : bytes) (c0 c1 : Z) :
  PKESK.decryptedSessionKey version (payload ++ [c0; c1]) =
  if strict_eq version (JNum 6)
  then {| PKESK.sk_sessionKeyAlgorithm := JNull; PKESK.sk_sessionKey := payload |}
  else {| PKESK.sk_sessionKeyAlgorithm := Uint8Array.get payload 0;
          PKESK.sk_sessionKey := Uint8Array.subarray_from payload 1 |}.
Proof. unfold PKESK.decryptedSessionKey. now rewrite payload_of_blob. Qed.




(** ** Registered symmetric algorithms *)

Lemma enums_read_num (t : enums.table) (v : jsval) (name : string) :
  enums.read t v = Ok name -> exists n, v = JNum n /\ enums.byValue t n = Some name.
Proof.
  unfold enums.read. destruct v as [| |n]; try discriminate.
  destruct (enums.byValue t n) as [name'|] eqn:Hn; [|discriminate].
  intros H. inversion H. subst. eauto.
Qed.

Lemma symmetric_byValue_byName (n : Z) (name : string) :
  enums.byValue enums.symmetric.codes n = Some name ->
  enums.byName enums.symmetric.codes name = Some n /\ name <> EmptyString.
Proof.
  unfold enums.symmetric.codes. cbn [enums.byValue].
  repeat match goal with
         | |- context [?c =? n] =>
             let E := fresh "E" in
             destruct (c =? n) eqn:E;
             [apply Z.eqb_eq in E; subst n; intros Heq; inversion Heq; subst name;
              split; [reflexivity | discriminate] | clear E]
         end.
  discriminate.
Qed.

(** [enums.write] returns the code it was given, or throws. *)
Lemma symmetric_write (v : jsval) (c : Z) :
  enums.write enums.symmetric.codes v = Ok c -> v = JNum c.
Proof.
  unfold enums.write.
  destruct (enums.read enums.symmetric.codes v) as [name|e] eqn:Hr; [|discriminate].
  apply enums_read_num in Hr as (n & -> & Hn).
  apply symmetric_byValue_byName in Hn as [Hn _]. cbn [bind]. rewrite Hn.
  intros H. inversion H. reflexivity.
Qed.

Lemma symmetric_write_registered (c : Z) (name : string) :
  enums.byValue enums.symmetric.codes c = Some name ->
  enums.write enums.symmetric.codes (JNum c) = Ok c.
Proof.
  intros Hn. unfold enums.write, enums.read. rewrite Hn. cbn [bind].
  apply symmetric_byValue_byName in Hn as [Hn _]. now rewrite Hn.
Qed.

Lemma symmetric_write_unregistered (v : jsval) :
  (forall c name, v = JNum c -> enums.byValue enums.symmetric.codes c <> Some name) ->
  enums.write enums.symmetric.codes v = Throw (Error "Invalid enum value.").
Proof.
  intros Hv. unfold enums.write, enums.read. destruct v as [| |n]; try reflexivity.
  destruct (enums.byValue enums.symmetric.codes n) as [name|] eqn:Hn; [|reflexivity].
  exfalso. eapply Hv; eauto.
Qed.

(** ** [decodeSessionKey] without a random session key *)

(** Without a [randomSessionKey]: a blob whose checksum is invalid gives
    'Decryption error'; with a valid checksum, version 6 returns the key
    and version 3 returns it when the cipher octet is registered, and
    otherwise lets the error of the enum lookup through. *)
Lemma decodeSessionKey_without_random (version keyAlgo : jsval) (d : bytes) :
  In keyAlgo (map JNum checksummedAlgorithms) ->
  let decrypted := PKESK.decryptedSessionKey version d in
  (~ Spec.validChecksum d ->
   PKESK.decodeSessionKey version keyAlgo d None = Throw (Error "Decryption error"))
  /\ (Spec.validChecksum d -> version = JNum 6 ->
      PKESK.decodeSessionKey version keyAlgo d None = Ok decrypted)
  /\ (Spec.validChecksum d -> version <> JNum 6 ->
      forall name,
        enums.read enums.symmetric.codes (PKESK.sk_sessionKeyAlgorithm decrypted) = Ok name ->
        PKESK.decodeSessionKey version keyAlgo d None = Ok decrypted)
  /\ (Spec.validChecksum d -> version <> JNum 6 ->
      forall e,
        enums.read enums.symmetric.codes (PKESK.sk_sessionKeyAlgorithm decrypted) = Throw e ->
        e = Error "Invalid enum value."
        /\ PKESK.decodeSessionKey version keyAlgo d None = Throw (Error "Invalid enum value.")).
Proof.
  intros Halgo decrypted.
  assert (Hcase : case_of keyAlgo checksummedAlgorithms = true).
  { apply in_map_iff in Halgo as (c & <- & Hc). apply case_of_In. eauto. }
  unfold PKESK.decodeSessionKey. fold checksummedAlgorithms. rewrite Hcase.
  fold decrypted.
  destruct (isValidChecksum_spec d) as [Hvalid Hbit].
  assert (Hthrows : forall e,
             enums.read enums.symmetric.codes (PKESK.sk_sessionKeyAlgorithm decrypted)
             = Throw e -> e = Error "Invalid enum value.").
  { intros e He. unfold enums.read in He.
    destruct (PKESK.sk_sessionKeyAlgorithm decrypted) as [| |n]; try congruence.
    destruct (enums.byValue enums.symmetric.codes n); congruence. }
  split; [|split; [|split]].
  - intros Hnot. destruct Hbit as [H0 | H1]; [|exfalso; now apply Hnot, Hvalid].
    rewrite H0. reflexivity.
  - intros Hck ->. rewrite (proj2 Hvalid Hck). reflexivity.
  - intros Hck Hv name Hname. rewrite (proj2 Hvalid Hck).
    apply strict_eq_false in Hv. simpl. rewrite Hv, Hname. simpl.
    apply enums_read_num in Hname as (n & _ & Hn).
    apply symmetric_byValue_byName in Hn as [_ Hne].
    apply String.eqb_neq in Hne. rewrite Hne. reflexivity.
  - intros Hck Hv e He. split; [exact (Hthrows e He)|].
    rewrite (proj2 Hvalid Hck). apply strict_eq_false in Hv. simpl. rewrite Hv, He.
    simpl. f_equal. exact (Hthrows e He).
Qed.

(** C3 (the code at the failing input).  Version 3, RSA: the blob
    [C8 || 16 octets AA || checksum 0AA0] has a valid checksum and the
    cipher octet 200, which is not registered.  [decodeSessionKey] does not
    throw 'Decryption error' but the error of [enums.read], and so does
    [decrypt] of the packet. *)
Lemma decodeSessionKey_unregistered_algorithm :
  let blob := [200] ++ repeat 0xAA 16 ++ [0x0A; 0xA0] in
  let key := {| PKESK.key_algorithm := JNum enums.publicKey.rsaEncryptSign;
                PKESK.key_version := JNum 4;
                PKESK.key_publicParams :=
                  [("n", PBytes [0xC5; 0x3B]); ("e", PBytes [1; 0; 1])]%string;
                PKESK.key_privateParams :=
                  Some [("d", PBytes [0x5A; 0x11]); ("p", PBytes [0xD3]);
                        ("q", PBytes [0xEF]); ("u", PBytes [0x2C])]%string;
                PKESK.key_fingerprintBytes := repeat 1 20 |} in
  let packet :=
    PKESK.set_encrypted [("c", PBytes blob)]%string
      (PKESK.set_publicKeyAlgorithm (JNum enums.publicKey.rsaEncryptSign)
         (PKESK.set_version (JNum 3) PKESK.constructor)) in
  Spec.validChecksum blob
  /\ enums.byValue enums.symmetric.codes 200 = None
  /\ PKESK.decodeSessionKey (JNum 3) (JNum enums.publicKey.rsaEncryptSign) blob None
     = Throw (Error "Invalid enum value.")
  /\ snd (PKESK.decrypt Reference.P key None packet) = Throw (Error "Invalid enum value.").
Proof.
  intros blob key packet. split; [|split; [|split]].
  - exists ([200] ++ repeat 0xAA 16), 0x0A, 0xA0. split; reflexivity.
  - reflexivity.
  - reflexivity.
  - reflexivity.
Qed.

(** The second half of C3: in a version 3 packet the decrypted session key
    must have the key size of its cipher, or [decrypt] fails. *)
Lemma decrypt_v3_key_size (P : Primitives) (key : PKESK.Key)
    (random : option PKESK.SessionKey) (this : PKESK.packet)
    (randomPayload : option bytes) (decryptedData : bytes)
    (decoded : PKESK.SessionKey) (cipher : CipherParams) :
  PKESK.version this = JNum 3 ->
  PKESK.publicKeyAlgorithm this = PKESK.key_algorithm key ->
  case_of (PKESK.publicKeyAlgorithm this)
          PKESK.algosWithV3CleartextSessionKeyAlgorithm = false ->
  match random with
  | Some r => PKESK.encodeSessionKey (PKESK.version this) (PKESK.publicKeyAlgorithm this)
                (PKESK.sk_sessionKeyAlgorithm r) (PKESK.sk_sessionKey r)
              = Ok (match randomPayload with Some p => p | None => [] end)
              /\ randomPayload <> None
  | None => randomPayload = None
  end ->
  Crypto.publicKeyDecrypt P (PKESK.publicKeyAlgorithm this) (PKESK.key_publicParams key)
    (PKESK.key_privateParams key) (PKESK.encrypted this)
    (if strict_eq (PKESK.key_version key) (JNum 5)
     then Uint8Array.subarray (PKESK.key_fingerprintBytes key) 0 20
     else PKESK.key_fingerprintBytes key) randomPayload = Ok decryptedData ->
  PKESK.decodeSessionKey (PKESK.version this) (PKESK.publicKeyAlgorithm this)
    decryptedData random = Ok decoded ->
  getCipherParams P (PKESK.sk_sessionKeyAlgorithm decoded) = Ok cipher ->
  len (PKESK.sk_sessionKey decoded) <> keySize cipher ->
  snd (PKESK.decrypt P key random this) = Throw (Error "Unexpected session key size").
Proof.
  intros Hv Halgo Hset Hrandom Hdec Hdecode Hcipher Hsize.
  unfold PKESK.decrypt, StateExn.sbind, StateExn.sget, StateExn.slift, StateExn.sthrow,
    StateExn.smodify, StateExn.sret.
  rewrite Halgo, strict_eq_refl. cbn [negb]. rewrite <- Halgo.
  assert (Hpayload :
    match random with
    | Some r =>
        payload <- PKESK.encodeSessionKey (PKESK.version this) (PKESK.publicKeyAlgorithm this)
                     (PKESK.sk_sessionKeyAlgorithm r) (PKESK.sk_sessionKey r) ;;
        Ok (Some payload)
    | None => Ok None
    end = Ok randomPayload).
  { destruct random as [r|].
    - destruct Hrandom as [Henc Hsome]. rewrite Henc. simpl.
      destruct randomPayload; [reflexivity | congruence].
    - now subst. }
  rewrite Hpayload, Hdec, Hdecode, Hv. rewrite strict_eq_refl, Hset. cbn [negb].
  rewrite Hcipher.
  apply Z.eqb_neq in Hsize. rewrite Hsize. reflexivity.
Qed.

(** ** Parsing a PKESK packet *)

Ltac break_bind H :=
  repeat match type of H with
         | context [bind ?r _] =>
             let E := fresh "E" in
             destruct r eqn:E; cbn [bind] in H; [|discriminate H]
         | context [let '(_, _) := ?p in _] => destruct p
         end.

(** For X25519, X448 and ML-KEM + X25519 the encrypted session key ends in
    the wrapped-key structure [C]. *)
Lemma parseEncSessionKeyParams_C (P : Primitives) (algo : jsval) (buf : bytes) (enc : params) :
  case_of algo PKESK.algosWithV3CleartextSessionKeyAlgorithm = true ->
  Crypto.parseEncSessionKeyParams P algo buf = Ok enc ->
  exists a wk, lookup "C" enc = Some (PECDHXSymmetricKey a wk).
Proof.
  intros Hcase Hparse. apply case_of_In in Hcase as (c & Hc & ->).
  unfold PKESK.algosWithV3CleartextSessionKeyAlgorithm in Hc. simpl in Hc.
  destruct Hc as [<- | [<- | [<- | []]]];
    unfold Crypto.parseEncSessionKeyParams in Hparse; cbn [case_of existsb strict_eq] in Hparse;
    simpl in Hparse; break_bind Hparse; inversion Hparse; subst enc; simpl; eauto.
Qed.

Lemma readRecipient_version (buf : bytes) (this this1 : PKESK.packet) (offset : Z) :
  PKESK.readRecipient buf this = (this1, Ok offset) ->
  PKESK.version this1 = Uint8Array.get buf 0
  /\ (Uint8Array.get buf 0 = JNum 3 \/ Uint8Array.get buf 0 = JNum 6).
Proof.
  unfold PKESK.readRecipient, StateExn.sbind, StateExn.smodify, StateExn.sthrow,
    StateExn.sret.
  destruct (strict_eq (Uint8Array.get buf 0) (JNum 3)) eqn:H3;
    destruct (strict_eq (Uint8Array.get buf 0) (JNum 6)) eqn:H6; cbn [negb andb].
  - apply strict_eq_true in H3, H6. congruence.
  - apply strict_eq_true in H3.
    destruct (KeyID.read (Uint8Array.subarray buf 1 9)) as [id n].
    intros H. inversion H. subst. simpl. auto.
  - apply strict_eq_true in H6.
    destruct (truthy (Uint8Array.get buf 1)); intros H; inversion H; subst; simpl; auto.
  - discriminate.
Qed.

(** C7.  Let the recipient part of a PKESK packet have been read, and let
    the algorithm octet that follows be X25519, X448 or ML-KEM + X25519,
    with encrypted session key parameters that parse.  They end in a
    wrapped-key structure with an algorithm field.  For a version 6 packet
    parsing fails as soon as that field is not null, and succeeds when it is
    null.  For a version 3 packet parsing sets [sessionKeyAlgorithm] to the
    cleartext octet of that field, which has to be a registered symmetric
    algorithm. *)
Theorem pkesk_read_cleartext_algorithm :
  forall (P : Primitives) (buf : bytes) (this this1 : PKESK.packet) (offset : Z)
         (enc : params),
    PKESK.readRecipient buf this = (this1, Ok offset) ->
    let algo := Uint8Array.get buf offset in
    case_of algo PKESK.algosWithV3CleartextSessionKeyAlgorithm = true ->
    Crypto.parseEncSessionKeyParams P algo (Uint8Array.subarray_from buf (offset + 1))
      = Ok enc ->
    let parsed := PKESK.set_encrypted enc (PKESK.set_publicKeyAlgorithm algo this1) in
    exists (a : jsval) (wk : bytes),
      lookup "C" enc = Some (PECDHXSymmetricKey a wk)
      /\ (PKESK.version this1 = JNum 6 -> a <> JNull ->
          PKESK.read P buf this
          = (parsed, Throw (Error "Unexpected cleartext symmetric algorithm")))
      /\ (PKESK.version this1 = JNum 6 -> a = JNull ->
          PKESK.read P buf this = (parsed, Ok tt))
      /\ (PKESK.version this1 = JNum 3 ->
          forall c name, a = JNum c -> enums.byValue enums.symmetric.codes c = Some name ->
          PKESK.read P buf this = (PKESK.set_sessionKeyAlgorithm (JNum c) parsed, Ok tt))
      /\ (PKESK.version this1 = JNum 3 ->
          forall this2, PKESK.read P buf this = (this2, Ok tt) ->
          exists c, a = JNum c /\ PKESK.sessionKeyAlgorithm this2 = JNum c).
Proof.
  intros P buf this this1 offset enc Hrec algo Hcase Hparse parsed.
  destruct (parseEncSessionKeyParams_C P algo _ enc Hcase Hparse) as (a & wk & HC).
  exists a, wk. split; [exact HC|].
  destruct (readRecipient_version buf this this1 offset Hrec) as [Hversion _].
  assert (Hread :
    PKESK.read P buf this =
      (if strict_eq (Uint8Array.get buf 0) (JNum 3)
       then match enums.write enums.symmetric.codes a with
            | Ok c => (PKESK.set_sessionKeyAlgorithm (JNum c) parsed, Ok tt)
            | Throw e => (parsed, Throw e)
            end
       else if negb (strict_eq a JNull)
            then (parsed, Throw (Error "Unexpected cleartext symmetric algorithm"))
            else (parsed, Ok tt))).
  { unfold PKESK.read, StateExn.sbind. rewrite Hrec.
    fold algo. unfold StateExn.smodify, StateExn.slift, StateExn.sthrow, StateExn.sret.
    rewrite Hparse, Hcase. unfold getParam. rewrite HC. cbn [Crypto.C_algorithm].
    fold parsed.
    destruct (strict_eq (Uint8Array.get buf 0) (JNum 3)).
    - destruct (enums.write enums.symmetric.codes a); reflexivity.
    - destruct (negb (strict_eq a JNull)); reflexivity. }
  rewrite Hread, <- Hversion. clear Hread.
  repeat split.
  - intros Hv Ha. rewrite Hv. cbn [strict_eq Z.eqb Pos.eqb].
    apply strict_eq_false in Ha. rewrite Ha. reflexivity.
  - intros Hv Ha. rewrite Hv, Ha. reflexivity.
  - intros Hv c name Ha Hreg. rewrite Hv, Ha. cbn [strict_eq]. rewrite Z.eqb_refl.
    rewrite (symmetric_write_registered c name Hreg). reflexivity.
  - intros Hv this2. rewrite Hv. cbn [strict_eq]. rewrite Z.eqb_refl.
    destruct (enums.write enums.symmetric.codes a) as [c|e] eqn:Hw; [|discriminate].
    intros H. inversion H. apply symmetric_write in Hw. exists c. split; [assumption|].
    reflexivity.
Qed.

(** The theorem at concrete packets of the reference wire format, for
    X25519: a version 6 packet with an anonymous recipient whose wrapped
    key carries the cipher octet 07 is refused, and the version 3 packet
    with the same wrapped key gets [sessionKeyAlgorithm] 7. *)
Lemma pkesk_read_cleartext_algorithm_witness :
  let wrapped := [9; 7] ++ repeat 0x5C 8 in
  let v6 := [6; 0; 25] ++ repeat 0xE0 32 ++ wrapped in
  let v3 := [3] ++ repeat 0x1D 8 ++ [25] ++ repeat 0xE0 32 ++ wrapped in
  snd (PKESK.read Reference.P v6 PKESK.constructor)
    = Throw (Error "Unexpected cleartext symmetric algorithm")
  /\ snd (PKESK.read Reference.P v3 PKESK.constructor) = Ok tt
  /\ PKESK.sessionKeyAlgorithm (fst (PKESK.read Reference.P v3 PKESK.constructor)) = JNum 7.
Proof.
  intros wrapped v6 v3.
  destruct (pkesk_read_cleartext_algorithm Reference.P v6 PKESK.constructor
              (fst (PKESK.readRecipient v6 PKESK.constructor)) 2
              [("ephemeralPublicKey", PBytes (repeat 0xE0 32));
               ("C", PECDHXSymmetricKey (JNum 7) (repeat 0x5C 8))]%string
              eq_refl eq_refl eq_refl) as (a6 & wk6 & HC6 & Hfail & _).
  destruct (pkesk_read_cleartext_algorithm Reference.P v3 PKESK.constructor
              (fst (PKESK.readRecipient v3 PKESK.constructor)) 9
              [("ephemeralPublicKey", PBytes (repeat 0xE0 32));
               ("C", PECDHXSymmetricKey (JNum 7) (repeat 0x5C 8))]%string
              eq_refl eq_refl eq_refl) as (a3 & wk3 & HC3 & _ & _ & Hset & _).
  inversion HC6; subst a6 wk6. inversion HC3; subst a3 wk3.
  rewrite Hfail by (reflexivity || discriminate).
  rewrite (Hset eq_refl 7 "aes128"%string eq_refl eq_refl).
  repeat split.
Defined.

(** ** Decrypting with a key of another algorithm *)

(** C9.  [decrypt] throws 'Decryption error' whenever the packet's
    [publicKeyAlgorithm] differs from the algorithm of the decryption key.
    The packet is left as it was and no primitive is consulted: the outcome
    is the same for every instance of the primitives, and it is the same
    with and without a [randomSessionKey]. *)
Theorem pkesk_decrypt_algorithm_mismatch :
  forall (P : Primitives) (key : PKESK.Key) (randomSessionKey : option PKESK.SessionKey)
         (this : PKESK.packet),
    PKESK.publicKeyAlgorithm this <> PKESK.key_algorithm key ->
    PKESK.decrypt P key randomSessionKey this = (this, Throw (Error "Decryption error")).
Proof.
  intros P key randomSessionKey this Hneq.
  apply strict_eq_false in Hneq.
  unfold PKESK.decrypt, StateExn.sbind, StateExn.sget, StateExn.sthrow.
  rewrite Hneq. reflexivity.
Qed.

(** The theorem at a concrete input: an RSA packet and an ECDH key, with a
    random session key supplied. *)
Lemma pkesk_decrypt_algorithm_mismatch_witness :
  let packet :=
    PKESK.set_encrypted [("c", PBytes [1; 2; 3])]%string
      (PKESK.set_publicKeyAlgorithm (JNum enums.publicKey.rsaEncryptSign)
         (PKESK.set_version (JNum 3) PKESK.constructor)) in
  let key := {| PKESK.key_algorithm := JNum enums.publicKey.ecdh;
                PKESK.key_version := JNum 4;
                PKESK.key_publicParams := [];
                PKESK.key_privateParams := Some [];
                PKESK.key_fingerprintBytes := repeat 1 20 |} in
  PKESK.decrypt Reference.P key
    (Some {| PKESK.sk_sessionKeyAlgorithm := JNum enums.symmetric.aes128;
             PKESK.sk_sessionKey := repeat 0xFF 16 |}) packet
  = (packet, Throw (Error "Decryption error")).
Proof.
  intros packet key.
  apply (pkesk_decrypt_algorithm_mismatch Reference.P key). discriminate.
Defined.

(** ** Deriving the key that protects a Secret-Key packet *)

(** C5.  [produceEncryptionKey] throws for an Argon2 S2K without an AEAD
    mode and for a Simple S2K with a version 6 key.  Otherwise, with
    [derivedKey] the S2K output for the key size of the cipher, it returns
    [derivedKey] itself when there is no AEAD mode, or the key version is 5,
    or the legacy-AEAD flag is set, and in every other case
    HKDF-SHA-256 of [derivedKey] with empty salt, info the serialized
    packet tag followed by [keyVersion, cipherAlgo, aeadMode], and the key
    size of the cipher as output length. *)
Theorem produceEncryptionKey_cases :
  forall (P : Primitives) (keyVersion : jsval) (s2k : S2K) (passphrase : string)
         (cipherAlgo aeadMode : jsval) (serializedPacketTag : option bytes)
         (isLegacyAEAD : option bool),
    let key := SecretKeyPacket.produceEncryptionKey P keyVersion s2k passphrase cipherAlgo
                 aeadMode serializedPacketTag isLegacyAEAD in
    (s2k_type s2k = "argon2"%string -> truthy aeadMode = false ->
     key = Throw (Error "Using Argon2 S2K without AEAD is not allowed"))
    /\ (s2k_type s2k = "simple"%string -> keyVersion = JNum 6 ->
        key = Throw (Error "Using Simple S2K with version 6 keys is not allowed"))
    /\ (forall (cipher : CipherParams) (derivedKey : bytes),
          ~ (s2k_type s2k = "argon2"%string /\ truthy aeadMode = false) ->
          ~ (s2k_type s2k = "simple"%string /\ keyVersion = JNum 6) ->
          getCipherParams P cipherAlgo = Ok cipher ->
          s2k_produceKey P s2k passphrase (keySize cipher) = Ok derivedKey ->
          ((truthy aeadMode = false \/ keyVersion = JNum 5 \/ isLegacyAEAD = Some true) ->
           key = Ok derivedKey)
          /\ (forall (tagBytes : bytes) (v c a : Z),
                truthy aeadMode = true -> keyVersion <> JNum 5 ->
                isLegacyAEAD <> Some true ->
                serializedPacketTag = Some tagBytes ->
                keyVersion = JNum v -> cipherAlgo = JNum c -> aeadMode = JNum a ->
                0 <= v < 256 -> 0 <= c < 256 -> 0 <= a < 256 ->
                key = computeHKDF P enums.hash.sha256 derivedKey []
                        (tagBytes ++ [v; c; a]) (keySize cipher))).
Proof.
  intros P keyVersion s2k passphrase cipherAlgo aeadMode serializedPacketTag isLegacyAEAD key.
  subst key. unfold SecretKeyPacket.produceEncryptionKey.
  split; [|split].
  - intros Htype Haead. rewrite Htype, Haead. reflexivity.
  - intros Htype ->. rewrite Htype. reflexivity.
  - intros cipher derivedKey Hargon Hsimple Hcipher Hderive.
    assert (H1 : String.eqb (s2k_type s2k) "argon2" && negb (truthy aeadMode) = false).
    { destruct (String.eqb (s2k_type s2k) "argon2") eqn:Ht; [|reflexivity].
      destruct (truthy aeadMode) eqn:Ha; [reflexivity|].
      exfalso. apply Hargon. split; [now apply String.eqb_eq | reflexivity]. }
    assert (H2 : String.eqb (s2k_type s2k) "simple" && strict_eq keyVersion (JNum 6) = false).
    { destruct (String.eqb (s2k_type s2k) "simple") eqn:Ht; [|reflexivity].
      destruct (strict_eq keyVersion (JNum 6)) eqn:Hv; [|reflexivity].
      exfalso. apply Hsimple. split; [now apply String.eqb_eq | now apply strict_eq_true]. }
    rewrite H1, H2, Hcipher. cbn [bind]. rewrite Hderive. cbn [bind].
    split.
    + intros [Ha | [Hv | Hl]].
      * rewrite Ha. reflexivity.
      * rewrite Hv. cbn [strict_eq Z.eqb Pos.eqb]. rewrite orb_true_r. reflexivity.
      * rewrite Hl. cbn [SecretKeyPacket.istrue]. rewrite orb_true_r. reflexivity.
    + intros tagBytes v c a Ha Hv Hl Htag Hkv Hca Haa Hvb Hcb Hab.
      rewrite Ha. apply strict_eq_false in Hv. rewrite Hv.
      assert (Hlegacy : SecretKeyPacket.istrue isLegacyAEAD = false)
        by (destruct isLegacyAEAD as [[|]|]; [congruence | reflexivity | reflexivity]).
      rewrite Hlegacy. cbn [negb orb]. rewrite Htag. cbn [SecretKeyPacket.fromOption bind].
      rewrite Hkv, Hca, Haa. cbn [to_int32].
      unfold util.concatUint8Array, Uint8Array.from. cbn [map List.concat].
      rewrite !Z.mod_small by assumption. rewrite app_nil_r. reflexivity.
Qed.

(** The theorem at a concrete input: a version 6 key, an Argon2 S2K, AES-256
    and OCB, with the packet tag of a Secret-Key packet. *)
Lemma produceEncryptionKey_cases_witness :
  let s2k := {| s2k_type := "argon2"; s2k_algorithm := 0; s2k_c := 0;
                s2k_salt := repeat 8 16 |} in
  SecretKeyPacket.produceEncryptionKey Reference.P (JNum 6) s2k "pw"
    (JNum enums.symmetric.aes256) (JNum enums.aead.ocb) (Some [0xC5]) (Some false)
  = computeHKDF Reference.P enums.hash.sha256 (repeat 5 32) []
      ([0xC5] ++ [6; enums.symmetric.aes256; enums.aead.ocb]) 32.
Proof.
  intros s2k.
  refine (proj2 (proj2 (proj2 (produceEncryptionKey_cases Reference.P (JNum 6) s2k "pw"
            (JNum enums.symmetric.aes256) (JNum enums.aead.ocb) (Some [0xC5]) (Some false)))
            {| keySize := 32; blockSize := 16 |} (repeat 5 32) _ _ eq_refl eq_refl)
          [0xC5] 6 enums.symmetric.aes256 enums.aead.ocb
          eq_refl _ _ eq_refl eq_refl eq_refl eq_refl _ _ _);
    try discriminate; try (intros [H _]; discriminate H);
    try (unfold enums.symmetric.aes256, enums.aead.ocb; lia).
  intros [_ H]. discriminate H.
Defined.

(** ** Hash-strength gates *)

(** C6 (as amended).  For [sign] of the dispatcher, which first requires
    the key parameters to be present, and for [verify] of the dispatcher
    with or without private parameters:
    - every Ed25519 [sign] and [verify] call, of the dispatcher and of the
      adapter, fails with 'Hash algorithm too weak for EdDSA.' whenever the
      digest of the requested hash is shorter than that of SHA-256, the
      preferred hash of Ed25519;
    - Ed448 has no preferred hash in eddsa.js: every Ed448 [sign] and
      [verify] call with a known hash fails with 'Unknown EdDSA algo',
      whatever the digest length;
    - every ML-DSA + Ed25519 [sign] and [verify] call fails whenever the
      digest is shorter than 32 bytes;
    so [sign] with Ed25519 and SHA-1, and with ML-DSA + Ed25519 and
    SHA-224, both fail. *)
Theorem hash_strength_gates :
  forall (P : Primitives) (config : Config)
         (hashAlgo : jsval) (n : Z)
         (publicParams privateParams signature : params)
         (anyPrivate : option params) (data hashed : bytes),
    Hash.getHashByteLength hashAlgo = Ok n ->
    let ed25519 := JNum enums.publicKey.ed25519 in
    let ed448 := JNum enums.publicKey.ed448 in
    let mldsa := JNum enums.publicKey.pqc_mldsa_ed25519 in
    let tooWeak := Error "Hash algorithm too weak for EdDSA." in
    let tooShort :=
      Error "Unexpected hash algorithm for PQC signature: digest size too short" in
(* Ed25519 *)
(Eddsa.getPreferredHashAlgo ed25519 = Ok enums.hash.sha256
 /\ Hash.getHashByteLength (JNum enums.hash.sha256) = Ok 32)
/\ (n < 32 ->
    Signature.sign P config ed25519 hashAlgo (Some publicParams) (Some privateParams)
      data hashed = Throw tooWeak
    /\ Signature.verify P ed25519 hashAlgo signature publicParams anyPrivate
         data hashed = Throw tooWeak
    /\ (forall message publicKey privateKey RS,
           Eddsa.sign P config ed25519 hashAlgo message publicKey privateKey hashed
             = Throw tooWeak
           /\ Eddsa.verify P ed25519 hashAlgo RS message publicKey hashed
                = Throw tooWeak))
(* Ed448 *)
/\ (Signature.sign P config ed448 hashAlgo (Some publicParams) (Some privateParams)
      data hashed = Throw (Error "Unknown EdDSA algo")
    /\ Signature.verify P ed448 hashAlgo signature publicParams anyPrivate
         data hashed = Throw (Error "Unknown EdDSA algo"))
(* ML-DSA-65 + Ed25519 *)
/\ (n < 32 ->
    Signature.sign P config mldsa hashAlgo (Some publicParams) (Some privateParams)
      data hashed = Throw tooShort
    /\ Signature.verify P mldsa hashAlgo signature publicParams anyPrivate
         data hashed = Throw tooShort
    /\ (forall eccSecretKey eccPublicKey mldsaSecretKey mldsaPublicKey
               eccSignature mldsaSignature,
           PqcSignature.sign P mldsa hashAlgo eccSecretKey eccPublicKey mldsaSecretKey
             hashed = Throw tooShort
           /\ PqcSignature.verify P mldsa hashAlgo eccPublicKey mldsaPublicKey hashed
                eccSignature mldsaSignature = Throw tooShort))
(* the two examples *)
/\ Signature.sign P config ed25519 (JNum enums.hash.sha1) (Some publicParams)
     (Some privateParams) data hashed = Throw tooWeak
/\ Signature.sign P config mldsa (JNum enums.hash.sha224) (Some publicParams)
     (Some privateParams) data hashed = Throw tooShort.
Proof.
intros P config hashAlgo n publicParams privateParams signature anyPrivate data hashed Hn
     ed25519 ed448 mldsa tooWeak tooShort.
split; [split; reflexivity|].
split; [|split; [|split; [|split; reflexivity]]].
- intros Hweak.
assert (Hgate : Eddsa.hashTooWeak ed25519 hashAlgo = Ok true).
{ unfold Eddsa.hashTooWeak. rewrite Hn. cbn.
  apply Z.ltb_lt in Hweak. now rewrite Hweak. }
repeat split.
+ unfold Signature.sign. cbn [case_of existsb strict_eq ed25519 Z.eqb Pos.eqb orb].
  simpl. fold ed25519. rewrite Hgate. reflexivity.
+ unfold Signature.verify. simpl. fold ed25519. rewrite Hgate. reflexivity.
+ unfold Eddsa.sign. rewrite Hgate. reflexivity.
+ unfold Eddsa.verify. rewrite Hgate. reflexivity.
- assert (Hgate : Eddsa.hashTooWeak ed448 hashAlgo = Throw (Error "Unknown EdDSA algo")).
{ unfold Eddsa.hashTooWeak. rewrite Hn. reflexivity. }
split.
+ unfold Signature.sign. simpl. fold ed448. rewrite Hgate. reflexivity.
+ unfold Signature.verify. simpl. fold ed448. rewrite Hgate. reflexivity.
- intros Hshort.
assert (Hgate : PqcSignature.isCompatibleHashAlgo mldsa hashAlgo = Ok false).
{ unfold PqcSignature.isCompatibleHashAlgo. simpl. rewrite Hn. cbn [bind].
  assert (H : (32 <=? n) = false) by (apply Z.leb_gt; exact Hshort). now rewrite H. }
repeat split.
+ unfold Signature.sign. simpl. fold mldsa. rewrite Hgate. reflexivity.
+ unfold Signature.verify. simpl. fold mldsa. rewrite Hgate. reflexivity.
+ unfold PqcSignature.sign. rewrite Hgate. reflexivity.
+ unfold PqcSignature.verify. rewrite Hgate. reflexivity.
Qed.

(** The theorem at a concrete input: SHA-1, whose digest has 20 bytes;
    [verify] is called with the public key alone. *)
Lemma hash_strength_gates_witness :
  Signature.sign Reference.P Reference.config (JNum enums.publicKey.ed25519)
    (JNum enums.hash.sha1) (Some [("A", PBytes (repeat 1 32))]%string)
    (Some [("seed", PBytes (repeat 2 32))]%string) [] (repeat 3 20)
  = Throw (Error "Hash algorithm too weak for EdDSA.")
  /\ Signature.verify Reference.P (JNum enums.publicKey.ed25519) (JNum enums.hash.sha1)
       [("RS", PBytes (repeat 4 64))]%string [("A", PBytes (repeat 1 32))]%string None
       [] (repeat 3 20)
     = Throw (Error "Hash algorithm too weak for EdDSA.").
Proof.
  destruct (proj1 (proj2 (hash_strength_gates Reference.P Reference.config
              (JNum enums.hash.sha1) 20 [("A", PBytes (repeat 1 32))]%string
              [("seed", PBytes (repeat 2 32))]%string
              [("RS", PBytes (repeat 4 64))]%string None [] (repeat 3 20) eq_refl)))
    as [Hsign [Hverify _]]; [lia|].
  split; [exact Hsign|exact Hverify].
Defined.

(** C6 (as stated) fails for Ed448.  SHA-256 has a 32-byte digest and
    SHA-512, the hash the claim names for Ed448, a 64-byte one; yet [sign]
    and [verify] with Ed448 and SHA-256 do not fail with the hash-too-weak
    error: eddsa.js has no preferred hash for Ed448 and the call ends in
    'Unknown EdDSA algo', as it does with SHA-512 itself. *)
Lemma ed448_has_no_hash_gate :
  let publicParams := Some [("A", PBytes (repeat 1 57))]%string in
  let privateParams := Some [("seed", PBytes (repeat 2 57))]%string in
  Hash.getHashByteLength (JNum enums.hash.sha256) = Ok 32
  /\ Hash.getHashByteLength (JNum enums.hash.sha512) = Ok 64
  /\ Signature.sign Reference.P Reference.config (JNum enums.publicKey.ed448)
       (JNum enums.hash.sha256) publicParams privateParams [] (repeat 3 32)
     = Throw (Error "Unknown EdDSA algo")
  /\ Signature.sign Reference.P Reference.config (JNum enums.publicKey.ed448)
       (JNum enums.hash.sha256) publicParams privateParams [] (repeat 3 32)
     <> Throw (Error "Hash algorithm too weak for EdDSA.")
  /\ Signature.verify Reference.P (JNum enums.publicKey.ed448) (JNum enums.hash.sha256)
       [("RS", PBytes (repeat 4 114))]%string [("A", PBytes (repeat 1 57))]%string None
       [] (repeat 3 32)
     <> Throw (Error "Hash algorithm too weak for EdDSA.")
  /\ Signature.sign Reference.P Reference.config (JNum enums.publicKey.ed448)
       (JNum enums.hash.sha512) publicParams privateParams [] (repeat 3 64)
     = Throw (Error "Unknown EdDSA algo").
Proof.
  intros publicParams privateParams. vm_compute. repeat split; discriminate.
Qed.

(** ** X25519 and X448 wrap AES session keys *)





(** ** Rules for the state and exception monad *)

Section StateRules.
Import StateExn StateLogic.
Context {S : Type}.

Lemma stable_sret {A : Type} (Q : S -> Prop) (a : A) : stable Q (sret a).
Proof. intros s H. exact H. Qed.

Lemma stable_sthrow {A : Type} (Q : S -> Prop) (e : exn) : stable Q (@sthrow S A e).
Proof. intros s H. exact H. Qed.

Lemma stable_slift {A : Type} (Q : S -> Prop) (r : result A) : stable Q (slift r).
Proof. intros s H. exact H. Qed.

Lemma stable_sget (Q : S -> Prop) : stable Q sget.
Proof. intros s H. exact H. Qed.

Lemma stable_smodify (Q : S -> Prop) (f : S -> S) :
  (forall s, Q s -> Q (f s)) -> stable Q (smodify f).
Proof. intros Hf s H. apply Hf, H. Qed.

Lemma stable_sbind {A B : Type} (Q : S -> Prop) (m : stx S A) (k : A -> stx S B) :
  stable Q m -> (forall a, stable Q (k a)) -> stable Q (sbind m k).
Proof.
  intros Hm Hk s H. unfold sbind. specialize (Hm s H).
  destruct (m s) as [s' [a | e]]; cbn [fst] in *.
  - apply Hk, Hm.
  - exact Hm.
Qed.

Lemma stable_stry {A : Type} (Q : S -> Prop) (m : stx S A) (h : exn -> stx S A) :
  stable Q m -> (forall e, stable Q (h e)) -> stable Q (stry m h).
Proof.
  intros Hm Hh s H. unfold stry. specialize (Hm s H).
  destruct (m s) as [s' [a | e]]; cbn [fst] in *.
  - exact Hm.
  - apply Hh, Hm.
Qed.




Lemma returns_weaken {A : Type} (Pre Pre' : S -> Prop) (Post : S -> A -> Prop)
    (m : stx S A) :
  (forall s, Pre' s -> Pre s) -> returns Pre m Post -> returns Pre' m Post.
Proof. intros Hpre Hm s H. apply Hm, Hpre, H. Qed.

End StateRules.

(** ** The consistency of the Secret-Key packet *)

Section SecretKeyFrames.
Import StateExn StateLogic SecretKeyPacket SecretKeyState.
Variable P : Primitives.


(** The cursor operations of [read] leave the packet alone. *)
Lemma stable_onThis {A : Type} (Q : packet -> Prop) (m : stx packet A) :
  stable Q m -> stable (fun s : packet * Z => Q (fst s)) (onThis m).
Proof.
  intros Hm [p i] H. unfold onThis. specialize (Hm p H).
  destruct (m p) as [p' r]. exact Hm.
Qed.

Lemma stable_nextByte (Q : packet -> Prop) (buf : bytes) :
  stable (fun s : packet * Z => Q (fst s)) (nextByte buf).
Proof. intros [p i] H. exact H. Qed.

Lemma stable_advance (Q : packet -> Prop) (n : Z) :
  stable (fun s : packet * Z => Q (fst s)) (advance n).
Proof. intros [p i] H. exact H. Qed.

Lemma stable_position (Q : packet -> Prop) :
  stable (fun s : packet * Z => Q (fst s)) position.
Proof. intros [p i] H. exact H. Qed.

Lemma stable_getThis (Q : packet -> Prop) :
  stable (fun s : packet * Z => Q (fst s)) getThis.
Proof. intros [p i] H. exact H. Qed.

End SecretKeyFrames.

(** Break a computation of the monad into its steps; what is left are the
    assignments, each of which has to keep the property at hand. *)
Ltac stable_steps :=
  repeat match goal with
    | |- StateLogic.stable _ (if ?b then _ else _) => destruct b
    | |- StateLogic.stable _ (match ?x with _ => _ end) => destruct x
    | |- StateLogic.stable _ (StateExn.sbind _ _) => apply stable_sbind; [|intros ?]
    | |- StateLogic.stable _ (StateExn.sret _) => apply stable_sret
    | |- StateLogic.stable _ (StateExn.sthrow _) => apply stable_sthrow
    | |- StateLogic.stable _ (StateExn.slift _) => apply stable_slift
    | |- StateLogic.stable _ StateExn.sget => apply stable_sget
    | |- StateLogic.stable _ (StateExn.smodify _) => apply stable_smodify; intros ? ?
    | |- StateLogic.stable _ (SecretKeyPacket.onThis _) => apply stable_onThis
    | |- StateLogic.stable _ (SecretKeyPacket.nextByte _) => apply stable_nextByte
    | |- StateLogic.stable _ (SecretKeyPacket.advance _) => apply stable_advance
    | |- StateLogic.stable _ SecretKeyPacket.position => apply stable_position
    | |- StateLogic.stable _ SecretKeyPacket.getThis => apply stable_getThis
    end.

(** An assignment to another field keeps the property by computation. *)
Ltac kept := match goal with H : _ |- _ => exact H end.

Section SecretKeyInvariant.
Import StateExn StateLogic SecretKeyPacket SecretKeyState.
Variable P : Primitives.















End SecretKeyInvariant.




(** ** The MPI and fixed-size codecs *)










Lemma firstn_app_exact {A : Type} (a b : list A) : firstn (List.length a) (a ++ b) = a.
Proof. rewrite firstn_app, Nat.sub_diag, firstn_all. cbn. apply app_nil_r. Qed.

Lemma skipn_app_exact {A : Type} (a b : list A) : skipn (List.length a) (a ++ b) = b.
Proof. rewrite skipn_app, Nat.sub_diag, skipn_all. reflexivity. Qed.

Lemma subarray_from_app (pre rest : bytes) :
  Uint8Array.subarray_from (pre ++ rest) (len pre) = rest.
Proof.
  rewrite subarray_from_nonneg.
  - unfold len. rewrite Nat2Z.id. apply skipn_app_exact.
  - rewrite len_app. pose proof (len_nonneg pre). pose proof (len_nonneg rest). lia.
Qed.




Section Readers.
Variable P : Primitives.




End Readers.

(** ** The round trip of generated key parameters *)

(** Decide the [switch] on an algorithm that is known. *)
Ltac eval_cases :=
  repeat match goal with
         | |- context [case_of (JNum ?c) ?l] =>
             let b := eval vm_compute in (case_of (JNum c) l) in
             change (case_of (JNum c) l) with b
         end;
  cbv iota.


Section RoundTrip.
Import Contracts.
Variable P : Primitives.
Hypothesis HP : GeneratorsSpec P.
































End RoundTrip.


(** ** The reference primitives keep the contracts *)

Lemma round_length (st : list Z) (rc : Z) : List.length (SHA3.round st rc) = 25%nat.
Proof.
  unfold SHA3.round.
  assert (Hiota : forall l, List.length (SHA3.iota rc l) = List.length l)
    by (intros [|a l]; reflexivity).
  rewrite Hiota. unfold SHA3.chi. now rewrite length_map, length_seq.
Qed.

Lemma keccak_f_length (st : list Z) : List.length (SHA3.keccak_f st) = 25%nat.
Proof.
  unfold SHA3.keccak_f, SHA3.round_constants.
  cbn [fold_left]. apply round_length.
Qed.

Lemma absorb_length (fuel : nat) (st : list Z) (msg : bytes) :
  List.length st = 25%nat -> List.length (SHA3.absorb fuel st msg) = 25%nat.
Proof.
  revert st msg. induction fuel as [|fuel IH]; intros st msg Hst; [exact Hst|].
  destruct msg as [|b msg]; [exact Hst|].
  cbn [SHA3.absorb]. apply IH, keccak_f_length.
Qed.

Lemma sha3_256_length (msg : bytes) : len (SHA3.sha3_256 msg) = 32.
Proof.
  unfold SHA3.sha3_256.
  pose proof (absorb_length (List.length (SHA3.pad msg)) (repeat 0 25) (SHA3.pad msg)
                eq_refl) as H.
  destruct (SHA3.absorb _ _ _) as [|a [|b [|c [|d st]]]]; try discriminate H.
  reflexivity.
Qed.

Lemma wf_bytesb_true (b : bytes) : wf_bytesb b = true -> wf_bytes b.
Proof.
  unfold wf_bytesb. rewrite forallb_forall. intros H. apply Forall_forall.
  intros x Hx. apply H in Hx. apply andb_prop in Hx. unfold is_byte. lia.
Qed.

Lemma isMPI_decide (b : bytes) :
  wf_bytesb b && Contracts.canonical b && (len b <? 8192) = true -> Contracts.isMPI b.
Proof.
  intros H. apply andb_prop in H as [H H3]. apply andb_prop in H as [H1 H2].
  repeat split; [now apply wf_bytesb_true | exact H2 | lia].
Qed.

Lemma getHashByteLength_nonneg (h : jsval) (n : Z) :
  Hash.getHashByteLength h = Ok n -> 0 <= n.
Proof.
  unfold Hash.getHashByteLength.
  repeat match goal with
         | |- context [if ?b then _ else _] => destruct b
         end; intros H; inversion H; lia.
Qed.

Lemma symmetric_registered_byte (c : Z) :
  enums.write enums.symmetric.codes (JNum c) = Ok c -> 0 <= c < 256.
Proof.
  unfold enums.write, enums.read.
  destruct (enums.byValue enums.symmetric.codes c) as [name|] eqn:Hn; [|discriminate].
  intros _. revert Hn. unfold enums.symmetric.codes. cbn [enums.byValue].
  repeat match goal with
         | |- context [?k =? c] =>
             let E := fresh "E" in
             destruct (k =? c) eqn:E; [apply Z.eqb_eq in E; subst c; intros _; now vm_compute|]
         end.
  discriminate.
Qed.

Lemma reference_generators : Contracts.GeneratorsSpec Reference.P.
Proof.
  constructor.
  - intros bits e k H. inversion H. subst k.
    repeat split; try (apply wf_bytesb_true; reflexivity); reflexivity.
  - intros curve k H. cbn [elliptic_generate Reference.P] in H.
    destruct (String.eqb curve "ed25519Legacy") eqn:E1.
    + apply String.eqb_eq in E1. subst curve. inversion H. subst k.
      split; [apply wf_bytesb_true; reflexivity|]. split; [reflexivity|].
      split; [apply isMPI_decide; reflexivity|].
      repeat split; reflexivity.
    + destruct (String.eqb curve "nistP256") eqn:E2; [|discriminate].
      apply String.eqb_eq in E2. subst curve. inversion H. subst k.
      split; [apply wf_bytesb_true; reflexivity|]. split; [reflexivity|].
      split; [apply isMPI_decide; reflexivity|].
      repeat split; try reflexivity. intros Heq. discriminate Heq.
  - intros label n Hn. cbn [getRandomBytes Reference.P]. rewrite len_repeat. lia.
  - reflexivity.
  - intros seed. change (len (firstn 32 (SHA3.sha3_256 seed)) = 32).
    pose proof (sha3_256_length seed) as H. unfold len in *.
    rewrite length_firstn. lia.
  - intros algo A k H. cbn [ecdhX_generate ecdhX_getPayloadSize Reference.P] in H |- *.
    unfold Reference.xPayloadSize in *.
    destruct (case_of algo [enums.publicKey.x25519]);
      [|destruct (case_of algo [enums.publicKey.x448]); [|discriminate]];
      inversion H; subst; split; reflexivity.
  - intros algo c H. cbn [getCipherParams Reference.P] in H.
    unfold Reference.cipherParams in H.
    repeat match type of H with
           | (if ?b then _ else _) = _ => destruct b
           end; inversion H; cbn; lia.
  - intros data d H. change (Reference.digest enums.hash.sha256 data = Ok d) in H.
    unfold Reference.digest in H.
    change (enums.hash.sha256 =? enums.hash.sha3_256) with false in H.
    change (enums.hash.sha256 =? enums.hash.sha256) with true in H.
    cbv iota in H. inversion H. apply sha3_256_length.
  - intros c rest Hc. pose proof (symmetric_registered_byte c Hc) as Hb.
    cbn [SymAlgoEnum_read obj_write Reference.P Reference.write to_int32 app].
    unfold Reference.readEnum. rewrite Z.mod_small by exact Hb.
    rewrite get_cons_0, Hc. reflexivity.
  - reflexivity.
  - intros algo sk pk H. inversion H. split; reflexivity.
  - intros algo seed sk pk H. inversion H. repeat split. eexists. reflexivity.
Qed.



(** The ML-KEM + X25519 key of the reference primitives: the private
    record that [generateParams] returns has no seed, and it cannot be
    serialized. *)
Lemma mlkem_generated_key_is_not_serialized :
  let algo := JNum enums.publicKey.pqc_mlkem_x25519 in
  let priv := [("eccSecretKey", PBytes (repeat 11 32)); ("mlkemSeed", PUndefined);
               ("mlkemSecretKey", PBytes (repeat 16 64 ++ repeat 16 64)%list)]%string in
  let pub := [("eccPublicKey", PBytes (repeat 10 32));
              ("mlkemPublicKey", PBytes (repeat 15 1184))]%string in
  Crypto.generateParams Reference.P algo 0 EmptyString JNull = Ok (priv, pub)
  /\ Crypto.serializeParams Reference.P algo priv
     = Throw (TypeError "Cannot read properties of undefined (reading 'write')")
  /\ ~ Contracts.privateRoundTrip Reference.P algo priv pub.
Proof.
  intros algo priv pub. split; [reflexivity|]. split; [reflexivity|].
  intros (serialized & priv' & Hser & _). discriminate Hser.
Qed.

(** An HMAC key of 64 octets for SHA-256, whose digests have 32: the
    parser takes the seed and 32 octets of the 64 that were written. *)
Lemma hmac_longer_key_is_not_read_back :
  let algo := JNum enums.publicKey.hmac in
  let symmetric := JNum enums.hash.sha256 in
  let priv := [("hashSeed", PBytes (repeat 26 32));
               ("keyMaterial", PBytes (repeat 12 64))]%string in
  let pub := [("cipher", PEnum symmetric);
              ("digest", PBytes (SHA3.sha3_256 (0 :: repeat 26 32)))]%string in
  Crypto.generateParams Reference.P algo 0 EmptyString symmetric = Ok (priv, pub)
  /\ Crypto.serializeParams Reference.P algo priv = Ok (repeat 26 32 ++ repeat 12 64)
  /\ Crypto.parsePrivateKeyParams Reference.P algo (repeat 26 32 ++ repeat 12 64) pub
     = Ok (64, [("hashSeed", PBytes (repeat 26 32));
                ("keyMaterial", PBytes (repeat 12 32))]%string)
  /\ ~ Contracts.privateRoundTrip Reference.P algo priv pub.
Proof.
  intros algo symmetric priv pub.
  assert (Hser : Crypto.serializeParams Reference.P algo priv
                 = Ok (repeat 26 32 ++ repeat 12 64)) by reflexivity.
  assert (Hparse : Crypto.parsePrivateKeyParams Reference.P algo
                     (repeat 26 32 ++ repeat 12 64) pub
                   = Ok (64, [("hashSeed", PBytes (repeat 26 32));
                              ("keyMaterial", PBytes (repeat 12 32))]%string))
    by reflexivity.
  split; [reflexivity|]. split; [exact Hser|]. split; [exact Hparse|].
  intros (serialized & priv' & Hser' & H & _).
  assert (E : Ok (repeat 26 32 ++ repeat 12 64) = Ok serialized)
    by exact (eq_trans (eq_sym Hser) Hser').
  assert (E' : serialized = repeat 26 32 ++ repeat 12 64) by congruence.
  subst serialized. rewrite Hparse in H. discriminate H.
Qed.

(** ** The message grammar *)

Section GrammarShapes.
Import Grammar.

(** *** Indices and slices *)

Lemma slice_tail (x : Z) (m : list Z) : slice (x :: m) 1 None = m.
Proof.
  unfold slice. rewrite subarray_from_nonneg.
  - reflexivity.
  - rewrite len_cons. pose proof (len_nonneg m). lia.
Qed.

Lemma slice_inner (x : Z) (q : list Z) (i : Z) :
  1 <= i <= len (x :: q) -> slice (x :: q) 1 (Some i) = firstn (Z.to_nat (i - 1)) q.
Proof.
  intros Hi. unfold slice. rewrite subarray_range by lia. reflexivity.
Qed.

Lemma slice_front (l : list Z) (i : Z) :
  0 <= i <= len l -> slice l 0 (Some i) = firstn (Z.to_nat i) l.
Proof. intros Hi. unfold slice. now apply subarray_prefix. Qed.

Lemma slice_shorter (l : list Z) (e : option Z) :
  l <> [] -> (List.length (slice l 1 e) < List.length l)%nat.
Proof.
  intros Hl. destruct l as [|x m]; [congruence|].
  assert (Hle : forall k, (List.length (firstn k (skipn 1 (x :: m))) < List.length (x :: m))%nat).
  { intros k. rewrite length_firstn. simpl. lia. }
  pose proof (len_nonneg m) as Hm.
  assert (Hc : Uint8Array.clamp (len (x :: m)) 1 = 1).
  { unfold Uint8Array.clamp. rewrite len_cons. destruct (1 <? 0) eqn:E; lia. }
  destruct e as [e|]; unfold slice, Uint8Array.subarray_from, Uint8Array.subarray;
    rewrite Hc; apply Hle.
Qed.

Lemma findIndex_range (f : Z -> bool) (l : list Z) :
  -1 <= findIndex f l < len l \/ (l = [] /\ findIndex f l = -1).
Proof.
  induction l as [|x l IH]; [now right|]. left. simpl. rewrite len_cons.
  pose proof (len_nonneg l). destruct (f x); [lia|].
  destruct (findIndex f l <? 0) eqn:E; [lia|].
  destruct IH as [IH|[-> IH]]; [lia|]. simpl in E. discriminate.
Qed.

Lemma findIndex_none (f : Z -> bool) (l : list Z) :
  findIndex f l < 0 <-> forallb (fun x => negb (f x)) l = true.
Proof.
  induction l as [|x l IH]; simpl.
  - split; [reflexivity|lia].
  - destruct (f x); simpl.
    + split; [lia|discriminate].
    + destruct (findIndex f l <? 0) eqn:E.
      * apply Z.ltb_lt in E. split; [intros _; now apply IH|lia].
      * apply Z.ltb_ge in E. split; [lia|]. intros H. apply IH in H. lia.
Qed.

Lemma findIndex_head (f : Z -> bool) (l : list Z) :
  findIndex f l = 0 <-> exists x m, l = x :: m /\ f x = true.
Proof.
  split.
  - destruct l as [|x m]; simpl; [lia|]. destruct (f x) eqn:E.
    + intros _. now exists x, m.
    + destruct (findIndex f m <? 0) eqn:E'; [lia|]. apply Z.ltb_ge in E'. lia.
  - intros [x [m [-> H]]]. simpl. now rewrite H.
Qed.

Lemma findIndex_at (f : Z -> bool) (pre : list Z) (x : Z) (post : list Z) :
  forallb (fun y => negb (f y)) pre = true -> f x = true ->
  findIndex f (pre ++ x :: post) = len pre.
Proof.
  intros Hpre Hx. induction pre as [|y pre IH]; simpl.
  - now rewrite Hx.
  - simpl in Hpre. apply andb_true_iff in Hpre as [Hy Hpre].
    apply negb_true_iff in Hy. rewrite Hy, (IH Hpre).
    pose proof (len_nonneg pre). destruct (len pre <? 0) eqn:E; [lia|].
    rewrite len_cons. lia.
Qed.

Lemma findIndex_split (f : Z -> bool) (l : list Z) :
  0 <= findIndex f l ->
  exists pre x post,
    l = pre ++ x :: post /\ len pre = findIndex f l
    /\ f x = true /\ forallb (fun y => negb (f y)) pre = true.
Proof.
  induction l as [|y l IH]; simpl; [lia|]. destruct (f y) eqn:E.
  - intros _. now exists [], y, l.
  - destruct (findIndex f l <? 0) eqn:E'; [lia|]. apply Z.ltb_ge in E'.
    intros _. destruct (IH E') as [pre [x [post [-> [Hlen [Hx Hpre]]]]]].
    exists (y :: pre), x, post. simpl. rewrite E, Hpre, len_cons.
    repeat split; auto. lia.
Qed.

Lemma findLastIndex_range (f : Z -> bool) (l : list Z) :
  -1 <= findLastIndex l f /\ findLastIndex l f <= len l - 1.
Proof.
  induction l as [|x l IH]; cbn [findLastIndex]; [unfold len; simpl; lia|].
  rewrite len_cons. pose proof (len_nonneg l).
  destruct (0 <=? findLastIndex l f) eqn:E; [lia|]. destruct (f x); lia.
Qed.

Lemma findLastIndex_none (f : Z -> bool) (l : list Z) :
  findLastIndex l f < 0 -> forallb (fun x => negb (f x)) l = true.
Proof.
  induction l as [|x l IH]; simpl; [reflexivity|].
  destruct (0 <=? findLastIndex l f) eqn:E.
  - apply Z.leb_le in E. lia.
  - apply Z.leb_gt in E. destruct (f x); [lia|]. intros _. simpl. now apply IH.
Qed.

Lemma findLastIndex_last (f : Z -> bool) (m : list Z) (x : Z) :
  f x = true -> findLastIndex (m ++ [x]) f = len m.
Proof.
  intros Hx. induction m as [|y m IH]; simpl.
  - now rewrite Hx.
  - rewrite IH. pose proof (len_nonneg m). destruct (0 <=? len m) eqn:E; [|lia].
    rewrite len_cons. lia.
Qed.

Lemma findLastIndex_is_last (f : Z -> bool) (l : list Z) :
  l <> [] -> findLastIndex l f = len l - 1 ->
  exists m x, l = m ++ [x] /\ f x = true.
Proof.
  induction l as [|y l IH]; [congruence|]. intros _. cbn [findLastIndex]. rewrite len_cons.
  destruct (0 <=? findLastIndex l f) eqn:E.
  - intros H. destruct l as [|z l'].
    + simpl in E. discriminate.
    + destruct IH as [m [x [Hl Hx]]]; [congruence|lia|].
      exists (y :: m), x. rewrite Hl. now split.
  - apply Z.leb_gt in E. pose proof (findLastIndex_range f l) as Hr.
    pose proof (len_nonneg l). destruct (f y) eqn:Ey; [|lia].
    intros Hlast. assert (Hl : l = []).
    { destruct l; [reflexivity|]. rewrite len_cons in Hlast.
      pose proof (len_nonneg l). lia. }
    subst l. now exists [], y.
Qed.

(** *** The recursion returns *)

Lemma normalize_length (l : list Z) :
  (List.length (normalize l) <= List.length l)%nat.
Proof. apply filter_length_le. Qed.

Lemma normalize_idempotent (l : list Z) : normalize (normalize l) = normalize l.
Proof.
  unfold normalize. induction l as [|x l IH]; simpl; [reflexivity|].
  destruct (significant x) eqn:E; simpl; [rewrite E; now f_equal|assumption].
Qed.

Lemma normalize_significant (l : list Z) :
  Forall (fun t => significant t = true) (normalize l).
Proof. apply Forall_forall. intros t Ht. now apply filter_In in Ht. Qed.

Lemma normalize_id (l : list Z) :
  Forall (fun t => significant t = true) l -> normalize l = l.
Proof.
  unfold normalize. induction 1 as [|x l Hx _ IH]; simpl; [reflexivity|].
  rewrite Hx. now f_equal.
Qed.

Lemma normalize_app (a b : list Z) : normalize (a ++ b) = normalize a ++ normalize b.
Proof. apply filter_app. Qed.

Lemma signed_head (f : list Z -> bool -> option bool) (n : list Z) (p : bool) :
  n = [] -> isValidSignedMessage f n p = Some false.
Proof. intros ->. reflexivity. Qed.

Lemma signed_calls (f g : list Z -> bool -> option bool) (n : list Z) (p : bool) :
  (forall e, n <> [] -> f (slice n 1 e) p = g (slice n 1 e) p) ->
  isValidSignedMessage f n p = isValidSignedMessage g n p.
Proof.
  intros H. destruct n as [|x m]; [reflexivity|].
  unfold isValidSignedMessage.
  destruct (findIndex _ (x :: m) =? 0); [apply H; congruence|].
  destruct (findIndex _ (x :: m) =? 0); [|reflexivity].
  destruct (_ && _); [reflexivity|]. apply H. congruence.
Qed.

Lemma upto_mono (d : nat) : forall (l : list Z) (p b : bool) (d' : nat),
  isValidOpenPGPMessage_upto d l p = Some b -> (d <= d')%nat ->
  isValidOpenPGPMessage_upto d' l p = Some b.
Proof.
  induction d as [|d IH]; intros l p b d' H Hd; [discriminate|].
  destruct d' as [|d']; [lia|]. simpl in *.
  destruct (isValidLiteralMessage _ _); [assumption|].
  destruct (isValidCompressedMessage _ _); [assumption|].
  destruct (isValidEncryptedMessage _ _); [assumption|].
  unfold isValidSignedMessage in *.
  destruct (findIndex _ (normalize l) =? 0); [apply (IH _ _ _ _ H); lia|].
  destruct (findIndex _ (normalize l) =? 0); [|assumption].
  destruct (_ && _); [assumption|]. apply (IH _ _ _ _ H); lia.
Qed.

Lemma upto_total (d : nat) : forall (l : list Z) (p : bool),
  (List.length l < d)%nat -> exists b, isValidOpenPGPMessage_upto d l p = Some b.
Proof.
  induction d as [|d IH]; intros l p Hd; [lia|]. simpl.
  destruct (isValidLiteralMessage _ _); [eauto|].
  destruct (isValidCompressedMessage _ _); [eauto|].
  destruct (isValidEncryptedMessage _ _); [eauto|].
  pose proof (normalize_length l) as Hn.
  destruct (normalize l) as [|x m] eqn:En; [now exists false|].
  assert (Hs : forall e, (List.length (slice (x :: m) 1 e) < d)%nat).
  { intros e. pose proof (slice_shorter (x :: m) e). simpl in *.
    assert (x :: m <> []) by congruence. intuition lia. }
  unfold isValidSignedMessage.
  destruct (findIndex _ (x :: m) =? 0); [apply IH, Hs|].
  destruct (findIndex _ (x :: m) =? 0); [|eauto].
  destruct (_ && _); [eauto|]. apply IH, Hs.
Qed.

(** [isValidOpenPGPMessage] returns a verdict on every list. *)
Lemma isValidOpenPGPMessage_returns (l : list Z) (p : bool) :
  exists b, isValidOpenPGPMessage l p = Some b.
Proof. apply upto_total. lia. Qed.

(** The body of [isValidOpenPGPMessage], with the recursive calls made
    to [isValidOpenPGPMessage] itself. *)
Lemma isValidOpenPGPMessage_unfold (l : list Z) (p : bool) :
  isValidOpenPGPMessage l p =
  let normalizedList := normalize l in
  if isValidLiteralMessage normalizedList p then Some true
  else if isValidCompressedMessage normalizedList p then Some true
  else if isValidEncryptedMessage normalizedList p then Some true
  else isValidSignedMessage isValidOpenPGPMessage normalizedList p.
Proof.
  unfold isValidOpenPGPMessage at 1. simpl.
  destruct (isValidLiteralMessage _ _); [reflexivity|].
  destruct (isValidCompressedMessage _ _); [reflexivity|].
  destruct (isValidEncryptedMessage _ _); [reflexivity|].
  apply signed_calls. intros e Hne.
  pose proof (slice_shorter (normalize l) e Hne) as Hs.
  pose proof (normalize_length l) as Hn.
  destruct (isValidOpenPGPMessage_returns (slice (normalize l) 1 e) p) as [b Hb].
  rewrite Hb. apply (upto_mono _ _ _ _ _ Hb). lia.
Qed.

Lemma isValidOpenPGPMessage_normalize (l : list Z) (p : bool) :
  isValidOpenPGPMessage (normalize l) p = isValidOpenPGPMessage l p.
Proof.
  rewrite (isValidOpenPGPMessage_unfold l), (isValidOpenPGPMessage_unfold (normalize l)).
  now rewrite normalize_idempotent.
Qed.

Lemma valid_if_encrypted (n : list Z) (p : bool) :
  Forall (fun t => significant t = true) n ->
  isValidEncryptedMessage n p = true -> isValidOpenPGPMessage n p = Some true.
Proof.
  intros Hn H. rewrite isValidOpenPGPMessage_unfold. cbv zeta.
  rewrite (normalize_id n Hn), H.
  destruct (isValidLiteralMessage _ _); [reflexivity|].
  now destruct (isValidCompressedMessage _ _).
Qed.

Lemma valid_if_signed (n : list Z) (p : bool) :
  Forall (fun t => significant t = true) n ->
  isValidSignedMessage isValidOpenPGPMessage n p = Some true ->
  isValidOpenPGPMessage n p = Some true.
Proof.
  intros Hn H. rewrite isValidOpenPGPMessage_unfold. cbv zeta.
  rewrite (normalize_id n Hn), H.
  destruct (isValidLiteralMessage _ _); [reflexivity|].
  destruct (isValidCompressedMessage _ _); [reflexivity|].
  now destruct (isValidEncryptedMessage _ _).
Qed.

(** *** The tags of the grammar *)

Lemma has_In (set : list Z) (tag : Z) : has set tag = true <-> In tag set.
Proof.
  unfold has. rewrite existsb_exists. split.
  - intros [x [Hin Heq]]. apply Z.eqb_eq in Heq. now subst.
  - intros Hin. exists tag. split; [assumption|apply Z.eqb_refl].
Qed.

Lemma isESK_has (tag : Z) :
  isESK tag <->
  has [PacketTag.publicKeyEncryptedSessionKey; PacketTag.symEncryptedSessionKey] tag = true.
Proof. rewrite has_In. unfold isESK. simpl. intuition congruence. Qed.

Lemma isEncryptedData_has (tag : Z) :
  isEncryptedData tag <->
  has [PacketTag.aeadEncryptedData; PacketTag.symmetricallyEncryptedData;
       PacketTag.symEncryptedIntegrityProtectedData] tag = true.
Proof. rewrite has_In. unfold isEncryptedData. simpl. intuition congruence. Qed.

Lemma isESK_forallb (n : list Z) :
  Forall isESK n <-> isValidESKSequence n false = true.
Proof.
  unfold isValidESKSequence. rewrite forallb_forall, Forall_forall.
  split; intros H x Hx; apply isESK_has; auto.
Qed.

Lemma isESK_not_data (n : list Z) :
  Forall isESK n ->
  forallb
    (fun t =>
       negb (has [PacketTag.aeadEncryptedData; PacketTag.symmetricallyEncryptedData;
                  PacketTag.symEncryptedIntegrityProtectedData] t)) n = true.
Proof.
  intros H. apply forallb_forall. intros x Hx.
  rewrite Forall_forall in H. destruct (H x Hx) as [-> | ->]; reflexivity.
Qed.

Lemma isESK_significant (n : list Z) :
  Forall isESK n -> Forall (fun t => significant t = true) n.
Proof. apply Forall_impl. intros t [-> | ->]; reflexivity. Qed.

Lemma prefix_Forall {A : Type} (P : A -> Prop) (k : nat) (l : list A) :
  Forall P l -> Forall P (firstn k l).
Proof.
  intros H. rewrite <- (firstn_skipn k l) in H. now apply Forall_app in H.
Qed.

Lemma Message_significant (n : list Z) :
  Message n -> Forall (fun t => significant t = true) n.
Proof.
  induction 1 as [| |esks H|esks data H Hd|m _ IH|m _ IH].
  - now repeat constructor.
  - now repeat constructor.
  - now apply isESK_significant.
  - apply Forall_app. split; [now apply isESK_significant|].
    constructor; [|constructor]. destruct Hd as [-> | [-> | ->]]; reflexivity.
  - now constructor.
  - constructor; [reflexivity|]. apply Forall_app. split; [assumption|].
    now repeat constructor.
Qed.

(** *** Encrypted messages *)

Lemma encrypted_of_esks (n : list Z) (p : bool) :
  Forall isESK n -> isValidEncryptedMessage n p = true.
Proof.
  intros H. unfold isValidEncryptedMessage. cbv zeta.
  pose proof (proj2 (findIndex_none _ n) (isESK_not_data n H)) as Hi.
  apply Z.ltb_lt in Hi. rewrite Hi. now apply isESK_forallb.
Qed.

Lemma encrypted_of_data (esks : list Z) (data : Z) (p : bool) :
  Forall isESK esks -> isEncryptedData data ->
  isValidEncryptedMessage (esks ++ [data]) p = true.
Proof.
  intros H Hd. unfold isValidEncryptedMessage. cbv zeta.
  rewrite (findIndex_at _ esks data []);
    [|now apply isESK_not_data|now apply isEncryptedData_has].
  pose proof (len_nonneg esks) as Hn.
  destruct (len esks <? 0) eqn:E; [lia|].
  rewrite len_app. change (len [data]) with 1.
  replace (len esks + 1 - 1) with (len esks) by lia. rewrite Z.eqb_refl.
  rewrite slice_front by (rewrite len_app; change (len [data]) with 1; lia).
  unfold len. rewrite Nat2Z.id, firstn_app, firstn_all, Nat.sub_diag. simpl.
  rewrite app_nil_r. now apply isESK_forallb.
Qed.

Lemma encrypted_shapes (n : list Z) (p : bool) :
  isValidEncryptedMessage n p = true ->
  Forall isESK n
  \/ exists esks data, n = esks ++ [data] /\ Forall isESK esks /\ isEncryptedData data.
Proof.
  unfold isValidEncryptedMessage. cbv zeta.
  destruct (findIndex _ n <? 0) eqn:E.
  - intros H. left. now apply isESK_forallb.
  - apply Z.ltb_ge in E. intros H. right.
    apply andb_true_iff in H as [Hlast Hesks]. apply Z.eqb_eq in Hlast.
    destruct (findIndex_split _ n E) as [pre [x [post [Hn [Hlen [Hx _]]]]]].
    assert (Hpost : post = []).
    { rewrite <- Hlen in Hlast. rewrite Hn, len_app, len_cons in Hlast.
      destruct post; [reflexivity|]. rewrite len_cons in Hlast.
      pose proof (len_nonneg post). lia. }
    subst post. exists pre, x. split; [assumption|]. split.
    + rewrite <- Hlen in Hesks. rewrite slice_front in Hesks.
      * rewrite Hn in Hesks. unfold len in Hesks.
        rewrite Nat2Z.id, firstn_app, firstn_all, Nat.sub_diag in Hesks.
        simpl in Hesks. rewrite app_nil_r in Hesks. now apply isESK_forallb.
      * rewrite Hn, len_app. pose proof (len_nonneg pre). change (len [x]) with 1. lia.
    + now apply isEncryptedData_has.
Qed.

Lemma literal_shape (n : list Z) (p : bool) :
  isValidLiteralMessage n p = true -> n = [PacketTag.literalData].
Proof.
  unfold isValidLiteralMessage. intros H. apply andb_true_iff in H as [Hl Hx].
  apply Z.eqb_eq in Hl. destruct n as [|x [|y r]].
  - discriminate.
  - rewrite get_cons_0 in Hx. apply strict_eq_true in Hx. congruence.
  - rewrite !len_cons in Hl. pose proof (len_nonneg r). lia.
Qed.

Lemma compressed_shape (n : list Z) (p : bool) :
  isValidCompressedMessage n p = true -> n = [PacketTag.compressedData].
Proof.
  unfold isValidCompressedMessage. intros H. apply andb_true_iff in H as [Hl Hx].
  apply Z.eqb_eq in Hl. destruct n as [|x [|y r]].
  - discriminate.
  - rewrite get_cons_0 in Hx. apply strict_eq_true in Hx. congruence.
  - rewrite !len_cons in Hl. pose proof (len_nonneg r). lia.
Qed.

(** *** Complete messages *)

Lemma complete_is_Message (k : nat) : forall n : list Z,
  (List.length n <= k)%nat ->
  Forall (fun t => significant t = true) n ->
  isValidOpenPGPMessage n false = Some true -> Message n.
Proof.
  induction k as [|k IH]; intros n Hk Hn.
  - destruct n; [|simpl in Hk; lia]. intros _. apply ESKSequence. constructor.
  - rewrite isValidOpenPGPMessage_unfold. cbv zeta. rewrite (normalize_id n Hn).
    destruct (isValidLiteralMessage n false) eqn:El.
    { intros _. rewrite (literal_shape _ _ El). constructor. }
    destruct (isValidCompressedMessage n false) eqn:Ec.
    { intros _. rewrite (compressed_shape _ _ Ec). constructor. }
    destruct (isValidEncryptedMessage n false) eqn:Ee.
    { intros _. destruct (encrypted_shapes _ _ Ee) as [H|[esks [data [-> [H Hd]]]]];
        now constructor. }
    unfold isValidSignedMessage.
    destruct (findIndex _ n =? 0) eqn:Es.
    { apply Z.eqb_eq, findIndex_head in Es. destruct Es as [x [m [-> Hx]]].
      apply Z.eqb_eq in Hx. subst x. rewrite slice_tail. intros H.
      apply Signed. apply IH; [simpl in Hk; lia|now inversion Hn|assumption]. }
    clear Es.
    destruct (findIndex _ n =? 0) eqn:Eo; [|intros Hf; discriminate Hf].
    apply Z.eqb_eq, findIndex_head in Eo. destruct Eo as [x [q [-> Hx]]].
    apply Z.eqb_eq in Hx. subst x. cbn [negb]. rewrite andb_true_r.
    destruct (findLastIndex _ _ =? _) eqn:Elast; cbn [negb];
      [|intros Hf; discriminate Hf].
    apply Z.eqb_eq in Elast.
    assert (Hne : PacketTag.onePassSignature :: q <> []) by discriminate.
    destruct (findLastIndex_is_last _ _ Hne Elast) as [m' [x [Hm Hx]]].
    apply Z.eqb_eq in Hx. subst x.
    destruct m' as [|y m];
      [simpl in Hm; injection Hm as Hm' _; vm_compute in Hm'; discriminate Hm'|].
    injection Hm as <- ->.
    rewrite Elast. rewrite !len_cons, len_app. change (len [PacketTag.signature]) with 1.
    pose proof (len_nonneg m) as Hlen.
    destruct (1 + (len m + 1) - 1 <? 0) eqn:E; [lia|].
    rewrite slice_inner
      by (rewrite len_cons, len_app; change (len [PacketTag.signature]) with 1; lia).
    replace (1 + (len m + 1) - 1 - 1) with (len m) by lia.
    unfold len. rewrite Nat2Z.id, firstn_app, firstn_all, Nat.sub_diag. simpl.
    rewrite app_nil_r. intros H. apply OnePassSigned. apply IH; [| |assumption].
    + simpl in Hk. rewrite length_app in Hk. lia.
    + inversion Hn as [|? ? _ Hq]. now apply Forall_app in Hq.
Qed.

Lemma Message_is_complete (n : list Z) :
  Message n -> isValidOpenPGPMessage n false = Some true.
Proof.
  induction 1 as [| |esks H|esks data H Hd|m Hm IH|m Hm IH].
  - reflexivity.
  - reflexivity.
  - apply valid_if_encrypted; [now apply isESK_significant|now apply encrypted_of_esks].
  - apply valid_if_encrypted; [|now apply encrypted_of_data].
    apply Message_significant. now constructor.
  - apply valid_if_signed; [apply Message_significant; now constructor|].
    unfold isValidSignedMessage. cbn [findIndex]. rewrite Z.eqb_refl.
    cbn [Z.eqb]. now rewrite slice_tail.
  - apply valid_if_signed; [apply Message_significant; now constructor|].
    unfold isValidSignedMessage.
    pose proof (len_nonneg m) as Hlen.
    assert (Hh : (findIndex (fun tag => tag =? PacketTag.signature)
                    (PacketTag.onePassSignature :: m ++ [PacketTag.signature]) =? 0)
                 = false).
    { cbn [findIndex]. change (PacketTag.onePassSignature =? PacketTag.signature) with false.
      cbv iota zeta. destruct (findIndex _ _ <? 0) eqn:E'; [reflexivity|].
      apply Z.ltb_ge in E'. apply Z.eqb_neq. lia. }
    assert (Ho : (findIndex (fun tag => tag =? PacketTag.onePassSignature)
                    (PacketTag.onePassSignature :: m ++ [PacketTag.signature]) =? 0)
                 = true).
    { cbn [findIndex]. now rewrite Z.eqb_refl. }
    assert (Hl : findLastIndex (PacketTag.onePassSignature :: m ++ [PacketTag.signature])
                   (fun tag => tag =? PacketTag.signature)
                 = len (PacketTag.onePassSignature :: m ++ [PacketTag.signature]) - 1).
    { change (PacketTag.onePassSignature :: m ++ [PacketTag.signature])
        with ((PacketTag.onePassSignature :: m) ++ [PacketTag.signature]).
      rewrite findLastIndex_last by reflexivity.
      rewrite len_app. change (len [PacketTag.signature]) with 1. lia. }
    assert (Hlen' : len (PacketTag.onePassSignature :: m ++ [PacketTag.signature])
                    = len m + 2).
    { rewrite len_cons, len_app. change (len [PacketTag.signature]) with 1. lia. }
    rewrite Hh, Ho, Hl, Z.eqb_refl. cbn [negb andb].
    destruct (_ <? 0) eqn:E; [lia|].
    rewrite slice_inner by lia. rewrite Hlen'.
    replace (len m + 2 - 1 - 1) with (len m) by lia.
    unfold len. rewrite Nat2Z.id, firstn_app, firstn_all, Nat.sub_diag. simpl.
    rewrite app_nil_r. exact IH.
Qed.

(** X1.  Marker packets, Padding packets and packets with an unknown tag
    are ignored wherever they stand: inserting or removing one does not
    change the verdict of [isValidOpenPGPMessage]. *)
Theorem grammar_ignores_marker_padding_unknown
  (before after : list Z) (tag : Z) (acceptPartial : bool) :
  tag = PacketTag.marker \/ tag = PacketTag.padding \/ isUnknownPacketTag tag = true ->
  isValidOpenPGPMessage (before ++ tag :: after) acceptPartial
  = isValidOpenPGPMessage (before ++ after) acceptPartial.
Proof.
  intros Htag.
  assert (Hs : significant tag = false).
  { unfold significant. destruct Htag as [-> | [-> | H]]; [reflexivity|reflexivity|].
    rewrite H. now rewrite andb_false_r. }
  rewrite <- (isValidOpenPGPMessage_normalize (before ++ tag :: after)).
  rewrite <- (isValidOpenPGPMessage_normalize (before ++ after)).
  rewrite !normalize_app. unfold normalize at 2. cbn [filter]. now rewrite Hs.
Qed.

Lemma grammar_ignores_marker_padding_unknown_witness :
  isUnknownPacketTag 63 = true
  /\ isValidOpenPGPMessage
       ([PacketTag.onePassSignature] ++ 63 :: [PacketTag.literalData; PacketTag.signature])
       false
     = isValidOpenPGPMessage
         ([PacketTag.onePassSignature] ++ [PacketTag.literalData; PacketTag.signature])
         false.
Proof.
  split; [reflexivity|].
  apply (grammar_ignores_marker_padding_unknown
           [PacketTag.onePassSignature] [PacketTag.literalData; PacketTag.signature]
           63 false).
  right. right. reflexivity.
Defined.

(** X2.  On a completely parsed message, [isValidOpenPGPMessage] accepts
    exactly the sequences that, once the ignored tags are removed, are a
    literal or a compressed packet, a possibly empty run of session-key
    packets alone or followed by one encrypted-data packet, a signature
    packet followed by a message, or a one-pass signature, a message and
    a closing signature; and it rejects every other sequence. *)
Theorem grammar_complete_message_shapes (tags : list Z) :
  (isValidOpenPGPMessage tags false = Some true <-> Message (normalize tags))
  /\ (isValidOpenPGPMessage tags false = Some false <-> ~ Message (normalize tags)).
Proof.
  assert (Hiff : isValidOpenPGPMessage tags false = Some true <-> Message (normalize tags)).
  { rewrite <- isValidOpenPGPMessage_normalize. split.
    - apply (complete_is_Message (List.length (normalize tags)));
        [lia|apply normalize_significant].
    - apply Message_is_complete. }
  split; [assumption|].
  destruct (isValidOpenPGPMessage_returns tags false) as [[|] Hb]; rewrite Hb.
  - split; [discriminate|]. intros H. exfalso. apply H. now apply Hiff.
  - split; [|reflexivity]. intros _ H. apply Hiff in H. congruence.
Qed.

End GrammarShapes.

Section GrammarValidators.
Import Grammar.

(** *** Partially parsed messages *)

Lemma filter_firstn {A : Type} (f : A -> bool) (l : list A) : forall k : nat,
  exists k', filter f (firstn k l) = firstn k' (filter f l).
Proof.
  induction l as [|a l IH]; intros k.
  - exists O. now rewrite firstn_nil.
  - destruct k as [|k]; [now exists O|]. simpl. destruct (IH k) as [k' Hk'].
    destruct (f a).
    + exists (S k'). simpl. now f_equal.
    + now exists k'.
Qed.

Lemma signature_not_first (q : list Z) :
  (findIndex (fun tag => tag =? PacketTag.signature) (PacketTag.onePassSignature :: q) =? 0)
  = false.
Proof.
  cbn [findIndex]. change (PacketTag.onePassSignature =? PacketTag.signature) with false.
  cbv iota zeta. destruct (findIndex _ _ <? 0) eqn:E; [reflexivity|].
  apply Z.ltb_ge in E. apply Z.eqb_neq. lia.
Qed.

Lemma onePassSignature_first (q : list Z) :
  (findIndex (fun tag => tag =? PacketTag.onePassSignature)
     (PacketTag.onePassSignature :: q) =? 0) = true.
Proof. cbn [findIndex]. now rewrite Z.eqb_refl. Qed.

Lemma firstn_within {A : Type} (j : nat) (m tail : list A) :
  (j <= List.length m)%nat -> firstn j (m ++ tail) = firstn j m.
Proof.
  intros Hj. rewrite firstn_app. replace (j - List.length m)%nat with O by lia.
  simpl. apply app_nil_r.
Qed.

Lemma Message_prefix (n : list Z) :
  Message n -> forall k : nat, isValidOpenPGPMessage (firstn k n) true = Some true.
Proof.
  induction 1 as [| |esks H|esks data H Hd|m Hm IH|m Hm IH]; intros k.
  - destruct k as [|[|k]]; reflexivity.
  - destruct k as [|[|k]]; reflexivity.
  - assert (Hp : Forall isESK (firstn k esks)) by now apply prefix_Forall.
    apply valid_if_encrypted; [now apply isESK_significant|now apply encrypted_of_esks].
  - destruct (Nat.le_gt_cases k (List.length esks)) as [Hk|Hk].
    + rewrite firstn_within by assumption.
      assert (Hp : Forall isESK (firstn k esks)) by now apply prefix_Forall.
      apply valid_if_encrypted; [now apply isESK_significant|now apply encrypted_of_esks].
    + rewrite firstn_all2 by (rewrite length_app; simpl; lia).
      apply valid_if_encrypted; [|now apply encrypted_of_data].
      apply Message_significant. now constructor.
  - destruct k as [|k]; [reflexivity|]. cbn [firstn].
    apply valid_if_signed.
    + apply (prefix_Forall _ (S k) (PacketTag.signature :: m)).
      apply Message_significant. now constructor.
    + unfold isValidSignedMessage. cbn [findIndex]. rewrite Z.eqb_refl.
      cbn [Z.eqb]. rewrite slice_tail. apply IH.
  - destruct k as [|k]; [reflexivity|]. cbn [firstn].
    set (q := firstn k (m ++ [PacketTag.signature])).
    apply valid_if_signed.
    + apply (prefix_Forall _ (S k)
               (PacketTag.onePassSignature :: m ++ [PacketTag.signature])).
      apply Message_significant. now constructor.
    + unfold isValidSignedMessage.
      rewrite signature_not_first, onePassSignature_first.
      cbn [negb]. rewrite andb_false_r. cbn [findLastIndex].
      pose proof (findLastIndex_range (fun tag => tag =? PacketTag.signature) q) as Hr.
      assert (Hq : (List.length q <= List.length m + 1)%nat).
      { unfold q. rewrite length_firstn, length_app. simpl. lia. }
      destruct (0 <=? findLastIndex q _) eqn:E.
      * apply Z.leb_le in E.
        destruct (_ <? 0) eqn:E'; [lia|].
        rewrite slice_inner by (rewrite len_cons; lia).
        replace (findLastIndex q (fun tag => tag =? PacketTag.signature) + 1 - 1)
          with (findLastIndex q (fun tag => tag =? PacketTag.signature)) by lia.
        unfold q at 2. rewrite firstn_firstn.
        rewrite firstn_within; [apply IH|]. unfold len in Hr. lia.
      * apply Z.leb_gt in E.
        change (PacketTag.onePassSignature =? PacketTag.signature) with false.
        cbv iota. change (-1 <? 0) with true. cbv iota. rewrite slice_tail.
        destruct (Nat.le_gt_cases k (List.length m)) as [Hk|Hk].
        -- unfold q. rewrite firstn_within by assumption. apply IH.
        -- apply findLastIndex_none in E. unfold q in E.
           rewrite firstn_all2 in E by (rewrite length_app; simpl; lia).
           rewrite forallb_app in E. apply andb_true_iff in E as [_ E].
           cbn in E. discriminate E.
Qed.

(** X3.  A prefix of a valid complete message is a valid partial message:
    a message that passes the check once it is entirely parsed has
    passed it at every earlier point of the parsing. *)
Theorem grammar_partial_accepts_prefixes (tags : list Z) (k : nat) :
  isValidOpenPGPMessage tags false = Some true ->
  isValidOpenPGPMessage (firstn k tags) true = Some true.
Proof.
  intros H.
  assert (Hm : Message (normalize tags)).
  { rewrite <- isValidOpenPGPMessage_normalize in H.
    apply (complete_is_Message (List.length (normalize tags)));
      [lia|apply normalize_significant|assumption]. }
  rewrite <- isValidOpenPGPMessage_normalize.
  destruct (filter_firstn significant tags k) as [k' Hk'].
  unfold normalize at 1. rewrite Hk'. now apply Message_prefix.
Qed.

Lemma grammar_partial_accepts_prefixes_witness :
  isValidOpenPGPMessage
    [PacketTag.onePassSignature; PacketTag.marker; PacketTag.literalData;
     PacketTag.signature] false = Some true
  /\ isValidOpenPGPMessage
       (firstn 3
          [PacketTag.onePassSignature; PacketTag.marker; PacketTag.literalData;
           PacketTag.signature]) true = Some true.
Proof.
  split; [reflexivity|].
  apply (grammar_partial_accepts_prefixes
           [PacketTag.onePassSignature; PacketTag.marker; PacketTag.literalData;
            PacketTag.signature] 3).
  reflexivity.
Defined.

(** *** The validators *)

Lemma reports_app (a b : list event) : reports (a ++ b) = (reports a + reports b)%nat.
Proof. unfold reports. now rewrite filter_app, length_app. Qed.

Lemma quiet_app_noPrint (a b : list event) :
  noPrint a -> quietOnceLogged b -> quietOnceLogged (a ++ b).
Proof.
  intros Ha Hb. induction a as [|x a IH]; [exact Hb|].
  inversion Ha as [|? ? Hx Ha']; subst.
  intros before error after Heq. destruct before as [|y before].
  - cbn in Heq. injection Heq as -> _. contradiction.
  - cbn in Heq. injection Heq as _ Heq. exact (IH Ha' _ _ _ Heq).
Qed.

Lemma quiet_print (error : grammarError) : quietOnceLogged [DebugPrinted error].
Proof.
  intros before e after Heq. destruct before as [|y before].
  - now injection Heq as _ <-.
  - cbn in Heq. injection Heq as _ Heq. now destruct before.
Qed.

Lemma quiet_noPrint (a : list event) : noPrint a -> quietOnceLogged a.
Proof.
  intros Ha. rewrite <- (app_nil_r a). apply quiet_app_noPrint; [exact Ha|].
  intros before e after Heq. now destruct before.
Qed.

Lemma logging_nil (l : bool) : logging l l [].
Proof.
  split; [now intros ->|]. intros ->. left. repeat split. constructor.
Qed.

Lemma logging_app (l l1 l2 : bool) (e1 e2 : list event) :
  logging l l1 e1 -> logging l1 l2 e2 -> logging l l2 (e1 ++ e2).
Proof.
  intros [H1t H1f] [H2t H2f]. split.
  - intros Hl. destruct (H1t Hl) as [-> ->]. now destruct (H2t eq_refl) as [-> ->].
  - intros Hl. destruct (H1f Hl) as [(Hn & Hr & ->) | (rep & err & -> & Hn & Hr & ->)].
    + destruct (H2f eq_refl) as [(Hn2 & Hr2 & ->) | (rep & err & -> & Hn2 & Hr2 & ->)].
      * left. repeat split; [now apply Forall_app|].
        rewrite reports_app. lia.
      * right. exists (e1 ++ rep), err. rewrite app_assoc. repeat split.
        -- now apply Forall_app.
        -- rewrite reports_app. lia.
    + destruct (H2t eq_refl) as [-> ->]. right. exists rep, err.
      rewrite app_nil_r. now repeat split.
Qed.

Lemma logging_sound (l' : bool) (events : list event) :
  logging false l' events -> (reports events <= 1)%nat /\ quietOnceLogged events.
Proof.
  intros [_ H]. destruct (H eq_refl) as [(Hn & Hr & _) | (rep & err & -> & Hn & Hr & _)].
  - split; [lia|now apply quiet_noPrint].
  - split.
    + rewrite reports_app. unfold reports at 2. cbn. lia.
    + apply quiet_app_noPrint; [exact Hn|apply quiet_print].
Qed.

(** What [report] does: no event or one, and it throws exactly when the
    reporter does. *)
Lemma report_cases (config : Config) (error : grammarError) :
  (exists events, report config error = (events, Ok tt)
                  /\ noPrint events /\ (reports events <= 1)%nat
                  /\ forall reporter,
                       pluggableGrammarErrorReporter config = Some reporter ->
                       exists u, reporter error = Ok u)
  \/ (exists e reporter,
         report config error = ([ReportFailed error e], Throw e)
         /\ pluggableGrammarErrorReporter config = Some reporter
         /\ reporter error = Throw e).
Proof.
  unfold report. destruct (pluggableGrammarErrorReporter config) as [reporter|] eqn:Er.
  - destruct (reporter error) as [u|e] eqn:Ecall.
    + left. eexists. split; [reflexivity|]. repeat split.
      * repeat constructor.
      * unfold reports. cbn. lia.
      * intros r Hr. injection Hr as <-. now exists u.
    + right. exists e, reporter. now repeat split.
  - left. eexists. split; [reflexivity|]. repeat split.
    + constructor.
    + unfold reports. cbn. lia.
    + intros r Hr. discriminate Hr.
Qed.

(** One call of the synchronous validator with [enforceGrammar] off. *)
Lemma validator_unenforced (logged : bool) (tags : list Z) (acceptPartial : bool)
    (config : Config) :
  enforceGrammar config = false ->
  exists logged' events o,
    Sync.validator logged tags acceptPartial config = Some (logged', events, o)
    /\ (o = None \/ exists e, reporterThrew config tags e /\ o = Some (ThrownByReporter e))
    /\ logging logged logged' events.
Proof.
  intros He. unfold Sync.validator.
  destruct (isValidOpenPGPMessage_returns tags acceptPartial) as [b Hb]. rewrite Hb, He.
  destruct b.
  - eexists _, _, _. split; [reflexivity|]. split; [now left|apply logging_nil].
  - destruct logged; cbn [negb].
    + eexists _, _, _. split; [reflexivity|]. split; [now left|apply logging_nil].
    + destruct (report_cases config (GrammarError tags))
        as [(events & -> & Hn & Hr & _) | (e & reporter & -> & Hrep & Hcall)].
      * eexists _, _, _. split; [reflexivity|]. split; [now left|].
        split; [discriminate|]. intros _. right. now exists events, (GrammarError tags).
      * eexists _, _, _. split; [reflexivity|]. split.
        -- right. exists e. split; [now exists reporter|reflexivity].
        -- split; [discriminate|]. intros _. left. repeat split.
           repeat constructor.
Qed.

Lemma runSync_unenforced (calls : list (list Z * bool * Config)) : forall logged : bool,
  Forall (fun c => enforceGrammar (snd c) = false) calls ->
  exists logged' events outcomes,
    runSync logged calls = Some (logged', events, outcomes)
    /\ Forall2 (fun c o =>
                  o = None
                  \/ exists e, reporterThrew (snd c) (fst (fst c)) e
                               /\ o = Some (ThrownByReporter e))
         calls outcomes
    /\ logging logged logged' events.
Proof.
  induction calls as [|[[tags p] config] calls IH]; intros logged Hc.
  - exists logged, [], []. split; [reflexivity|]. split; [constructor|apply logging_nil].
  - inversion Hc as [|? ? He Hrest]; subst. cbn [snd] in He. cbn [runSync].
    destruct (validator_unenforced logged tags p config He)
      as (l1 & ev1 & o & -> & Ho & Hlog1).
    destruct (IH l1 Hrest) as (l' & ev & outs & -> & Houts & Hlog).
    eexists _, _, _. split; [reflexivity|]. split.
    + constructor; [exact Ho|exact Houts].
    + exact (logging_app _ _ _ _ _ Hlog1 Hlog).
Qed.

(** X4.  With [enforceGrammar] off, the synchronous validator never
    throws a [GrammarError]: a call returns, unless the reporter of the
    caller throws on the error of its list, and then the call throws
    what the reporter threw.  Over all the calls the reporter returns at
    most once, and once the error has been printed the validator neither
    reports nor prints again. *)
Theorem sync_validator_unenforced_throws_only_from_reporter
  (calls : list (list Z * bool * Config)) :
  Forall (fun c => enforceGrammar (snd c) = false) calls ->
  exists logged events outcomes,
    runSync Sync.init calls = Some (logged, events, outcomes)
    /\ Forall2 (fun c o =>
                  o = None
                  \/ exists e, reporterThrew (snd c) (fst (fst c)) e
                               /\ o = Some (ThrownByReporter e))
         calls outcomes
    /\ (reports events <= 1)%nat
    /\ quietOnceLogged events.
Proof.
  intros Hc.
  destruct (runSync_unenforced calls false Hc) as (l' & ev & outs & Hrun & Houts & Hlog).
  exists l', ev, outs. split; [exact Hrun|]. split; [exact Houts|].
  exact (logging_sound _ _ Hlog).
Qed.

Lemma sync_validator_unenforced_throws_only_from_reporter_witness :
  let failing := {| enforceGrammar := false;
                    pluggableGrammarErrorReporter :=
                      Some (fun _ => Throw (Error "reporter")) |} in
  let silent := {| enforceGrammar := false;
                   pluggableGrammarErrorReporter := Some (fun _ => Ok tt) |} in
  let calls := [([PacketTag.literalData; PacketTag.literalData], false, failing);
                ([PacketTag.compressedData; PacketTag.literalData], false, silent);
                ([PacketTag.compressedData; PacketTag.literalData], false, failing)] in
  exists logged events outcomes,
    runSync Sync.init calls = Some (logged, events, outcomes)
    /\ Forall2 (fun c o =>
                  o = None
                  \/ exists e, reporterThrew (snd c) (fst (fst c)) e
                               /\ o = Some (ThrownByReporter e))
         calls outcomes
    /\ (reports events <= 1)%nat
    /\ quietOnceLogged events.
Proof.
  intros failing silent calls.
  apply (sync_validator_unenforced_throws_only_from_reporter calls).
  repeat constructor.
Defined.

Import Async.

(** One call of [messageGrammarValidatorWithLatentReporting]. *)
Lemma validate_returns (s : state) (tags : list Z) (isPartial : bool) (config : Config) :
  exists s' events o,
    messageGrammarValidatorWithLatentReporting s tags isPartial config
    = Some (s', events, o)
    /\ authenticated s' = authenticated s
    /\ (o = verdict s'
        \/ exists e, reporterThrew config tags e /\ o = ReporterThrew e /\ s' = s)
    /\ (grammarCheckPromise s <> Pending ->
        grammarCheckPromise s' = grammarCheckPromise s)
    /\ logging (logged s) (logged s') events
    /\ (grammarCheckPromise s = Pending -> enforceGrammar config = true ->
        isValidOpenPGPMessage tags isPartial = Some false ->
        (logged s = false ->
         forall reporter, pluggableGrammarErrorReporter config = Some reporter ->
                          reporter (GrammarError tags) = Ok tt) ->
        grammarCheckPromise s' = Rejected (GrammarError tags)).
Proof.
  unfold messageGrammarValidatorWithLatentReporting.
  destruct (isValidOpenPGPMessage_returns tags isPartial) as [b Hb]. rewrite Hb.
  destruct b.
  - eexists _, _, _. split; [reflexivity|].
    destruct isPartial; cbn [negb]; repeat split; auto using logging_nil;
      try (intros _ _ H; discriminate H);
      try (cbn; destruct (grammarCheckPromise s); cbn; congruence).
    + apply logging_nil.
    + apply logging_nil.
  - unfold logOnce. destruct (logged s) eqn:El; cbn [negb].
    + eexists _, _, _. split; [reflexivity|].
      destruct (enforceGrammar config) eqn:Ee; [|destruct isPartial; cbn [negb]];
        repeat split; auto;
        try (cbn; destruct (grammarCheckPromise s); cbn; congruence);
        try (rewrite <- El at 1; apply logging_nil);
        try (intros _ H; discriminate H);
        try (intros Hp _ _ _; cbn; now rewrite Hp).
    + destruct (report_cases config (GrammarError tags))
        as [(events & -> & Hn & Hr & _) | (e & reporter & -> & Hrep & Hcall)].
      * eexists _, _, _. split; [reflexivity|].
        assert (Hlog : logging false true (events ++ [DebugPrinted (GrammarError tags)])).
        { split; [discriminate|]. intros _. right.
          now exists events, (GrammarError tags). }
        destruct (enforceGrammar config) eqn:Ee; [|destruct isPartial; cbn [negb]];
          repeat split; auto;
          try (cbn; destruct (grammarCheckPromise s); cbn; congruence);
          try (intros _ H; discriminate H);
          try (intros Hp _ _ _; cbn; now rewrite Hp);
          try (intros _; right; now exists events, (GrammarError tags)).
      * eexists _, _, _. split; [reflexivity|].
        split; [reflexivity|].
        split; [right; exists e; split; [now exists reporter|now split]|].
        split; [auto|].
        split.
        -- split; [discriminate|]. intros _. left. repeat split.
           ++ repeat constructor.
           ++ exact El.
        -- intros _ _ _ Hok. specialize (Hok eq_refl reporter Hrep).
           rewrite Hok in Hcall. discriminate Hcall.
Qed.

Lemma run_returns (calls : list call) : forall s : state,
  exists s' events outcomes,
    run s calls = Some (s', events, outcomes)
    /\ List.length outcomes = List.length calls
    /\ logging (logged s) (logged s') events
    /\ (grammarCheckPromise s <> Pending ->
        grammarCheckPromise s' = grammarCheckPromise s)
    /\ (authenticated s = true -> authenticated s' = true).
Proof.
  induction calls as [|c calls IH]; intros s.
  - exists s, [], []. split; [reflexivity|]. split; [reflexivity|].
    split; [apply logging_nil|]. split; auto.
  - destruct c as [|tags p config]; cbn [run].
    + unfold markAuthenticated.
      destruct (IH {| grammarCheckPromise := grammarCheckPromise s;
                      authenticated := true; logged := logged s |})
        as (s' & ev & outs & Hrun & Hlen & Hlog & Hpr & Hau).
      rewrite Hrun. eexists _, _, _. split; [reflexivity|].
      cbn in *. split; [now rewrite Hlen|]. split; [exact Hlog|]. split; auto.
    + destruct (validate_returns s tags p config)
        as (s1 & ev1 & o & Hv & Hau1 & Ho & Hpr1 & Hlog1 & _).
      rewrite Hv.
      destruct (IH s1) as (s' & ev & outs & Hrun & Hlen & Hlog & Hpr & Hau).
      rewrite Hrun. eexists _, _, _. split; [reflexivity|].
      split; [cbn; now rewrite Hlen|].
      split; [exact (logging_app _ _ _ _ _ Hlog1 Hlog)|].
      split.
      * intros Hs. rewrite Hpr; [now apply Hpr1|]. now rewrite (Hpr1 Hs).
      * intros Hs. apply Hau. now rewrite Hau1.
Qed.

(** X5.  Until [markAuthenticated] is called, the asynchronous validator
    gives no verdict: from a state that is not authenticated, a call of
    [messageGrammarValidatorWithLatentReporting] settles to [undefined],
    whatever the list and the configuration, unless the reporter of the
    caller throws on the error of the list, and then the call is
    rejected with what the reporter threw.  It never returns [true] or
    the rejection of the grammar check. *)
Theorem async_validator_no_verdict_until_authenticated
  (validations : list (list Z * bool * Config)) :
  forall s : state,
    authenticated s = false ->
    exists s' events outcomes,
      run s (map (fun v => Validate (fst (fst v)) (snd (fst v)) (snd v)) validations)
      = Some (s', events, outcomes)
      /\ Forall2 (fun v o =>
                    o = Undefined
                    \/ exists e, reporterThrew (snd v) (fst (fst v)) e
                                 /\ o = ReporterThrew e)
           validations outcomes.
Proof.
  induction validations as [|[[tags p] config] vs IH]; intros s Hs.
  - exists s, [], []. split; [reflexivity|constructor].
  - cbn [map run fst snd].
    destruct (validate_returns s tags p config)
      as (s1 & ev1 & o & Hv & Hau1 & Ho & _).
    rewrite Hv. rewrite Hs in Hau1.
    destruct (IH s1 Hau1) as (s' & ev & outs & Hrun & Houts). rewrite Hrun.
    eexists _, _, _. split; [reflexivity|]. constructor; [|exact Houts].
    cbn [fst snd]. destruct Ho as [-> | (e & He & -> & _)].
    + left. unfold verdict. now rewrite Hau1.
    + right. now exists e.
Qed.

Lemma async_validator_no_verdict_until_authenticated_witness :
  let enforcing := {| enforceGrammar := true;
                      pluggableGrammarErrorReporter := Some (fun _ => Ok tt) |} in
  let failing := {| enforceGrammar := true;
                    pluggableGrammarErrorReporter :=
                      Some (fun _ => Throw (Error "reporter")) |} in
  let validations := [([PacketTag.literalData], false, enforcing);
                      ([PacketTag.literalData; PacketTag.literalData], false, failing);
                      ([PacketTag.literalData; PacketTag.literalData], false, enforcing)] in
  exists s' events outcomes,
    run Async.init
      (map (fun v => Validate (fst (fst v)) (snd (fst v)) (snd v)) validations)
    = Some (s', events, outcomes)
    /\ Forall2 (fun v o =>
                  o = Undefined
                  \/ exists e, reporterThrew (snd v) (fst (fst v)) e
                               /\ o = ReporterThrew e)
         validations outcomes.
Proof.
  intros enforcing failing validations.
  apply (async_validator_no_verdict_until_authenticated validations Async.init).
  reflexivity.
Defined.

(** X6.  Over any sequence of calls of the asynchronous validator, the
    reporter returns at most once, and once the error has been printed
    the validator neither reports nor prints again. *)
Theorem async_validator_reporter_returns_at_most_once (calls : list call) :
  exists s events outcomes,
    run Async.init calls = Some (s, events, outcomes)
    /\ List.length outcomes = List.length calls
    /\ (reports events <= 1)%nat
    /\ quietOnceLogged events.
Proof.
  destruct (run_returns calls Async.init) as (s & ev & outs & Hrun & Hlen & Hlog & _).
  exists s, ev, outs. split; [exact Hrun|]. split; [exact Hlen|].
  exact (logging_sound _ _ Hlog).
Qed.

(** X7.  With [enforceGrammar] on, a list that the grammar rejects
    before any verdict is settled decides the outcome, provided the
    reporter, if the call invokes one, returns: whatever calls follow,
    [markAuthenticated] then returns the rejection with the error of
    that list. *)
Theorem async_validator_early_rejection_is_final
  (s : state) (tags : list Z) (isPartial : bool) (config : Config) (calls : list call) :
  grammarCheckPromise s = Pending ->
  enforceGrammar config = true ->
  isValidOpenPGPMessage tags isPartial = Some false ->
  (logged s = false ->
   forall reporter, pluggableGrammarErrorReporter config = Some reporter ->
                    reporter (GrammarError tags) = Ok tt) ->
  exists s' events outcomes,
    run s (Validate tags isPartial config :: calls ++ [MarkAuthenticated])
    = Some (s', events, outcomes ++ [Rejection (GrammarError tags)]).
Proof.
  intros Hs He Hv Hreporter. cbn [run].
  destruct (validate_returns s tags isPartial config)
    as (s1 & ev1 & o & Hval & _ & _ & _ & _ & Hrej).
  rewrite Hval. specialize (Hrej Hs He Hv Hreporter).
  assert (Hgen : forall cs s2,
            grammarCheckPromise s2 = Rejected (GrammarError tags) ->
            exists s' events outcomes,
              run s2 (cs ++ [MarkAuthenticated])
              = Some (s', events, outcomes ++ [Rejection (GrammarError tags)])).
  { induction cs as [|c cs IH]; intros s2 Hs2.
    - cbn. rewrite Hs2. now eexists _, _, [].
    - destruct c as [|t p cfg]; cbn [app run].
      + unfold markAuthenticated.
        destruct (IH {| grammarCheckPromise := grammarCheckPromise s2;
                        authenticated := true; logged := logged s2 |} Hs2)
          as [s' [ev [outs Hrun]]].
        rewrite Hrun. now eexists _, _, (_ :: outs).
      + destruct (validate_returns s2 t p cfg)
          as (s3 & ev3 & o3 & Hval3 & _ & _ & Hpr & _).
        rewrite Hval3.
        assert (Hs3 : grammarCheckPromise s3 = Rejected (GrammarError tags)).
        { rewrite Hpr; [assumption|]. rewrite Hs2. discriminate. }
        destruct (IH s3 Hs3) as [s' [ev [outs Hrun]]].
        rewrite Hrun. now eexists _, _, (_ :: outs). }
  destruct (Hgen calls s1 Hrej) as [s' [ev [outs Hrun]]].
  rewrite Hrun. now eexists _, _, (_ :: outs).
Qed.

Lemma async_validator_early_rejection_is_final_witness :
  let reporting := {| enforceGrammar := true;
                      pluggableGrammarErrorReporter := Some (fun _ => Ok tt) |} in
  let failing := {| enforceGrammar := true;
                    pluggableGrammarErrorReporter :=
                      Some (fun _ => Throw (Error "reporter")) |} in
  exists s' events outcomes,
    run Async.init
      (Validate [PacketTag.literalData; PacketTag.literalData] true reporting
       :: [Validate [PacketTag.literalData] false failing;
           Validate [PacketTag.signature] false failing]
          ++ [MarkAuthenticated])
    = Some (s', events,
            outcomes
            ++ [Rejection (GrammarError [PacketTag.literalData; PacketTag.literalData])]).
Proof.
  intros reporting failing.
  apply (async_validator_early_rejection_is_final Async.init
           [PacketTag.literalData; PacketTag.literalData] true reporting
           [Validate [PacketTag.literalData] false failing;
            Validate [PacketTag.signature] false failing]).
  - reflexivity.
  - reflexivity.
  - reflexivity.
  - intros _ reporter H. injection H as <-. reflexivity.
Defined.

(** One rejected list whose reporter throws: the call changes nothing. *)
Lemma validate_reporter_throws (s : state) (tags : list Z) (isPartial : bool)
    (config : Config) (e : exn) :
  logged s = false ->
  isValidOpenPGPMessage tags isPartial = Some false ->
  reporterThrew config tags e ->
  messageGrammarValidatorWithLatentReporting s tags isPartial config
  = Some (s, [ReportFailed (GrammarError tags) e], ReporterThrew e).
Proof.
  intros Hl Hv (reporter & Hrep & Hcall).
  unfold messageGrammarValidatorWithLatentReporting, logOnce, report.
  now rewrite Hv, Hl, Hrep, Hcall.
Qed.

(** X24.  A reporter that throws keeps the asynchronous validator from
    recording anything: as long as the reporter throws on every rejected
    list, each call is rejected with what the reporter threw, the
    reporter is invoked again on every such call, the grammar check is
    never settled, and a [markAuthenticated] that follows returns what
    the promise was before, also with [enforceGrammar] on. *)
Theorem async_throwing_reporter_hides_rejections
  (s : state) (validations : list (list Z * bool * Config * exn)) :
  logged s = false ->
  Forall (fun v =>
            isValidOpenPGPMessage (fst (fst (fst v))) (snd (fst (fst v))) = Some false
            /\ reporterThrew (snd (fst v)) (fst (fst (fst v))) (snd v))
    validations ->
  run s (map (fun v => Validate (fst (fst (fst v))) (snd (fst (fst v))) (snd (fst v)))
           validations
         ++ [MarkAuthenticated])
  = Some ({| grammarCheckPromise := grammarCheckPromise s;
             authenticated := true;
             logged := false |},
          map (fun v => ReportFailed (GrammarError (fst (fst (fst v)))) (snd v)) validations,
          map (fun v => ReporterThrew (snd v)) validations
          ++ [settled (grammarCheckPromise s)]).
Proof.
  intros Hl Hall. induction Hall as [|[[[tags p] config] e] vs [Hv Hthrow] _ IH].
  - cbn. now rewrite Hl.
  - cbn [map app run fst snd] in *.
    rewrite (validate_reporter_throws s tags p config e Hl Hv Hthrow).
    now rewrite IH.
Qed.

Lemma async_throwing_reporter_hides_rejections_witness :
  let failing := {| enforceGrammar := true;
                    pluggableGrammarErrorReporter :=
                      Some (fun _ => Throw (Error "reporter")) |} in
  run Async.init
    [Validate [PacketTag.literalData; PacketTag.literalData] false failing;
     Validate [PacketTag.compressedData; PacketTag.literalData] false failing;
     MarkAuthenticated]
  = Some ({| grammarCheckPromise := Pending; authenticated := true; logged := false |},
          [ReportFailed (GrammarError [PacketTag.literalData; PacketTag.literalData])
             (Error "reporter");
           ReportFailed (GrammarError [PacketTag.compressedData; PacketTag.literalData]) (Error "reporter")],
          [ReporterThrew (Error "reporter"); ReporterThrew (Error "reporter"); Undefined]).
Proof.
  intros failing.
  apply (async_throwing_reporter_hides_rejections Async.init
           [([PacketTag.literalData; PacketTag.literalData], false, failing,
             Error "reporter");
            ([PacketTag.compressedData; PacketTag.literalData], false, failing, Error "reporter")]).
  - reflexivity.
  - repeat (apply Forall_cons;
              [split; [reflexivity|now exists (fun _ => Throw (Error "reporter"))]|]).
    apply Forall_nil.
Defined.

End GrammarValidators.

(** ** SLH-DSA *)

(** X8.  [validateParams] of SLH-DSA never returns a verdict: on its own
    algorithm it hands the secret key to [sign] in the place of the hash
    algorithm, so that [sign] rejects the call, and on every other
    algorithm it rejects the algorithm. *)
Theorem slhdsa_validateParams_always_throws
  (P : Primitives) (noble : SlhDsa.Noble) (algo : jsval)
  (slhdsaPublicKey slhdsaSecretKey : bytes) :
  SlhDsa.validateParams P noble algo slhdsaPublicKey slhdsaSecretKey
  = Throw (Error (if case_of algo [enums.publicKey.pqc_slhdsa_shake128s]
                  then "Unexpected hash algorithm for PQC signature"
                  else "Unsupported signature algorithm")).
Proof.
  unfold SlhDsa.validateParams, SlhDsa.sign, SlhDsa.getRequiredHashAlgo.
  destruct (case_of algo [enums.publicKey.pqc_slhdsa_shake128s]); reflexivity.
Qed.

(** X9.  SLH-DSA signs and verifies only under its own algorithm
    identifier and with SHA3-256 as the hash algorithm of the signature:
    a call that returns was made with both. *)
Theorem slhdsa_requires_sha3_256
  (noble : SlhDsa.Noble) (signatureAlgo : jsval)
  (hashAlgo key dataDigest : SlhDsa.value) (signature : SlhDsa.signatureObject) :
  (exists s, SlhDsa.sign noble signatureAlgo hashAlgo key dataDigest = Ok s)
  \/ (exists b, SlhDsa.verify noble signatureAlgo hashAlgo key dataDigest signature = Ok b) ->
  signatureAlgo = JNum enums.publicKey.pqc_slhdsa_shake128s
  /\ hashAlgo = SlhDsa.VNum enums.hash.sha3_256.
Proof.
  assert (Hgate : forall A (r : result A),
            (exists a,
               (required <- SlhDsa.getRequiredHashAlgo signatureAlgo ;;
                if SlhDsa.differs hashAlgo required
                then Throw (Error "Unexpected hash algorithm for PQC signature")
                else r) = Ok a) ->
            signatureAlgo = JNum enums.publicKey.pqc_slhdsa_shake128s
            /\ hashAlgo = SlhDsa.VNum enums.hash.sha3_256).
  { intros A r [a Ha]. unfold SlhDsa.getRequiredHashAlgo in Ha.
    destruct (case_of signatureAlgo [enums.publicKey.pqc_slhdsa_shake128s]) eqn:Ealgo;
      [|discriminate Ha].
    apply case_of_In in Ealgo. destruct Ealgo as [c [[<- | []] ->]].
    split; [reflexivity|]. cbn [bind] in Ha.
    destruct hashAlgo as [n| |]; cbn [SlhDsa.differs] in Ha; try discriminate Ha.
    destruct (n =? enums.hash.sha3_256) eqn:En; [|discriminate Ha].
    apply Z.eqb_eq in En. now subst. }
  intros [[s Hs] | [b Hb]].
  - apply (Hgate _ _ (ex_intro _ s Hs)).
  - unfold SlhDsa.verify in Hb. destruct signature as [|sig]; [discriminate Hb|].
    apply (Hgate _ _ (ex_intro _ b Hb)).
Qed.

Lemma slhdsa_requires_sha3_256_witness :
  ((exists s,
      SlhDsa.sign
        {| SlhDsa.keygen := ([1], [2]);
           SlhDsa.noble_sign := fun _ _ => Ok [3];
           SlhDsa.noble_verify := fun _ _ _ => Ok true |}
        (JNum 108) (SlhDsa.VNum 12) (SlhDsa.VBytes [1]) (SlhDsa.VBytes [7]) = Ok s)
   \/ (exists b,
         SlhDsa.verify
           {| SlhDsa.keygen := ([1], [2]);
              SlhDsa.noble_sign := fun _ _ => Ok [3];
              SlhDsa.noble_verify := fun _ _ _ => Ok true |}
           (JNum 108) (SlhDsa.VNum 12) (SlhDsa.VBytes [1]) (SlhDsa.VBytes [7])
           SlhDsa.NoObject = Ok b))
  /\ JNum 108 = JNum enums.publicKey.pqc_slhdsa_shake128s
  /\ SlhDsa.VNum 12 = SlhDsa.VNum enums.hash.sha3_256.
Proof.
  assert (H : (exists s,
      SlhDsa.sign
        {| SlhDsa.keygen := ([1], [2]);
           SlhDsa.noble_sign := fun _ _ => Ok [3];
           SlhDsa.noble_verify := fun _ _ _ => Ok true |}
        (JNum 108) (SlhDsa.VNum 12) (SlhDsa.VBytes [1]) (SlhDsa.VBytes [7]) = Ok s)
   \/ (exists b,
         SlhDsa.verify
           {| SlhDsa.keygen := ([1], [2]);
              SlhDsa.noble_sign := fun _ _ => Ok [3];
              SlhDsa.noble_verify := fun _ _ _ => Ok true |}
           (JNum 108) (SlhDsa.VNum 12) (SlhDsa.VBytes [1]) (SlhDsa.VBytes [7])
           SlhDsa.NoObject = Ok b)).
  { left. exists [3]. reflexivity. }
  split; [exact H|].
  exact (slhdsa_requires_sha3_256 _ _ _ _ _ _ H).
Defined.

(** ** The composite KEM *)

(** X10.  The X25519 half of the KEM: [decaps] hashes the same three
    fields as [encaps], in the same order, so it returns the key share
    of [encaps] whenever X25519 recomputes the shared secret of the
    ephemeral key. *)
Theorem ecc_kem_decaps_recovers_key_share
  (ecdhX : EccKem.EcdhX) (eccAlgo : jsval)
  (eccPublicKey eccSecretKey : bytes) (e : EccKem.Encapsulation) :
  EccKem.encaps ecdhX eccAlgo eccPublicKey = Ok e ->
  (forall ephemeral shared,
     EccKem.generateEphemeralEncryptionMaterial ecdhX (JNum enums.publicKey.x25519)
       eccPublicKey = Ok (ephemeral, shared) ->
     EccKem.recomputeSharedSecret ecdhX (JNum enums.publicKey.x25519)
       ephemeral eccPublicKey eccSecretKey = Ok shared) ->
  EccKem.decaps ecdhX eccAlgo (EccKem.eccCipherText e) eccSecretKey eccPublicKey
  = Ok (EccKem.eccKeyShare e).
Proof.
  unfold EccKem.encaps, EccKem.decaps. intros He Hdh.
  destruct (case_of eccAlgo [enums.publicKey.pqc_mlkem_x25519]); [|discriminate He].
  destruct (EccKem.generateEphemeralEncryptionMaterial ecdhX _ eccPublicKey)
    as [[ephemeral shared]|err] eqn:Eg; [|discriminate He].
  cbv beta iota delta [bind] in He. injection He as <-.
  cbv beta iota delta [EccKem.eccCipherText EccKem.eccKeyShare].
  now rewrite (Hdh _ _ eq_refl).
Qed.

Lemma ecc_kem_decaps_recovers_key_share_witness :
  exists e,
    EccKem.encaps
      {| EccKem.generateEphemeralEncryptionMaterial := fun _ _ => Ok ([1], [2]);
         EccKem.recomputeSharedSecret := fun _ _ _ _ => Ok [2] |}
      (JNum enums.publicKey.pqc_mlkem_x25519) [5] = Ok e
    /\ EccKem.decaps
         {| EccKem.generateEphemeralEncryptionMaterial := fun _ _ => Ok ([1], [2]);
            EccKem.recomputeSharedSecret := fun _ _ _ _ => Ok [2] |}
         (JNum enums.publicKey.pqc_mlkem_x25519) (EccKem.eccCipherText e) [6] [5]
       = Ok (EccKem.eccKeyShare e).
Proof.
  eexists. split; [reflexivity|].
  apply (ecc_kem_decaps_recovers_key_share
           {| EccKem.generateEphemeralEncryptionMaterial := fun _ _ => Ok ([1], [2]);
              EccKem.recomputeSharedSecret := fun _ _ _ _ => Ok [2] |}
           (JNum enums.publicKey.pqc_mlkem_x25519) [5] [6]).
  - reflexivity.
  - intros ephemeral shared H. injection H as <- <-. reflexivity.
Defined.

(** The composite KEM undoes itself when its three primitives do. *)
Lemma kem_unwraps_what_it_wrapped
  (P : Primitives) (algo : jsval)
  (eccPublicKey eccSecretKey mlkemPublicKey mlkemSecretKey sessionKeyData : bytes)
  (c : Kem.Ciphertext) :
  Kem.encrypt P algo eccPublicKey mlkemPublicKey sessionKeyData = Ok c ->
  (forall share ct, eccKem_encaps P algo eccPublicKey = Ok (share, ct) ->
                    eccKem_decaps P algo ct eccSecretKey eccPublicKey = Ok share) ->
  (forall ct share, ml_kem768_encapsulate P mlkemPublicKey = Ok (ct, share) ->
                    ml_kem768_decapsulate P ct mlkemSecretKey = Ok share) ->
  (forall kek wrapped,
     aesKW_wrap P enums.symmetric.aes256 kek sessionKeyData = Ok wrapped ->
     aesKW_unwrap P enums.symmetric.aes256 kek wrapped = Ok sessionKeyData) ->
  Kem.decrypt P algo (Kem.eccCipherText c) (Kem.mlkemCipherText c)
    eccSecretKey eccPublicKey mlkemSecretKey mlkemPublicKey (Kem.wrappedKey c)
  = Ok sessionKeyData.
Proof.
  unfold Kem.encrypt, Kem.decrypt, MlKem.encaps, MlKem.decaps.
  intros He Hecc Hml Hkw.
  destruct (eccKem_encaps P algo eccPublicKey) as [[share ct]|err] eqn:E1;
    [|discriminate He].
  cbv beta iota delta [bind] in He.
  destruct (case_of algo [enums.publicKey.pqc_mlkem_x25519]); [|discriminate He].
  destruct (ml_kem768_encapsulate P mlkemPublicKey) as [[mct mshare]|err] eqn:E2;
    [|discriminate He].
  cbv beta iota delta [bind MlKem.mlkemKeyShare MlKem.mlkemCipherText] in He.
  destruct (Kem.multiKeyCombine P algo mshare share ct eccPublicKey) as [kek|err] eqn:E3;
    [|discriminate He].
  destruct (aesKW_wrap P enums.symmetric.aes256 kek sessionKeyData) as [wrapped|err] eqn:E4;
    [|discriminate He].
  injection He as <-.
  cbv beta iota delta [Kem.eccCipherText Kem.mlkemCipherText Kem.wrappedKey].
  rewrite (Hecc _ _ eq_refl). cbv beta iota delta [bind].
  rewrite (Hml _ _ eq_refl). cbv beta iota delta [bind].
  rewrite E3. now apply Hkw.
Qed.

(** X11.  The composite KEM: [decrypt] recovers the session key that
    [encrypt] wrapped, whenever each of the three primitives inverts its
    counterpart on the values of this run (the two decapsulations return
    the key shares of the encapsulations, and AES key unwrap undoes the
    wrap). *)
Theorem kem_decrypt_recovers_session_key
  (P : Primitives) (algo : jsval)
  (eccPublicKey eccSecretKey mlkemPublicKey mlkemSecretKey sessionKeyData : bytes)
  (c : Kem.Ciphertext) :
  Kem.encrypt P algo eccPublicKey mlkemPublicKey sessionKeyData = Ok c ->
  (forall share ct, eccKem_encaps P algo eccPublicKey = Ok (share, ct) ->
                    eccKem_decaps P algo ct eccSecretKey eccPublicKey = Ok share) ->
  (forall ct share, ml_kem768_encapsulate P mlkemPublicKey = Ok (ct, share) ->
                    ml_kem768_decapsulate P ct mlkemSecretKey = Ok share) ->
  (forall kek wrapped,
     aesKW_wrap P enums.symmetric.aes256 kek sessionKeyData = Ok wrapped ->
     aesKW_unwrap P enums.symmetric.aes256 kek wrapped = Ok sessionKeyData) ->
  Kem.decrypt P algo (Kem.eccCipherText c) (Kem.mlkemCipherText c)
    eccSecretKey eccPublicKey mlkemSecretKey mlkemPublicKey (Kem.wrappedKey c)
  = Ok sessionKeyData.
Proof. apply kem_unwraps_what_it_wrapped. Qed.

Lemma equalsUint8Array_refl (a : bytes) : util.equalsUint8Array a a = true.
Proof. induction a as [|x a IH]; simpl; [reflexivity|]. now rewrite Z.eqb_refl. Qed.

Lemma reference_unwrap (kek data : bytes) : Reference.unwrap kek (kek ++ data) = Ok data.
Proof.
  unfold Reference.unwrap.
  rewrite firstn_app, firstn_all, Nat.sub_diag. simpl firstn. rewrite app_nil_r.
  rewrite equalsUint8Array_refl.
  now rewrite skipn_app, skipn_all, Nat.sub_diag.
Qed.

Lemma kem_decrypt_recovers_session_key_witness :
  exists c,
    Kem.encrypt Reference.P (JNum enums.publicKey.pqc_mlkem_x25519)
      (repeat 13 32) (repeat 15 1184) (repeat 7 32) = Ok c
    /\ Kem.decrypt Reference.P (JNum enums.publicKey.pqc_mlkem_x25519)
         (Kem.eccCipherText c) (Kem.mlkemCipherText c)
         (repeat 14 32) (repeat 13 32) (repeat 16 128) (repeat 15 1184)
         (Kem.wrappedKey c)
       = Ok (repeat 7 32).
Proof.
  eexists. split; [reflexivity|].
  apply (kem_decrypt_recovers_session_key Reference.P
           (JNum enums.publicKey.pqc_mlkem_x25519)
           (repeat 13 32) (repeat 14 32) (repeat 15 1184) (repeat 16 128) (repeat 7 32)).
  - reflexivity.
  - intros share ct H. injection H as <- <-. reflexivity.
  - intros ct share H. injection H as <- <-. reflexivity.
  - intros kek wrapped H. injection H as <-. apply reference_unwrap.
Defined.

(** ** Validation of key parameters *)

Section Validation.
Variable P : Primitives.
Variable V : KeyValidation.Validators.

Lemma validateParams_generated (algo : jsval) (bits : Z) (curve : string)
    (symmetric : jsval) (priv pub : params) :
  Contracts.GeneratorsSpec P ->
  In algo (map JNum [enums.publicKey.ed25519; enums.publicKey.aead]) ->
  Crypto.generateParams P algo bits curve symmetric = Ok (priv, pub) ->
  KeyValidation.validateParams P V algo (Some pub) (Some priv) = Ok true.
Proof.
  intros HP Hin Hgen. unfold Crypto.generateParams in Hgen.
  unfold KeyValidation.validateParams.
  cbn [map In] in Hin. destruct Hin as [<- | [<- | []]]; revert Hgen; eval_cases.
  - unfold Eddsa.generate. eval_cases. cbv beta iota delta [bind].
    intros Hgen. injection Hgen as <- <-.
    cbn [getBytes lookup String.eqb Ascii.eqb Bool.eqb].
    cbv beta iota delta [bind]. unfold KeyValidation.eddsa_validateParams. eval_cases.
    now rewrite equalsUint8Array_refl.
  - unfold Crypto.generateSessionKey.
    destruct (getCipherParams P symmetric) as [c|e] eqn:Ec; [|discriminate].
    cbv beta iota delta [bind]. unfold Crypto.createSymmetricParams.
    destruct (computeDigest P enums.hash.sha256 _) as [d|e] eqn:Ed; [|discriminate].
    cbv beta iota delta [bind]. intros Hgen. injection Hgen as <- <-.
    cbn [getParam getBytes lookup String.eqb Ascii.eqb Bool.eqb getValue].
    cbv beta iota delta [bind]. rewrite Ec. cbv beta iota delta [bind].
    unfold KeyValidation.symmetricKeyMatches.
    cbn [getParam getBytes lookup String.eqb Ascii.eqb Bool.eqb getValue].
    cbv beta iota delta [bind].
    rewrite (Contracts.random_length P HP) by apply (Contracts.cipher_keySize P HP _ _ Ec).
    rewrite Z.eqb_refl, Ed. cbv beta iota delta [bind].
    now rewrite equalsUint8Array_refl.
Qed.

(** X12.  A key that [generate] has just made for Ed25519 or AEAD
    passes [validate]: the public point is the one derived from the
    seed, the key material has the size of its cipher (random draws have
    the length asked for), and the digest binds the seed that was
    drawn. *)
Theorem generated_key_validates
  (this generated : SecretKeyPacket.packet) (bits : Z) (curve : string)
  (symmetric : jsval) :
  Contracts.GeneratorsSpec P ->
  In (SecretKeyPacket.algorithm this)
     (map JNum [enums.publicKey.ed25519; enums.publicKey.aead]) ->
  SecretKeyPacket.generate P bits curve symmetric this = (generated, Ok tt) ->
  KeyValidation.validate P V generated = Ok tt.
Proof.
  intros HP Hin Hgen. unfold SecretKeyPacket.generate in Hgen.
  cbv beta iota delta [StateExn.sbind StateExn.sget] in Hgen.
  assert (Hfirst :
    strict_eq (SecretKeyPacket.version this) (JNum 6)
    && ((strict_eq (SecretKeyPacket.algorithm this) (JNum enums.publicKey.ecdh)
         && String.eqb curve enums.curve.curve25519Legacy)
        || strict_eq (SecretKeyPacket.algorithm this) (JNum enums.publicKey.eddsaLegacy))
    = false).
  { cbn [map In] in Hin. destruct Hin as [<- | [<- | []]];
      cbn; now rewrite andb_false_r. }
  assert (Hsecond :
    negb (strict_eq (SecretKeyPacket.version this) (JNum 6))
    && strict_eq (SecretKeyPacket.algorithm this) (JNum enums.publicKey.pqc_mldsa_ed25519)
    = false).
  { cbn [map In] in Hin. destruct Hin as [<- | [<- | []]];
      cbn; now rewrite andb_false_r. }
  rewrite Hfirst, Hsecond in Hgen.
  cbv beta iota delta [StateExn.sbind StateExn.slift StateExn.smodify] in Hgen.
  destruct (Crypto.generateParams P (SecretKeyPacket.algorithm this) bits curve symmetric)
    as [[priv pub]|e] eqn:Eg; [|discriminate Hgen].
  injection Hgen as <-.
  unfold KeyValidation.validate.
  destruct (SecretKeyPacket.isDummy _); [reflexivity|].
  cbn [SecretKeyPacket.isDecrypted SecretKeyPacket.isEncrypted
       SecretKeyPacket.set_isEncrypted negb].
  destruct (SecretKeyPacket.istrue _); [reflexivity|].
  cbn [SecretKeyPacket.algorithm SecretKeyPacket.publicParams SecretKeyPacket.privateParams
       SecretKeyPacket.pub SecretKeyPacket.set_isEncrypted SecretKeyPacket.set_pub
       SecretKeyPacket.set_privateParams pk_algorithm pk_publicParams].
  change (pk_algorithm (SecretKeyPacket.pub this)) with (SecretKeyPacket.algorithm this).
  now rewrite (validateParams_generated _ _ _ _ _ _ HP Hin Eg).
Qed.

(** X13.  An Ed448 key and an SLH-DSA key never pass [validate]: unless
    the packet is a dummy or was opened with a modern AEAD, [validate]
    reports 'Key is invalid' whatever the parameters are, because
    [validateParams] has no check for Ed448 and no case for SLH-DSA. *)
Theorem ed448_and_slhdsa_keys_never_validate (this : SecretKeyPacket.packet) :
  SecretKeyPacket.algorithm this = JNum enums.publicKey.ed448
  \/ SecretKeyPacket.algorithm this = JNum enums.publicKey.pqc_slhdsa_shake128s ->
  SecretKeyPacket.isDummy this = false ->
  SecretKeyPacket.isDecrypted this = true ->
  SecretKeyPacket.istrue (SecretKeyPacket.usedModernAEAD this) = false ->
  KeyValidation.validate P V this = Throw (Error "Key is invalid").
Proof.
  intros Halgo Hdummy Hdec Haead. unfold KeyValidation.validate.
  rewrite Hdummy, Hdec, Haead. cbn [negb].
  assert (Hv : match KeyValidation.validateParams P V (SecretKeyPacket.algorithm this)
                       (Some (SecretKeyPacket.publicParams this))
                       (SecretKeyPacket.privateParams this) with
               | Ok valid => valid
               | Throw _ => false
               end = false).
  { unfold KeyValidation.validateParams.
    destruct (SecretKeyPacket.privateParams this) as [priv|]; [|reflexivity].
    destruct Halgo as [-> | ->]; eval_cases; [|reflexivity].
    destruct (getBytes (SecretKeyPacket.publicParams this) "A"); [|reflexivity].
    cbv beta iota delta [bind].
    destruct (getBytes priv "seed"); reflexivity. }
  now rewrite Hv.
Qed.

End Validation.

Lemma generated_key_validates_witness :
  exists generated,
    SecretKeyPacket.generate Reference.P 0 EmptyString (JNum enums.symmetric.aes128)
      (SecretKeyPacket.constructor
         {| pk_version := JNum 6; pk_algorithm := JNum enums.publicKey.aead;
            pk_publicParams := [] |})
    = (generated, Ok tt)
    /\ forall V, KeyValidation.validate Reference.P V generated = Ok tt.
Proof.
  eexists. split; [reflexivity|]. intros V.
  apply (generated_key_validates Reference.P V
           (SecretKeyPacket.constructor
              {| pk_version := JNum 6; pk_algorithm := JNum enums.publicKey.aead;
                 pk_publicParams := [] |})
           _ 0 EmptyString (JNum enums.symmetric.aes128) reference_generators).
  - cbn. tauto.
  - reflexivity.
Defined.

Lemma ed448_and_slhdsa_keys_never_validate_witness :
  KeyValidation.validate Reference.P
    {| KeyValidation.rsa_validateParams := fun _ _ _ _ _ _ => Ok true;
       KeyValidation.dsa_validateParams := fun _ _ _ _ _ => Ok true;
       KeyValidation.elgamal_validateParams := fun _ _ _ _ => Ok true;
       KeyValidation.elliptic_validateParams := fun _ _ _ _ => Ok true;
       KeyValidation.eddsaLegacy_validateParams := fun _ _ _ => Ok true;
       KeyValidation.ecdhX_validateParams := fun _ _ _ => Ok true;
       KeyValidation.eccKem_validateParams := fun _ _ _ => Ok true;
       KeyValidation.mlKem_validateParams := fun _ _ _ => Ok true;
       KeyValidation.eccdsa_validateParams := fun _ _ _ => Ok true;
       KeyValidation.mldsa_validateParams := fun _ _ _ => Ok true |}
    (SecretKeyPacket.set_privateParams (Some [("seed", PBytes (repeat 1 57))]%string)
       (SecretKeyPacket.set_isEncrypted (Some false)
          (SecretKeyPacket.constructor
             {| pk_version := JNum 6; pk_algorithm := JNum enums.publicKey.ed448;
                pk_publicParams := [("A", PBytes (repeat 2 57))]%string |})))
  = Throw (Error "Key is invalid").
Proof.
  apply (ed448_and_slhdsa_keys_never_validate Reference.P _
           (SecretKeyPacket.set_privateParams (Some [("seed", PBytes (repeat 1 57))]%string)
              (SecretKeyPacket.set_isEncrypted (Some false)
                 (SecretKeyPacket.constructor
                    {| pk_version := JNum 6; pk_algorithm := JNum enums.publicKey.ed448;
                       pk_publicParams := [("A", PBytes (repeat 2 57))]%string |}))));
    [left|..]; reflexivity.
Defined.

(** ** Ed25519 signatures *)

(** X14.  With [checkEdDSAFaultySignatures] on, every Ed25519 signature
    that [sign] returns is accepted by [verify] under the public key it
    was made with: [sign] has checked it before returning it. *)
Theorem eddsa_signature_verifies
  (P : Primitives) (config : Config) (algo hashAlgo : jsval)
  (publicParams privateParams signature : params) (data hashed : bytes) :
  checkEdDSAFaultySignatures config = true ->
  case_of algo [enums.publicKey.ed25519; enums.publicKey.ed448] = true ->
  Signature.sign P config algo hashAlgo (Some publicParams) (Some privateParams)
    data hashed = Ok signature ->
  forall (anyPrivate : option params) (anyData : bytes),
    Signature.verify P algo hashAlgo signature publicParams anyPrivate anyData hashed
    = Ok true.
Proof.
  intros Hcheck Halgo Hsign anyPrivate anyData.
  apply case_of_In in Halgo. destruct Halgo as [c [Hc ->]].
  unfold Signature.sign in Hsign. unfold Signature.verify.
  cbn [In] in Hc. destruct Hc as [<- | [<- | []]]; revert Hsign; eval_cases.
  - destruct (Eddsa.hashTooWeak (JNum enums.publicKey.ed25519) hashAlgo)
      as [[|]|e] eqn:Ew; cbv beta iota delta [bind]; try discriminate.
    destruct (getBytes publicParams "A") as [A|e] eqn:EA; [|discriminate].
    cbv beta iota delta [bind].
    destruct (getBytes privateParams "seed") as [seed|e] eqn:Es; [|discriminate].
    cbv beta iota delta [bind]. unfold Eddsa.sign, Eddsa.verify. rewrite Ew.
    cbv beta iota delta [bind]. eval_cases. rewrite Hcheck. cbn [andb].
    destruct (nacl_sign_detached_verify P hashed _ A) eqn:Ev; cbn [negb];
      [|discriminate].
    intros Hsign. injection Hsign as <-.
    cbn [getBytes lookup String.eqb Ascii.eqb Bool.eqb]. cbv beta iota delta [bind].
    f_equal. exact Ev.
  - unfold Eddsa.hashTooWeak, Eddsa.getPreferredHashAlgo. eval_cases.
    destruct (Hash.getHashByteLength hashAlgo); discriminate.
Qed.

Lemma eddsa_signature_verifies_witness :
  exists signature,
    Signature.sign Reference.P Reference.config (JNum enums.publicKey.ed25519)
      (JNum enums.hash.sha256)
      (Some [("A", PBytes (repeat 2 32))]%string)
      (Some [("seed", PBytes (repeat 1 32))]%string) [9] [8] = Ok signature
    /\ Signature.verify Reference.P (JNum enums.publicKey.ed25519)
         (JNum enums.hash.sha256) signature [("A", PBytes (repeat 2 32))]%string
         None [] [8] = Ok true.
Proof.
  eexists. split; [vm_compute; reflexivity|].
  apply (eddsa_signature_verifies Reference.P Reference.config
           (JNum enums.publicKey.ed25519) (JNum enums.hash.sha256)
           [("A", PBytes (repeat 2 32))]%string [("seed", PBytes (repeat 1 32))]%string
           _ [9] [8]); vm_compute; reflexivity.
Defined.

(** ** Session keys: encoding and encryption *)

Lemma mod8_successor (n : Z) : 0 <= n -> n mod 8 <> 7 -> (n + 1) mod 8 = n mod 8 + 1.
Proof.
  intros Hn H7. pose proof (Z.mod_pos_bound n 8 ltac:(lia)) as Hr.
  rewrite (Z.div_mod n 8) at 1 by lia.
  replace (8 * (n / 8) + n mod 8 + 1) with ((n mod 8 + 1) + (n / 8) * 8) by lia.
  rewrite Z.mod_add by lia. apply Z.mod_small. lia.
Qed.

Lemma mod8_le (n : Z) : 0 <= n -> n mod 8 <= n.
Proof. intros Hn. apply Z.mod_le; lia. Qed.

(** The octets that the checksum covers are the same with and without
    the leading cipher octet. *)
Lemma checksummed_part (c : Z) (data : bytes) :
  len data mod 8 <> 7 ->
  Uint8Array.subarray_from (c :: data) (len (c :: data) mod 8)
  = Uint8Array.subarray_from data (len data mod 8).
Proof.
  intros H7. pose proof (len_nonneg data) as Hn.
  pose proof (mod8_le _ Hn) as Hle.
  pose proof (Z.mod_pos_bound (len data) 8 ltac:(lia)) as Hr.
  rewrite len_cons. replace (1 + len data) with (len data + 1) by lia.
  rewrite mod8_successor by assumption.
  rewrite !subarray_from_nonneg by (rewrite ?len_cons; lia).
  replace (Z.to_nat (len data mod 8 + 1)) with (S (Z.to_nat (len data mod 8))) by lia.
  reflexivity.
Qed.

Lemma writeChecksum_pair (text : bytes) :
  exists c0 c1, util.writeChecksum text = [c0; c1].
Proof. unfold util.writeChecksum. eauto. Qed.

Lemma registered_read (c : Z) :
  enums.write enums.symmetric.codes (JNum c) = Ok c ->
  exists name, enums.read enums.symmetric.codes (JNum c) = Ok name.
Proof.
  unfold enums.write. destruct (enums.read _ _) as [name|e]; [eauto|discriminate].
Qed.

(** What [decodeSessionKey] makes of an encoded session key. *)
Lemma encodeSessionKey_decoded
  (version keyAlgo cipherAlgo : jsval) (sessionKeyData encoded : bytes) :
  PKESK.encodeSessionKey version keyAlgo cipherAlgo sessionKeyData = Ok encoded ->
  (strict_eq version (JNum 6) = false ->
   Contracts.registeredCipher cipherAlgo /\ len sessionKeyData mod 8 <> 7) ->
  PKESK.decodeSessionKey version keyAlgo encoded None
  = Ok {| PKESK.sk_sessionKeyAlgorithm :=
            if case_of keyAlgo checksummedAlgorithms && negb (strict_eq version (JNum 6))
            then cipherAlgo else JNull;
          PKESK.sk_sessionKey := sessionKeyData |}.
Proof.
  intros Henc Hv3. unfold PKESK.encodeSessionKey in Henc.
  change [enums.publicKey.rsaEncrypt; enums.publicKey.rsaEncryptSign;
          enums.publicKey.elgamal; enums.publicKey.ecdh; enums.publicKey.aead]
    with checksummedAlgorithms in Henc.
  destruct (case_of keyAlgo checksummedAlgorithms) eqn:Ek.
  - cbn [andb].
    assert (Hin : In keyAlgo (map JNum checksummedAlgorithms)).
    { apply case_of_In in Ek as [c [Hc ->]]. now apply in_map. }
    destruct (writeChecksum_pair
                (Uint8Array.subarray_from sessionKeyData (len sessionKeyData mod 8)))
      as [c0 [c1 Hck]].
    destruct (strict_eq version (JNum 6)) eqn:E6; cbn [negb]; cbv iota in Henc.
    + set (blob := util.concatUint8Array _) in Henc.
      assert (Hshape : blob = sessionKeyData ++ [c0; c1]).
      { unfold blob, util.concatUint8Array. cbn [List.concat Uint8Array.from map app].
        now rewrite Hck, app_nil_r. }
      injection Henc as <-. rewrite Hshape.
      destruct (decodeSessionKey_without_random version keyAlgo
                  (sessionKeyData ++ [c0; c1]) Hin) as [_ [Hv6 _]].
      apply strict_eq_true in E6.
      rewrite Hv6; [|exists sessionKeyData, c0, c1; now split|exact E6].
      rewrite decryptedSessionKey_blob. subst version. reflexivity.
    + destruct (Hv3 eq_refl) as [[c [-> Hc]] H7].
      pose proof (symmetric_registered_byte c Hc) as Hb.
      set (blob := util.concatUint8Array _) in Henc.
      assert (Hshape : blob = (c :: sessionKeyData) ++ [c0; c1]).
      { unfold blob, util.concatUint8Array.
        cbn [List.concat Uint8Array.from map app to_int32].
        rewrite Z.mod_small by exact Hb. now rewrite Hck, app_nil_r. }
      injection Henc as <-. rewrite Hshape.
      destruct (decodeSessionKey_without_random version keyAlgo
                  ((c :: sessionKeyData) ++ [c0; c1]) Hin) as [_ [_ [Hv3' _]]].
      assert (Hvalid : Spec.validChecksum ((c :: sessionKeyData) ++ [c0; c1])).
      { exists (c :: sessionKeyData), c0, c1. split; [reflexivity|].
        now rewrite checksummed_part. }
      assert (Hne : version <> JNum 6).
      { intros ->. cbn in E6. discriminate E6. }
      destruct (registered_read c Hc) as [name Hname].
      rewrite (Hv3' Hvalid Hne name).
      * rewrite decryptedSessionKey_blob, E6, get_cons_0.
        f_equal. f_equal. rewrite subarray_from_nonneg.
        -- reflexivity.
        -- rewrite len_cons. pose proof (len_nonneg sessionKeyData). lia.
      * now rewrite decryptedSessionKey_blob, E6, get_cons_0.
  - unfold PKESK.decodeSessionKey.
    change [enums.publicKey.rsaEncrypt; enums.publicKey.rsaEncryptSign;
            enums.publicKey.elgamal; enums.publicKey.ecdh; enums.publicKey.aead]
      with checksummedAlgorithms.
    rewrite Ek. cbn [andb].
    destruct (case_of keyAlgo PKESK.algosWithV3CleartextSessionKeyAlgorithm);
      [|discriminate Henc].
    now injection Henc as <-.
Qed.

(** X15.  [decodeSessionKey] undoes [encodeSessionKey]: it returns the
    session key that was encoded and, where the encoding carries it,
    the cipher algorithm.  Under a version other than 6 this needs the
    cipher to be a registered one, and the length of the key not to be
    7 modulo 8: the checksum is computed from an offset that depends on
    the length, which the leading cipher octet shifts. *)
Theorem session_key_encoding_round_trip
  (version keyAlgo cipherAlgo : jsval) (sessionKeyData encoded : bytes) :
  PKESK.encodeSessionKey version keyAlgo cipherAlgo sessionKeyData = Ok encoded ->
  (strict_eq version (JNum 6) = false ->
   Contracts.registeredCipher cipherAlgo /\ len sessionKeyData mod 8 <> 7) ->
  PKESK.decodeSessionKey version keyAlgo encoded None
  = Ok {| PKESK.sk_sessionKeyAlgorithm :=
            if case_of keyAlgo checksummedAlgorithms && negb (strict_eq version (JNum 6))
            then cipherAlgo else JNull;
          PKESK.sk_sessionKey := sessionKeyData |}.
Proof. apply encodeSessionKey_decoded. Qed.

Lemma session_key_encoding_round_trip_witness :
  exists encoded,
    PKESK.encodeSessionKey (JNum 3) (JNum enums.publicKey.rsaEncryptSign)
      (JNum enums.symmetric.aes128) (repeat 0xAA 16) = Ok encoded
    /\ PKESK.decodeSessionKey (JNum 3) (JNum enums.publicKey.rsaEncryptSign) encoded None
       = Ok {| PKESK.sk_sessionKeyAlgorithm := JNum enums.symmetric.aes128;
               PKESK.sk_sessionKey := repeat 0xAA 16 |}.
Proof.
  eexists. split; [reflexivity|].
  apply (session_key_encoding_round_trip (JNum 3) (JNum enums.publicKey.rsaEncryptSign)
           (JNum enums.symmetric.aes128) (repeat 0xAA 16)).
  - reflexivity.
  - intros _. split; [exists enums.symmetric.aes128; now split|].
    vm_compute. discriminate.
Defined.

(** ** Public-key encryption and decryption *)

Ltac use_equations :=
  repeat match goal with
         | H : ?r = Ok _ |- context [?r] => rewrite H
         end.

Ltac run_reads :=
  cbn [bind nonNull getBytes getParam getValue lookup String.eqb Ascii.eqb Bool.eqb
       Crypto.C_data Crypto.C_wrappedKey Crypto.C_algorithm].

Ltac settle := run_reads; repeat (progress use_equations; run_reads).

Lemma inverts_algorithm (P : Primitives) (config : Config) (keyAlgo symmetricAlgo : jsval)
    (publicParams privateParams : params) (data fingerprint : bytes) :
  Decryption.inverts P config keyAlgo symmetricAlgo publicParams privateParams data
    fingerprint ->
  exists c,
    keyAlgo = JNum c
    /\ In c [enums.publicKey.rsaEncrypt; enums.publicKey.rsaEncryptSign;
             enums.publicKey.elgamal; enums.publicKey.ecdh; enums.publicKey.x25519;
             enums.publicKey.x448; enums.publicKey.aead;
             enums.publicKey.pqc_mlkem_x25519].
Proof.
  unfold Decryption.inverts. intros Hinv.
  repeat match type of Hinv with
         | (if case_of keyAlgo ?l then _ else _) =>
             let E := fresh "E" in
             destruct (case_of keyAlgo l) eqn:E;
             [apply case_of_In in E as [c [Hc ->]]; exists c;
              split; [reflexivity|cbn [In] in *; tauto]|]
         end.
  contradiction.
Qed.

Lemma decrypt_what_was_encrypted
  (P : Primitives) (config : Config) (keyAlgo symmetricAlgo : jsval)
  (publicParams privateParams : params) (encryptionPrivateParams : option params)
  (data fingerprint : bytes) (encrypted : params) :
  Crypto.publicKeyEncrypt P config keyAlgo symmetricAlgo publicParams
    encryptionPrivateParams data fingerprint = Ok encrypted ->
  (case_of keyAlgo [enums.publicKey.aead] = true ->
   encryptionPrivateParams = Some privateParams) ->
  Decryption.inverts P config keyAlgo symmetricAlgo publicParams privateParams data
    fingerprint ->
  Crypto.publicKeyDecrypt P keyAlgo publicParams (Some privateParams) encrypted
    fingerprint None = Ok data.
Proof.
  intros Henc Hpriv Hinv.
  destruct (inverts_algorithm _ _ _ _ _ _ _ _ Hinv) as [c [-> Hc]].
  unfold Decryption.inverts in Hinv.
  unfold Crypto.publicKeyEncrypt in Henc. unfold Crypto.publicKeyDecrypt.
  cbn [In] in Hc.
  destruct Hc as [<- | [<- | [<- | [<- | [<- | [<- | [<- | [<- | []]]]]]]]];
    revert Henc Hpriv Hinv; eval_cases; intros Henc Hpriv Hinv.
  - (* rsaEncrypt *)
    destruct Hinv as (d & p & q & u & Hd & Hp & Hq & Hu & H).
    break_bind Henc. injection Henc as <-.
    settle. eapply H; first [eassumption|reflexivity].
  - (* rsaEncryptSign *)
    destruct Hinv as (d & p & q & u & Hd & Hp & Hq & Hu & H).
    break_bind Henc. injection Henc as <-.
    settle. eapply H; first [eassumption|reflexivity].
  - (* elgamal *)
    destruct Hinv as (x & Hx & H).
    break_bind Henc.
    destruct (H _ _ _ _ eq_refl eq_refl eq_refl Henc) as (c1 & c2 & Hc1 & Hc2 & Hdec).
    settle. first [exact Hdec|reflexivity].
  - (* ecdh *)
    destruct Hinv as (d & Hd & H).
    break_bind Henc. injection Henc as <-.
    settle.
    eapply H; first [eassumption|reflexivity].
  - (* x25519 *)
    destruct Hinv as (Hsym & k & Hk & H).
    destruct (truthy symmetricAlgo && negb (util.isAES symmetricAlgo));
      [discriminate Henc|].
    break_bind Henc. injection Henc as <-.
    settle.
    assert (Hok : negb (strict_eq symmetricAlgo JNull)
                  && negb (util.isAES symmetricAlgo) = false).
    { destruct Hsym as [-> | ->]; [reflexivity|apply andb_false_r]. }
    rewrite Hok. settle. eapply H; first [eassumption|reflexivity].
  - (* x448 *)
    destruct Hinv as (Hsym & k & Hk & H).
    destruct (truthy symmetricAlgo && negb (util.isAES symmetricAlgo));
      [discriminate Henc|].
    break_bind Henc. injection Henc as <-.
    settle.
    assert (Hok : negb (strict_eq symmetricAlgo JNull)
                  && negb (util.isAES symmetricAlgo) = false).
    { destruct Hsym as [-> | ->]; [reflexivity|apply andb_false_r]. }
    rewrite Hok. settle. eapply H; first [eassumption|reflexivity].
  - (* aead *)
    rewrite (Hpriv eq_refl) in Henc.
    break_bind Henc. injection Henc as <-.
    settle.
    eapply Hinv; first [eassumption|reflexivity].
  - (* pqc_mlkem_x25519 *)
    destruct Hinv as (eccSecretKey & mlkemSecretKey & He & Hm & H).
    break_bind Henc. injection Henc as <-.
    settle.
    destruct (H _ _ eq_refl eq_refl) as (Hecc & Hml & Hkw).
    eapply kem_unwraps_what_it_wrapped; eassumption.
Qed.

(** X16.  [publicKeyDecrypt] returns what [publicKeyEncrypt] was given,
    for every algorithm that can encrypt (RSA, ElGamal, ECDH, X25519,
    X448, AEAD and ML-KEM with X25519), on a key whose primitives invert
    each other: decryption reads the fields that encryption wrote.  For
    X25519 and X448 the cipher passed along must be [null] or AES. *)
Theorem publicKeyDecrypt_inverts_publicKeyEncrypt
  (P : Primitives) (config : Config) (keyAlgo symmetricAlgo : jsval)
  (publicParams privateParams : params) (encryptionPrivateParams : option params)
  (data fingerprint : bytes) (encrypted : params) :
  Crypto.publicKeyEncrypt P config keyAlgo symmetricAlgo publicParams
    encryptionPrivateParams data fingerprint = Ok encrypted ->
  (case_of keyAlgo [enums.publicKey.aead] = true ->
   encryptionPrivateParams = Some privateParams) ->
  Decryption.inverts P config keyAlgo symmetricAlgo publicParams privateParams data
    fingerprint ->
  Crypto.publicKeyDecrypt P keyAlgo publicParams (Some privateParams) encrypted
    fingerprint None = Ok data.
Proof. apply decrypt_what_was_encrypted. Qed.

Lemma reference_decrypts_own_ciphertexts (data : bytes) :
  Decryption.inverts Reference.P Reference.config
    (JNum enums.publicKey.pqc_mlkem_x25519) JNull
    [("eccPublicKey", PBytes (repeat 13 32)); ("mlkemPublicKey", PBytes (repeat 15 1184))]%string
    [("eccSecretKey", PBytes (repeat 14 32)); ("mlkemSecretKey", PBytes (repeat 16 128))]%string
    data [].
Proof.
  unfold Decryption.inverts. eval_cases.
  exists (repeat 14 32), (repeat 16 128). split; [reflexivity|]. split; [reflexivity|].
  intros eccPublicKey mlkemPublicKey _ _. repeat split.
  - intros share ct H. injection H as <- <-. reflexivity.
  - intros ct share H. injection H as <- <-. reflexivity.
  - intros kek wrapped H. injection H as <-. apply reference_unwrap.
Qed.

Lemma publicKeyDecrypt_inverts_publicKeyEncrypt_witness :
  exists encrypted,
    Crypto.publicKeyEncrypt Reference.P Reference.config
      (JNum enums.publicKey.pqc_mlkem_x25519) JNull
      [("eccPublicKey", PBytes (repeat 13 32));
       ("mlkemPublicKey", PBytes (repeat 15 1184))]%string
      None (repeat 7 32) [] = Ok encrypted
    /\ Crypto.publicKeyDecrypt Reference.P (JNum enums.publicKey.pqc_mlkem_x25519)
         [("eccPublicKey", PBytes (repeat 13 32));
          ("mlkemPublicKey", PBytes (repeat 15 1184))]%string
         (Some [("eccSecretKey", PBytes (repeat 14 32));
                ("mlkemSecretKey", PBytes (repeat 16 128))]%string)
         encrypted [] None = Ok (repeat 7 32).
Proof.
  eexists. split; [vm_compute; reflexivity|].
  apply (publicKeyDecrypt_inverts_publicKeyEncrypt Reference.P Reference.config
           (JNum enums.publicKey.pqc_mlkem_x25519) JNull
           [("eccPublicKey", PBytes (repeat 13 32));
            ("mlkemPublicKey", PBytes (repeat 15 1184))]%string
           [("eccSecretKey", PBytes (repeat 14 32));
            ("mlkemSecretKey", PBytes (repeat 16 128))]%string
           None (repeat 7 32) []).
  - vm_compute. reflexivity.
  - intros H. vm_compute in H. discriminate H.
  - apply reference_decrypts_own_ciphertexts.
Defined.

(** ** The PKESK packet: [encrypt], then [decrypt] *)

Lemma publicKey_byValue_byName (n : Z) (name : string) :
  enums.byValue enums.publicKey.codes n = Some name ->
  enums.byName enums.publicKey.codes name = Some n.
Proof.
  unfold enums.publicKey.codes. cbn [enums.byValue].
  repeat match goal with
         | |- context [?c =? n] =>
             let E := fresh "E" in
             destruct (c =? n) eqn:E;
             [apply Z.eqb_eq in E; subst n; intros Heq; inversion Heq; subst name;
              reflexivity | clear E]
         end.
  discriminate.
Qed.

Lemma publicKey_write (v : jsval) (c : Z) :
  enums.write enums.publicKey.codes v = Ok c -> v = JNum c.
Proof.
  unfold enums.write.
  destruct (enums.read enums.publicKey.codes v) as [name|e] eqn:Hr; [|discriminate].
  apply enums_read_num in Hr as (n & -> & Hn).
  apply publicKey_byValue_byName in Hn. cbn [bind]. rewrite Hn.
  intros H. inversion H. reflexivity.
Qed.

Lemma checksummed_not_cleartext (keyAlgo : jsval) :
  case_of keyAlgo checksummedAlgorithms = true ->
  case_of keyAlgo PKESK.algosWithV3CleartextSessionKeyAlgorithm = false.
Proof.
  intros H. apply case_of_In in H as [c [Hc ->]]. cbn [In checksummedAlgorithms] in Hc.
  unfold checksummedAlgorithms in Hc. cbn [In] in Hc.
  destruct Hc as [<- | [<- | [<- | [<- | [<- | []]]]]]; reflexivity.
Qed.

(** X17.  A PKESK packet of version 3 or 6 that [encrypt] has filled is
    opened by [decrypt] with the matching key: the packet gets back the
    session key that was encrypted and keeps its cipher algorithm.  The
    primitives of the key must invert each other on the encoded session
    key; under version 3 the cipher must be registered, its key size
    must be the length of the session key, and that length must not be
    7 modulo 8. *)
Theorem pkesk_decrypt_recovers_session_key
  (P : Primitives) (config : Config) (key : PKESK.Key) (privateParams : params)
  (this encrypted : PKESK.packet) (sessionKeyData : bytes) :
  let cipher :=
    if strict_eq (PKESK.version this) (JNum 3) then PKESK.sessionKeyAlgorithm this
    else JNull in
  let fingerprint :=
    if strict_eq (PKESK.key_version key) (JNum 5)
    then Uint8Array.subarray (PKESK.key_fingerprintBytes key) 0 20
    else PKESK.key_fingerprintBytes key in
  PKESK.version this = JNum 3 \/ PKESK.version this = JNum 6 ->
  PKESK.sessionKey this = Some sessionKeyData ->
  PKESK.key_algorithm key = PKESK.publicKeyAlgorithm this ->
  PKESK.key_privateParams key = Some privateParams ->
  PKESK.encrypt P config key this = (encrypted, Ok tt) ->
  (forall encoded,
     PKESK.encodeSessionKey (PKESK.version this) (PKESK.publicKeyAlgorithm this) cipher
       sessionKeyData = Ok encoded ->
     Decryption.inverts P config (PKESK.publicKeyAlgorithm this) cipher
       (PKESK.key_publicParams key) privateParams encoded fingerprint) ->
  (PKESK.version this = JNum 3 ->
   Contracts.registeredCipher (PKESK.sessionKeyAlgorithm this)
   /\ len sessionKeyData mod 8 <> 7
   /\ exists c, getCipherParams P (PKESK.sessionKeyAlgorithm this) = Ok c
                /\ keySize c = len sessionKeyData) ->
  exists decrypted,
    PKESK.decrypt P key None encrypted = (decrypted, Ok tt)
    /\ PKESK.sessionKey decrypted = Some sessionKeyData
    /\ PKESK.sessionKeyAlgorithm decrypted = PKESK.sessionKeyAlgorithm this.
Proof.
  intros cipher fingerprint Hversion Hkey Halgo Hpriv Henc Hinv Hv3.
  unfold PKESK.encrypt in Henc.
  cbv beta iota delta [StateExn.sbind StateExn.sget StateExn.slift StateExn.smodify]
    in Henc.
  destruct (enums.write enums.publicKey.codes (PKESK.publicKeyAlgorithm this))
    as [algo|e] eqn:Ealgo; [|discriminate Henc].
  pose proof (publicKey_write _ _ Ealgo) as Hnum.
  rewrite Hkey in Henc. fold cipher fingerprint in Henc. rewrite <- Hnum in Henc.
  destruct (PKESK.encodeSessionKey (PKESK.version this) (PKESK.publicKeyAlgorithm this)
              cipher sessionKeyData) as [encoded|e] eqn:Eenc; [|discriminate Henc].
  destruct (Crypto.publicKeyEncrypt P config (PKESK.publicKeyAlgorithm this) cipher
              (PKESK.key_publicParams key) _ encoded fingerprint)
    as [enc|e] eqn:Epk; [|discriminate Henc].
  injection Henc as <-.
  assert (Hdec : Crypto.publicKeyDecrypt P (PKESK.publicKeyAlgorithm this)
                   (PKESK.key_publicParams key) (Some privateParams) enc fingerprint None
                 = Ok encoded).
  { apply (decrypt_what_was_encrypted P config _ cipher _ _ _ _ _ _ Epk).
    - rewrite Hnum. intros Ha. apply case_of_In in Ha as [c [[<- | []] Hc]].
      injection Hc as ->. now rewrite Z.eqb_refl.
    - now apply Hinv. }
  assert (Hdecoded :
    PKESK.decodeSessionKey (PKESK.version this) (PKESK.publicKeyAlgorithm this)
      encoded None
    = Ok {| PKESK.sk_sessionKeyAlgorithm :=
              if case_of (PKESK.publicKeyAlgorithm this) checksummedAlgorithms
                 && negb (strict_eq (PKESK.version this) (JNum 6))
              then cipher else JNull;
            PKESK.sk_sessionKey := sessionKeyData |}).
  { apply encodeSessionKey_decoded; [exact Eenc|].
    intros H6. destruct Hversion as [H3 | H6']; [|rewrite H6' in H6; discriminate H6].
    destruct (Hv3 H3) as [Hreg [H7 _]]. unfold cipher. rewrite H3. now split. }
  unfold PKESK.decrypt.
  cbv beta iota delta [StateExn.sbind StateExn.sget StateExn.slift StateExn.smodify
                       StateExn.sret StateExn.sthrow].
  cbn [PKESK.publicKeyAlgorithm PKESK.version PKESK.encrypted PKESK.sessionKeyAlgorithm
       PKESK.set_encrypted].
  rewrite Halgo, strict_eq_refl. cbn [negb]. rewrite Hpriv.
  fold fingerprint. rewrite Hdec, Hdecoded.
  destruct Hversion as [H3 | H6].
  - destruct (Hv3 H3) as [_ [_ [c [Hc Hsize]]]].
    rewrite H3. cbn [strict_eq Z.eqb Pos.eqb negb andb].
    assert (Hsame :
      (if negb (case_of (PKESK.publicKeyAlgorithm this)
                  PKESK.algosWithV3CleartextSessionKeyAlgorithm)
       then PKESK.sk_sessionKeyAlgorithm
              {| PKESK.sk_sessionKeyAlgorithm :=
                   if case_of (PKESK.publicKeyAlgorithm this) checksummedAlgorithms
                      && true
                   then cipher else JNull;
                 PKESK.sk_sessionKey := sessionKeyData |}
       else PKESK.sessionKeyAlgorithm this)
      = PKESK.sessionKeyAlgorithm this).
    { cbn [PKESK.sk_sessionKeyAlgorithm]. rewrite andb_true_r.
      destruct (case_of (PKESK.publicKeyAlgorithm this) checksummedAlgorithms) eqn:Ek.
      - rewrite (checksummed_not_cleartext _ Ek). cbn [negb].
        unfold cipher. now rewrite H3.
      - unfold PKESK.encodeSessionKey in Eenc.
        change [enums.publicKey.rsaEncrypt; enums.publicKey.rsaEncryptSign;
                enums.publicKey.elgamal; enums.publicKey.ecdh; enums.publicKey.aead]
          with checksummedAlgorithms in Eenc.
        rewrite Ek in Eenc.
        destruct (case_of (PKESK.publicKeyAlgorithm this)
                    PKESK.algosWithV3CleartextSessionKeyAlgorithm);
          [reflexivity|discriminate Eenc]. }
    rewrite Hsame.
    cbn [PKESK.sk_sessionKey PKESK.set_sessionKeyAlgorithm PKESK.set_sessionKey].
    rewrite Hc, Hsize, Z.eqb_refl. cbn [negb].
    eexists. split; [reflexivity|]. split; reflexivity.
  - rewrite H6. cbn [strict_eq Z.eqb Pos.eqb negb andb].
    eexists. split; [reflexivity|]. split; reflexivity.
Qed.

Lemma pkesk_decrypt_recovers_session_key_witness :
  exists encrypted,
    PKESK.encrypt Reference.P Reference.config
      {| PKESK.key_algorithm := JNum enums.publicKey.rsaEncryptSign;
         PKESK.key_version := JNum 4;
         PKESK.key_publicParams := [("n", PBytes [0xC5; 0x3B]); ("e", PBytes [1; 0; 1])]%string;
         PKESK.key_privateParams :=
           Some [("d", PBytes [0x5A; 0x11]); ("p", PBytes [0xD3]); ("q", PBytes [0xEF]);
                 ("u", PBytes [0x2C])]%string;
         PKESK.key_fingerprintBytes := repeat 1 20 |}
      (PKESK.set_sessionKeyAlgorithm (JNum enums.symmetric.aes128)
         (PKESK.set_sessionKey (Some (repeat 0xAA 16))
            (PKESK.set_publicKeyAlgorithm (JNum enums.publicKey.rsaEncryptSign)
               (PKESK.set_version (JNum 3) PKESK.constructor))))
    = (encrypted, Ok tt)
    /\ exists decrypted,
         PKESK.decrypt Reference.P
           {| PKESK.key_algorithm := JNum enums.publicKey.rsaEncryptSign;
              PKESK.key_version := JNum 4;
              PKESK.key_publicParams :=
                [("n", PBytes [0xC5; 0x3B]); ("e", PBytes [1; 0; 1])]%string;
              PKESK.key_privateParams :=
                Some [("d", PBytes [0x5A; 0x11]); ("p", PBytes [0xD3]);
                      ("q", PBytes [0xEF]); ("u", PBytes [0x2C])]%string;
              PKESK.key_fingerprintBytes := repeat 1 20 |}
           None encrypted = (decrypted, Ok tt)
         /\ PKESK.sessionKey decrypted = Some (repeat 0xAA 16)
         /\ PKESK.sessionKeyAlgorithm decrypted = JNum enums.symmetric.aes128.
Proof.
  eexists. split; [vm_compute; reflexivity|].
  apply (pkesk_decrypt_recovers_session_key Reference.P Reference.config
           {| PKESK.key_algorithm := JNum enums.publicKey.rsaEncryptSign;
              PKESK.key_version := JNum 4;
              PKESK.key_publicParams :=
                [("n", PBytes [0xC5; 0x3B]); ("e", PBytes [1; 0; 1])]%string;
              PKESK.key_privateParams :=
                Some [("d", PBytes [0x5A; 0x11]); ("p", PBytes [0xD3]);
                      ("q", PBytes [0xEF]); ("u", PBytes [0x2C])]%string;
              PKESK.key_fingerprintBytes := repeat 1 20 |}
           [("d", PBytes [0x5A; 0x11]); ("p", PBytes [0xD3]); ("q", PBytes [0xEF]);
            ("u", PBytes [0x2C])]%string
           (PKESK.set_sessionKeyAlgorithm (JNum enums.symmetric.aes128)
              (PKESK.set_sessionKey (Some (repeat 0xAA 16))
                 (PKESK.set_publicKeyAlgorithm (JNum enums.publicKey.rsaEncryptSign)
                    (PKESK.set_version (JNum 3) PKESK.constructor))))
           _ (repeat 0xAA 16)).
  - left. reflexivity.
  - reflexivity.
  - reflexivity.
  - reflexivity.
  - vm_compute. reflexivity.
  - intros encoded _. unfold Decryption.inverts.
    cbn [PKESK.publicKeyAlgorithm PKESK.set_sessionKeyAlgorithm PKESK.set_sessionKey
         PKESK.set_publicKeyAlgorithm]. eval_cases.
    exists [0x5A; 0x11], [0xD3], [0xEF], [0x2C]. repeat split.
    intros n e c _ _ H. injection H as <-. reflexivity.
  - intros _. split; [exists enums.symmetric.aes128; now split|].
    split; [vm_compute; discriminate|].
    eexists. split; reflexivity.
Defined.

(** ** Writing and reading a Secret-Key packet *)

Section SecretKeyCodec.
Import StateExn SecretKeyPacket SecretKeyHeader.
Variable P : Primitives.

Lemma falsy_octet (v : jsval) : truthy v = false -> Uint8Array.from [to_int32 v] = [0].
Proof.
  destruct v as [| |n]; try reflexivity. cbn [truthy to_int32].
  intros H. apply negb_false_iff, Z.eqb_eq in H. now subst.
Qed.

Lemma len_writeNumber (n octets : Z) :
  0 <= octets -> len (SecretKeyWriter.writeNumber n octets) = octets.
Proof.
  intros H. unfold SecretKeyWriter.writeNumber, len.
  rewrite length_map, length_seq. lia.
Qed.

Lemma write_cleartext (this : packet) (priv : params) (serialized : bytes) :
  unparseableKeyMaterial this = None ->
  truthy (s2kUsage this) = false ->
  isDummy this = false ->
  privateParams this = Some priv ->
  Crypto.serializeParams P (algorithm this) priv = Ok serialized ->
  SecretKeyWriter.write P this
  = (set_keyMaterial (Some serialized) this,
     Ok (SecretKeyWriter.cleartextPacket P this serialized)).
Proof.
  intros Hu Hs Hd Hp Hser. unfold SecretKeyWriter.write, SecretKeyWriter.optionalFields.
  cbv beta iota delta [sbind sget slift smodify sret].
  rewrite Hu, Hs, Hd, Hp. cbn [fromOption]. rewrite Hser.
  assert (Hc : case_of (s2kUsage this) [255; 254; 253] = false).
  { destruct (s2kUsage this) as [| |n]; try reflexivity. cbn [truthy] in Hs.
    apply negb_false_iff, Z.eqb_eq in Hs. now subst. }
  rewrite Hc. cbn [bind negb fromOption andb]. rewrite andb_false_r, orb_false_r.
  cbn [keyMaterial set_keyMaterial fromOption].
  rewrite (falsy_octet _ Hs). f_equal. f_equal.
  unfold SecretKeyWriter.cleartextPacket, util.concatUint8Array.
  destruct (strict_eq (version this) (JNum 5)) eqn:E5;
    destruct (strict_eq (version this) (JNum 6)) eqn:E6;
    cbn [negb app List.concat Uint8Array.from map len List.length];
    rewrite ?app_nil_r, <- ?app_assoc; reflexivity.
Qed.

Lemma get_middle (pre : bytes) (x : Z) (post : bytes) :
  Uint8Array.get (pre ++ x :: post) (len pre) = JNum x.
Proof.
  pose proof (len_nonneg pre) as Hn. pose proof (len_nonneg post) as Hp.
  rewrite get_in_range by (rewrite len_app, len_cons; lia).
  unfold len. rewrite Nat2Z.id. now rewrite nth_middle.
Qed.

Lemma subarray_without_checksum (body : bytes) (c0 c1 : Z) :
  Uint8Array.subarray (body ++ [c0; c1]) 0 (-2) = body.
Proof.
  pose proof (len_nonneg body) as Hn.
  unfold Uint8Array.subarray, Uint8Array.clamp. rewrite len_app.
  change (len [c0; c1]) with 2. change (0 <? 0) with false. change (-2 <? 0) with true.
  cbv iota. rewrite Z.min_l by lia. rewrite Z.max_l by lia.
  replace (Z.to_nat (len body + 2 + -2 - 0)) with (List.length body)
    by (unfold len; lia).
  cbn [Z.to_nat skipn]. apply firstn_app_exact.
Qed.

Lemma subarray_checksum (body : bytes) (c0 c1 : Z) :
  Uint8Array.subarray_from (body ++ [c0; c1]) (-2) = [c0; c1].
Proof.
  pose proof (len_nonneg body) as Hn.
  unfold Uint8Array.subarray_from, Uint8Array.subarray, Uint8Array.clamp.
  rewrite len_app. change (len [c0; c1]) with 2. change (-2 <? 0) with true.
  destruct (len body + 2 <? 0) eqn:E; [lia|]. cbv iota.
  rewrite Z.max_l by lia. rewrite Z.min_id.
  replace (Z.to_nat (len body + 2 + -2)) with (List.length body) by (unfold len; lia).
  rewrite skipn_app_exact.
  replace (Z.to_nat (len body + 2 - (len body + 2 + -2))) with 2%nat by lia.
  reflexivity.
Qed.

Lemma readS2K_cleartext (buf : bytes) (config : Config) (p : packet) (i : Z) :
  s2kUsage p = JNum 0 -> readS2K P buf config (p, i) = ((p, i), Ok false).
Proof.
  intros Hu. unfold readS2K.
  cbv beta iota delta [sbind getThis]. rewrite Hu. eval_cases.
  cbn [truthy Z.eqb negb]. unfold readIV.
  cbv beta iota delta [sbind getThis sret]. rewrite Hu. reflexivity.
Qed.

Lemma readKeyMaterial_cleartext (prefix serialized : bytes) (parsed : params)
    (p : packet) :
  s2kUsage p = JNum 0 ->
  Crypto.parsePrivateKeyParams P (algorithm p) serialized (publicParams p)
  = Ok (len serialized, parsed) ->
  exists final i,
    readKeyMaterial P
      (prefix
       ++ (if strict_eq (version p) (JNum 5)
           then SecretKeyWriter.writeNumber (len serialized) 4 else [])
       ++ serialized
       ++ (if strict_eq (version p) (JNum 6) then [] else util.writeChecksum serialized))
      (p, len prefix)
    = ((final, i), Ok tt)
    /\ pub final = pub p /\ isEncrypted final = Some false
    /\ s2kUsage final = JNum 0 /\ privateParams final = Some parsed.
Proof.
  intros Hu Hparse. unfold readKeyMaterial.
  cbv beta iota delta [sbind getThis sret advance position onThis smodify sthrow].
  rewrite Hu. cbn [truthy Z.eqb negb].
  destruct (writeChecksum_pair serialized) as [c0 [c1 Hck]].
  assert (Hkm :
    Uint8Array.subarray_from
      (prefix
       ++ (if strict_eq (version p) (JNum 5)
           then SecretKeyWriter.writeNumber (len serialized) 4 else [])
       ++ serialized
       ++ (if strict_eq (version p) (JNum 6) then [] else util.writeChecksum serialized))
      (if strict_eq (version p) (JNum 5) then len prefix + 4 else len prefix)
    = serialized
      ++ (if strict_eq (version p) (JNum 6) then [] else util.writeChecksum serialized)).
  { destruct (strict_eq (version p) (JNum 5)).
    - rewrite app_assoc. rewrite <- (len_writeNumber (len serialized) 4) at 2 by lia.
      rewrite <- len_app. apply subarray_from_app.
    - cbn [app]. apply subarray_from_app. }
  destruct (strict_eq (version p) (JNum 5)) eqn:E5;
    destruct (strict_eq (version p) (JNum 6)) eqn:E6;
    cbv beta iota in Hkm |- *; rewrite Hkm.
  - rewrite app_nil_r, Hparse, Z.ltb_irrefl.
    eexists _, _. split; [reflexivity|]. repeat split; assumption.
  - rewrite Hck, subarray_without_checksum, subarray_checksum, Hck,
      equalsUint8Array_refl. cbn [negb]. cbv beta iota. rewrite Hparse, Z.ltb_irrefl.
    eexists _, _. split; [reflexivity|]. repeat split; assumption.
  - rewrite app_nil_r, Hparse, Z.ltb_irrefl.
    eexists _, _. split; [reflexivity|]. repeat split; assumption.
  - rewrite Hck, subarray_without_checksum, subarray_checksum, Hck,
      equalsUint8Array_refl. cbn [negb]. cbv beta iota. rewrite Hparse, Z.ltb_irrefl.
    eexists _, _. split; [reflexivity|]. repeat split; assumption.
Qed.

Lemma cleartextPacket_usage (this : packet) (serialized : bytes) :
  Uint8Array.get (SecretKeyWriter.cleartextPacket P this serialized)
    (len (writePublicKey P (pub this))) = JNum 0.
Proof.
  unfold SecretKeyWriter.cleartextPacket. rewrite <- !app_assoc. cbn [app].
  apply get_middle.
Qed.

Lemma read_cleartext (this that : packet) (config : Config) (serialized : bytes)
    (parsed : params) :
  readPublicKey P (SecretKeyWriter.cleartextPacket P this serialized) config
  = Ok (pub this, len (writePublicKey P (pub this))) ->
  Crypto.parsePrivateKeyParams P (algorithm this) serialized (publicParams this)
  = Ok (len serialized, parsed) ->
  exists final,
    read P (SecretKeyWriter.cleartextPacket P this serialized) config that
    = (final, Ok tt)
    /\ pub final = pub this /\ isEncrypted final = Some false
    /\ s2kUsage final = JNum 0 /\ privateParams final = Some parsed.
Proof.
  intros Hpub Hparse. unfold read.
  cbv beta iota delta [sbind slift].
  rewrite Hpub.
  cbv beta iota delta [sbind slift onThis smodify advance nextByte sret stry].
  rewrite cleartextPacket_usage. cbn [truthy Z.eqb negb]. rewrite andb_false_r.
  set (p := set_s2kUsage (JNum 0) (set_pub (pub this) that)).
  assert (Hu : s2kUsage p = JNum 0) by reflexivity.
  assert (Hparse' : Crypto.parsePrivateKeyParams P (algorithm p) serialized
                      (publicParams p) = Ok (len serialized, parsed)) by exact Hparse.
  assert (Hv : version p = version this) by reflexivity.
  change (pk_version (pub this)) with (version this).
  destruct (readKeyMaterial_cleartext
              (writePublicKey P (pub this) ++ [0]
               ++ (if strict_eq (version this) (JNum 5) then [0] else []))
              serialized parsed p Hu Hparse')
    as [final [i [Hread [Hfpub [Henc [Hfu Hpriv]]]]]].
  rewrite Hv in Hread.
  fold (SecretKeyWriter.cleartextPacket P this serialized) in Hread.
  assert (Hpos :
    len (writePublicKey P (pub this) ++ [0]
         ++ (if strict_eq (version this) (JNum 5) then [0] else []))
    = (if strict_eq (version this) (JNum 5)
       then len (writePublicKey P (pub this)) + 1 + 1
       else len (writePublicKey P (pub this)) + 1)).
  { destruct (strict_eq (version this) (JNum 5)); rewrite !len_app;
      [change (len [0]) with 1|change (len [0]) with 1; change (len []) with 0]; lia. }
  rewrite Hpos in Hread.
  exists final.
  destruct (strict_eq (version this) (JNum 5)); cbv beta iota;
    rewrite readS2K_cleartext by exact Hu; cbv beta iota;
    rewrite Z.add_0_l, Hread; repeat split; assumption.
Qed.

Lemma readIV_header fields u rest specifier b buf config :
  StateLogic.stable
    (fun s : packet * Z => parsed_header fields u rest specifier b (fst s))
    (readIV P buf config).
Proof. unfold readIV. stable_steps; kept. Qed.

Lemma readS2K_header fields u rest specifier buf config :
  StateLogic.stable
    (fun s : packet * Z =>
       parsed_header fields u rest specifier (case_of u [255; 254; 253]) (fst s))
    (readS2K P buf config).
Proof.
  intros [p j] HQ. cbn [fst] in HQ.
  assert (Hu : s2kUsage p = u) by apply HQ.
  unfold readS2K.
  change (sbind getThis ?k (p, j)) with (k p (p, j)). cbv beta. rewrite Hu.
  destruct (case_of u [255; 254; 253]) eqn:Ec.
  - assert (Hweak : forall q, parsed_header fields u rest specifier true q <->
                              parsed_header fields u rest None true q).
    { intros q. unfold parsed_header. intuition discriminate. }
    apply Hweak in HQ.
    match goal with
    | |- parsed_header _ _ _ _ _ (fst (fst (?m (p, j)))) =>
        assert (Hm : StateLogic.stable
                       (fun s : packet * Z =>
                          parsed_header fields u rest None true (fst s)) m)
    end.
    { stable_steps; try kept; try apply readIV_header;
        match goal with
        | H : parsed_header _ _ _ _ _ _ |- _ =>
            destruct H as (H1 & H2 & H3 & _); repeat split; try assumption;
            intros Hf; discriminate Hf
        end. }
    apply Hweak. exact (Hm (p, j) HQ).
  - match goal with
    | |- parsed_header _ _ _ _ _ (fst (fst (?m (p, j)))) =>
        assert (Hm : StateLogic.stable
                       (fun s : packet * Z =>
                          parsed_header fields u rest specifier false (fst s)) m)
    end.
    { stable_steps; try kept; apply readIV_header. }
    exact (Hm (p, j) HQ).
Qed.

Lemma readKeyMaterial_header fields u rest specifier b buf :
  StateLogic.stable
    (fun s : packet * Z => parsed_header fields u rest specifier b (fst s))
    (readKeyMaterial P buf).
Proof. unfold readKeyMaterial. stable_steps; kept. Qed.

Lemma sbind_slift_Ok {S A B : Type} (a : A) (k : A -> stx S B) (s : S) :
  sbind (slift (Ok a)) k s = k a s.
Proof. reflexivity. Qed.

Lemma sbind_slift_Throw {S A B : Type} (e : exn) (k : A -> stx S B) (s : S) :
  sbind (slift (Throw e)) k s = (s, Throw e).
Proof. reflexivity. Qed.

(** What a packet holds after [read] has returned. *)
Lemma read_header (buf : bytes) (config : Config) (that final : packet) :
  unparseableKeyMaterial that = None ->
  read P buf config that = (final, Ok tt) ->
  exists fields i,
    readPublicKey P buf config = Ok (fields, i)
    /\ parsed_header fields (Uint8Array.get buf i) (Uint8Array.subarray_from buf i)
         (s2k that) (case_of (Uint8Array.get buf i) [255; 254; 253]) final.
Proof.
  intros Hnone. unfold read.
  destruct (readPublicKey P buf config) as [[fields i]|e] eqn:Epk.
  2:{ rewrite sbind_slift_Throw. intros H. discriminate H. }
  rewrite sbind_slift_Ok. cbv beta iota.
  exists fields, i. split; [reflexivity|].
  revert H.
  change (sbind (onThis (smodify (set_pub fields))) ?k (that, 0))
    with (k tt (set_pub fields that, 0)).
  cbv beta.
  change (sbind (advance i) ?k (set_pub fields that, 0))
    with (k tt (set_pub fields that, 0 + i)).
  cbv beta.
  change (sbind (nextByte buf) ?k (set_pub fields that, 0 + i))
    with (k (Uint8Array.get buf (0 + i)) (set_pub fields that, 0 + i + 1)).
  cbv beta.
  change (sbind (onThis (smodify (set_s2kUsage (Uint8Array.get buf (0 + i))))) ?k
            (set_pub fields that, 0 + i + 1))
    with (k tt (set_s2kUsage (Uint8Array.get buf (0 + i)) (set_pub fields that),
                0 + i + 1)).
  cbv beta. rewrite !Z.add_0_l.
  set (u := Uint8Array.get buf i).
  set (start := (set_s2kUsage u (set_pub fields that), i + 1)).
  match goal with
  | |- (let '(_, _) := ?m start in _) = _ -> _ =>
      assert (Hm : StateLogic.stable
                     (fun s : packet * Z =>
                        parsed_header fields u (Uint8Array.subarray_from buf i)
                          (s2k that) (case_of u [255; 254; 253]) (fst s)) m)
  end.
  { stable_steps; try kept.
    - apply stable_stry; [apply readS2K_header|intros e].
      stable_steps; try kept.
      match goal with
      | H : parsed_header _ _ _ _ _ _ |- _ =>
          destruct H as (H1 & H2 & H3 & H4); repeat split; try assumption;
          right; reflexivity
      end.
    - apply readKeyMaterial_header. }
  match goal with
  | |- (let '(_, _) := ?m start in _) = _ -> _ =>
      specialize (Hm start); destruct (m start) as [[p' j] r]
  end.
  intros H. injection H as <- _. apply Hm. unfold start. cbn [fst].
  repeat split; auto.
Qed.

End SecretKeyCodec.

(** X18.  A key that is not encrypted is read back as it was written:
    [read] of the bytes of [write] restores the public part and the
    private parameters (those that are serialized) and marks the packet
    decrypted, for every version.  This relies on the public part being
    read back as written, and on the private parameters of the
    algorithm surviving their own round trip. *)
Theorem secret_key_write_read_round_trip
  (P : Primitives) (this that : SecretKeyPacket.packet) (privateParams : params)
  (config : Config) :
  SecretKeyPacket.unparseableKeyMaterial this = None ->
  truthy (SecretKeyPacket.s2kUsage this) = false ->
  SecretKeyPacket.isDummy this = false ->
  SecretKeyPacket.privateParams this = Some privateParams ->
  (forall rest,
     readPublicKey P (writePublicKey P (SecretKeyPacket.pub this) ++ rest) config
     = Ok (SecretKeyPacket.pub this, len (writePublicKey P (SecretKeyPacket.pub this)))) ->
  Contracts.privateRoundTrip P (SecretKeyPacket.algorithm this) privateParams
    (SecretKeyPacket.publicParams this) ->
  exists written packetBytes final parsed,
    SecretKeyWriter.write P this = (written, Ok packetBytes)
    /\ SecretKeyPacket.read P packetBytes config that = (final, Ok tt)
    /\ SecretKeyPacket.pub final = SecretKeyPacket.pub this
    /\ SecretKeyPacket.isEncrypted final = Some false
    /\ SecretKeyPacket.privateParams final = Some parsed
    /\ Contracts.agreeOn
         (fun name => negb (Crypto.excludedFields (SecretKeyPacket.algorithm this) name))
         parsed privateParams.
Proof.
  intros Hu Hs Hd Hp Hcodec [serialized [parsed [Hser [Hparse Hagree]]]].
  destruct (read_cleartext P this that config serialized parsed)
    as [final [Hread [Hpub [Henc [_ Hpriv]]]]].
  - unfold SecretKeyWriter.cleartextPacket. rewrite <- !app_assoc. apply Hcodec.
  - exact Hparse.
  - eexists _, _, final, parsed.
    split; [apply (write_cleartext P this _ _ Hu Hs Hd Hp Hser)|].
    repeat split; assumption.
Qed.

Lemma secret_key_write_read_round_trip_witness :
  exists written packetBytes final parsed,
    SecretKeyWriter.write ReferenceCodec.P
      (SecretKeyPacket.set_privateParams (Some [("seed", PBytes (repeat 1 32))]%string)
         (SecretKeyPacket.constructor
            {| pk_version := JNum 4; pk_algorithm := JNum enums.publicKey.ed25519;
               pk_publicParams := [] |}))
    = (written, Ok packetBytes)
    /\ SecretKeyPacket.read ReferenceCodec.P packetBytes Reference.config
         (SecretKeyPacket.constructor
            {| pk_version := JNull; pk_algorithm := JNull; pk_publicParams := [] |})
       = (final, Ok tt)
    /\ SecretKeyPacket.pub final
       = {| pk_version := JNum 4; pk_algorithm := JNum enums.publicKey.ed25519;
            pk_publicParams := [] |}
    /\ SecretKeyPacket.isEncrypted final = Some false
    /\ SecretKeyPacket.privateParams final = Some parsed
    /\ Contracts.agreeOn
         (fun name => negb (Crypto.excludedFields (JNum enums.publicKey.ed25519) name))
         parsed [("seed", PBytes (repeat 1 32))]%string.
Proof.
  apply (secret_key_write_read_round_trip ReferenceCodec.P
           (SecretKeyPacket.set_privateParams (Some [("seed", PBytes (repeat 1 32))]%string)
              (SecretKeyPacket.constructor
                 {| pk_version := JNum 4; pk_algorithm := JNum enums.publicKey.ed25519;
                    pk_publicParams := [] |}))
           (SecretKeyPacket.constructor
              {| pk_version := JNull; pk_algorithm := JNull; pk_publicParams := [] |})
           [("seed", PBytes (repeat 1 32))]%string Reference.config).
  - reflexivity.
  - reflexivity.
  - reflexivity.
  - reflexivity.
  - intros rest. reflexivity.
  - exists (repeat 1 32), [("seed", PBytes (repeat 1 32))]%string.
    split; [reflexivity|]. split; [vm_compute; reflexivity|].
    intros name _. reflexivity.
Defined.

(** X19.  A key whose secret part [read] could not parse is written
    back byte for byte: when [read] has marked the key material as
    unparseable, [write] returns the buffer that was read.  This relies
    on the public part being written as it was read. *)
Theorem unparseable_secret_key_is_written_back
  (P : Primitives) (buf : bytes) (config : Config)
  (that final : SecretKeyPacket.packet) :
  SecretKeyPacket.unparseableKeyMaterial that = None ->
  SecretKeyPacket.read P buf config that = (final, Ok tt) ->
  SecretKeyPacket.unparseableKeyMaterial final <> None ->
  (forall fields i,
     readPublicKey P buf config = Ok (fields, i) ->
     0 <= i <= len buf /\ writePublicKey P fields = Uint8Array.subarray buf 0 i) ->
  SecretKeyWriter.write P final = (final, Ok buf).
Proof.
  intros Hnone Hread Hmarked Hcodec.
  destruct (read_header P buf config that final Hnone Hread)
    as [fields [i [Hpk (Hpub & _ & Hrest & _)]]].
  destruct (Hcodec fields i Hpk) as [Hi Hwritten].
  destruct Hrest as [Hn | Hrest]; [contradiction|].
  unfold SecretKeyWriter.write.
  cbv beta iota delta [StateExn.sbind StateExn.sget StateExn.sret].
  rewrite Hrest, Hpub, Hwritten. f_equal. f_equal.
  unfold util.concatUint8Array. cbn [List.concat]. rewrite app_nil_r.
  rewrite subarray_prefix, subarray_from_nonneg by exact Hi.
  apply firstn_skipn.
Qed.

Lemma unparseable_secret_key_is_written_back_witness :
  exists final,
    SecretKeyPacket.read ReferenceCodec.P [4; 27; 254; 9; 77; 1; 2; 3] Reference.config
      (SecretKeyPacket.constructor
         {| pk_version := JNull; pk_algorithm := JNull; pk_publicParams := [] |})
    = (final, Ok tt)
    /\ SecretKeyPacket.unparseableKeyMaterial final <> None
    /\ SecretKeyWriter.write ReferenceCodec.P final
       = (final, Ok [4; 27; 254; 9; 77; 1; 2; 3]).
Proof.
  eexists. split; [vm_compute; reflexivity|]. split; [discriminate|].
  apply (unparseable_secret_key_is_written_back ReferenceCodec.P
           [4; 27; 254; 9; 77; 1; 2; 3] Reference.config
           (SecretKeyPacket.constructor
              {| pk_version := JNull; pk_algorithm := JNull; pk_publicParams := [] |})).
  - reflexivity.
  - vm_compute. reflexivity.
  - discriminate.
  - intros fields i H. vm_compute in H. injection H as <- <-. split; [vm_compute|reflexivity].
    split; discriminate.
Defined.

(** X20.  A key read with a usage octet that names a cipher (the legacy
    protection without a string-to-key specifier) cannot be written:
    [read] accepts it and leaves [s2k] unset, and [write] then fails on
    [this.s2k.type] with a [TypeError]. *)
Theorem legacy_usage_octet_is_not_written
  (P : Primitives) (buf : bytes) (config : Config)
  (that final : SecretKeyPacket.packet) :
  SecretKeyPacket.unparseableKeyMaterial that = None ->
  SecretKeyPacket.s2k that = None ->
  SecretKeyPacket.read P buf config that = (final, Ok tt) ->
  SecretKeyPacket.unparseableKeyMaterial final = None ->
  truthy (SecretKeyPacket.s2kUsage final) = true ->
  case_of (SecretKeyPacket.s2kUsage final) [255; 254; 253] = false ->
  SecretKeyWriter.write P final = (final, Throw (TypeError "s2k")).
Proof.
  intros Hnone Hs2k Hread Hparsed Htruthy Hlegacy.
  destruct (read_header P buf config that final Hnone Hread)
    as [fields [i [Hpk (Hpub & Hu & _ & Hspec)]]].
  rewrite <- Hu in Hspec. specialize (Hspec Hlegacy). rewrite Hs2k in Hspec.
  unfold SecretKeyWriter.write, SecretKeyWriter.optionalFields.
  cbv beta iota delta [StateExn.sbind StateExn.sget StateExn.sret StateExn.slift].
  now rewrite Hparsed, Hlegacy, Htruthy, Hspec.
Qed.

Lemma legacy_usage_octet_is_not_written_witness :
  exists final,
    SecretKeyPacket.read ReferenceCodec.P ([4; 27; 9] ++ repeat 5 16 ++ [1; 2; 3])
      Reference.config
      (SecretKeyPacket.constructor
         {| pk_version := JNull; pk_algorithm := JNull; pk_publicParams := [] |})
    = (final, Ok tt)
    /\ SecretKeyWriter.write ReferenceCodec.P final = (final, Throw (TypeError "s2k")).
Proof.
  eexists. split; [vm_compute; reflexivity|].
  apply (legacy_usage_octet_is_not_written ReferenceCodec.P
           ([4; 27; 9] ++ repeat 5 16 ++ [1; 2; 3]) Reference.config
           (SecretKeyPacket.constructor
              {| pk_version := JNull; pk_algorithm := JNull; pk_publicParams := [] |}));
    vm_compute; reflexivity.
Defined.

(** ** Protecting a secret key: [encrypt], then [decrypt] *)

Section SecretKeyProtection.
Import StateExn SecretKeyPacket.
Variable P : Primitives.

Lemma subarray_without_digest (body digest : bytes) :
  len digest = 20 -> Uint8Array.subarray (body ++ digest) 0 (-20) = body.
Proof.
  intros Hd. pose proof (len_nonneg body) as Hn.
  unfold Uint8Array.subarray, Uint8Array.clamp. rewrite len_app, Hd.
  change (0 <? 0) with false. change (-20 <? 0) with true.
  cbv iota. rewrite Z.min_l by lia. rewrite Z.max_l by lia.
  replace (Z.to_nat (len body + 20 + -20 - 0)) with (List.length body)
    by (unfold len; lia).
  cbn [Z.to_nat skipn]. apply firstn_app_exact.
Qed.

Lemma subarray_digest (body digest : bytes) :
  len digest = 20 -> Uint8Array.subarray_from (body ++ digest) (-20) = digest.
Proof.
  intros Hd. pose proof (len_nonneg body) as Hn.
  unfold Uint8Array.subarray_from, Uint8Array.subarray, Uint8Array.clamp.
  rewrite len_app, Hd. change (-20 <? 0) with true.
  destruct (len body + 20 <? 0) eqn:E; [lia|]. cbv iota.
  rewrite Z.max_l by lia. rewrite Z.min_id.
  replace (Z.to_nat (len body + 20 + -20)) with (List.length body) by (unfold len; lia).
  rewrite skipn_app_exact. apply firstn_all2. unfold len in Hd. lia.
Qed.

Ltac fields :=
  cbn [SecretKeyPacket.pub SecretKeyPacket.keyMaterial SecretKeyPacket.isEncrypted
       SecretKeyPacket.s2kUsage SecretKeyPacket.s2k SecretKeyPacket.symmetric
       SecretKeyPacket.aead SecretKeyPacket.isLegacyAEAD SecretKeyPacket.privateParams
       SecretKeyPacket.usedModernAEAD SecretKeyPacket.iv
       SecretKeyPacket.unparseableKeyMaterial
       SecretKeyPacket.set_pub SecretKeyPacket.set_keyMaterial
       SecretKeyPacket.set_isEncrypted SecretKeyPacket.set_s2kUsage
       SecretKeyPacket.set_s2k SecretKeyPacket.set_symmetric SecretKeyPacket.set_aead
       SecretKeyPacket.set_isLegacyAEAD SecretKeyPacket.set_privateParams
       SecretKeyPacket.set_usedModernAEAD SecretKeyPacket.set_iv
       SecretKeyPacket.set_unparseableKeyMaterial
       SecretKeyPacket.version SecretKeyPacket.algorithm SecretKeyPacket.publicParams
       SecretKeyPacket.isDummy SecretKeyPacket.isDecrypted
       SecretKeyPacket.isMissingSecretKeyMaterial SecretKeyPacket.istrue
       SecretKeyPacket.fromOption].

Lemma produceEncryptionKey_without_aead (keyVersion : jsval) (s : S2K)
    (passphrase : string) (cipherAlgo aeadMode : jsval) (tagBytes : option bytes)
    (legacy : option bool) :
  truthy aeadMode = false ->
  produceEncryptionKey P keyVersion s passphrase cipherAlgo aeadMode tagBytes legacy
  = produceEncryptionKey P keyVersion s passphrase cipherAlgo JUndefined None None.
Proof.
  intros H. unfold produceEncryptionKey. rewrite H. reflexivity.
Qed.

(** X21.  Locking a secret key and unlocking it again gives the key
    back: when [encrypt] succeeds on a decrypted key, [clearPrivateParams]
    drops the private parameters, and [decrypt] with the same passphrase
    succeeds, marks the packet as decrypted and restores the private
    parameters (up to the fields the serialisation of the algorithm
    leaves out).  With [config.aeadProtect] off the packet must not carry
    an AEAD mode from an earlier protection, since [encrypt] leaves the
    [aead] field as it is there and [decrypt] derives the key from it. *)
Theorem secret_key_encrypt_decrypt_round_trip (passphrase : string) (config : Config)
    (this encrypted : packet) (priv : params) :
  Protection.CiphersSpec P ->
  isDummy this = false ->
  unparseableKeyMaterial this = None ->
  privateParams this = Some priv ->
  (aeadProtect config = false -> truthy (aead this) = false) ->
  Contracts.privateRoundTrip P (algorithm this) priv (publicParams this) ->
  encrypt P passphrase config this = (encrypted, Ok tt) ->
  isDummy encrypted = false ->
  exists decrypted parsed,
    decrypt P passphrase (fst (clearPrivateParams encrypted)) = (decrypted, Ok None)
    /\ isEncrypted decrypted = Some false
    /\ privateParams decrypted = Some parsed
    /\ Contracts.agreeOn
         (fun name => negb (Crypto.excludedFields (algorithm this) name)) parsed priv.
Proof.
  intros HC Hdummy Hunp Hpriv Haead [cleartext [parsed [Hser [Hparse Hagree]]]] Henc Hdummy'.
  unfold encrypt in Henc. unfold version, algorithm, publicParams in *.
  cbv beta iota delta [sbind sget sret sthrow slift smodify] in Henc.
  rewrite Hdummy, Hpriv in Henc.
  destruct (negb (isDecrypted this)) eqn:Edec; [discriminate Henc|].
  destruct (falsyString passphrase) eqn:Epass; [discriminate Henc|].
  cbn [fromOption] in Henc. rewrite Hser in Henc.
  destruct (getCipherParams P (JNum enums.symmetric.aes256)) as [cipher|e] eqn:Ecipher;
    [|discriminate Henc].
  destruct (aeadProtect config) eqn:Eprot.
  - destruct (getAEADMode_ivLength P (JNum (preferredAEADAlgorithm config)))
      as [ivLength|e] eqn:Eiv; [|discriminate Henc].
    destruct (produceEncryptionKey P _ _ passphrase _ _ _ _)
      as [key|e] eqn:Ekey; [|discriminate Henc].
    destruct (aead_encrypt P _ _ key _ _ _) as [sealed|e] eqn:Eseal; [|discriminate Henc].
    injection Henc as <-. unfold isDummy in Hdummy'. revert Hdummy'. fields. intros Hdummy'.
    unfold clearPrivateParams, isMissingSecretKeyMaterial, isDummy.
    cbv beta iota delta [sbind sget sret sthrow slift smodify].
    fields. rewrite Hunp, Hdummy', Hpriv. cbn [fst fromOption].
    unfold decrypt, isDummy, version, algorithm, publicParams. cbv beta iota delta [sbind sget sret sthrow slift smodify].
    fields. rewrite Hunp, Hdummy'. eval_cases. cbn [bind fromOption strict_eq Z.eqb Pos.eqb].
    revert Ekey Eseal.
    destruct (strict_eq (pk_version (pub this)) (JNum 5)); intros Ekey Eseal;
      rewrite Ekey, Eiv; cbn [bind fromOption];
      rewrite (Protection.aead_inverse P HC _ _ _ _ _ _ _ Eseal);
      rewrite Hparse; (eexists _, parsed; split; [reflexivity|]; now repeat split).
  - destruct (produceEncryptionKey P (pk_version (pub this))
                (s2k_generateSalt P (newS2KFromConfig P config)) passphrase
                (JNum enums.symmetric.aes256) JUndefined None None)
      as [key|e] eqn:Ekey; [|discriminate Henc].
    destruct (computeDigest P enums.hash.sha1 _) as [digest|e] eqn:Edigest;
      [|discriminate Henc].
    destruct (cfb_encrypt P _ key _ _) as [sealed|e] eqn:Eseal; [|discriminate Henc].
    injection Henc as <-. unfold isDummy in Hdummy'. revert Hdummy'. fields. intros Hdummy'.
    unfold clearPrivateParams, isMissingSecretKeyMaterial, isDummy.
    cbv beta iota delta [sbind sget sret sthrow slift smodify].
    fields. rewrite Hunp, Hdummy', Hpriv. cbn [fst fromOption].
    unfold decrypt, isDummy, version, algorithm, publicParams. cbv beta iota delta [sbind sget sret sthrow slift smodify].
    fields. rewrite Hunp, Hdummy'. eval_cases. cbn [bind fromOption strict_eq Z.eqb Pos.eqb].
    rewrite (produceEncryptionKey_without_aead _ _ _ _ _ _ _ (Haead eq_refl)), Ekey.
    cbn [bind fromOption].
    rewrite (Protection.cfb_inverse P HC _ _ _ _ _ Eseal). cbn [bind].
    pose proof (Protection.sha1_length P HC _ _ Edigest) as Hlen.
    unfold util.concatUint8Array. cbn [List.concat]. rewrite app_nil_r.
    rewrite (subarray_without_digest _ _ Hlen), (subarray_digest _ _ Hlen), Edigest.
    cbn [bind]. rewrite equalsUint8Array_refl. cbn [negb].
    rewrite Hparse. eexists _, parsed. split; [reflexivity|]. now repeat split.
Qed.

End SecretKeyProtection.

Lemma reference_protection : Protection.CiphersSpec Reference.P.
Proof.
  split.
  - intros mode cipher key data iv associated sealed H.
    cbn [aead_encrypt aead_decrypt Reference.P] in *. injection H as <-.
    unfold Reference.open.
    assert (Hn : (List.length (Reference.seal key data iv associated) - 16)%nat
                 = List.length data).
    { unfold Reference.seal. rewrite length_app, length_firstn.
      pose proof (sha3_256_length (key ++ iv ++ associated ++ data)) as Hl.
      unfold len in Hl. lia. }
    cbv zeta. rewrite Hn.
    assert (Hd : firstn (List.length data) (Reference.seal key data iv associated) = data).
    { unfold Reference.seal. apply firstn_app_exact. }
    rewrite Hd, equalsUint8Array_refl. reflexivity.
  - intros cipher key data iv encrypted H.
    cbn [cfb_encrypt cfb_decrypt Reference.P] in *. now injection H as <-.
  - intros data digest H.
    change (Ok (firstn 20 (SHA3.sha3_256 (1 :: data))) = Ok digest) in H.
    replace digest with (firstn 20 (SHA3.sha3_256 (1 :: data))) by congruence.
    pose proof (sha3_256_length (1 :: data)) as Hl.
    unfold len in *. rewrite length_firstn. lia.
Qed.

Lemma secret_key_encrypt_decrypt_round_trip_witness :
  exists decrypted parsed,
    SecretKeyPacket.decrypt Reference.P "passphrase"
      (fst (SecretKeyPacket.clearPrivateParams
              (fst (SecretKeyPacket.encrypt Reference.P "passphrase" Reference.config
                      (SecretKeyPacket.set_isEncrypted (Some false)
                         (SecretKeyPacket.set_privateParams
                            (Some [("seed", PBytes (repeat 1 32))]%string)
                            (SecretKeyPacket.constructor
                               {| pk_version := JNum 4;
                                  pk_algorithm := JNum enums.publicKey.ed25519;
                                  pk_publicParams := [] |})))))))
    = (decrypted, Ok None)
    /\ SecretKeyPacket.isEncrypted decrypted = Some false
    /\ SecretKeyPacket.privateParams decrypted = Some parsed
    /\ Contracts.agreeOn
         (fun name => negb (Crypto.excludedFields (JNum enums.publicKey.ed25519) name))
         parsed [("seed", PBytes (repeat 1 32))]%string.
Proof.
  apply (secret_key_encrypt_decrypt_round_trip Reference.P "passphrase" Reference.config
           (SecretKeyPacket.set_isEncrypted (Some false)
              (SecretKeyPacket.set_privateParams
                 (Some [("seed", PBytes (repeat 1 32))]%string)
                 (SecretKeyPacket.constructor
                    {| pk_version := JNum 4;
                       pk_algorithm := JNum enums.publicKey.ed25519;
                       pk_publicParams := [] |})))).
  - exact reference_protection.
  - reflexivity.
  - reflexivity.
  - reflexivity.
  - intros H. discriminate H.
  - exists (repeat 1 32), [("seed", PBytes (repeat 1 32))]%string.
    split; [reflexivity|]. split; [vm_compute; reflexivity|].
    intros name _. reflexivity.
  - vm_compute. reflexivity.
  - vm_compute. reflexivity.
Defined.

(** ** The Symmetrically Encrypted Data packet: [encrypt], then [decrypt] *)

Section SymmetricData.
Import StateExn SymmetricallyEncryptedData.

Variable P : Primitives.
Variable PacketList : Type.
Variable PacketList_write : PacketList -> bytes.
Variable PacketList_fromBinary : bytes -> Config -> result PacketList.
Variable cfb_getPrefixRandom : jsval -> result bytes.

Lemma subarray_block (block rest : bytes) (n : Z) :
  len block = n + 2 -> 0 <= n ->
  Uint8Array.subarray (block ++ rest) 2 (n + 2) = Uint8Array.subarray_from block 2.
Proof.
  intros Hb Hn. pose proof (len_nonneg rest) as Hr.
  rewrite subarray_range by (rewrite ?len_app; lia).
  rewrite subarray_from_nonneg by lia.
  replace (n + 2 - 2) with n by lia.
  change (Z.to_nat 2) with 2%nat. rewrite skipn_app.
  replace (2 - List.length block)%nat with 0%nat by (unfold len in Hb; lia).
  rewrite skipn_O, firstn_app.
  assert (Hl : List.length (skipn 2 block) = Z.to_nat n).
  { rewrite length_skipn. unfold len in Hb. lia. }
  rewrite Hl, Nat.sub_diag. cbn [firstn]. rewrite app_nil_r.
  rewrite <- Hl. apply firstn_all.
Qed.

(** X22.  A Symmetrically Encrypted Data packet decrypts to what was
    encrypted: after [encrypt] with a session key, [decrypt] with the same
    algorithm and key, under a configuration that allows unauthenticated
    messages, parses exactly the bytes that the packet list wrote and
    stores the result in [packets].  This relies on CFB decryption
    inverting CFB encryption and keeping the length, and on the random
    prefix being two bytes longer than a cipher block. *)
Theorem sed_encrypt_decrypt_round_trip (algo : jsval) (key : bytes) (config : Config)
    (this sealed : packet PacketList) (contents parsed : PacketList) :
  CfbSpec P cfb_getPrefixRandom ->
  allowUnauthenticatedMessages config = true ->
  packets this = Some contents ->
  encrypt P PacketList PacketList_write cfb_getPrefixRandom algo key this = (sealed, Ok tt) ->
  PacketList_fromBinary (PacketList_write contents) config = Ok parsed ->
  decrypt P PacketList PacketList_fromBinary algo key config sealed
  = (set_packets (Some parsed) sealed, Ok tt).
Proof.
  intros HC Hallow Hlist Henc Hparse.
  unfold encrypt in Henc.
  cbv beta iota delta [sbind sget sret sthrow slift smodify] in Henc.
  rewrite Hlist in Henc. cbn [SecretKeyPacket.fromOption] in Henc.
  destruct (getCipherParams P algo) as [cipher|e] eqn:Ecipher; [|discriminate Henc].
  destruct (cfb_getPrefixRandom algo) as [prefix|e] eqn:Eprefix; [|discriminate Henc].
  destruct (cfb_encrypt P algo key prefix _) as [FRE|e] eqn:EFRE; [|discriminate Henc].
  destruct (cfb_encrypt P algo key (PacketList_write contents) _) as [ciphertext|e] eqn:Ect;
    [|discriminate Henc].
  injection Henc as <-.
  destruct (prefix_length P cfb_getPrefixRandom HC _ _ _ Ecipher Eprefix) as [Hblock Hprefix].
  pose proof (cfb_length P cfb_getPrefixRandom HC _ _ _ _ _ EFRE) as HFRE.
  rewrite Hprefix in HFRE.
  unfold decrypt. rewrite Hallow.
  cbv beta iota delta [sbind sget sret sthrow slift smodify negb].
  rewrite Ecipher. cbn [encrypted set_encrypted SecretKeyPacket.fromOption].
  unfold util.concatUint8Array. cbn [List.concat]. rewrite app_nil_r.
  rewrite <- HFRE, subarray_from_app, HFRE.
  rewrite (subarray_block _ _ _ HFRE Hblock).
  rewrite (cfb_inverse P cfb_getPrefixRandom HC _ _ _ _ _ Ect), Hparse.
  reflexivity.
Qed.

End SymmetricData.

Lemma reference_cfb :
  SymmetricallyEncryptedData.CfbSpec Reference.P
    (SymmetricallyEncryptedData.getPrefixRandom Reference.P).
Proof.
  split.
  - intros cipher key data iv encrypted H.
    cbn [cfb_encrypt cfb_decrypt Reference.P] in *. now injection H as <-.
  - intros cipher key data iv encrypted H.
    cbn [cfb_encrypt Reference.P] in H. now injection H as <-.
  - intros algo cipher prefix Hc Hp.
    unfold SymmetricallyEncryptedData.getPrefixRandom in Hp. rewrite Hc in Hp.
    cbn [bind] in Hp.
    assert (Hb : blockSize cipher = 16).
    { cbn [getCipherParams Reference.P] in Hc. unfold Reference.cipherParams in Hc.
      repeat match type of Hc with
             | (if ?c then _ else _) = _ => destruct c
             end; try discriminate Hc; now injection Hc as <-. }
    rewrite Hb in *. split; [lia|].
    injection Hp as <-. reflexivity.
Qed.

Lemma sed_encrypt_decrypt_round_trip_witness :
  let this := {| SymmetricallyEncryptedData.encrypted := None;
                 SymmetricallyEncryptedData.packets := Some [203; 3; 98; 0; 0] |} in
  let config := {| SymmetricallyEncryptedData.allowUnauthenticatedMessages := true |} in
  let sealed :=
    fst (SymmetricallyEncryptedData.encrypt Reference.P bytes (fun b => b)
           (SymmetricallyEncryptedData.getPrefixRandom Reference.P)
           (JNum enums.symmetric.aes128) (repeat 1 16) this) in
  SymmetricallyEncryptedData.decrypt Reference.P bytes (fun b _ => Ok b)
    (JNum enums.symmetric.aes128) (repeat 1 16) config sealed
  = (SymmetricallyEncryptedData.set_packets (Some [203; 3; 98; 0; 0]) sealed, Ok tt).
Proof.
  intros this config sealed.
  apply (sed_encrypt_decrypt_round_trip Reference.P bytes (fun b => b) (fun b _ => Ok b)
           (SymmetricallyEncryptedData.getPrefixRandom Reference.P)
           (JNum enums.symmetric.aes128) (repeat 1 16) config this sealed
           [203; 3; 98; 0; 0] [203; 3; 98; 0; 0]).
  - exact reference_cfb.
  - reflexivity.
  - reflexivity.
  - vm_compute. reflexivity.
  - reflexivity.
Defined.

(** ** Writing and reading a PKESK packet *)

Section SessionKeyPacketCodec.
Import StateExn PKESK.
Variable P : Primitives.

Lemma subarray_middle (pre mid post : bytes) :
  Uint8Array.subarray (pre ++ mid ++ post) (len pre) (len pre + len mid) = mid.
Proof.
  pose proof (len_nonneg pre) as Hp. pose proof (len_nonneg mid) as Hm.
  pose proof (len_nonneg post) as Hq.
  rewrite subarray_range by (rewrite ?len_app; lia).
  replace (len pre + len mid - len pre) with (len mid) by lia.
  unfold len. rewrite !Nat2Z.id, skipn_app_exact. apply firstn_app_exact.
Qed.

Lemma subarray_whole (a : bytes) : Uint8Array.subarray a 0 (len a) = a.
Proof.
  pose proof (len_nonneg a) as Hn.
  rewrite subarray_prefix by lia. unfold len. rewrite Nat2Z.id. apply firstn_all.
Qed.

(** What [read] does after the recipient fields. *)
Lemma read_after_recipient (buf pre rest : bytes) (v a : Z) (that mid : packet)
    (enc : params) :
  buf = pre ++ a :: rest ->
  Uint8Array.get buf 0 = JNum v ->
  readRecipient buf that = (mid, Ok (len pre)) ->
  Crypto.parseEncSessionKeyParams P (JNum a) rest = Ok enc ->
  (case_of (JNum a) algosWithV3CleartextSessionKeyAlgorithm = true ->
   exists C, getParam enc "C" = Ok C
     /\ if v =? 3
        then exists s, enums.write enums.symmetric.codes (Crypto.C_algorithm C) = Ok s
        else Crypto.C_algorithm C = JNull) ->
  exists final,
    read P buf that = (final, Ok tt)
    /\ version final = version mid
    /\ publicKeyID final = publicKeyID mid
    /\ publicKeyVersion final = publicKeyVersion mid
    /\ publicKeyFingerprint final = publicKeyFingerprint mid
    /\ publicKeyAlgorithm final = JNum a
    /\ encrypted final = enc.
Proof.
  intros Hbuf Hv Hrec Hparse Htail.
  assert (Hget : Uint8Array.get buf (len pre) = JNum a) by (rewrite Hbuf; apply get_middle).
  assert (Hrest : Uint8Array.subarray_from buf (len pre + 1) = rest).
  { rewrite Hbuf. change (a :: rest) with ([a] ++ rest). rewrite app_assoc.
    replace (len pre + 1) with (len (pre ++ [a])) by (rewrite len_app; reflexivity).
    apply subarray_from_app. }
  unfold read. cbv beta iota delta [sbind sget sret sthrow slift smodify].
  rewrite Hrec, Hget, Hrest, Hparse, Hv. cbv beta iota.
  destruct (case_of (JNum a) algosWithV3CleartextSessionKeyAlgorithm) eqn:Ecase.
  - destruct (Htail eq_refl) as [C [HC Halgo]]. rewrite HC. cbv beta iota.
    cbn [strict_eq]. destruct (v =? 3).
    + destruct Halgo as [s Hs]. rewrite Hs. eexists. split; [reflexivity|].
      now repeat split.
    + rewrite Halgo. cbn [strict_eq negb]. eexists. split; [reflexivity|].
      now repeat split.
  - eexists. split; [reflexivity|]. now repeat split.
Qed.

Lemma recipient_v3 (id rest : bytes) (that : packet) :
  len id = 8 ->
  readRecipient (3 :: id ++ rest) that
  = (set_publicKeyID id (set_version (JNum 3) that), Ok 9).
Proof.
  intros Hid. unfold readRecipient.
  cbv beta iota delta [sbind sget sret sthrow slift smodify].
  rewrite get_cons_0. cbn [strict_eq Z.eqb Pos.eqb negb andb].
  assert (Hsub : Uint8Array.subarray (3 :: id ++ rest) 1 9 = id).
  { change (3 :: id ++ rest) with ([3] ++ id ++ rest).
    change 1 with (len [3]) at 1. replace 9 with (len [3] + len id) by (rewrite Hid; reflexivity).
    apply subarray_middle. }
  rewrite Hsub. unfold KeyID.read. rewrite <- Hid, subarray_whole, Hid. reflexivity.
Qed.

Lemma recipient_v6 (fingerprint rest : bytes) (keyVersion : Z) (that : packet) :
  readRecipient (6 :: (len fingerprint + 1) :: keyVersion :: fingerprint ++ rest) that
  = (set_publicKeyID
       (if js_ge (JNum keyVersion) 5 then fst (KeyID.read fingerprint)
        else fst (KeyID.read (Uint8Array.subarray_from fingerprint (-8))))
       (set_publicKeyFingerprint (Some fingerprint)
          (set_publicKeyVersion (JNum keyVersion) (set_version (JNum 6) that))),
     Ok (3 + len fingerprint)).
Proof.
  pose proof (len_nonneg fingerprint) as Hn. pose proof (len_nonneg rest) as Hr.
  unfold readRecipient.
  cbv beta iota delta [sbind sget sret sthrow slift smodify].
  rewrite get_cons_0. cbn [strict_eq Z.eqb Pos.eqb negb andb].
  set (buf := 6 :: (len fingerprint + 1) :: keyVersion :: fingerprint ++ rest).
  assert (H1 : Uint8Array.get buf 1 = JNum (len fingerprint + 1)).
  { change buf with ([6] ++ (len fingerprint + 1) :: keyVersion :: fingerprint ++ rest).
    change 1 with (len [6]). apply get_middle. }
  assert (H2 : Uint8Array.get buf 2 = JNum keyVersion).
  { change buf with ([6; len fingerprint + 1] ++ keyVersion :: fingerprint ++ rest).
    change 2 with (len [6; len fingerprint + 1]). apply get_middle. }
  rewrite H1, H2. cbn [truthy to_int32].
  destruct (len fingerprint + 1 =? 0) eqn:E0; [lia|]. cbn [negb].
  replace (len fingerprint + 1 - 1) with (len fingerprint) by lia.
  assert (Hsub : Uint8Array.subarray buf 3 (3 + len fingerprint) = fingerprint).
  { change buf with ([6; len fingerprint + 1; keyVersion] ++ fingerprint ++ rest).
    change 3 with (len [6; len fingerprint + 1; keyVersion]). apply subarray_middle. }
  rewrite Hsub. reflexivity.
Qed.

Lemma recipient_anonymous (rest : bytes) (that : packet) :
  readRecipient (6 :: 0 :: rest) that
  = (set_publicKeyID KeyID.wildcard (set_version (JNum 6) that), Ok 2).
Proof.
  pose proof (len_nonneg rest) as Hr.
  unfold readRecipient.
  cbv beta iota delta [sbind sget sret sthrow slift smodify].
  rewrite get_cons_0. cbn [strict_eq Z.eqb Pos.eqb negb andb].
  assert (H1 : Uint8Array.get (6 :: 0 :: rest) 1 = JNum 0).
  { change (6 :: 0 :: rest) with ([6] ++ 0 :: rest). change 1 with (len [6]).
    apply get_middle. }
  rewrite H1. reflexivity.
Qed.

(** X23.  A PKESK packet that is written can be read back: for a
    version 3 or version 6 packet whose encrypted parameters parse back
    from their serialisation, [read] of the bytes [write] gives succeeds
    and recovers the version, the public-key algorithm and the encrypted
    parameters; for version 3 also the 8-byte Key ID, for version 6 the
    fingerprint and key version, or the wildcard Key ID when the packet
    has no fingerprint.  The algorithm and key version must be bytes and
    the fingerprint shorter than 255 bytes, since [write] stores each in
    one octet; for X25519, X448 and ML-KEM the parsed parameters must
    carry the cleartext cipher that the version needs. *)
Theorem pkesk_write_read_round_trip (this that : packet) (v a : Z) (enc : params) :
  version this = JNum v -> v = 3 \/ v = 6 ->
  publicKeyAlgorithm this = JNum a -> 0 <= a < 256 ->
  (v = 3 -> len (publicKeyID this) = 8) ->
  (forall fingerprint, v = 6 -> publicKeyFingerprint this = Some fingerprint ->
     len fingerprint < 255
     /\ exists keyVersion, publicKeyVersion this = JNum keyVersion /\ 0 <= keyVersion < 256) ->
  (exists serialized,
      Crypto.serializeParams P (JNum a) (encrypted this) = Ok serialized
      /\ Crypto.parseEncSessionKeyParams P (JNum a) serialized = Ok enc) ->
  (case_of (JNum a) algosWithV3CleartextSessionKeyAlgorithm = true ->
   exists C, getParam enc "C" = Ok C
     /\ if v =? 3
        then exists s, enums.write enums.symmetric.codes (Crypto.C_algorithm C) = Ok s
        else Crypto.C_algorithm C = JNull) ->
  exists packetBytes final,
    PKESKWriter.write P this = Ok packetBytes
    /\ read P packetBytes that = (final, Ok tt)
    /\ version final = version this
    /\ publicKeyAlgorithm final = publicKeyAlgorithm this
    /\ encrypted final = enc
    /\ (v = 3 -> publicKeyID final = publicKeyID this)
    /\ (v = 6 ->
        match publicKeyFingerprint this with
        | Some fingerprint =>
            publicKeyFingerprint final = Some fingerprint
            /\ publicKeyVersion final = publicKeyVersion this
        | None => publicKeyID final = KeyID.wildcard
        end).
Proof.
  intros Hv Hver Ha Hbyte Hid Hfp (rest & Hser & Hparse) Htail.
  unfold PKESKWriter.write, PKESKWriter.KeyID_write. rewrite Hv, Ha, Hser.
  cbn [bind to_int32 Uint8Array.from map strict_eq].
  match goal with
  | |- exists packetBytes final, Ok ?written = Ok packetBytes /\ _ =>
      enough (exists final,
                 read P written that = (final, Ok tt)
                 /\ version final = JNum v
                 /\ publicKeyAlgorithm final = JNum a
                 /\ encrypted final = enc
                 /\ (v = 3 -> publicKeyID final = publicKeyID this)
                 /\ (v = 6 ->
                     match publicKeyFingerprint this with
                     | Some fingerprint =>
                         publicKeyFingerprint final = Some fingerprint
                         /\ publicKeyVersion final = publicKeyVersion this
                     | None => publicKeyID final = KeyID.wildcard
                     end)) as [final Hfinal]
        by (exists written, final; split; [reflexivity | exact Hfinal])
  end.
  rewrite (Z.mod_small a 256) by lia.
  destruct Hver as [-> | ->]; cbn [Z.eqb Pos.eqb].
  - change (3 mod 256) with 3.
    unfold util.concatUint8Array. cbn [List.concat app]. rewrite app_nil_r.
    destruct (read_after_recipient (3 :: publicKeyID this ++ a :: rest)
                (3 :: publicKeyID this) rest 3 a that
                (set_publicKeyID (publicKeyID this) (set_version (JNum 3) that)) enc)
      as [final (Hread & H1 & H2 & H3 & H4 & H5 & H6)].
    + reflexivity.
    + apply get_cons_0.
    + rewrite len_cons, (Hid eq_refl). apply (recipient_v3 _ _ _ (Hid eq_refl)).
    + exact Hparse.
    + exact Htail.
    + cbn [version publicKeyID publicKeyVersion publicKeyFingerprint set_version
           set_publicKeyID set_publicKeyVersion set_publicKeyFingerprint] in H1, H2, H3, H4.
      exists final. split; [exact Hread|]. rewrite ?H1, ?H2, ?H3, ?H4, ?H5, ?H6.
        repeat split; try reflexivity; intros H;
          first [discriminate H | reflexivity | (split; reflexivity)].
  - change (6 mod 256) with 6.
    destruct (publicKeyFingerprint this) as [fingerprint|] eqn:Efp.
    + destruct (Hfp fingerprint eq_refl eq_refl) as [Hlen [keyVersion [Hkv Hrange]]].
      pose proof (len_nonneg fingerprint) as Hn.
      rewrite Hkv. cbn [to_int32 Uint8Array.from map].
      rewrite (Z.mod_small (len fingerprint + 1) 256) by lia.
      rewrite (Z.mod_small keyVersion 256) by lia.
      unfold util.concatUint8Array. cbn [List.concat app]. rewrite app_nil_r.
      destruct (read_after_recipient
                  (6 :: (len fingerprint + 1) :: keyVersion :: fingerprint ++ a :: rest)
                  (6 :: (len fingerprint + 1) :: keyVersion :: fingerprint) rest 6 a that
                  (set_publicKeyID
                     (if js_ge (JNum keyVersion) 5 then fst (KeyID.read fingerprint)
                      else fst (KeyID.read (Uint8Array.subarray_from fingerprint (-8))))
                     (set_publicKeyFingerprint (Some fingerprint)
                        (set_publicKeyVersion (JNum keyVersion)
                           (set_version (JNum 6) that)))) enc)
        as [final (Hread & H1 & H2 & H3 & H4 & H5 & H6)].
      * rewrite <- !app_comm_cons. reflexivity.
      * apply get_cons_0.
      * rewrite !len_cons. replace (1 + (1 + (1 + len fingerprint))) with (3 + len fingerprint) by lia.
        apply recipient_v6.
      * exact Hparse.
      * exact Htail.
      * cbn [version publicKeyID publicKeyVersion publicKeyFingerprint set_version
             set_publicKeyID set_publicKeyVersion set_publicKeyFingerprint] in H1, H2, H3, H4.
        exists final. split; [exact Hread|]. rewrite ?H1, ?H2, ?H3, ?H4, ?H5, ?H6.
        repeat split; try reflexivity; intros H;
          first [discriminate H | reflexivity | (split; reflexivity)].
    + unfold util.concatUint8Array. cbn [List.concat app]. rewrite app_nil_r.
      destruct (read_after_recipient (6 :: 0 :: a :: rest) [6; 0] rest 6 a that
                  (set_publicKeyID KeyID.wildcard (set_version (JNum 6) that)) enc)
        as [final (Hread & H1 & H2 & H3 & H4 & H5 & H6)].
      * reflexivity.
      * apply get_cons_0.
      * apply recipient_anonymous.
      * exact Hparse.
      * exact Htail.
      * cbn [version publicKeyID publicKeyVersion publicKeyFingerprint set_version
             set_publicKeyID set_publicKeyVersion set_publicKeyFingerprint] in H1, H2, H3, H4.
        exists final. split; [exact Hread|]. rewrite ?H1, ?H2, ?H3, ?H4, ?H5, ?H6.
        repeat split; try reflexivity; intros H;
          first [discriminate H | reflexivity | (split; reflexivity)].
Qed.

End SessionKeyPacketCodec.

Lemma pkesk_write_read_round_trip_witness :
  let this :=
    PKESK.set_encrypted [("ephemeralPublicKey", PBytes (repeat 7 32));
                         ("C", PECDHXSymmetricKey JNull (repeat 9 40))]%string
      (PKESK.set_publicKeyFingerprint (Some (repeat 1 32))
         (PKESK.set_publicKeyVersion (JNum 6)
            (PKESK.set_publicKeyAlgorithm (JNum enums.publicKey.x25519)
               (PKESK.set_version (JNum 6) PKESK.constructor)))) in
  exists packetBytes final,
    PKESKWriter.write Reference.P this = Ok packetBytes
    /\ PKESK.read Reference.P packetBytes PKESK.constructor = (final, Ok tt)
    /\ PKESK.version final = JNum 6
    /\ PKESK.publicKeyAlgorithm final = JNum enums.publicKey.x25519
    /\ PKESK.encrypted final
       = [("ephemeralPublicKey", PBytes (repeat 7 32));
          ("C", PECDHXSymmetricKey JNull (repeat 9 40))]%string
    /\ (6 = 3 -> PKESK.publicKeyID final = [])
    /\ (6 = 6 ->
        PKESK.publicKeyFingerprint final = Some (repeat 1 32)
        /\ PKESK.publicKeyVersion final = JNum 6).
Proof.
  intros this.
  apply (pkesk_write_read_round_trip Reference.P this PKESK.constructor 6
           enums.publicKey.x25519
           [("ephemeralPublicKey", PBytes (repeat 7 32));
            ("C", PECDHXSymmetricKey JNull (repeat 9 40))]%string).
  - reflexivity.
  - right. reflexivity.
  - reflexivity.
  - vm_compute. split; [intros H; discriminate H | reflexivity].
  - intros H. discriminate H.
  - intros fingerprint _ H. injection H as <-. split; [reflexivity|].
    exists 6. split; [reflexivity|]. lia.
  - eexists. split; [reflexivity|]. vm_compute. reflexivity.
  - intros _. eexists. split; [reflexivity|]. reflexivity.
Defined.
